(** * Media-timestamp plugin: the floating player engine and the video locator

    A shallow embedding of [src/floatingPlayer.ts] (the floating mini-player
    state machine) and of [src/index.ts] (the video locator, the slash
    command and the macro renderer), with the properties of the written
    specification proved over it.

    The browser is modelled by what the code touches:
    - the DOM is a store of nodes addressed by index; every node carries its
      [parentNode] and [childNodes] links, the attributes and the inline
      style properties the code reads or writes;
    - module-level [let] variables of [floatingPlayer.ts] are the fields of
      [State]; every function of the module is a function on [State];
    - pixel quantities (pointer coordinates, viewport and element sizes) are
      integers; a CSS length written by a template literal such as
      [`${n}px`] is the value [CssPx n];
    - the host editor's asynchronous block API is an oracle indexed by the
      number of calls made so far, so that two lookups of the same block may
      answer differently; an [await] is atomic (no engine event is
      interleaved inside one run of the locator). *)

From Stdlib Require Import ZArith String Ascii List Lia Bool.
From Stdlib Require Import Decimal DecimalString.
From Stdlib Require DecimalPos.
From stdpp Require Import base tactics option list strings.

Local Open Scope Z_scope.
Local Open Scope string_scope.
Local Open Scope list_scope.
Local Open Scope stdpp_scope.

(** ** Inline styles *)

(** The value of a CSS length property of an inline style: [''], ['auto'],
    [`${n}px`], [`${n}%`] or any other text. *)
Inductive CssValue :=
| CssUnset
| CssAuto
| CssPx (n : Z)
| CssPercent (n : Z)
| CssText (s : string).

Module Style.
Record t := mk {
  display : string;
  width : CssValue;
  height : CssValue;
  left : CssValue;
  top : CssValue;
  right : CssValue;
  bottom : CssValue;
  background : string;
  borderRadius : string;
  alignItems : string;
  justifyContent : string
}.

Definition empty : t :=
  mk "" CssUnset CssUnset CssUnset CssUnset CssUnset CssUnset "" "" "" "".

Definition set_display (v : string) (s : t) : t :=
  mk v (width s) (height s) (left s) (top s) (right s) (bottom s)
     (background s) (borderRadius s) (alignItems s) (justifyContent s).
Definition set_width (v : CssValue) (s : t) : t :=
  mk (display s) v (height s) (left s) (top s) (right s) (bottom s)
     (background s) (borderRadius s) (alignItems s) (justifyContent s).
Definition set_height (v : CssValue) (s : t) : t :=
  mk (display s) (width s) v (left s) (top s) (right s) (bottom s)
     (background s) (borderRadius s) (alignItems s) (justifyContent s).
Definition set_left (v : CssValue) (s : t) : t :=
  mk (display s) (width s) (height s) v (top s) (right s) (bottom s)
     (background s) (borderRadius s) (alignItems s) (justifyContent s).
Definition set_top (v : CssValue) (s : t) : t :=
  mk (display s) (width s) (height s) (left s) v (right s) (bottom s)
     (background s) (borderRadius s) (alignItems s) (justifyContent s).
Definition set_right (v : CssValue) (s : t) : t :=
  mk (display s) (width s) (height s) (left s) (top s) v (bottom s)
     (background s) (borderRadius s) (alignItems s) (justifyContent s).
Definition set_bottom (v : CssValue) (s : t) : t :=
  mk (display s) (width s) (height s) (left s) (top s) (right s) v
     (background s) (borderRadius s) (alignItems s) (justifyContent s).
Definition set_background (v : string) (s : t) : t :=
  mk (display s) (width s) (height s) (left s) (top s) (right s) (bottom s)
     v (borderRadius s) (alignItems s) (justifyContent s).
Definition set_borderRadius (v : string) (s : t) : t :=
  mk (display s) (width s) (height s) (left s) (top s) (right s) (bottom s)
     (background s) v (alignItems s) (justifyContent s).
Definition set_alignItems (v : string) (s : t) : t :=
  mk (display s) (width s) (height s) (left s) (top s) (right s) (bottom s)
     (background s) (borderRadius s) v (justifyContent s).
Definition set_justifyContent (v : string) (s : t) : t :=
  mk (display s) (width s) (height s) (left s) (top s) (right s) (bottom s)
     (background s) (borderRadius s) (alignItems s) v.
End Style.

(** ** Numbers that hold a playback time

    [currentTime] is a finite decimal: whole seconds and the digits after the
    decimal point (none for an integer, no trailing zero). *)
Record JsNumber := mkNumber {
  whole : Z;
  fraction : Decimal.uint
}.

Definition number_of_Z (n : Z) : JsNumber := mkNumber n Decimal.Nil.

(** ** DOM nodes *)

Abbreviation NodeId := nat (only parsing).

(** The closures that [createFloatingContainer] registers on its elements. *)
Inductive Handler :=
| CloseClick    (* the click listener of the close button *)
| StartDrag.    (* the mousedown listener of the drag handle *)

Global Instance Handler_eq_dec : EqDecision Handler.
Proof. solve_decision. Defined.

Record Node := mkNode {
  tagName : string;
  elementId : string;                 (* the [id] attribute *)
  blockid : option string;            (* the [blockid] attribute *)
  className : string;
  title : string;
  innerHTML : string;
  parentNode : option NodeId;
  childNodes : list NodeId;
  style : Style.t;
  offsetWidth : Z;
  offsetHeight : Z;
  rectLeft : Z;                       (* getBoundingClientRect().left *)
  rectTop : Z;                        (* getBoundingClientRect().top *)
  _originalStyles : option (CssValue * CssValue);
  paused : bool;
  currentTime : JsNumber;
  listeners : list (string * Handler)
}.

Definition set_className (v : string) (x : Node) : Node :=
  mkNode (tagName x) (elementId x) (blockid x) v (title x) (innerHTML x)
    (parentNode x) (childNodes x) (style x) (offsetWidth x) (offsetHeight x) (rectLeft x) (rectTop x)
    (_originalStyles x) (paused x) (currentTime x) (listeners x).
Definition set_title (v : string) (x : Node) : Node :=
  mkNode (tagName x) (elementId x) (blockid x) (className x) v (innerHTML x)
    (parentNode x) (childNodes x) (style x) (offsetWidth x) (offsetHeight x) (rectLeft x) (rectTop x)
    (_originalStyles x) (paused x) (currentTime x) (listeners x).
Definition set_innerHTML (v : string) (x : Node) : Node :=
  mkNode (tagName x) (elementId x) (blockid x) (className x) (title x) v
    (parentNode x) (childNodes x) (style x) (offsetWidth x) (offsetHeight x) (rectLeft x) (rectTop x)
    (_originalStyles x) (paused x) (currentTime x) (listeners x).
Definition set_parentNode (v : option NodeId) (x : Node) : Node :=
  mkNode (tagName x) (elementId x) (blockid x) (className x) (title x)
    (innerHTML x) v (childNodes x) (style x) (offsetWidth x) (offsetHeight x) (rectLeft x) (rectTop x)
    (_originalStyles x) (paused x) (currentTime x) (listeners x).
Definition set_childNodes (v : list NodeId) (x : Node) : Node :=
  mkNode (tagName x) (elementId x) (blockid x) (className x) (title x)
    (innerHTML x) (parentNode x) v (style x) (offsetWidth x) (offsetHeight x) (rectLeft x) (rectTop x)
    (_originalStyles x) (paused x) (currentTime x) (listeners x).
Definition set_style (v : Style.t) (x : Node) : Node :=
  mkNode (tagName x) (elementId x) (blockid x) (className x) (title x)
    (innerHTML x) (parentNode x) (childNodes x) v (offsetWidth x)
    (offsetHeight x) (rectLeft x) (rectTop x) (_originalStyles x) (paused x) (currentTime x)
    (listeners x).
Definition set_layout (w h l t : Z) (x : Node) : Node :=
  mkNode (tagName x) (elementId x) (blockid x) (className x) (title x)
    (innerHTML x) (parentNode x) (childNodes x) (style x) w h l t
    (_originalStyles x) (paused x) (currentTime x) (listeners x).
Definition set_originalStyles (v : option (CssValue * CssValue)) (x : Node)
  : Node :=
  mkNode (tagName x) (elementId x) (blockid x) (className x) (title x)
    (innerHTML x) (parentNode x) (childNodes x) (style x) (offsetWidth x)
    (offsetHeight x) (rectLeft x) (rectTop x) v (paused x) (currentTime x) (listeners x).
Definition set_paused (v : bool) (x : Node) : Node :=
  mkNode (tagName x) (elementId x) (blockid x) (className x) (title x)
    (innerHTML x) (parentNode x) (childNodes x) (style x) (offsetWidth x)
    (offsetHeight x) (rectLeft x) (rectTop x) (_originalStyles x) v (currentTime x) (listeners x).
Definition set_currentTime (v : JsNumber) (x : Node) : Node :=
  mkNode (tagName x) (elementId x) (blockid x) (className x) (title x)
    (innerHTML x) (parentNode x) (childNodes x) (style x) (offsetWidth x)
    (offsetHeight x) (rectLeft x) (rectTop x) (_originalStyles x) (paused x) v (listeners x).
Definition add_listener (ev : string) (h : Handler) (x : Node) : Node :=
  mkNode (tagName x) (elementId x) (blockid x) (className x) (title x)
    (innerHTML x) (parentNode x) (childNodes x) (style x) (offsetWidth x)
    (offsetHeight x) (rectLeft x) (rectTop x) (_originalStyles x) (paused x) (currentTime x)
    ((ev, h) :: listeners x).

(** The node that [document.createElement(tag)] returns: detached, childless,
    no attribute, empty inline style. [tagName] is upper case, as in an HTML
    document. *)
Definition blankNode (tag : string) : Node :=
  mkNode tag "" None "" "" "" None [] Style.empty 0 0 0 0 None true
    (number_of_Z 0) [].

(** ** The DOM store and its primitives *)

Abbreviation DOM := (list Node) (only parsing).

Definition parentOf (d : DOM) (n : NodeId) : option NodeId :=
  d !! n ≫= parentNode.

Definition childrenOf (d : DOM) (n : NodeId) : list NodeId :=
  from_option childNodes [] (d !! n).

(** [el.style.prop = v] and other writes to one node. *)
Definition update (n : NodeId) (f : Node → Node) (d : DOM) : DOM :=
  alter f n d.

Definition update_style (n : NodeId) (f : Style.t → Style.t) (d : DOM) : DOM :=
  update n (fun x => set_style (f (style x)) x) d.

Definition styleOf (d : DOM) (n : NodeId) : Style.t :=
  from_option style Style.empty (d !! n).

Definition tagOf (d : DOM) (n : NodeId) : option string :=
  tagName <$> d !! n.

(** The element that follows [n] in [l] ([nextSibling] within a child list). *)
Fixpoint after (n : NodeId) (l : list NodeId) : option NodeId :=
  match l with
  | [] => None
  | x :: l' => if decide (x = n) then head l' else after n l'
  end.

Definition nextSiblingOf (d : DOM) (n : NodeId) : option NodeId :=
  p ← parentOf d n; after n (childrenOf d p).

(** [l] with [n] put immediately before the first occurrence of [r]. The DOM
    raises NotFoundError when [r] is not in the list; every call of the
    engine is guarded so that [r] is there, and the model appends then. *)
Fixpoint insert_before (n r : NodeId) (l : list NodeId) : list NodeId :=
  match l with
  | [] => [n]
  | x :: l' => if decide (x = r) then n :: x :: l' else x :: insert_before n r l'
  end.

(** Removal of [n] from its parent, the first step of every insertion of a
    node that is already in a tree, and the whole of [n.remove()]. *)
Definition detach (n : NodeId) (d : DOM) : DOM :=
  match parentOf d n with
  | Some p =>
      update n (set_parentNode None)
        (update p (fun x => set_childNodes (filter (λ m, m ≠ n) (childNodes x)) x) d)
  | None => d
  end.

(** The insertion of [n] under [p], common to [appendChild] and
    [insertBefore]: [n] leaves its parent, the child list of [p] becomes
    [place] of itself, and [p] becomes the parent of [n]. *)
Definition attach (p n : NodeId) (place : list NodeId → list NodeId) (d : DOM)
  : DOM :=
  let d1 := detach n d in
  update n (set_parentNode (Some p))
    (update p (fun x => set_childNodes (place (childNodes x)) x) d1).

(** [p.appendChild(n)] *)
Definition appendChild (p n : NodeId) (d : DOM) : DOM :=
  attach p n (λ l, l ++ [n]) d.

(** [p.insertBefore(n, r)] *)
Definition insertBefore (p n r : NodeId) (d : DOM) : DOM :=
  attach p n (insert_before n r) d.

(** [p.removeChild(c)]; the DOM raises NotFoundError when [c] is not a child
    of [p], the model leaves the store as it is. *)
Definition removeChild (p c : NodeId) (d : DOM) : DOM :=
  if decide (parentOf d c = Some p) then detach c d else d.

(** [doc.createElement(tag)]: the new node and the store that holds it. *)
Definition createElement (tag : string) (d : DOM) : NodeId * DOM :=
  (length d, d ++ [blankNode tag]).

(** Document order. [subtree k d n] lists [n] and its descendants in
    pre-order, down to depth [k]; with [k] the size of the store no node of a
    tree is missed. *)
Fixpoint subtree (k : nat) (d : DOM) (n : NodeId) : list NodeId :=
  match k with
  | O => []
  | S k' => n :: flat_map (subtree k' d) (childrenOf d n)
  end.

Definition descendants (d : DOM) (n : NodeId) : list NodeId :=
  flat_map (subtree (length d) d) (childrenOf d n).

Definition matches (d : DOM) (sel : Node → bool) (n : NodeId) : bool :=
  from_option sel false (d !! n).

(** [root.querySelector(sel)]: the first descendant of [root], in document
    order, that matches. *)
Definition querySelector (d : DOM) (root : NodeId) (sel : Node → bool)
  : option NodeId :=
  find (matches d sel) (descendants d root).

(** [root.querySelectorAll(sel)] *)
Definition querySelectorAll (d : DOM) (root : NodeId) (sel : Node → bool)
  : list NodeId :=
  List.filter (matches d sel) (descendants d root).

(** Selectors used by the plugin. A class selector matches when the class
    is one of the space-separated tokens of [className]. *)
Fixpoint tokens_aux (cur : string) (s : string) : list string :=
  match s with
  | EmptyString => if decide (cur = "") then [] else [cur]
  | String c s' =>
      if decide (c = " "%char)
      then (if decide (cur = "") then [] else [cur]) ++ tokens_aux "" s'
      else tokens_aux (cur +:+ String c EmptyString) s'
  end.

Definition classTokens (x : Node) : list string := tokens_aux "" (className x).

Definition sel_tag (tag : string) (x : Node) : bool :=
  bool_decide (tagName x = tag).
Definition sel_class (cls : string) (x : Node) : bool :=
  bool_decide (cls ∈ classTokens x).
Definition sel_id (i : string) (x : Node) : bool :=
  bool_decide (elementId x = i).
Definition sel_div_blockid (b : string) (x : Node) : bool :=
  bool_decide (tagName x = "DIV") && bool_decide (blockid x = Some b).

(** ** The floating player engine ([floatingPlayer.ts]) *)

Inductive PlayerSize := small | medium | large | xlarge | xxlarge | xxxlarge.

Record FloatingPlayerSettings := mkSettings {
  enabled : bool;
  size : PlayerSize
}.

Module Position.
Record t := mk { x : Z; y : Z }.
End Position.

Module Box.
Record t := mk { width : Z; height : Z }.
End Box.

Module VideoState.
Record t := mk {
  video : NodeId;
  originalParent : NodeId;
  originalNextSibling : option NodeId;
  placeholder : NodeId
}.
End VideoState.

Definition SIZE_MAP (sz : PlayerSize) : Box.t :=
  match sz with
  | small => Box.mk 240 135
  | medium => Box.mk 320 180
  | large => Box.mk 400 225
  | xlarge => Box.mk 480 270
  | xxlarge => Box.mk 640 360
  | xxxlarge => Box.mk 800 450
  end.

(** Listeners that the engine adds to the top document. *)
Inductive DocListener :=
| OnPlay         (* 'play', capturing: handleVideoPlay *)
| OnMouseMove    (* 'mousemove': onDrag *)
| OnMouseUp.     (* 'mouseup': stopDrag *)

Global Instance DocListener_eq_dec : EqDecision DocListener.
Proof. solve_decision. Defined.

Global Instance VideoState_eq_dec : EqDecision VideoState.t.
Proof. solve_decision. Defined.

(** The module state, followed by the part of the browser it acts on: the
    DOM, [document.body], the listeners on the document and the viewport of
    the top window. An [IntersectionObserver] is the list of its targets. *)
Record State := mkState {
  recentlyPlayedVideo : option NodeId;
  floatingContainer : option NodeId;
  observer : option (list NodeId);
  isManuallyHidden : bool;
  isDragging : bool;
  dragOffset : Position.t;
  currentSettings : FloatingPlayerSettings;
  videoState : option VideoState.t;
  isFloating : bool;
  dragDoc : bool;                     (* [dragDoc] is the top document or null *)
  dom : DOM;
  body : NodeId;
  docListeners : list DocListener;
  innerWidth : Z;
  innerHeight : Z
}.

Definition set_recentlyPlayedVideo (v : option NodeId) (s : State) : State :=
  mkState v (floatingContainer s) (observer s) (isManuallyHidden s)
    (isDragging s) (dragOffset s) (currentSettings s) (videoState s)
    (isFloating s) (dragDoc s) (dom s) (body s) (docListeners s)
    (innerWidth s) (innerHeight s).
Definition set_floatingContainer (v : option NodeId) (s : State) : State :=
  mkState (recentlyPlayedVideo s) v (observer s) (isManuallyHidden s)
    (isDragging s) (dragOffset s) (currentSettings s) (videoState s)
    (isFloating s) (dragDoc s) (dom s) (body s) (docListeners s)
    (innerWidth s) (innerHeight s).
Definition set_observer (v : option (list NodeId)) (s : State) : State :=
  mkState (recentlyPlayedVideo s) (floatingContainer s) v (isManuallyHidden s)
    (isDragging s) (dragOffset s) (currentSettings s) (videoState s)
    (isFloating s) (dragDoc s) (dom s) (body s) (docListeners s)
    (innerWidth s) (innerHeight s).
Definition set_isManuallyHidden (v : bool) (s : State) : State :=
  mkState (recentlyPlayedVideo s) (floatingContainer s) (observer s) v
    (isDragging s) (dragOffset s) (currentSettings s) (videoState s)
    (isFloating s) (dragDoc s) (dom s) (body s) (docListeners s)
    (innerWidth s) (innerHeight s).
Definition set_isDragging (v : bool) (s : State) : State :=
  mkState (recentlyPlayedVideo s) (floatingContainer s) (observer s)
    (isManuallyHidden s) v (dragOffset s) (currentSettings s) (videoState s)
    (isFloating s) (dragDoc s) (dom s) (body s) (docListeners s)
    (innerWidth s) (innerHeight s).
Definition set_dragOffset (v : Position.t) (s : State) : State :=
  mkState (recentlyPlayedVideo s) (floatingContainer s) (observer s)
    (isManuallyHidden s) (isDragging s) v (currentSettings s) (videoState s)
    (isFloating s) (dragDoc s) (dom s) (body s) (docListeners s)
    (innerWidth s) (innerHeight s).
Definition set_currentSettings (v : FloatingPlayerSettings) (s : State)
  : State :=
  mkState (recentlyPlayedVideo s) (floatingContainer s) (observer s)
    (isManuallyHidden s) (isDragging s) (dragOffset s) v (videoState s)
    (isFloating s) (dragDoc s) (dom s) (body s) (docListeners s)
    (innerWidth s) (innerHeight s).
Definition set_videoState (v : option VideoState.t) (s : State) : State :=
  mkState (recentlyPlayedVideo s) (floatingContainer s) (observer s)
    (isManuallyHidden s) (isDragging s) (dragOffset s) (currentSettings s) v
    (isFloating s) (dragDoc s) (dom s) (body s) (docListeners s)
    (innerWidth s) (innerHeight s).
Definition set_isFloating (v : bool) (s : State) : State :=
  mkState (recentlyPlayedVideo s) (floatingContainer s) (observer s)
    (isManuallyHidden s) (isDragging s) (dragOffset s) (currentSettings s)
    (videoState s) v (dragDoc s) (dom s) (body s) (docListeners s)
    (innerWidth s) (innerHeight s).
Definition set_dragDoc (v : bool) (s : State) : State :=
  mkState (recentlyPlayedVideo s) (floatingContainer s) (observer s)
    (isManuallyHidden s) (isDragging s) (dragOffset s) (currentSettings s)
    (videoState s) (isFloating s) v (dom s) (body s) (docListeners s)
    (innerWidth s) (innerHeight s).
Definition set_dom (v : DOM) (s : State) : State :=
  mkState (recentlyPlayedVideo s) (floatingContainer s) (observer s)
    (isManuallyHidden s) (isDragging s) (dragOffset s) (currentSettings s)
    (videoState s) (isFloating s) (dragDoc s) v (body s) (docListeners s)
    (innerWidth s) (innerHeight s).
Definition set_docListeners (v : list DocListener) (s : State) : State :=
  mkState (recentlyPlayedVideo s) (floatingContainer s) (observer s)
    (isManuallyHidden s) (isDragging s) (dragOffset s) (currentSettings s)
    (videoState s) (isFloating s) (dragDoc s) (dom s) (body s) v
    (innerWidth s) (innerHeight s).
Definition set_viewport (w h : Z) (s : State) : State :=
  mkState (recentlyPlayedVideo s) (floatingContainer s) (observer s)
    (isManuallyHidden s) (isDragging s) (dragOffset s) (currentSettings s)
    (videoState s) (isFloating s) (dragDoc s) (dom s) (body s)
    (docListeners s) w h.

(** [with_dom f s] runs a DOM write. *)
Definition with_dom (f : DOM → DOM) (s : State) : State :=
  set_dom (f (dom s)) s.

(** [doc.addEventListener]: a listener already there is not added twice. *)
Definition addEventListener (l : DocListener) (s : State) : State :=
  if decide (l ∈ docListeners s) then s
  else set_docListeners (l :: docListeners s) s.

Definition removeEventListener (l : DocListener) (s : State) : State :=
  set_docListeners (filter (λ l', l' ≠ l) (docListeners s)) s.

(** [observer.disconnect(); observer.observe(t)] on the observer, if any. *)
Definition reobserve (t : NodeId) (s : State) : State :=
  match observer s with
  | Some _ => set_observer (Some [t]) s
  | None => s
  end.

Record MouseEvent := mkMouseEvent {
  clientX : Z;
  clientY : Z
}.

Record IntersectionObserverEntry := mkEntry {
  target : NodeId;
  isIntersecting : bool
}.

Definition placeholderClass : string := "mediatimestamp-video-placeholder".

(** The double-quote character, for the markup the plugin writes. *)
Definition dquote : string := String "034"%char EmptyString.

(** [createFloatingContainer(doc)] *)
Definition createFloatingContainer (d : DOM) : NodeId * DOM :=
  let '(container, d) := createElement "DIV" d in
  let d := update container (set_className "mediatimestamp-floating-player") d in
  let d := update_style container (Style.set_display "none") d in
  let '(dragHandle, d) := createElement "DIV" d in
  let d := update dragHandle (set_className "drag-handle") d in
  let d := appendChild container dragHandle d in
  let '(closeBtn, d) := createElement "BUTTON" d in
  let d := update closeBtn (set_className "close-btn") d in
  let d := update closeBtn (set_innerHTML "✕") d in
  let d := update closeBtn (set_title "Close floating player") d in
  let d := update closeBtn (add_listener "click" CloseClick) d in
  let d := appendChild container closeBtn d in
  let d := update dragHandle (add_listener "mousedown" StartDrag) d in
  (container, d).

(** [startDrag(e)] *)
Definition startDrag (e : MouseEvent) (s : State) : State :=
  match floatingContainer s with
  | None => s
  | Some c =>
      let s := set_isDragging true s in
      let s := set_dragDoc true s in
      let rectL := from_option rectLeft 0 (dom s !! c) in
      let rectT := from_option rectTop 0 (dom s !! c) in
      let s := set_dragOffset
                 (Position.mk (clientX e - rectL) (clientY e - rectT)) s in
      let s := addEventListener OnMouseMove s in
      addEventListener OnMouseUp s
  end.

(** [onDrag(e)] *)
Definition onDrag (e : MouseEvent) (s : State) : State :=
  match floatingContainer s with
  | Some c =>
      if negb (isDragging s) then s else
      let size := SIZE_MAP (size (currentSettings s)) in
      let viewportWidth := innerWidth s in
      let viewportHeight := innerHeight s in
      let newX := clientX e - Position.x (dragOffset s) in
      let newY := clientY e - Position.y (dragOffset s) in
      let newX := Z.max 10 (Z.min newX (viewportWidth - Box.width size - 10)) in
      let newY := Z.max 10 (Z.min newY (viewportHeight - Box.height size - 10)) in
      let s := with_dom (update_style c (Style.set_right CssAuto)) s in
      let s := with_dom (update_style c (Style.set_bottom CssAuto)) s in
      let s := with_dom (update_style c (Style.set_left (CssPx newX))) s in
      with_dom (update_style c (Style.set_top (CssPx newY))) s
  | None => s
  end.

(** [stopDrag(e)] *)
Definition stopDrag (s : State) : State :=
  let s := set_isDragging false s in
  if dragDoc s then
    let s := removeEventListener OnMouseMove s in
    let s := removeEventListener OnMouseUp s in
    set_dragDoc false s
  else s.

(** The blocks of [showFloatingPlayer], as writes to the DOM. *)

(** "Create placeholder to maintain layout": the placeholder [ph] takes the
    rendered size of the video. *)
Definition stylePlaceholder (ph video : NodeId) (d : DOM) : DOM :=
  let w := from_option offsetWidth 0 (d !! video) in
  let h := from_option offsetHeight 0 (d !! video) in
  let d := update ph (set_className placeholderClass) d in
  let d := update_style ph (Style.set_width (CssPx w)) d in
  let d := update_style ph (Style.set_height (CssPx h)) d in
  let d := update_style ph (Style.set_background "rgba(0,0,0,0.1)") d in
  let d := update_style ph (Style.set_borderRadius "8px") d in
  let d := update_style ph (Style.set_display "flex") d in
  let d := update_style ph (Style.set_alignItems "center") d in
  let d := update_style ph (Style.set_justifyContent "center") d in
  update ph (set_innerHTML
               ("<span style=" +:+ dquote +:+ "color: #666; font-size: 14px;"
                +:+ dquote +:+ ">📺 Video in mini player</span>")) d.

(** "Store original video styles" *)
Definition storeOriginalStyles (video : NodeId) (d : DOM) : DOM :=
  let originalWidth := Style.width (styleOf d video) in
  let originalHeight := Style.height (styleOf d video) in
  update video (set_originalStyles (Some (originalWidth, originalHeight))) d.

(** "Move video to floating container" *)
Definition moveToContainer (container video : NodeId) (size : Box.t) (d : DOM)
  : DOM :=
  let d := update_style container (Style.set_width (CssPx (Box.width size))) d in
  let d := update_style container (Style.set_height (CssPx (Box.height size))) d in
  let d := update_style video (Style.set_width (CssPercent 100)) d in
  let d := update_style video (Style.set_height (CssPercent 100)) d in
  let d := appendChild container video d in
  update_style container (Style.set_display "block") d.

(** [showFloatingPlayer()] *)
Definition showFloatingPlayer (s : State) : State :=
  match recentlyPlayedVideo s, floatingContainer s with
  | Some video, Some container =>
      if negb (enabled (currentSettings s)) || isManuallyHidden s || isFloating s
      then s else
      match parentOf (dom s) video with
      | None => s
      | Some parent =>
          (* Store the original position *)
          let '(ph, d) := createElement "DIV" (dom s) in
          let vs := VideoState.mk video parent (nextSiblingOf (dom s) video) ph in
          let s := set_videoState (Some vs) (set_dom d s) in
          (* Create placeholder to maintain layout *)
          let s := with_dom (stylePlaceholder ph video) s in
          (* Insert placeholder where video was *)
          let s := with_dom (insertBefore parent ph video) s in
          (* Store original video styles *)
          let s := with_dom (storeOriginalStyles video) s in
          (* Move video to floating container *)
          let size := SIZE_MAP (size (currentSettings s)) in
          let s := with_dom (moveToContainer container video size) s in
          set_isFloating true s
      end
  | _, _ => s
  end.

(** The blocks of [hideFloatingPlayer], as writes to the DOM. *)

(** "Restore original styles" *)
Definition restoreStyles (video : NodeId) (d : DOM) : DOM :=
  match d !! video ≫= _originalStyles with
  | Some (w, h) =>
      let d := update_style video (Style.set_width w) d in
      let d := update_style video (Style.set_height h) d in
      update video (set_originalStyles None) d
  | None => d
  end.

(** "Move video back to original position" *)
Definition moveBack (vs : VideoState.t) (d : DOM) : DOM :=
  let video := VideoState.video vs in
  let originalParent := VideoState.originalParent vs in
  match VideoState.originalNextSibling vs with
  | Some sibling =>
      if decide (parentOf d sibling = Some originalParent)
      then insertBefore originalParent video sibling d
      else appendChild originalParent video d
  | None => appendChild originalParent video d
  end.

(** "Remove placeholder" *)
Definition removePlaceholder (placeholder : NodeId) (d : DOM) : DOM :=
  match parentOf d placeholder with
  | Some pp => removeChild pp placeholder d
  | None => d
  end.

(** "Hide container and reset position" *)
Definition resetContainer (container : NodeId) (d : DOM) : DOM :=
  let d := update_style container (Style.set_display "none") d in
  let d := update_style container (Style.set_left CssUnset) d in
  let d := update_style container (Style.set_top CssUnset) d in
  let d := update_style container (Style.set_right (CssPx 20)) d in
  update_style container (Style.set_bottom (CssPx 20)) d.

(** [hideFloatingPlayer()] *)
Definition hideFloatingPlayer (s : State) : State :=
  match floatingContainer s, videoState s with
  | Some container, Some vs =>
      if negb (isFloating s) then s else
      (* Restore original styles *)
      let s := with_dom (restoreStyles (VideoState.video vs)) s in
      (* Move video back to original position *)
      let s := with_dom (moveBack vs) s in
      (* Remove placeholder *)
      let s := with_dom (removePlaceholder (VideoState.placeholder vs)) s in
      (* Hide container and reset position *)
      let s := with_dom (resetContainer container) s in
      let s := set_videoState None s in
      set_isFloating false s
  | _, _ => s
  end.

(** [handleVideoPlay(e)], with [e.target] the node [target]. *)
Definition handleVideoPlay (target : NodeId) (s : State) : State :=
  if decide (tagOf (dom s) target = Some "VIDEO") then
    let video := target in
    (* If switching to a different video, reset manual hide state *)
    let s :=
      if decide (recentlyPlayedVideo s ≠ Some video) then
        let s := set_isManuallyHidden false s in
        (* If previous video was floating, return it first *)
        match videoState s with
        | Some vs =>
            if isFloating s && bool_decide (VideoState.video vs ≠ video)
            then hideFloatingPlayer s else s
        | None => s
        end
      else s in
    let s := set_recentlyPlayedVideo (Some video) s in
    (* Update observer to watch this video (or its placeholder when floating) *)
    let targetToObserve :=
      match videoState s with
      | Some vs => if isFloating s then VideoState.placeholder vs else video
      | None => video
      end in
    reobserve targetToObserve s
  else s.

(** One entry of [handleIntersection(entries)]. *)
Definition handleIntersectionEntry (s : State) (entry : IntersectionObserverEntry)
  : State :=
  let isTargetValid :=
    if isFloating s
    then bool_decide (Some (target entry) = VideoState.placeholder <$> videoState s)
    else bool_decide (Some (target entry) = recentlyPlayedVideo s) in
  if isTargetValid then
    if negb (isIntersecting entry) && negb (isFloating s) then
      (* Video/placeholder scrolled out of view - show floating player *)
      let s := showFloatingPlayer s in
      (* Re-observe the placeholder now *)
      match videoState s with
      | Some vs => reobserve (VideoState.placeholder vs) s
      | None => s
      end
    else if isIntersecting entry && isFloating s then
      (* Placeholder back in view - hide floating player *)
      let s := hideFloatingPlayer s in
      let s := set_isManuallyHidden false s in
      (* Re-observe the video now *)
      match recentlyPlayedVideo s with
      | Some v => reobserve v s
      | None => s
      end
    else s
  else s.

(** [handleIntersection(entries)]: [entries.forEach] *)
Definition handleIntersection (entries : list IntersectionObserverEntry)
  (s : State) : State :=
  fold_left handleIntersectionEntry entries s.

(** [initFloatingPlayer(settings)] *)
Definition initFloatingPlayer (settings : FloatingPlayerSettings) (s : State)
  : State :=
  let s := set_currentSettings settings s in
  if negb (enabled settings) then s else
  (* Create floating container if not exists *)
  let s :=
    match floatingContainer s with
    | Some _ => s
    | None =>
        let '(c, d) := createFloatingContainer (dom s) in
        let s := set_floatingContainer (Some c) (set_dom d s) in
        with_dom (appendChild (body s) c) s
    end in
  (* Create IntersectionObserver *)
  let s := set_observer (Some []) s in
  (* Listen for video play events *)
  let s := addEventListener OnPlay s in
  (* Also observe any existing videos *)
  let existingVideos := querySelectorAll (dom s) (body s) (sel_tag "VIDEO") in
  fold_left
    (fun s video =>
       (* If a video is already playing, track it *)
       if negb (from_option paused true (dom s !! video)) then
         let s := set_recentlyPlayedVideo (Some video) s in
         set_observer ((fun ts => ts ++ [video]) <$> observer s) s
       else s)
    existingVideos s.

(** [updateFloatingPlayerSettings(settings)] *)
Definition updateFloatingPlayerSettings (settings : FloatingPlayerSettings)
  (s : State) : State :=
  let s := set_currentSettings settings s in
  let s :=
    match floatingContainer s with
    | Some _ => if negb (enabled settings) then hideFloatingPlayer s else s
    | None => s
    end in
  (* Update size if container exists and is visible *)
  match floatingContainer s with
  | Some c =>
      if decide (Style.display (styleOf (dom s) c) ≠ "none") then
        let size := SIZE_MAP (size settings) in
        let s := with_dom (update_style c (Style.set_width (CssPx (Box.width size)))) s in
        with_dom (update_style c (Style.set_height (CssPx (Box.height size)))) s
      else s
  | None => s
  end.

(** [destroyFloatingPlayer()] *)
Definition destroyFloatingPlayer (s : State) : State :=
  (* Return video to original position if floating *)
  let s := hideFloatingPlayer s in
  (* Remove event listeners *)
  let s := removeEventListener OnPlay s in
  (* Disconnect observer *)
  let s := set_observer None s in
  (* Remove floating container *)
  let s :=
    match floatingContainer s with
    | Some c => set_floatingContainer None (with_dom (detach c) s)
    | None => s
    end in
  let s := set_recentlyPlayedVideo None s in
  let s := set_isManuallyHidden false s in
  let s := set_isFloating false s in
  set_videoState None s.

(** [getFloatingVideo()] *)
Definition getFloatingVideo (s : State) : option NodeId :=
  match videoState s with
  | Some vs => if isFloating s then Some (VideoState.video vs) else None
  | None => None
  end.

(** [returnFloatingVideo(pauseVideo)] *)
Definition returnFloatingVideo (pauseVideo : bool) (s : State) : State :=
  match videoState s with
  | Some vs =>
      if isFloating s then
        let s := if pauseVideo
                 then with_dom (update (VideoState.video vs) (set_paused true)) s
                 else s in
        hideFloatingPlayer s
      else s
  | None => s
  end.

(** The click listener of the close button. *)
Definition closeClick (s : State) : State :=
  let s := hideFloatingPlayer s in
  set_isManuallyHidden true s.

(** ** Events

    What the browser and the host deliver to the engine. A DOM event runs a
    handler only where the engine has registered it: [Play] and the mouse
    moves on the document, [Click] and [MouseDown] on the elements of the
    floating container. Intersection entries are delivered for any target
    (every observer ever created calls [handleIntersection]). [Relayout],
    [Media] and [Resize] are the browser changing what the engine only
    reads: the layout of a node, the playback state of a video, the
    viewport. *)
Inductive Event :=
| Init (settings : FloatingPlayerSettings)
| UpdateSettings (settings : FloatingPlayerSettings)
| Destroy
| ReturnFloating (pauseVideo : bool)
| Play (t : NodeId)
| Intersect (entries : list IntersectionObserverEntry)
| Click (t : NodeId)
| MouseDown (t : NodeId) (e : MouseEvent)
| MouseMove (e : MouseEvent)
| MouseUp
| Relayout (n : NodeId) (w h l t : Z)
| Media (n : NodeId) (p : bool) (time : JsNumber)
| Resize (w h : Z).

Definition has_listener (d : DOM) (n : NodeId) (ev : string) (h : Handler)
  : bool :=
  match d !! n with
  | Some x => bool_decide ((ev, h) ∈ listeners x)
  | None => false
  end.

Definition step (s : State) (ev : Event) : State :=
  match ev with
  | Init settings => initFloatingPlayer settings s
  | UpdateSettings settings => updateFloatingPlayerSettings settings s
  | Destroy => destroyFloatingPlayer s
  | ReturnFloating p => returnFloatingVideo p s
  | Play t =>
      if decide (OnPlay ∈ docListeners s) then handleVideoPlay t s else s
  | Intersect entries => handleIntersection entries s
  | Click t =>
      if has_listener (dom s) t "click" CloseClick then closeClick s else s
  | MouseDown t e =>
      if has_listener (dom s) t "mousedown" StartDrag then startDrag e s else s
  | MouseMove e =>
      if decide (OnMouseMove ∈ docListeners s) then onDrag e s else s
  | MouseUp =>
      if decide (OnMouseUp ∈ docListeners s) then stopDrag s else s
  | Relayout n w h l t => with_dom (update n (set_layout w h l t)) s
  | Media n p time =>
      with_dom (update n (fun x => set_currentTime time (set_paused p x))) s
  | Resize w h => set_viewport w h s
  end.

Definition run (s : State) (evs : list Event) : State :=
  fold_left step evs s.

(** The state when the module has been loaded and nothing has run: the
    initial values of its [let] variables, over the page [d]. *)
Definition initialState (d : DOM) (body : NodeId) (w h : Z) : State :=
  mkState None None None false false (Position.mk 0 0)
    (mkSettings true medium) None false false d body [] w h.

(** ** The host editor and the locator ([index.ts]) *)

(** An identifier the block API takes: a database id or a uuid. *)
Inductive JsKey :=
| KNum (n : Z)
| KStr (s : string).

(** [blk.left] and [blk.parent]: a direct identifier, or an object that may
    carry one in its [id] property. *)
Inductive BlockLink :=
| LinkKey (k : JsKey)
| LinkObj (id : option JsKey).

Module Block.
Record t := mk {
  uuid : string;
  left : option BlockLink;
  parent : option BlockLink
}.
End Block.

(** What [await logseq.Editor.getBlock(ref)] does: resolve to a block or to
    null, or reject. *)
Inductive ApiReply :=
| Resolved (b : option Block.t)
| Rejected (err : string).

(** JavaScript truthiness of a link: [0] and [''] are falsy, an object is
    truthy. *)
Definition truthy_key (k : JsKey) : bool :=
  match k with
  | KNum n => negb (Z.eqb n 0)
  | KStr s => negb (bool_decide (s = ""))
  end.

Definition truthy_link (l : BlockLink) : bool :=
  match l with
  | LinkKey k => truthy_key k
  | LinkObj _ => true
  end.

(** [(l as any).id || l] *)
Definition link_id (l : BlockLink) : BlockLink :=
  match l with
  | LinkObj (Some k) => if truthy_key k then LinkKey k else l
  | _ => l
  end.

(** What the macro renderer hands to [provideUI] and [provideModel]. *)
Record UiOptions := mkUi {
  key : string;
  slot : string;
  reset : bool;
  template : string
}.

(** The closure registered under a click-handler id: it captures the block
    uuid and the [time] argument of the macro. *)
Record ClickModel := mkClickModel {
  model_uuid : string;
  model_time : option string
}.

(** The engine state together with what the plugin's asynchronous code
    leaves behind: the number of block-API calls made, the console, the
    messages shown to the user, the text inserted at the cursor, the UI and
    the models provided. *)
Record World := mkWorld {
  engine : State;
  apiCalls : nat;
  console : list (string * string);
  messages : list (string * string);
  inserted : list string;
  provided : list UiOptions;
  models : list (string * ClickModel)
}.

Definition set_engine (v : State) (w : World) : World :=
  mkWorld v (apiCalls w) (console w) (messages w) (inserted w) (provided w)
    (models w).
Definition set_apiCalls (v : nat) (w : World) : World :=
  mkWorld (engine w) v (console w) (messages w) (inserted w) (provided w)
    (models w).
Definition set_console (v : list (string * string)) (w : World) : World :=
  mkWorld (engine w) (apiCalls w) v (messages w) (inserted w) (provided w)
    (models w).
Definition set_messages (v : list (string * string)) (w : World) : World :=
  mkWorld (engine w) (apiCalls w) (console w) v (inserted w) (provided w)
    (models w).
Definition set_inserted (v : list string) (w : World) : World :=
  mkWorld (engine w) (apiCalls w) (console w) (messages w) v (provided w)
    (models w).
Definition set_provided (v : list UiOptions) (w : World) : World :=
  mkWorld (engine w) (apiCalls w) (console w) (messages w) (inserted w) v
    (models w).
Definition set_models (v : list (string * ClickModel)) (w : World) : World :=
  mkWorld (engine w) (apiCalls w) (console w) (messages w) (inserted w)
    (provided w) v.

(** An [async] function: it ends with a value or with an exception, and the
    effects made before an exception stay. *)
Inductive Outcome (A : Type) :=
| Value (a : A)
| Thrown (err : string).
Arguments Value {A} a.
Arguments Thrown {A} err.

Definition Async (A : Type) : Type := World → Outcome A * World.

Definition ret {A} (a : A) : Async A := fun w => (Value a, w).

Definition bind {A B} (m : Async A) (k : A → Async B) : Async B :=
  fun w =>
    match m w with
    | (Value a, w') => k a w'
    | (Thrown e, w') => (Thrown e, w')
    end.

Definition try_catch {A} (m : Async A) (handler : string → Async A) : Async A :=
  fun w =>
    match m w with
    | (Value a, w') => (Value a, w')
    | (Thrown e, w') => handler e w'
    end.

Definition gets {A} (f : State → A) : Async A :=
  fun w => (Value (f (engine w)), w).

Definition modify (f : State → State) : Async unit :=
  fun w => (Value tt, set_engine (f (engine w)) w).

Global Instance Async_ret : MRet Async := @ret.
Global Instance Async_bind : MBind Async := fun A B k m => bind m k.

Definition console_log (level msg : string) : Async unit :=
  fun w => (Value tt, set_console (console w ++ [(level, msg)]) w).

(** [logseq.UI.showMsg(text, status)] *)
Definition showMsg (text status : string) : Async unit :=
  fun w => (Value tt, set_messages (messages w ++ [(text, status)]) w).

(** [logseq.Editor.insertAtEditingCursor(text)] *)
Definition insertAtEditingCursor (text : string) : Async unit :=
  fun w => (Value tt, set_inserted (inserted w ++ [text]) w).

(** The elements of the top document, in document order; the document is
    modelled from [document.body] down. *)
Definition documentNodes (s : State) : list NodeId :=
  body s :: descendants (dom s) (body s).

(** [top.document.getElementById(i)] *)
Definition getElementById (s : State) (i : string) : option NodeId :=
  find (matches (dom s) (sel_id i)) (documentNodes s).

(** [top.document.getElementById(`ls-block-${blockUuid}`) ||
     top.document.querySelector(`div[blockid="${blockUuid}"]`)]

    The selector is read as the comparison of the [blockid] attribute with
    [blockUuid]. That is what the browser does for the uuids the block API
    issues (letters, digits and hyphens); for a [blockUuid] with a double
    quote, a backslash or a line break the text is not a selector and
    [querySelector] throws, which the model does not follow ([plain_uuid]
    below delimits the uuids it covers). *)
Definition blockContainer (s : State) (blockUuid : string) : option NodeId :=
  match getElementById s ("ls-block-" +:+ blockUuid) with
  | Some c => Some c
  | None => find (matches (dom s) (sel_div_blockid blockUuid)) (documentNodes s)
  end.

(** [findVideoInBlock(blockUuid)] *)
Definition findVideoInBlock (s : State) (blockUuid : string) : option NodeId :=
  match blockContainer s blockUuid with
  | Some container => querySelector (dom s) container (sel_tag "VIDEO")
  | None => None
  end.

(** [hasPlaceholder(blockUuid)] *)
Definition hasPlaceholder (s : State) (blockUuid : string) : bool :=
  match blockContainer s blockUuid with
  | Some container =>
      bool_decide (querySelector (dom s) container (sel_class placeholderClass) ≠ None)
  | None => false
  end.

(** ** [parseInt] and number formatting

    Strings are sequences of bytes. [parseInt] is modelled for the texts on
    which reading bytes and computing with exact integers agrees with
    JavaScript: those that do not open, after ASCII blanks, with a byte
    outside ASCII (JavaScript also skips the Unicode white space), and whose
    integer is at most 2^53 in magnitude (beyond, the double rounds it);
    [exact_time] below is that condition for the time argument of a macro,
    which it also takes to be a position, not negative. A playback time is printed in
    plain decimal notation only; [plain_decimal] below delimits the times
    that a template literal prints that way. *)

Definition is_space (c : ascii) : bool :=
  bool_decide (c ∈ [" "%char; "009"%char; "010"%char; "011"%char;
                    "012"%char; "013"%char]).

Fixpoint skip_spaces (s : string) : string :=
  match s with
  | String c s' => if is_space c then skip_spaces s' else s
  | EmptyString => s
  end.

Definition digit_value (radix : Z) (c : ascii) : option Z :=
  let n := Z.of_nat (nat_of_ascii c) in
  let v :=
    if Z.leb 48 n && Z.leb n 57 then Some (n - 48)
    else if Z.leb 97 n && Z.leb n 122 then Some (n - 87)
    else if Z.leb 65 n && Z.leb n 90 then Some (n - 55)
    else None in
  match v with
  | Some k => if Z.ltb k radix then Some k else None
  | None => None
  end.

(** The value of the longest prefix of digits, [None] when it is empty. *)
Fixpoint digits_prefix (radix : Z) (acc : option Z) (s : string) : option Z :=
  match s with
  | String c s' =>
      match digit_value radix c with
      | Some k => digits_prefix radix (Some (from_option id 0 acc * radix + k)) s'
      | None => acc
      end
  | EmptyString => acc
  end.

(** [parseInt(s)] with no radix; [None] is NaN. *)
Definition parseInt (s : string) : option Z :=
  let s := skip_spaces s in
  let '(sign, s) :=
    match s with
    | String "-" r => (-1, r)
    | String "+" r => (1, r)
    | _ => (1, s)
    end in
  let '(radix, s) :=
    match s with
    | String "0" (String "x" r) => (16, r)
    | String "0" (String "X" r) => (16, r)
    | _ => (10, s)
    end in
  (λ n, sign * n) <$> digits_prefix radix None s.

Definition string_of_Z (n : Z) : string := NilZero.string_of_int (Z.to_int n).

(** [`${n}`] for the result of [parseInt] *)
Definition string_of_parsed (n : option Z) : string :=
  match n with
  | Some k => string_of_Z k
  | None => "NaN"
  end.

(** [`${t}`] for a playback time *)
Definition string_of_number (t : JsNumber) : string :=
  match fraction t with
  | Decimal.Nil => string_of_Z (whole t)
  | f => string_of_Z (whole t) +:+ "." +:+ NilEmpty.string_of_uint f
  end.

(** [parseInt(time) || 0] *)
Definition parseInt_or_0 (time : string) : Z :=
  match parseInt time with
  | Some n => n
  | None => 0
  end.

Section Locator.

(** [logseq.Editor.getBlock]: the reply to the [n]-th call of the API. *)
Variable editor_getBlock : nat → BlockLink → ApiReply.

Definition getBlock (ref : BlockLink) : Async (option Block.t) :=
  fun w =>
    let w' := set_apiCalls (S (apiCalls w)) w in
    match editor_getBlock (apiCalls w) ref with
    | Resolved b => (Value b, w')
    | Rejected e => (Thrown e, w')
    end.

(** Lines 168-178 of [getVideoEl]: the uuids of the related blocks. *)
Definition relatedBlock (blocksToCheck : list string) (link : option BlockLink)
  : Async (list string) :=
  match link with
  | Some l =>
      if truthy_link l then
        b ← getBlock (link_id l);
        ret (match b with
             | Some b => blocksToCheck ++ [Block.uuid b]
             | None => blocksToCheck
             end)
      else ret blocksToCheck
  | None => ret blocksToCheck
  end.

(** One guarded candidate of the regular search (lines 200-211 and
    214-225): [Some v] stands for [return v]. *)
Definition searchLinked (link : option BlockLink) (what : string)
  : Async (option NodeId) :=
  match link with
  | Some l =>
      if truthy_link l then
        try_catch
          (b ← getBlock (link_id l);
           match b with
           | Some b => gets (fun s => findVideoInBlock s (Block.uuid b))
           | None => ret None
           end)
          (fun e => console_log "error" what;; ret None)
      else ret None
  | None => ret None
  end.

(** Lines 194-227 of [getVideoEl]: the search in the regular way. *)
Definition searchBlocks (blk : Block.t) : Async (option NodeId) :=
  (* 1. Check current block *)
  videoEl ← gets (fun s => findVideoInBlock s (Block.uuid blk));
  match videoEl with
  | Some v => ret (Some v)
  | None =>
      (* 2. Check previous sibling block *)
      videoEl ← searchLinked (Block.left blk)
                  "[mediatimestamp] Error checking left sibling";
      match videoEl with
      | Some v => ret (Some v)
      | None =>
          (* 3. Check parent block *)
          videoEl ← searchLinked (Block.parent blk)
                      "[mediatimestamp] Error checking parent block";
          match videoEl with
          | Some v => ret (Some v)
          | None => ret None
          end
      end
  end.

(** [getVideoEl(uuid)], the locator. *)
Definition getVideoEl (uuid : string) : Async (option NodeId) :=
  blk ← getBlock (LinkKey (KStr uuid));
  match blk with
  | None =>
      console_log "warn" "[mediatimestamp] Current block not found";;
      ret None
  | Some blk =>
      (* Check if ANY of the related blocks has the floating video *)
      blocksToCheck ← relatedBlock [Block.uuid blk] (Block.left blk);
      blocksToCheck ← relatedBlock blocksToCheck (Block.parent blk);
      floatingVideo ← gets getFloatingVideo;
      match floatingVideo with
      | Some fv =>
          found ← gets (fun s => existsb (hasPlaceholder s) blocksToCheck);
          if (found : bool) then
            (* The floating video is from one of the related blocks *)
            ret (Some fv)
          else
            (* the floating video is from a DIFFERENT block *)
            modify (returnFloatingVideo true);;
            searchBlocks blk
      | None => searchBlocks blk
      end
  end.

(** The handler of the slash command 'Insert timestamp'. *)
Definition insertTimestamp (uuid : string) : Async unit :=
  try_catch
    (videoEl ← getVideoEl uuid;
     match videoEl with
     | None =>
         showMsg "No video found in current, sibling or parent block" "warning"
     | Some v =>
         t ← gets (fun s => from_option currentTime (number_of_Z 0) (dom s !! v));
         insertAtEditingCursor
           ("{{renderer :mediatimestamp_" +:+ uuid +:+ ", "
            +:+ string_of_number t +:+ "}}")
     end)
    (fun e =>
       console_log "error" "[mediatimestamp] Error in slash command";;
       showMsg "Error inserting timestamp. Check console." "error").

(** The click handler that the macro renderer registers. *)
Definition mediaClick (m : ClickModel) : Async unit :=
  videoEl ← getVideoEl (model_uuid m);
  match videoEl, model_time m with
  | Some v, Some time =>
      if bool_decide (time = "") then
        showMsg "Unable to get obtain video element" "error"
      else
        modify (with_dom (update v (set_currentTime
                                      (number_of_Z (parseInt_or_0 time)))));;
        (* videoEl.play() *)
        modify (with_dom (update v (set_paused false)))
  | _, _ => showMsg "Unable to get obtain video element" "error"
  end.

End Locator.

(** The handler given to [onMacroRendererSlotted], for the payload
    [{slot, payload: {uuid, arguments}}]. *)
Definition onMacroRendererSlotted (slot uuid : string) (args : list string)
  : Async unit :=
  let type := args !! 0%nat in
  let time := args !! 1%nat in
  match type with
  | Some type =>
      if negb (String.prefix ":mediatimestamp_" type) then ret tt else
      let id := "mediatimestamp_" +:+ uuid +:+ "_" +:+ slot in
      let clickHandlerId := "mediaclick_" +:+ uuid +:+ "_" +:+ slot in
      bind
        (fun w => (Value tt,
                   set_models (models w ++ [(clickHandlerId, mkClickModel uuid time)]) w))
        (fun _ =>
           match time with
           | Some t =>
               if bool_decide (t = "") then ret tt else
               fun w =>
                 (Value tt,
                  set_provided
                    (provided w ++
                     [mkUi id slot true
                        ("<button id=" +:+ dquote +:+ id +:+ dquote
                         +:+ " class=" +:+ dquote +:+ "logseq-mediatimestamp-plugin"
                         +:+ dquote +:+ " data-on-click=" +:+ dquote
                         +:+ clickHandlerId +:+ dquote +:+ ">Timestamp: "
                         +:+ string_of_parsed (parseInt t) +:+ "s</button>")]) w)
           | None => ret tt
           end)
  | None => ret tt
  end.

(** ** Well-formed pages and the states the engine can reach *)

(** The two links of the DOM agree: [n] has parent [p] exactly when [n] is in
    the child list of [p], and no child list repeats a node. *)
Definition wf_dom (d : DOM) : Prop :=
  (∀ n p, parentOf d n = Some p ↔ n ∈ childrenOf d p) ∧
  (∀ p, NoDup (childrenOf d p)).

Definition wf_node_b (d : DOM) (n : NodeId) : bool :=
  match parentOf d n with
  | Some p => bool_decide (n ∈ childrenOf d p)
  | None => true
  end
  && forallb (λ c, bool_decide (parentOf d c = Some n)) (childrenOf d n)
  && bool_decide (NoDup (childrenOf d n)).

Definition wf_dom_b (d : DOM) : bool :=
  forallb (wf_node_b d) (seq 0 (length d)).

Definition isPlaceholder (d : DOM) (n : NodeId) : Prop :=
  matches d (sel_class placeholderClass) n = true.

Definition isVideo (d : DOM) (n : NodeId) : Prop :=
  tagOf d n = Some "VIDEO".

Global Instance isVideo_dec d n : Decision (isVideo d n).
Proof. unfold isVideo. apply _. Defined.

Global Instance isPlaceholder_dec d n : Decision (isPlaceholder d n).
Proof. unfold isPlaceholder. apply _. Defined.

(** A page the plugin can be loaded on: a well-formed DOM that holds
    [document.body] and no element of the placeholder class. *)
Definition page_ok (d : DOM) (b : NodeId) : bool :=
  wf_dom_b d && bool_decide (b < length d)%nat
  && forallb (λ x, negb (sel_class placeholderClass x)) d.

(** The states of the engine: what the events lead to from a loaded page. *)
Definition reachable (s : State) : Prop :=
  ∃ d b w h evs, page_ok d b = true ∧ s = run (initialState d b w h) evs.

(** The videos that are floating: the video children of the floating
    container. *)
Definition floatingVideos (s : State) : list NodeId :=
  match floatingContainer s with
  | Some c => filter (isVideo (dom s)) (childrenOf (dom s) c)
  | None => []
  end.

(** A placeholder is attached when it has a parent. *)
Definition placeholderAttached (s : State) : Prop :=
  ∃ n, isPlaceholder (dom s) n ∧ is_Some (parentOf (dom s) n).

(** The invariant of the engine. *)
Record Inv (s : State) : Prop := mkInv {
  inv_wf : wf_dom (dom s);
  inv_body : (body s < length (dom s))%nat;
  inv_tracked : ∀ v, recentlyPlayedVideo s = Some v → isVideo (dom s) v;
  inv_container : ∀ c, floatingContainer s = Some c →
    (c < length (dom s))%nat ∧ ¬ isVideo (dom s) c ∧ ¬ isPlaceholder (dom s) c;
  inv_videos : floatingVideos s =
    match videoState s with Some vs => [VideoState.video vs] | None => [] end;
  inv_flag : isFloating s = bool_decide (is_Some (videoState s));
  inv_slot : ∀ vs c, videoState s = Some vs → floatingContainer s = Some c →
    VideoState.originalParent vs ≠ c ∧
    isPlaceholder (dom s) (VideoState.placeholder vs) ∧
    ∃ l1 l2,
      childrenOf (dom s) (VideoState.originalParent vs)
        = l1 ++ VideoState.placeholder vs :: l2 ∧
      head l2 = VideoState.originalNextSibling vs;
  inv_placeholders : ∀ n, isPlaceholder (dom s) n →
    is_Some (parentOf (dom s) n) →
    Some n = VideoState.placeholder <$> videoState s
}.

(** The attributes of a node, without its links to other nodes. *)
Definition attrsOf (x : Node) : Node := set_parentNode None (set_childNodes [] x).
Definition nodeAttrs (d : list Node) (n : nat) : option Node := attrsOf <$> d !! n.

Class AttrWrite (f : Node → Node) : Prop := {
  aw_parent : ∀ x, parentNode (f x) = parentNode x;
  aw_children : ∀ x, childNodes (f x) = childNodes x;
  aw_attrs : ∀ x, attrsOf (f x) = f (attrsOf x)
}.

(** What [place] must do to a child list for the tree to stay well-formed:
    add [n] and nothing else, without repetition. *)
Definition places (n : nat) (place : list nat → list nat) : Prop :=
  ∀ l, n ∉ l → NoDup l → NoDup (place l) ∧ ∀ m, m ∈ place l ↔ m = n ∨ m ∈ l.

(** The tag and the class of a node; the engine writes neither on a node
    that exists already. *)
Definition identity (x : Node) : string * string := (tagName x, className x).

Class IdentWrite (f : Node → Node) : Prop :=
  ident_write : ∀ x, identity (f x) = identity x.

Definition identOf (d : list Node) (n : nat) : option (string * string) :=
  identity <$> nodeAttrs d n.

(** Where [moveBack] puts the video in the child list of the original
    parent. *)
Definition backPlace (vs : VideoState.t) (d : list Node) (l : list nat) : list nat :=
  match VideoState.originalNextSibling vs with
  | Some sibling =>
      if decide (parentOf d sibling = Some (VideoState.originalParent vs))
      then insert_before (VideoState.video vs) sibling l
      else l ++ [VideoState.video vs]
  | None => l ++ [VideoState.video vs]
  end.

(** The DOM that [hideFloatingPlayer] leaves when it does not return early,
    and the one that [showFloatingPlayer] leaves. *)
Definition hideDom (c : nat) (vs : VideoState.t) (d : list Node) : list Node :=
  resetContainer c
    (removePlaceholder (VideoState.placeholder vs)
       (moveBack vs (restoreStyles (VideoState.video vs) d))).

Definition showDom (c v p : nat) (sz : Box.t) (d : list Node) : list Node :=
  moveToContainer c v sz
    (storeOriginalStyles v
       (insertBefore p (length d) v
          (stylePlaceholder (length d) v (d ++ [blankNode "DIV"])))).

(** Two stores with the same tree and the same tags and classes. *)
Definition dom_equiv (d d' : list Node) : Prop :=
  length d' = length d ∧
  ∀ m, parentOf d' m = parentOf d m ∧ childrenOf d' m = childrenOf d m ∧
       identOf d' m = identOf d m.

(** A store [d'] grown from [d]: the nodes of [d] keep their parent, tag and
    class, and no node added is a video or a placeholder. *)
Definition extends (d d' : list Node) : Prop :=
  wf_dom d' ∧ (length d ≤ length d')%nat ∧
  (∀ m, (m < length d)%nat →
        parentOf d' m = parentOf d m ∧ identOf d' m = identOf d m) ∧
  (∀ m, (length d ≤ m)%nat → ¬ isVideo d' m ∧ ¬ isPlaceholder d' m).

(** The guards of [showFloatingPlayer] pass: [v] is the tracked video, it is
    docked under [p], and the container [c] exists. *)
Definition can_float (s : State) (c v p : nat) : Prop :=
  recentlyPlayedVideo s = Some v ∧ floatingContainer s = Some c ∧
  enabled (currentSettings s) = true ∧ isManuallyHidden s = false ∧
  isFloating s = false ∧ parentOf (dom s) v = Some p.

(** ** A page to run the engine on

    [document.body] (node 0) holds two blocks: block [u1] (node 1) with a
    video (node 2) followed by a caption (node 3), and block [u2] (node 4)
    with a video (node 5). *)
Definition element (tag i : string) (p : option nat) (cs : list nat) : Node :=
  mkNode tag i None "" "" "" p cs Style.empty 640 360 0 0 None true
    (number_of_Z 0) [].

Definition examplePage : list Node :=
  [ element "BODY" "" None [1; 4]%nat;
    element "DIV" "ls-block-u1" (Some 0%nat) [2; 3]%nat;
    element "VIDEO" "" (Some 1%nat) [];
    element "SPAN" "" (Some 1%nat) [];
    element "DIV" "ls-block-u2" (Some 0%nat) [5]%nat;
    element "VIDEO" "" (Some 4%nat) [] ].

(** The plugin is initialised and the video of block [u1] plays. *)
Definition exampleTracked : State :=
  run (initialState examplePage 0%nat 1280 720)
    [Init (mkSettings true medium); Play 2%nat].

(** The video has scrolled out of view and floats. *)
Definition exampleFloating : State :=
  run exampleTracked [Intersect [mkEntry 2%nat false]].

(** Between two states: the store has only grown, and a FloatingState of
    the later state is either that of the earlier one, with the style of its
    placeholder untouched, or a new one, whose placeholder is a new node. *)
Definition frame_ok (s1 s2 : State) : Prop :=
  (length (dom s1) ≤ length (dom s2))%nat ∧
  ∀ vs, videoState s2 = Some vs →
    (videoState s1 = Some vs ∧
     styleOf (dom s2) (VideoState.placeholder vs)
       = styleOf (dom s1) (VideoState.placeholder vs)) ∨
    (length (dom s1) ≤ VideoState.placeholder vs)%nat.

(** The events that reset the manually-hidden flag of a docked engine:
    teardown, and a play event on a video other than the tracked one. *)
Definition resets_hidden (s : State) (ev : Event) : Prop :=
  match ev with
  | Destroy => True
  | Play t => recentlyPlayedVideo s ≠ Some t
  | _ => False
  end.

(** A run during which no event resets the flag. *)
Fixpoint quiet (s : State) (evs : list Event) : Prop :=
  match evs with
  | [] => True
  | ev :: evs' => ¬ resets_hidden s ev ∧ quiet (step s ev) evs'
  end.

(** The floating container [c], at the position and with the width and
    height that its own inline style gives it (the style sheet of the plugin
    makes it a fixed box with no border and no padding), lies within the
    viewport with a margin of 10 pixels on every side. *)
Definition within_margins (s : State) (c : nat) : Prop :=
  ∃ x y w h,
    Style.left (styleOf (dom s) c) = CssPx x ∧
    Style.top (styleOf (dom s) c) = CssPx y ∧
    Style.width (styleOf (dom s) c) = CssPx w ∧
    Style.height (styleOf (dom s) c) = CssPx h ∧
    (10 ≤ x)%Z ∧ (x + w ≤ innerWidth s - 10)%Z ∧
    (10 ≤ y)%Z ∧ (y + h ≤ innerHeight s - 10)%Z.

(** While a video floats, the container has the width and height of the
    current size setting: [onDrag] clamps with the setting, not with the
    container's own size. *)
Definition container_sized (s : State) : Prop :=
  ∀ c, floatingContainer s = Some c → isFloating s = true →
    Style.width (styleOf (dom s) c)
    = CssPx (Box.width (SIZE_MAP (size (currentSettings s)))) ∧
    Style.height (styleOf (dom s) c)
    = CssPx (Box.height (SIZE_MAP (size (currentSettings s)))).

(** The events that keep the container at the size of the setting: all but
    a call of [initFloatingPlayer] that changes the size while a video
    floats ([initFloatingPlayer] stores the settings and does not resize
    the container). *)
Definition keeps_size (s : State) (ev : Event) : Prop :=
  match ev with
  | Init settings => isFloating s = true → size settings = size (currentSettings s)
  | _ => True
  end.

(** The largest player, floating in a portrait viewport of 768 by 1024
    pixels, with a drag started on its handle (node 7). *)
Definition exampleNarrow : State :=
  run (initialState examplePage 0%nat 768 1024)
    [Init (mkSettings true xxxlarge); Play 2%nat; Intersect [mkEntry 2%nat false];
     MouseDown 7%nat (mkMouseEvent 0 0)].

(** The medium player, floating in a viewport of 1280 by 720 pixels, with a
    drag started on its handle (node 7). *)
Definition exampleDragging : State :=
  run exampleFloating [MouseDown 7%nat (mkMouseEvent 0 0)].

(** The largest player floats in a viewport of 1280 by 720 pixels when
    [initFloatingPlayer] is called again with the smallest size; then a drag
    starts on the handle. *)
Definition exampleResized : State :=
  run (initialState examplePage 0%nat 1280 720)
    [Init (mkSettings true xxxlarge); Play 2%nat; Intersect [mkEntry 2%nat false];
     Init (mkSettings true small); MouseDown 7%nat (mkMouseEvent 0 0)].

(** An event other than an initialisation with the feature enabled. *)
Definition not_enabling (ev : Event) : Prop :=
  match ev with
  | Init settings => enabled settings = false
  | _ => True
  end.

(** The engine as the module leaves it when loaded or torn down: no
    container, no observer, no play listener, and not floating. *)
Definition inert (s : State) : Prop :=
  floatingContainer s = None ∧ observer s = None ∧
  (OnPlay ∉ docListeners s) ∧ isFloating s = false.

(** ** Reading a run of the locator *)

(** The number of calls of the block API that following a link costs. *)
Definition asks (link : option BlockLink) : nat :=
  match link with
  | Some l => if truthy_link l then 1%nat else 0%nat
  | None => 0%nat
  end.

(** The host rejects the lookup of [link] when it is made as call [n]. *)
Definition rejects (editor : nat → BlockLink → ApiReply) (n : nat)
  (link : option BlockLink) : bool :=
  match link with
  | Some l =>
      truthy_link l &&
      match editor n (link_id l) with
      | Rejected _ => true
      | Resolved _ => false
      end
  | None => false
  end.

(** The block that [link] leads to when it is looked up as call [n]: none
    when the link is absent or falsy, when the host answers null, and when it
    rejects. *)
Definition linked (editor : nat → BlockLink → ApiReply) (n : nat)
  (link : option BlockLink) : option Block.t :=
  match link with
  | Some l =>
      if truthy_link l then
        match editor n (link_id l) with
        | Resolved b => b
        | Rejected _ => None
        end
      else None
  | None => None
  end.

(** The world after [k] more calls of the block API. *)
Definition advance (k : nat) (w : World) : World :=
  set_apiCalls (k + apiCalls w) w.

(** The candidate blocks of the specification, in priority order: the
    current block, its left sibling, its parent, when the lookups start at
    call [n]. *)
Definition candidates (editor : nat → BlockLink → ApiReply) (n : nat)
  (blk : Block.t) : list string :=
  Block.uuid blk
  :: option_list (Block.uuid <$> linked editor n (Block.left blk))
  ++ option_list (Block.uuid <$>
                    linked editor (n + asks (Block.left blk)) (Block.parent blk)).

(** The first video found when the subtrees of [blocks] are searched in
    order. *)
Fixpoint first_match (s : State) (blocks : list string) : option NodeId :=
  match blocks with
  | [] => None
  | u :: us =>
      match findVideoInBlock s u with
      | Some v => Some v
      | None => first_match s us
      end
  end.

(** Node [n] lies in the subtree of the container of block [blockUuid]. *)
Definition resides (s : State) (n : NodeId) (blockUuid : string) : Prop :=
  ∃ c, blockContainer s blockUuid = Some c ∧ n ∈ descendants (dom s) c.

Global Instance JsKey_eq_dec : EqDecision JsKey.
Proof. solve_decision. Defined.

(** A host that answers from a table of blocks, whatever the call. *)
Definition tableHost (table : list (JsKey * Block.t)) : nat → BlockLink → ApiReply :=
  fun _ ref =>
    match ref with
    | LinkKey k => Resolved (snd <$> find (λ e, bool_decide (e.1 = k)) table)
    | LinkObj _ => Resolved None
    end.

Global Instance BlockLink_eq_dec : EqDecision BlockLink.
Proof. solve_decision. Defined.

(** A host that rejects every lookup of the block [bad] and answers the
    others from a table. *)
Definition rejectingHost (bad : JsKey) (table : list (JsKey * Block.t))
  : nat → BlockLink → ApiReply :=
  fun n ref =>
    if decide (ref = LinkKey bad) then Rejected "block lookup failed"
    else tableHost table n ref.

(** The world in which nothing has been logged, shown or inserted yet. *)
Definition freshWorld (s : State) : World := mkWorld s 0 [] [] [] [] [].

(** ** An outline to run the locator on

    [document.body] (node 0) holds two top-level blocks. Block [u1] (node 1)
    has a video (node 2) and a caption (node 3). Block [u2] (node 4) has a
    video of its own (node 5) and three child blocks: [u3] (node 6) with a
    video (node 7), [u4] (node 8) with a video (node 9), and [u5] (node 10)
    with text only (node 11). *)
Definition exampleOutline : list Node :=
  [ element "BODY" "" None [1; 4]%nat;
    element "DIV" "ls-block-u1" (Some 0%nat) [2; 3]%nat;
    element "VIDEO" "" (Some 1%nat) [];
    element "SPAN" "" (Some 1%nat) [];
    element "DIV" "ls-block-u2" (Some 0%nat) [5; 6; 8; 10]%nat;
    element "VIDEO" "" (Some 4%nat) [];
    element "DIV" "ls-block-u3" (Some 4%nat) [7]%nat;
    element "VIDEO" "" (Some 6%nat) [];
    element "DIV" "ls-block-u4" (Some 4%nat) [9]%nat;
    element "VIDEO" "" (Some 8%nat) [];
    element "DIV" "ls-block-u5" (Some 4%nat) [11]%nat;
    element "SPAN" "" (Some 10%nat) [] ].

(** The blocks of the outline as the host has them: a block is found by its
    uuid or by its database id; [left] and [parent] are objects carrying a
    database id, and the page (id 100) is not a block. *)
Definition outlineBlocks : list (JsKey * Block.t) :=
  let ref (n : Z) := Some (LinkObj (Some (KNum n))) in
  let u1 := Block.mk "u1" (ref 100) (ref 100) in
  let u2 := Block.mk "u2" (ref 1) (ref 100) in
  let u3 := Block.mk "u3" (ref 2) (ref 2) in
  let u4 := Block.mk "u4" (ref 3) (ref 2) in
  let u5 := Block.mk "u5" (ref 4) (ref 2) in
  [ (KStr "u1", u1); (KStr "u2", u2); (KStr "u3", u3); (KStr "u4", u4);
    (KStr "u5", u5);
    (KNum 1, u1); (KNum 2, u2); (KNum 3, u3); (KNum 4, u4); (KNum 5, u5) ].

Definition outlineHost : nat → BlockLink → ApiReply := tableHost outlineBlocks.

(** The plugin is initialised on the outline. *)
Definition outlineLoaded : State :=
  run (initialState exampleOutline 0%nat 1280 720) [Init (mkSettings true medium)].

(** The video of block [u1] has played, scrolled out of view and floats. *)
Definition outlineFloating : State :=
  run outlineLoaded [Play 2%nat; Intersect [mkEntry 2%nat false]].

(** The video of block [u4] is at 125.7 seconds. *)
Definition outlineWatching : State :=
  run outlineLoaded [Media 9%nat false (mkNumber 125 (Decimal.D7 Decimal.Nil))].

(** ** What the engine leaves untouched *)

(** A write [f] to a node that leaves what [g] reads of it as it is. *)
Class Keeps {T : Type} (g : Node → T) (f : Node → Node) : Prop :=
  keeps : ∀ x, g (f x) = g x.

(** The store [d'] holds every node of [d], and [g] reads the same of it. *)
Definition keeps_view {T : Type} (g : Node → T) (d d' : list Node) : Prop :=
  ∀ m x, d !! m = Some x → ∃ x', d' !! m = Some x' ∧ g x' = g x.

(** The playback state of a media element. *)
Definition media (x : Node) : bool * JsNumber := (paused x, currentTime x).

(** The CSS [display] of the inline style of a node. *)
Definition display (x : Node) : string := Style.display (style x).

(** The floating container shows exactly while a video floats. *)
Definition container_shown (s : State) : Prop :=
  ∀ c, floatingContainer s = Some c →
    (c < length (dom s))%nat ∧
    Style.display (styleOf (dom s) c) = if isFloating s then "block" else "none".

(** The handlers of a drag are on the document exactly during a drag, each
    once, and [dragDoc] is set exactly then. *)
Definition drag_ok (s : State) : Prop :=
  NoDup (docListeners s) ∧ dragDoc s = isDragging s ∧
  (OnMouseMove ∈ docListeners s ↔ isDragging s = true) ∧
  (OnMouseUp ∈ docListeners s ↔ isDragging s = true).

(** Two states with the same drag state and the same document listeners. *)
Definition drag_same (s s' : State) : Prop :=
  docListeners s' = docListeners s ∧ isDragging s' = isDragging s ∧
  dragDoc s' = dragDoc s.

(** ** What a run of the plugin's asynchronous code leaves behind *)

(** From [w] to [w'] nothing was shown, inserted or registered, and the
    console has only grown. *)
Definition world_frame (w w' : World) : Prop :=
  messages w' = messages w ∧ inserted w' = inserted w ∧
  provided w' = provided w ∧ models w' = models w ∧
  ∃ l, console w' = console w ++ l.

(** A computation that makes at most [n] calls of the block API and, apart
    from the console, changes nothing else. *)
Definition calm {A : Type} (n : nat) (m : Async A) : Prop :=
  ∀ w, world_frame w (m w).2 ∧ engine (m w).2 = engine w ∧
       (apiCalls w ≤ apiCalls (m w).2 ≤ apiCalls w + n)%nat.

(** The zeros that open the digits after the decimal point. *)
Fixpoint leading_zeros (d : Decimal.uint) : nat :=
  match d with
  | Decimal.D0 d' => S (leading_zeros d')
  | _ => 0%nat
  end.

(** The playback times that a template literal prints in plain decimal
    notation, as [string_of_number] does: a number from 1e21 on, or below
    1e-6 and not 0, is printed with an exponent. *)
Definition plain_decimal (t : JsNumber) : bool :=
  Z.leb 0 (whole t) && Z.ltb (whole t) (10 ^ 21) &&
  (Z.ltb 0 (whole t)
   || match fraction t with Decimal.Nil => true | _ => false end
   || Nat.ltb (leading_zeros (fraction t)) 6).

(** What may follow the digits of the whole seconds in a printed number:
    nothing, or the decimal point. *)
Definition ends_digits (r : string) : Prop := r = "" ∨ ∃ r', r = String "." r'.

(** The width and height that the inline style of a node gives it. *)
Definition box (x : Node) : CssValue * CssValue :=
  (Style.width (style x), Style.height (style x)).

(** ** The inputs on which the model of the host page and of [parseInt]
    agrees with the browser *)

(** The characters of the uuids that the block API issues. *)
Definition uuid_char (c : ascii) : bool :=
  let n := Z.of_nat (nat_of_ascii c) in
  (Z.leb 48 n && Z.leb n 57) || (Z.leb 65 n && Z.leb n 90)
  || (Z.leb 97 n && Z.leb n 122) || Z.eqb n 45 || Z.eqb n 95.

(** A uuid that [querySelector(`div[blockid="${uuid}"]`)] takes as the
    comparison of an attribute: it holds no quote, backslash or line break. *)
Fixpoint plain_uuid (u : string) : bool :=
  match u with
  | EmptyString => true
  | String c u' => uuid_char c && plain_uuid u'
  end.

(** A host whose blocks all have such uuids. *)
Definition plain_host (editor : nat → BlockLink → ApiReply) : Prop :=
  ∀ n ref b, editor n ref = Resolved (Some b) → plain_uuid (Block.uuid b) = true.

(** The time arguments that [parseInt] reads as JavaScript does and that are
    playback positions: after its ASCII blanks the text does not open with a
    byte outside ASCII, and the integer read lies between 0 and 2^53. *)
Definition exact_time (time : string) : bool :=
  match skip_spaces time with
  | String c _ => Z.ltb (Z.of_nat (nat_of_ascii c)) 128
  | EmptyString => true
  end
  && Z.leb 0 (parseInt_or_0 time) && Z.leb (parseInt_or_0 time) (2 ^ 53).

(** * Properties *)
(** ** The DOM primitives *)

Ltac destruct_lookups :=
  repeat match goal with
         | |- context [@lookup _ _ _ _ ?k ?d] => destruct (d !! k); simpl in *
         | H : context [@lookup _ _ _ _ ?k ?d] |- _ => destruct (d !! k); simpl in *
         end.

Ltac dom_cases :=
  repeat case_decide; simplify_eq; destruct_lookups; simplify_eq; try done.

Section DomLemmas.
Implicit Types (d : list Node) (n m p q : nat) (f : Node → Node).

Lemma lookup_update n f d m :
  update n f d !! m = if decide (n = m) then f <$> d !! n else d !! m.
Proof. unfold update. rewrite list_lookup_alter. by destruct (decide (n = m)). Qed.

Lemma length_update n f d : length (update n f d) = length d.
Proof. apply length_alter. Qed.

Lemma parentOf_update n f `{!AttrWrite f} d m :
  parentOf (update n f d) m = parentOf d m.
Proof.
  unfold parentOf. rewrite lookup_update. destruct (decide (n = m)) as [->|]; [|done].
  destruct (d !! m) as [x|]; simpl; [apply aw_parent|done].
Qed.

Lemma childrenOf_update n f `{!AttrWrite f} d m :
  childrenOf (update n f d) m = childrenOf d m.
Proof.
  unfold childrenOf. rewrite lookup_update. destruct (decide (n = m)) as [->|]; [|done].
  destruct (d !! m) as [x|]; simpl; [apply aw_children|done].
Qed.

Lemma nodeAttrs_update n f `{!AttrWrite f} d m :
  nodeAttrs (update n f d) m
  = if decide (n = m) then f <$> nodeAttrs d n else nodeAttrs d m.
Proof.
  unfold nodeAttrs. rewrite lookup_update. destruct (decide (n = m)) as [->|]; [|done].
  destruct (d !! m) as [x|]; simpl; [by rewrite aw_attrs|done].
Qed.

Lemma nodeAttrs_update_ne n f `{!AttrWrite f} d m :
  n ≠ m → nodeAttrs (update n f d) m = nodeAttrs d m.
Proof. intros. rewrite (nodeAttrs_update n f d m). by rewrite decide_False. Qed.

Lemma nodeAttrs_update_eq n f `{!AttrWrite f} d :
  nodeAttrs (update n f d) n = f <$> nodeAttrs d n.
Proof. rewrite (nodeAttrs_update n f d n). by rewrite decide_True. Qed.

Lemma wf_update n f `{!AttrWrite f} d : wf_dom d → wf_dom (update n f d).
Proof.
  intros [H1 H2]. split.
  - intros k p. by rewrite parentOf_update, childrenOf_update.
  - intros p. by rewrite childrenOf_update.
Qed.

(** Reads of an attribute go through [nodeAttrs]. *)
Lemma tagOf_attrs d n : tagOf d n = tagName <$> nodeAttrs d n.
Proof. unfold tagOf, nodeAttrs. by destruct (d !! n). Qed.

Lemma styleOf_attrs d n : styleOf d n = from_option style Style.empty (nodeAttrs d n).
Proof. unfold styleOf, nodeAttrs. by destruct (d !! n). Qed.

Lemma isPlaceholder_attrs d n :
  isPlaceholder d n ↔ from_option (sel_class placeholderClass) false (nodeAttrs d n) = true.
Proof. unfold isPlaceholder, matches, nodeAttrs. by destruct (d !! n). Qed.

Lemma parentOf_lt d n p : parentOf d n = Some p → (n < length d)%nat.
Proof.
  unfold parentOf. intros H. destruct (d !! n) eqn:E; [|done].
  by apply lookup_lt_Some in E.
Qed.

Lemma childrenOf_lt d n p : n ∈ childrenOf d p → (p < length d)%nat.
Proof.
  unfold childrenOf. intros H. destruct (d !! p) eqn:E.
  - by apply lookup_lt_Some in E.
  - simpl in H. by apply elem_of_nil in H.
Qed.

(** [detach] *)
Lemma length_detach n d : length (detach n d) = length d.
Proof. unfold detach. destruct (parentOf d n); [|done]. by rewrite !length_update. Qed.

Lemma parentOf_detach n d m :
  parentOf (detach n d) m = if decide (m = n) then None else parentOf d m.
Proof.
  unfold detach. destruct (parentOf d n) as [p|] eqn:E.
  - unfold parentOf in *. rewrite !lookup_update.
    dom_cases.
  - case_decide; by simplify_eq.
Qed.

Lemma childrenOf_detach n d q :
  childrenOf (detach n d) q
  = if decide (parentOf d n = Some q) then filter (λ m, m ≠ n) (childrenOf d q)
    else childrenOf d q.
Proof.
  unfold detach. destruct (parentOf d n) as [p|] eqn:E.
  - unfold childrenOf, parentOf in *. rewrite !lookup_update.
    dom_cases.
  - by rewrite decide_False.
Qed.

Lemma nodeAttrs_detach n d m : nodeAttrs (detach n d) m = nodeAttrs d m.
Proof.
  unfold detach. destruct (parentOf d n) as [p|]; [|done].
  unfold nodeAttrs. rewrite !lookup_update.
  dom_cases.
Qed.

Lemma filter_ne_id n (l : list nat) : n ∉ l → filter (λ m, m ≠ n) l = l.
Proof.
  induction l as [|x l IH]; [done|]. intros Hn.
  apply not_elem_of_cons in Hn as [? ?].
  rewrite filter_cons_True by done. by rewrite IH.
Qed.

Lemma childrenOf_detach_wf n d q :
  wf_dom d → childrenOf (detach n d) q = filter (λ m, m ≠ n) (childrenOf d q).
Proof.
  intros [H1 H2]. rewrite childrenOf_detach. case_decide as Hq; [done|].
  symmetry. apply filter_ne_id. by rewrite <- H1.
Qed.

Lemma wf_detach n d : wf_dom d → wf_dom (detach n d).
Proof.
  intros Hwf. pose proof Hwf as [H1 H2]. split.
  - intros m p. rewrite parentOf_detach, childrenOf_detach_wf by done.
    rewrite list_elem_of_filter, <- H1. case_decide; naive_solver.
  - intros p. rewrite childrenOf_detach_wf by done. by apply NoDup_filter.
Qed.

(** [attach] *)
Lemma length_attach p n place d : length (attach p n place d) = length d.
Proof. unfold attach. by rewrite !length_update, length_detach. Qed.

Lemma parentOf_attach p n place d m :
  (n < length d)%nat →
  parentOf (attach p n place d) m = if decide (m = n) then Some p else parentOf d m.
Proof.
  intros Hn. pose proof (parentOf_detach n d m) as Hd.
  assert (is_Some (detach n d !! n)) as [x Hx].
  { apply lookup_lt_is_Some. by rewrite length_detach. }
  unfold attach, parentOf in *. rewrite !lookup_update.
  repeat case_decide; simplify_eq; rewrite ?Hx; try done;
    rewrite <- Hd; dom_cases.
Qed.

Lemma childrenOf_attach p n place d q :
  (p < length d)%nat →
  childrenOf (attach p n place d) q
  = if decide (q = p) then place (childrenOf (detach n d) p)
    else childrenOf (detach n d) q.
Proof.
  intros Hp.
  assert (is_Some (detach n d !! p)) as [x Hx].
  { apply lookup_lt_is_Some. by rewrite length_detach. }
  unfold attach, childrenOf. rewrite !lookup_update.
  repeat case_decide; simplify_eq; rewrite ?Hx; try done; dom_cases.
Qed.

Lemma nodeAttrs_attach p n place d m :
  nodeAttrs (attach p n place d) m = nodeAttrs d m.
Proof.
  rewrite <- (nodeAttrs_detach n d m). unfold attach, nodeAttrs.
  rewrite !lookup_update.
  dom_cases.
Qed.

Lemma wf_attach p n place d :
  wf_dom d → (n < length d)%nat → (p < length d)%nat → places n place →
  wf_dom (attach p n place d).
Proof.
  intros Hwf Hn Hp Hpl. pose proof (wf_detach n d Hwf) as [H1 H2].
  assert (n ∉ childrenOf (detach n d) p) as Hnot.
  { rewrite <- H1, parentOf_detach. by rewrite decide_True. }
  destruct (Hpl _ Hnot (H2 p)) as [Hnd Hin].
  split.
  - intros m q. rewrite parentOf_attach, childrenOf_attach by done.
    destruct (decide (q = p)) as [->|Hq].
    + rewrite Hin, <- H1, parentOf_detach.
      destruct (decide (m = n)) as [->|]; naive_solver.
    + rewrite <- H1, parentOf_detach.
      destruct (decide (m = n)) as [->|]; naive_solver.
  - intros q. rewrite childrenOf_attach by done. case_decide; [done|apply H2].
Qed.
Lemma elem_of_insert_before n r (l : list nat) m :
  m ∈ insert_before n r l ↔ m = n ∨ m ∈ l.
Proof.
  induction l as [|x l IH]; simpl.
  - rewrite list_elem_of_singleton, elem_of_nil. naive_solver.
  - case_decide; rewrite !elem_of_cons; [naive_solver|]. rewrite IH. naive_solver.
Qed.

Lemma places_insert_before n r : places n (insert_before n r).
Proof.
  intros l Hn Hnd. split; [|apply elem_of_insert_before].
  induction l as [|x l IH]; simpl.
  - apply NoDup_singleton.
  - apply not_elem_of_cons in Hn as [Hx Hl]. case_decide.
    + apply NoDup_cons; split; [|done]. by apply not_elem_of_cons.
    + apply NoDup_cons in Hnd as [Hxl Hnd]. apply NoDup_cons. split; [|by apply IH].
      rewrite elem_of_insert_before. naive_solver.
Qed.

Lemma places_append n : places n (λ l, l ++ [n]).
Proof.
  intros l Hn Hnd. split.
  - apply NoDup_app. repeat split; [done| |apply NoDup_singleton].
    intros x Hx Hx'. apply list_elem_of_singleton in Hx'. by subst.
  - intros m. rewrite elem_of_app, list_elem_of_singleton. naive_solver.
Qed.

Lemma insert_before_app n r (l1 l2 : list nat) :
  r ∉ l1 → insert_before n r (l1 ++ r :: l2) = l1 ++ n :: r :: l2.
Proof.
  induction l1 as [|x l1 IH]; simpl; intros Hr.
  - by rewrite decide_True.
  - apply not_elem_of_cons in Hr as [? ?]. rewrite decide_False by done. by rewrite IH.
Qed.

Lemma insert_before_absent n r (l : list nat) :
  r ∉ l → insert_before n r l = l ++ [n].
Proof.
  induction l as [|x l IH]; simpl; intros Hr; [done|].
  apply not_elem_of_cons in Hr as [? ?]. rewrite decide_False by done. by rewrite IH.
Qed.

(** [createElement] *)
Lemma lookup_create d (x : Node) m :
  (d ++ [x]) !! m = if decide (m = length d) then Some x else d !! m.
Proof.
  case_decide as Hm.
  - subst. rewrite lookup_app_r by lia. by rewrite Nat.sub_diag.
  - destruct (decide (m < length d)%nat).
    + by rewrite lookup_app_l.
    + rewrite !lookup_ge_None_2; [done|lia|]. rewrite length_app. simpl. lia.
Qed.

Lemma parentOf_create d tag m : parentOf (d ++ [blankNode tag]) m = parentOf d m.
Proof.
  unfold parentOf. rewrite lookup_create. case_decide; [|done].
  subst. by rewrite (lookup_ge_None_2 d (length d)).
Qed.

Lemma childrenOf_create d tag m : childrenOf (d ++ [blankNode tag]) m = childrenOf d m.
Proof.
  unfold childrenOf. rewrite lookup_create. case_decide; [|done].
  subst. by rewrite (lookup_ge_None_2 d (length d)).
Qed.

Lemma nodeAttrs_create d tag m :
  nodeAttrs (d ++ [blankNode tag]) m
  = if decide (m = length d) then Some (blankNode tag) else nodeAttrs d m.
Proof. unfold nodeAttrs. rewrite lookup_create. by case_decide. Qed.

Lemma wf_create d tag : wf_dom d → wf_dom (d ++ [blankNode tag]).
Proof.
  intros [H1 H2]. split.
  - intros m p. by rewrite parentOf_create, childrenOf_create.
  - intros p. by rewrite childrenOf_create.
Qed.

Lemma nodeAttrs_lt d n x : nodeAttrs d n = Some x → (n < length d)%nat.
Proof.
  unfold nodeAttrs. destruct (d !! n) eqn:E; [|done]. intros _.
  by apply lookup_lt_Some in E.
Qed.

Lemma nodeAttrs_ge d n : (length d ≤ n)%nat → nodeAttrs d n = None.
Proof. intros H. unfold nodeAttrs. by rewrite lookup_ge_None_2. Qed.

Lemma wf_not_child_fresh d n p : wf_dom d → (length d ≤ n)%nat → n ∉ childrenOf d p.
Proof.
  intros [H1 _] Hn Hin. apply H1 in Hin. apply parentOf_lt in Hin. lia.
Qed.

Lemma wf_dom_b_sound d : wf_dom_b d = true → wf_dom d.
Proof.
  unfold wf_dom_b. rewrite forallb_forall. intros H.
  assert (∀ n, (n < length d)%nat → wf_node_b d n = true) as Hn.
  { intros n Hlt. apply H. apply in_seq. lia. }
  split.
  - intros n p. split.
    + intros Hp. pose proof (parentOf_lt _ _ _ Hp) as Hlt.
      specialize (Hn n Hlt). unfold wf_node_b in Hn. rewrite Hp in Hn.
      apply andb_prop in Hn as [Hn _]. apply andb_prop in Hn as [Hn _].
      by apply bool_decide_eq_true in Hn.
    + intros Hin. pose proof (childrenOf_lt _ _ _ Hin) as Hlt.
      specialize (Hn p Hlt). unfold wf_node_b in Hn.
      apply andb_prop in Hn as [Hn _]. apply andb_prop in Hn as [_ Hn].
      rewrite forallb_forall in Hn. apply list_elem_of_In in Hin.
      specialize (Hn n Hin). by apply bool_decide_eq_true in Hn.
  - intros p. destruct (decide (p < length d)%nat) as [Hlt|Hge].
    + specialize (Hn p Hlt). unfold wf_node_b in Hn.
      apply andb_prop in Hn as [_ Hn]. by apply bool_decide_eq_true in Hn.
    + unfold childrenOf. rewrite lookup_ge_None_2 by lia. apply NoDup_nil_2.
Qed.
End DomLemmas.

Global Instance AttrWrite_className v : AttrWrite (set_className v).
Proof. by split. Qed.
Global Instance AttrWrite_title v : AttrWrite (set_title v).
Proof. by split. Qed.
Global Instance AttrWrite_innerHTML v : AttrWrite (set_innerHTML v).
Proof. by split. Qed.
Global Instance AttrWrite_style g : AttrWrite (fun x => set_style (g (style x)) x).
Proof. by split. Qed.
Global Instance AttrWrite_layout w h l t : AttrWrite (set_layout w h l t).
Proof. by split. Qed.
Global Instance AttrWrite_originalStyles v : AttrWrite (set_originalStyles v).
Proof. by split. Qed.
Global Instance AttrWrite_paused v : AttrWrite (set_paused v).
Proof. by split. Qed.
Global Instance AttrWrite_currentTime v : AttrWrite (set_currentTime v).
Proof. by split. Qed.
Global Instance AttrWrite_media p t : AttrWrite (fun x => set_currentTime t (set_paused p x)).
Proof. by split. Qed.
Global Instance AttrWrite_listener ev h : AttrWrite (add_listener ev h).
Proof. by split. Qed.


Global Instance IdentWrite_title v : IdentWrite (set_title v).
Proof. by intros x. Qed.
Global Instance IdentWrite_innerHTML v : IdentWrite (set_innerHTML v).
Proof. by intros x. Qed.
Global Instance IdentWrite_style g : IdentWrite (fun x => set_style (g (style x)) x).
Proof. by intros x. Qed.
Global Instance IdentWrite_layout w h l t : IdentWrite (set_layout w h l t).
Proof. by intros x. Qed.
Global Instance IdentWrite_originalStyles v : IdentWrite (set_originalStyles v).
Proof. by intros x. Qed.
Global Instance IdentWrite_paused v : IdentWrite (set_paused v).
Proof. by intros x. Qed.
Global Instance IdentWrite_media p t : IdentWrite (fun x => set_currentTime t (set_paused p x)).
Proof. by intros x. Qed.
Global Instance IdentWrite_currentTime v : IdentWrite (set_currentTime v).
Proof. by intros x. Qed.
Global Instance IdentWrite_listener ev h : IdentWrite (add_listener ev h).
Proof. by intros x. Qed.


Section IdentLemmas.
Implicit Types (d : list Node) (n m p q : nat) (f : Node → Node).

(** The tag and the class of a node that exists are never written. *)
Lemma identOf_update n f `{!AttrWrite f} `{!IdentWrite f} d m :
  identOf (update n f d) m = identOf d m.
Proof.
  unfold identOf. rewrite (nodeAttrs_update n f d m). case_decide; [subst|done].
  destruct (nodeAttrs d m) as [x|]; simpl; [|done]. by rewrite ident_write.
Qed.

Lemma identOf_attach p n place d m : identOf (attach p n place d) m = identOf d m.
Proof. unfold identOf. by rewrite nodeAttrs_attach. Qed.

Lemma identOf_detach n d m : identOf (detach n d) m = identOf d m.
Proof. unfold identOf. by rewrite nodeAttrs_detach. Qed.

Lemma identOf_create d tag m :
  identOf (d ++ [blankNode tag]) m
  = if decide (m = length d) then Some (tag, "") else identOf d m.
Proof. unfold identOf. rewrite nodeAttrs_create. by case_decide. Qed.

Lemma tagOf_ident d n : tagOf d n = fst <$> identOf d n.
Proof. unfold identOf. rewrite tagOf_attrs. by destruct (nodeAttrs d n). Qed.

Lemma isPlaceholder_ident d n :
  isPlaceholder d n ↔
  ∃ t cl, identOf d n = Some (t, cl) ∧ placeholderClass ∈ tokens_aux "" cl.
Proof.
  rewrite isPlaceholder_attrs. unfold identOf.
  destruct (nodeAttrs d n) as [x|]; simpl.
  - unfold sel_class, classTokens, identity. rewrite bool_decide_eq_true.
    split; [eauto|]. by intros (t & cl & [= <- <-] & H).
  - split; [done|]. by intros (t & cl & ? & _).
Qed.

Lemma isVideo_ident d d' n : identOf d' n = identOf d n → isVideo d' n ↔ isVideo d n.
Proof. unfold isVideo. rewrite !tagOf_ident. by intros ->. Qed.

Lemma isPlaceholder_ident_eq d d' n :
  identOf d' n = identOf d n → isPlaceholder d' n ↔ isPlaceholder d n.
Proof. rewrite !isPlaceholder_ident. by intros ->. Qed.

End IdentLemmas.

Ltac side := first [ apply _ | done | lia ].

Ltac dom_views :=
  unfold update_style;
  repeat first [ rewrite parentOf_update by side
               | rewrite childrenOf_update by side
               | rewrite length_update
               | rewrite length_attach
               | rewrite length_detach ].

Ltac attrs_ne :=
  unfold update_style;
  repeat first [ rewrite nodeAttrs_update_ne by side
               | rewrite nodeAttrs_attach
               | rewrite nodeAttrs_detach ].

Ltac attrs_eq :=
  unfold update_style;
  repeat first [ rewrite nodeAttrs_update_eq by side
               | rewrite nodeAttrs_update_ne by side
               | rewrite nodeAttrs_attach
               | rewrite nodeAttrs_detach ].

Ltac ident_same :=
  unfold update_style;
  repeat first [ rewrite identOf_update by side
               | rewrite identOf_attach
               | rewrite identOf_detach ].


(** ** The blocks of [showFloatingPlayer] and [hideFloatingPlayer] *)

Section Blocks.
Implicit Types (d : list Node) (n m p q c v ph : nat).

Lemma removePlaceholder_detach ph d : removePlaceholder ph d = detach ph d.
Proof.
  unfold removePlaceholder, removeChild.
  destruct (parentOf d ph) as [pp|] eqn:E.
  - by rewrite decide_True.
  - unfold detach. by rewrite E.
Qed.

(** Blocks that write attributes only leave the tree as it is. *)
Lemma stylePlaceholder_parentOf ph v d m :
  parentOf (stylePlaceholder ph v d) m = parentOf d m.
Proof. unfold stylePlaceholder. by dom_views. Qed.
Lemma stylePlaceholder_childrenOf ph v d m :
  childrenOf (stylePlaceholder ph v d) m = childrenOf d m.
Proof. unfold stylePlaceholder. by dom_views. Qed.
Lemma stylePlaceholder_length ph v d :
  length (stylePlaceholder ph v d) = length d.
Proof. unfold stylePlaceholder. by dom_views. Qed.
Lemma stylePlaceholder_other ph v d m :
  m ≠ ph → nodeAttrs (stylePlaceholder ph v d) m = nodeAttrs d m.
Proof.
  intros Hm. unfold stylePlaceholder. by attrs_ne.
Qed.

Lemma storeOriginalStyles_parentOf v d m :
  parentOf (storeOriginalStyles v d) m = parentOf d m.
Proof. unfold storeOriginalStyles. by dom_views. Qed.
Lemma storeOriginalStyles_childrenOf v d m :
  childrenOf (storeOriginalStyles v d) m = childrenOf d m.
Proof. unfold storeOriginalStyles. by dom_views. Qed.
Lemma storeOriginalStyles_length v d :
  length (storeOriginalStyles v d) = length d.
Proof. unfold storeOriginalStyles. by dom_views. Qed.

Lemma restoreStyles_parentOf v d m :
  parentOf (restoreStyles v d) m = parentOf d m.
Proof. unfold restoreStyles. destruct (_ ≫= _) as [[w h]|]; by dom_views. Qed.
Lemma restoreStyles_childrenOf v d m :
  childrenOf (restoreStyles v d) m = childrenOf d m.
Proof. unfold restoreStyles. destruct (_ ≫= _) as [[w h]|]; by dom_views. Qed.
Lemma restoreStyles_length v d : length (restoreStyles v d) = length d.
Proof. unfold restoreStyles. destruct (_ ≫= _) as [[w h]|]; by dom_views. Qed.

Lemma resetContainer_parentOf c d m :
  parentOf (resetContainer c d) m = parentOf d m.
Proof. unfold resetContainer. by dom_views. Qed.
Lemma resetContainer_childrenOf c d m :
  childrenOf (resetContainer c d) m = childrenOf d m.
Proof. unfold resetContainer. by dom_views. Qed.
Lemma resetContainer_length c d : length (resetContainer c d) = length d.
Proof. unfold resetContainer. by dom_views. Qed.

Lemma stylePlaceholder_ident ph v d m :
  m ≠ ph → identOf (stylePlaceholder ph v d) m = identOf d m.
Proof. intros Hm. unfold identOf. by rewrite stylePlaceholder_other. Qed.

Lemma stylePlaceholder_ident_ph ph v d x :
  nodeAttrs d ph = Some x →
  identOf (stylePlaceholder ph v d) ph = Some (tagName x, placeholderClass).
Proof.
  intros Hx. unfold identOf, stylePlaceholder. attrs_eq. by rewrite Hx.
Qed.

Lemma stylePlaceholder_size ph v d x :
  nodeAttrs d ph = Some x → ph ≠ v →
  Style.width (styleOf (stylePlaceholder ph v d) ph)
    = CssPx (from_option offsetWidth 0 (d !! v)) ∧
  Style.height (styleOf (stylePlaceholder ph v d) ph)
    = CssPx (from_option offsetHeight 0 (d !! v)).
Proof.
  intros Hx Hne. rewrite !styleOf_attrs. unfold stylePlaceholder. attrs_eq.
  by rewrite Hx.
Qed.

Lemma storeOriginalStyles_ident v d m :
  identOf (storeOriginalStyles v d) m = identOf d m.
Proof. unfold storeOriginalStyles. by ident_same. Qed.

Lemma restoreStyles_ident v d m : identOf (restoreStyles v d) m = identOf d m.
Proof.
  unfold restoreStyles.
  destruct (_ ≫= _) as [[w h]|]; by ident_same.
Qed.

Lemma resetContainer_ident c d m : identOf (resetContainer c d) m = identOf d m.
Proof. unfold resetContainer. by ident_same. Qed.

Lemma moveToContainer_ident c v sz d m :
  identOf (moveToContainer c v sz d) m = identOf d m.
Proof.
  unfold moveToContainer, appendChild. by ident_same.
Qed.

Lemma moveBack_ident vs d m : identOf (moveBack vs d) m = identOf d m.
Proof.
  unfold moveBack, insertBefore, appendChild.
  destruct (VideoState.originalNextSibling vs); [case_decide|];
    by rewrite identOf_attach.
Qed.

(** The styles of the nodes that a block does not write. *)
Lemma restoreStyles_other v d m :
  m ≠ v → nodeAttrs (restoreStyles v d) m = nodeAttrs d m.
Proof.
  intros Hm. unfold restoreStyles. destruct (_ ≫= _) as [[w h]|]; [|done].
  by attrs_ne.
Qed.

Lemma resetContainer_other c d m :
  m ≠ c → nodeAttrs (resetContainer c d) m = nodeAttrs d m.
Proof. intros Hm. unfold resetContainer. by attrs_ne. Qed.

Lemma storeOriginalStyles_other v d m :
  m ≠ v → nodeAttrs (storeOriginalStyles v d) m = nodeAttrs d m.
Proof. intros Hm. unfold storeOriginalStyles. by attrs_ne. Qed.

Lemma moveToContainer_other c v sz d m :
  m ≠ v → m ≠ c → nodeAttrs (moveToContainer c v sz d) m = nodeAttrs d m.
Proof.
  intros Hv Hc. unfold moveToContainer, appendChild. by attrs_ne.
Qed.

Lemma moveBack_attrs vs d m : nodeAttrs (moveBack vs d) m = nodeAttrs d m.
Proof.
  unfold moveBack, insertBefore, appendChild.
  destruct (VideoState.originalNextSibling vs); [case_decide|];
    by rewrite nodeAttrs_attach.
Qed.

(** The tree after the blocks that move a node. *)
Lemma moveToContainer_length c v sz d : length (moveToContainer c v sz d) = length d.
Proof. unfold moveToContainer, appendChild. by dom_views. Qed.

Lemma moveToContainer_parentOf c v sz d m :
  (v < length d)%nat →
  parentOf (moveToContainer c v sz d) m
  = if decide (m = v) then Some c else parentOf d m.
Proof.
  intros Hv. unfold moveToContainer, appendChild. dom_views.
  rewrite parentOf_attach by (by dom_views). by dom_views.
Qed.

Lemma moveToContainer_childrenOf c v sz d q :
  (c < length d)%nat → wf_dom d →
  childrenOf (moveToContainer c v sz d) q
  = if decide (q = c) then filter (λ m, m ≠ v) (childrenOf d c) ++ [v]
    else filter (λ m, m ≠ v) (childrenOf d q).
Proof.
  intros Hc Hwf. unfold moveToContainer, appendChild. dom_views.
  rewrite childrenOf_attach by (by dom_views).
  rewrite !childrenOf_detach_wf by (unfold update_style; by repeat apply wf_update).
  by dom_views.
Qed.

Lemma moveToContainer_wf c v sz d :
  (c < length d)%nat → (v < length d)%nat → wf_dom d →
  wf_dom (moveToContainer c v sz d).
Proof.
  intros Hc Hv Hwf. unfold moveToContainer, appendChild, update_style.
  apply wf_update; [apply _|]. apply wf_attach.
  - by repeat apply wf_update.
  - by dom_views.
  - by dom_views.
  - apply places_append.
Qed.

Lemma moveBack_length vs d : length (moveBack vs d) = length d.
Proof.
  unfold moveBack, insertBefore, appendChild.
  destruct (VideoState.originalNextSibling vs); [case_decide|]; by dom_views.
Qed.

Lemma moveBack_parentOf vs d m :
  (VideoState.video vs < length d)%nat →
  parentOf (moveBack vs d) m
  = if decide (m = VideoState.video vs) then Some (VideoState.originalParent vs)
    else parentOf d m.
Proof.
  intros Hv. unfold moveBack, insertBefore, appendChild.
  destruct (VideoState.originalNextSibling vs); [case_decide|];
    by rewrite parentOf_attach.
Qed.

Lemma moveBack_attach vs d :
  moveBack vs d
  = attach (VideoState.originalParent vs) (VideoState.video vs) (backPlace vs d) d.
Proof.
  unfold moveBack, backPlace, insertBefore, appendChild.
  destruct (VideoState.originalNextSibling vs); [case_decide|]; done.
Qed.

Lemma places_backPlace vs d : places (VideoState.video vs) (backPlace vs d).
Proof.
  unfold backPlace. destruct (VideoState.originalNextSibling vs); [case_decide|];
    auto using places_insert_before, places_append.
Qed.

Lemma moveBack_childrenOf vs d q :
  (VideoState.originalParent vs < length d)%nat → wf_dom d →
  childrenOf (moveBack vs d) q
  = if decide (q = VideoState.originalParent vs)
    then backPlace vs d
           (filter (λ m, m ≠ VideoState.video vs)
              (childrenOf d (VideoState.originalParent vs)))
    else filter (λ m, m ≠ VideoState.video vs) (childrenOf d q).
Proof.
  intros Hp Hwf. rewrite moveBack_attach, childrenOf_attach by done.
  by rewrite !childrenOf_detach_wf.
Qed.

Lemma moveBack_wf vs d :
  (VideoState.originalParent vs < length d)%nat →
  (VideoState.video vs < length d)%nat → wf_dom d → wf_dom (moveBack vs d).
Proof.
  intros Hp Hv Hwf. rewrite moveBack_attach.
  apply wf_attach; auto using places_backPlace.
Qed.

End Blocks.


(** ** What [hideFloatingPlayer] and [showFloatingPlayer] do *)

Section ShowHide.
Implicit Types (s : State) (d : list Node) (n m p q c v ph : nat).

Lemma hide_unfold s c vs :
  floatingContainer s = Some c → videoState s = Some vs → isFloating s = true →
  hideFloatingPlayer s
  = set_isFloating false (set_videoState None (set_dom (hideDom c vs (dom s)) s)).
Proof. intros Hc Hvs Hf. unfold hideFloatingPlayer. by rewrite Hc, Hvs, Hf. Qed.

Lemma hide_noop s :
  isFloating s = false ∨ videoState s = None ∨ floatingContainer s = None →
  hideFloatingPlayer s = s.
Proof.
  unfold hideFloatingPlayer. intros [H|[H|H]]; rewrite H;
    by repeat case_match.
Qed.

Lemma show_unfold s c v p :
  recentlyPlayedVideo s = Some v → floatingContainer s = Some c →
  enabled (currentSettings s) = true → isManuallyHidden s = false →
  isFloating s = false → parentOf (dom s) v = Some p →
  showFloatingPlayer s
  = set_isFloating true
      (set_videoState
         (Some (VideoState.mk v p (nextSiblingOf (dom s) v) (length (dom s))))
         (set_dom (showDom c v p (SIZE_MAP (size (currentSettings s))) (dom s)) s)).
Proof.
  intros Hv Hc He Hh Hf Hp. unfold showFloatingPlayer.
  by rewrite Hv, Hc, He, Hh, Hf, Hp.
Qed.

Lemma show_noop s :
  recentlyPlayedVideo s = None ∨ floatingContainer s = None ∨
  enabled (currentSettings s) = false ∨ isManuallyHidden s = true ∨
  isFloating s = true ∨
  (∀ v, recentlyPlayedVideo s = Some v → parentOf (dom s) v = None) →
  showFloatingPlayer s = s.
Proof.
  unfold showFloatingPlayer.
  destruct (recentlyPlayedVideo s) as [v|] eqn:Hv; [|done].
  destruct (floatingContainer s) as [c|] eqn:Hc; [|done].
  intros [H|[H|[H|[H|[H|H]]]]]; try done.
  - by rewrite H.
  - rewrite H. by rewrite orb_true_r.
  - rewrite H. by rewrite !orb_true_r.
  - rewrite (H v eq_refl). by case_match.
Qed.

(** The DOM after [hideFloatingPlayer]. *)
Section HideDom.
Variables (c : nat) (vs : VideoState.t) (d : list Node).
Hypothesis Hwf : wf_dom d.
Hypothesis Hv : (VideoState.video vs < length d)%nat.
Hypothesis Hp : (VideoState.originalParent vs < length d)%nat.

Lemma hideDom_length : length (hideDom c vs d) = length d.
Proof.
  unfold hideDom. rewrite resetContainer_length, removePlaceholder_detach.
  by rewrite length_detach, moveBack_length, restoreStyles_length.
Qed.

Lemma restoreStyles_wf : wf_dom (restoreStyles (VideoState.video vs) d).
Proof.
  destruct Hwf as [H1 H2]. split.
  - intros n p. by rewrite restoreStyles_parentOf, restoreStyles_childrenOf.
  - intros p. by rewrite restoreStyles_childrenOf.
Qed.

Lemma hideDom_wf : wf_dom (hideDom c vs d).
Proof.
  unfold hideDom.
  assert (wf_dom (detach (VideoState.placeholder vs)
            (moveBack vs (restoreStyles (VideoState.video vs) d)))) as [H1 H2].
  { apply wf_detach, moveBack_wf; rewrite ?restoreStyles_length;
      auto using restoreStyles_wf. }
  rewrite removePlaceholder_detach. split.
  - intros n p. by rewrite resetContainer_parentOf, resetContainer_childrenOf.
  - intros p. by rewrite resetContainer_childrenOf.
Qed.

Lemma hideDom_parentOf m :
  parentOf (hideDom c vs d) m
  = if decide (m = VideoState.placeholder vs) then None
    else if decide (m = VideoState.video vs)
         then Some (VideoState.originalParent vs)
         else parentOf d m.
Proof.
  unfold hideDom. rewrite resetContainer_parentOf, removePlaceholder_detach.
  rewrite parentOf_detach. case_decide; [done|].
  rewrite moveBack_parentOf by (by rewrite restoreStyles_length).
  case_decide; [done|]. by rewrite restoreStyles_parentOf.
Qed.

Lemma backPlace_restoreStyles l :
  backPlace vs (restoreStyles (VideoState.video vs) d) l = backPlace vs d l.
Proof.
  unfold backPlace. destruct (VideoState.originalNextSibling vs); [|done].
  by rewrite restoreStyles_parentOf.
Qed.

Lemma hideDom_childrenOf q :
  childrenOf (hideDom c vs d) q
  = filter (λ m, m ≠ VideoState.placeholder vs)
      (if decide (q = VideoState.originalParent vs)
       then backPlace vs d
              (filter (λ m, m ≠ VideoState.video vs)
                 (childrenOf d (VideoState.originalParent vs)))
       else filter (λ m, m ≠ VideoState.video vs) (childrenOf d q)).
Proof.
  unfold hideDom. rewrite resetContainer_childrenOf, removePlaceholder_detach.
  rewrite childrenOf_detach_wf
    by (apply moveBack_wf; rewrite ?restoreStyles_length;
        auto using restoreStyles_wf).
  rewrite moveBack_childrenOf
    by (rewrite ?restoreStyles_length; auto using restoreStyles_wf).
  by rewrite backPlace_restoreStyles, !restoreStyles_childrenOf.
Qed.

Lemma hideDom_ident m : identOf (hideDom c vs d) m = identOf d m.
Proof.
  unfold hideDom. rewrite resetContainer_ident, removePlaceholder_detach.
  by rewrite identOf_detach, moveBack_ident, restoreStyles_ident.
Qed.

Lemma hideDom_other m :
  m ≠ c → m ≠ VideoState.video vs →
  nodeAttrs (hideDom c vs d) m = nodeAttrs d m.
Proof.
  intros Hc Hm. unfold hideDom.
  rewrite resetContainer_other, removePlaceholder_detach by done.
  by rewrite nodeAttrs_detach, moveBack_attrs, restoreStyles_other.
Qed.
End HideDom.

(** The DOM after [showFloatingPlayer]. *)
Section ShowDom.
Variables (c v p : nat) (sz : Box.t) (d : list Node).
Hypothesis Hwf : wf_dom d.
Hypothesis Hc : (c < length d)%nat.
Hypothesis Hvp : parentOf d v = Some p.

Let ph := length d.
Let d1 := stylePlaceholder ph v (d ++ [blankNode "DIV"]).
Let d2 := insertBefore p ph v d1.
Let d3 := storeOriginalStyles v d2.

Lemma show_v_lt : (v < length d)%nat.
Proof. by apply parentOf_lt in Hvp. Qed.

Lemma show_p_lt : (p < length d)%nat.
Proof. destruct Hwf as [H1 _]. apply H1 in Hvp. by apply childrenOf_lt in Hvp. Qed.

Lemma show_d1_wf : wf_dom d1.
Proof.
  pose proof (wf_create d "DIV" Hwf) as [H1 H2]. split.
  - intros n q. unfold d1.
    by rewrite stylePlaceholder_parentOf, stylePlaceholder_childrenOf.
  - intros q. unfold d1. by rewrite stylePlaceholder_childrenOf.
Qed.

Lemma show_d1_length : length d1 = S (length d).
Proof. unfold d1. rewrite stylePlaceholder_length, length_app. simpl. lia. Qed.

Lemma show_d2_wf : wf_dom d2.
Proof.
  unfold d2, insertBefore. pose proof show_v_lt. pose proof show_p_lt.
  apply wf_attach; rewrite ?show_d1_length; unfold ph;
    auto using show_d1_wf, places_insert_before with lia.
Qed.

Lemma show_d2_length : length d2 = S (length d).
Proof. unfold d2, insertBefore. by rewrite length_attach, show_d1_length. Qed.

Lemma show_d3_wf : wf_dom d3.
Proof.
  pose proof show_d2_wf as [H1 H2]. split.
  - intros n q. unfold d3.
    by rewrite storeOriginalStyles_parentOf, storeOriginalStyles_childrenOf.
  - intros q. unfold d3. by rewrite storeOriginalStyles_childrenOf.
Qed.

Lemma show_d3_length : length d3 = S (length d).
Proof. unfold d3. by rewrite storeOriginalStyles_length, show_d2_length. Qed.

Lemma showDom_length : length (showDom c v p sz d) = S (length d).
Proof.
  change (showDom c v p sz d) with (moveToContainer c v sz d3).
  by rewrite moveToContainer_length, show_d3_length.
Qed.

Lemma showDom_wf : wf_dom (showDom c v p sz d).
Proof.
  change (showDom c v p sz d) with (moveToContainer c v sz d3).
  pose proof show_v_lt.
  apply moveToContainer_wf; rewrite ?show_d3_length; auto using show_d3_wf with lia.
Qed.

Lemma showDom_parentOf m :
  parentOf (showDom c v p sz d) m
  = if decide (m = v) then Some c
    else if decide (m = ph) then Some p else parentOf d m.
Proof.
  change (showDom c v p sz d) with (moveToContainer c v sz d3).
  pose proof show_v_lt.
  rewrite moveToContainer_parentOf by (rewrite show_d3_length; lia).
  case_decide; [done|]. unfold d3. rewrite storeOriginalStyles_parentOf.
  unfold d2, insertBefore. rewrite parentOf_attach by (rewrite show_d1_length; unfold ph; lia).
  case_decide; [done|]. unfold d1.
  by rewrite stylePlaceholder_parentOf, parentOf_create.
Qed.

Lemma show_d2_childrenOf q :
  childrenOf d2 q
  = if decide (q = p) then insert_before ph v (childrenOf d p)
    else childrenOf d q.
Proof.
  pose proof show_p_lt.
  unfold d2, insertBefore.
  rewrite childrenOf_attach by (rewrite show_d1_length; lia).
  rewrite !childrenOf_detach_wf by apply show_d1_wf.
  unfold d1. rewrite !stylePlaceholder_childrenOf, !childrenOf_create.
  rewrite !filter_ne_id by (apply wf_not_child_fresh; unfold ph; auto with lia).
  done.
Qed.

Lemma showDom_childrenOf q :
  childrenOf (showDom c v p sz d) q
  = if decide (q = c)
    then filter (λ m, m ≠ v)
           (if decide (c = p) then insert_before ph v (childrenOf d p)
            else childrenOf d c) ++ [v]
    else filter (λ m, m ≠ v)
           (if decide (q = p) then insert_before ph v (childrenOf d p)
            else childrenOf d q).
Proof.
  change (showDom c v p sz d) with (moveToContainer c v sz d3).
  rewrite moveToContainer_childrenOf
    by (rewrite ?show_d3_length; auto using show_d3_wf with lia).
  unfold d3. rewrite !storeOriginalStyles_childrenOf, !show_d2_childrenOf.
  done.
Qed.

Lemma showDom_ident m :
  identOf (showDom c v p sz d) m
  = if decide (m = ph) then Some ("DIV", placeholderClass) else identOf d m.
Proof.
  change (showDom c v p sz d) with (moveToContainer c v sz d3).
  rewrite moveToContainer_ident. unfold d3. rewrite storeOriginalStyles_ident.
  unfold d2, insertBefore. rewrite identOf_attach. unfold d1.
  case_decide as Hm.
  - subst m. rewrite (stylePlaceholder_ident_ph _ _ _ (blankNode "DIV")); [done|].
    rewrite nodeAttrs_create. by rewrite decide_True.
  - rewrite stylePlaceholder_ident by done. rewrite identOf_create.
    by rewrite decide_False.
Qed.

Lemma showDom_other m :
  m ≠ c → m ≠ v → m ≠ ph → nodeAttrs (showDom c v p sz d) m = nodeAttrs d m.
Proof.
  intros H1 H2 H3.
  change (showDom c v p sz d) with (moveToContainer c v sz d3).
  rewrite moveToContainer_other by done. unfold d3.
  rewrite storeOriginalStyles_other by done.
  unfold d2, insertBefore. rewrite nodeAttrs_attach. unfold d1.
  rewrite stylePlaceholder_other by done. rewrite nodeAttrs_create.
  by rewrite decide_False.
Qed.

Lemma showDom_placeholder_size :
  Style.width (styleOf (showDom c v p sz d) ph)
    = CssPx (from_option offsetWidth 0 (d !! v)) ∧
  Style.height (styleOf (showDom c v p sz d) ph)
    = CssPx (from_option offsetHeight 0 (d !! v)).
Proof.
  pose proof show_v_lt as Hv.
  assert (ph ≠ v) as Hne by (unfold ph; lia).
  assert (ph ≠ c) as Hnc by (unfold ph; lia).
  change (showDom c v p sz d) with (moveToContainer c v sz d3).
  rewrite styleOf_attrs, moveToContainer_other by done. unfold d3.
  rewrite storeOriginalStyles_other by done.
  unfold d2, insertBefore. rewrite nodeAttrs_attach.
  rewrite <- styleOf_attrs. unfold d1.
  destruct (stylePlaceholder_size ph v (d ++ [blankNode "DIV"]) (blankNode "DIV"))
    as [Hw Hh]; [|done|].
  { rewrite nodeAttrs_create. by rewrite decide_True. }
  rewrite Hw, Hh. by rewrite lookup_app_l.
Qed.
End ShowDom.
End ShowHide.

(** ** The invariant is kept *)

Section ListFacts.
Context {A : Type}.
Implicit Types (l : list A).

Lemma filter_iff_ext (P Q : A → Prop) `{!∀ x, Decision (P x)}
    `{!∀ x, Decision (Q x)} l :
  (∀ x, x ∈ l → P x ↔ Q x) → filter P l = filter Q l.
Proof.
  induction l as [|x l IH]; [done|]. intros Hpq.
  assert (filter P l = filter Q l) as IH'.
  { apply IH. intros y Hy. apply Hpq. by right. }
  destruct (decide (P x)) as [HP|HP].
  - rewrite !filter_cons_True; [by rewrite IH'| |done]. apply Hpq; [by left|done].
  - rewrite !filter_cons_False; [done| |done]. intros HQ. apply HP, Hpq; [by left|done].
Qed.

Lemma filter_none (P : A → Prop) `{!∀ x, Decision (P x)} l :
  (∀ x, x ∈ l → ¬ P x) → filter P l = [].
Proof.
  induction l as [|x l IH]; [done|]. intros Hn.
  rewrite filter_cons_False by (apply Hn; by left).
  apply IH. intros y Hy. apply Hn. by right.
Qed.
End ListFacts.

Lemma after_app v (l1 l2 : list nat) : v ∉ l1 → after v (l1 ++ v :: l2) = head l2.
Proof.
  induction l1 as [|x l1 IH]; simpl; intros Hv.
  - by rewrite decide_True.
  - apply not_elem_of_cons in Hv as [? ?]. rewrite decide_False by done. by apply IH.
Qed.

Lemma filter_ne_app_cons v (l1 l2 : list nat) :
  v ∉ l1 → v ∉ l2 → filter (λ m, m ≠ v) (l1 ++ v :: l2) = l1 ++ l2.
Proof.
  intros H1 H2. rewrite filter_app, filter_cons_False by naive_solver.
  by rewrite !filter_ne_id.
Qed.

Section InvFacts.
Implicit Types (s : State) (d : list Node) (n m p q c v ph : nat).

Lemma dom_equiv_refl d : dom_equiv d d.
Proof. by split. Qed.

Lemma dom_equiv_trans d1 d2 d3 :
  dom_equiv d1 d2 → dom_equiv d2 d3 → dom_equiv d1 d3.
Proof.
  intros [L1 H1] [L2 H2]. split; [congruence|]. intros m.
  destruct (H1 m) as (?&?&?), (H2 m) as (?&?&?). repeat split; congruence.
Qed.

Lemma dom_equiv_update n f `{!AttrWrite f} `{!IdentWrite f} d :
  dom_equiv d (update n f d).
Proof.
  split; [apply length_update|]. intros m.
  by rewrite parentOf_update, childrenOf_update, identOf_update.
Qed.

Lemma dom_equiv_update_style n g d : dom_equiv d (update_style n g d).
Proof. unfold update_style. apply dom_equiv_update; apply _. Qed.

Lemma dom_equiv_wf d d' : dom_equiv d d' → wf_dom d → wf_dom d'.
Proof.
  intros [_ H] [H1 H2]. split.
  - intros n p. destruct (H n) as (-> & _ & _), (H p) as (_ & -> & _). apply H1.
  - intros p. destruct (H p) as (_ & -> & _). apply H2.
Qed.

Lemma dom_equiv_isVideo d d' n : dom_equiv d d' → isVideo d' n ↔ isVideo d n.
Proof. intros [_ H]. apply isVideo_ident, H. Qed.

Lemma dom_equiv_isPlaceholder d d' n :
  dom_equiv d d' → isPlaceholder d' n ↔ isPlaceholder d n.
Proof. intros [_ H]. apply isPlaceholder_ident_eq, H. Qed.

Lemma dom_equiv_tagOf d d' n : dom_equiv d d' → tagOf d' n = tagOf d n.
Proof. intros [_ H]. rewrite !tagOf_ident. by destruct (H n) as (_ & _ & ->). Qed.

(** The invariant reads six fields of the state. *)
Lemma Inv_ext s s' :
  dom s' = dom s → body s' = body s →
  recentlyPlayedVideo s' = recentlyPlayedVideo s →
  floatingContainer s' = floatingContainer s →
  videoState s' = videoState s → isFloating s' = isFloating s →
  Inv s → Inv s'.
Proof.
  intros Hd Hb Hr Hc Hv Hf [I1 I2 I3 I4 I5 I6 I7 I8].
  split; unfold floatingVideos in *; rewrite ?Hd, ?Hb, ?Hr, ?Hc, ?Hv, ?Hf; done.
Qed.

Lemma Inv_dom_equiv s d' : dom_equiv (dom s) d' → Inv s → Inv (set_dom d' s).
Proof.
  intros He [I1 I2 I3 I4 I5 I6 I7 I8]. pose proof He as [HL H].
  split; simpl.
  - by apply (dom_equiv_wf (dom s)).
  - lia.
  - intros v Hv. apply (dom_equiv_isVideo _ _ _ He). auto.
  - intros c Hc. rewrite HL, (dom_equiv_isVideo _ _ _ He), (dom_equiv_isPlaceholder _ _ _ He). auto.
  - rewrite <- I5. unfold floatingVideos. simpl.
    destruct (floatingContainer s) as [c|]; [|done].
    destruct (H c) as (_ & -> & _). apply filter_iff_ext.
    intros x _. by apply dom_equiv_isVideo.
  - done.
  - intros vs c Hvs Hc. destruct (I7 vs c Hvs Hc) as (Hne & Hph & l1 & l2 & Hl & Hh).
    split; [done|]. split; [by apply (dom_equiv_isPlaceholder _ _ _ He)|].
    exists l1, l2. destruct (H (VideoState.originalParent vs)) as (_ & -> & _). done.
  - intros n Hn Hp. apply I8.
    + by apply (dom_equiv_isPlaceholder _ _ _ He).
    + by destruct (H n) as (<- & _ & _).
Qed.

Lemma Inv_update s n f `{!AttrWrite f} `{!IdentWrite f} :
  Inv s → Inv (with_dom (update n f) s).
Proof. apply Inv_dom_equiv, dom_equiv_update; apply _. Qed.

Lemma Inv_update_style s n g : Inv s → Inv (with_dom (update_style n g) s).
Proof. apply Inv_dom_equiv, dom_equiv_update_style. Qed.

Lemma Inv_tracked s v :
  isVideo (dom s) v → Inv s → Inv (set_recentlyPlayedVideo (Some v) s).
Proof.
  intros Hv [I1 I2 I3 I4 I5 I6 I7 I8]. split; try done.
  simpl. by intros ? [= <-].
Qed.

(** What the invariant says of a floating state. *)
Lemma Inv_floating s vs :
  Inv s → videoState s = Some vs →
  ∃ c l1 l2,
    floatingContainer s = Some c ∧ isFloating s = true ∧
    (c < length (dom s))%nat ∧
    parentOf (dom s) (VideoState.video vs) = Some c ∧
    isVideo (dom s) (VideoState.video vs) ∧
    VideoState.originalParent vs ≠ c ∧
    isPlaceholder (dom s) (VideoState.placeholder vs) ∧
    parentOf (dom s) (VideoState.placeholder vs) = Some (VideoState.originalParent vs) ∧
    VideoState.placeholder vs ≠ VideoState.video vs ∧
    VideoState.placeholder vs ≠ c ∧
    childrenOf (dom s) (VideoState.originalParent vs)
      = l1 ++ VideoState.placeholder vs :: l2 ∧
    head l2 = VideoState.originalNextSibling vs ∧
    (VideoState.placeholder vs ∉ l1) ∧ (VideoState.placeholder vs ∉ l2) ∧
    (VideoState.video vs ∉ l1) ∧ (VideoState.video vs ∉ l2) ∧
    NoDup (l1 ++ l2).
Proof.
  intros [I1 I2 I3 I4 I5 I6 I7 I8] Hvs. pose proof I1 as [W1 W2].
  unfold floatingVideos in I5. rewrite Hvs in I5, I6.
  destruct (floatingContainer s) as [c|] eqn:Hc; [|done].
  assert (VideoState.video vs ∈ filter (isVideo (dom s)) (childrenOf (dom s) c)) as Hin.
  { rewrite I5. by left. }
  apply list_elem_of_filter in Hin as [Hvid Hin].
  destruct (I7 vs c Hvs eq_refl) as (Hne & Hph & l1 & l2 & Hl & Hh).
  assert (parentOf (dom s) (VideoState.placeholder vs)
          = Some (VideoState.originalParent vs)) as Hpp.
  { apply W1. rewrite Hl. apply elem_of_app. right. by left. }
  pose proof (W2 (VideoState.originalParent vs)) as Hnd. rewrite Hl in Hnd.
  apply NoDup_app in Hnd as (Hnd1 & Hnd2 & Hnd3).
  apply NoDup_cons in Hnd3 as [Hnd3 Hnd4].
  assert (parentOf (dom s) (VideoState.video vs) = Some c) as Hvp by by apply W1.
  assert (VideoState.video vs ∉ childrenOf (dom s) (VideoState.originalParent vs)) as Hvn.
  { intros Hx. apply W1 in Hx. congruence. }
  rewrite Hl in Hvn. rewrite not_elem_of_app, not_elem_of_cons in Hvn.
  destruct Hvn as (Hv1 & Hv2 & Hv3).
  destruct (I4 c eq_refl) as (Hct & Hcv & Hcp).
  assert (VideoState.placeholder vs ≠ VideoState.video vs) as Hpv.
  { intros Heq. rewrite Heq in Hpp. congruence. }
  assert (VideoState.placeholder vs ≠ c) as Hpc.
  { intros Heq. by rewrite Heq in Hph. }
  assert (VideoState.placeholder vs ∉ l1) as Hp1.
  { intros Hx. apply (Hnd2 _ Hx). by left. }
  assert (NoDup (l1 ++ l2)) as Hnd12.
  { apply NoDup_app. repeat split; [done| |done].
    intros x Hx Hx'. apply (Hnd2 _ Hx). by right. }
  assert (c < length (dom s))%nat as Hcl by by apply childrenOf_lt in Hin.
  exists c, l1, l2. split_and!; done.
Qed.

Lemma Inv_docked s :
  Inv s → videoState s = None →
  isFloating s = false ∧ floatingVideos s = [] ∧
  ∀ n, isPlaceholder (dom s) n → parentOf (dom s) n = None.
Proof.
  intros [I1 I2 I3 I4 I5 I6 I7 I8] Hvs. rewrite Hvs in I5, I6, I8.
  split_and!; [done|done|].
  intros n Hn. destruct (parentOf (dom s) n) eqn:E; [|done].
  assert (is_Some (parentOf (dom s) n)) as Hs by (by rewrite E).
  by specialize (I8 n Hn Hs).
Qed.

Lemma Inv_flag_None s : Inv s → isFloating s = false → videoState s = None.
Proof.
  intros [I1 I2 I3 I4 I5 I6 I7 I8] Hf. rewrite Hf in I6.
  symmetry in I6. apply bool_decide_eq_false in I6.
  destruct (videoState s); [|done]. by destruct I6.
Qed.

Lemma Inv_container_None s : Inv s → floatingContainer s = None → videoState s = None.
Proof.
  intros [I1 I2 I3 I4 I5 I6 I7 I8] Hc. unfold floatingVideos in I5. rewrite Hc in I5.
  by destruct (videoState s).
Qed.
End InvFacts.

Section InvShowHide.
Implicit Types (s : State) (d : list Node) (n m p q c v ph : nat).

(** Where the video lands when the DOM has not been touched since it
    floated: in the slot of its placeholder. *)
Lemma backPlace_slot vs d (l1 l2 : list nat) :
  wf_dom d →
  childrenOf d (VideoState.originalParent vs)
    = l1 ++ VideoState.placeholder vs :: l2 →
  head l2 = VideoState.originalNextSibling vs →
  VideoState.placeholder vs ≠ VideoState.video vs →
  VideoState.video vs ∉ l1 → VideoState.video vs ∉ l2 →
  filter (λ m, m ≠ VideoState.placeholder vs)
    (backPlace vs d
       (filter (λ m, m ≠ VideoState.video vs)
          (childrenOf d (VideoState.originalParent vs))))
  = l1 ++ VideoState.video vs :: l2.
Proof.
  intros [W1 W2] Hl Hh Hne Hv1 Hv2.
  pose proof (W2 (VideoState.originalParent vs)) as Hnd. rewrite Hl in Hnd.
  apply NoDup_app in Hnd as (Hnd1 & Hnd2 & Hnd3).
  apply NoDup_cons in Hnd3 as [Hnd3 Hnd4].
  assert (VideoState.placeholder vs ∉ l1) as Hp1.
  { intros Hx. apply (Hnd2 _ Hx). by left. }
  rewrite Hl, (filter_ne_id (VideoState.video vs))
    by (rewrite not_elem_of_app, not_elem_of_cons; naive_solver).
  unfold backPlace. rewrite <- Hh. destruct l2 as [|n l2]; simpl.
  - rewrite <- !app_assoc. simpl.
    rewrite filter_app, filter_cons_False, filter_cons_True by naive_solver.
    by rewrite filter_nil, filter_ne_id.
  - rewrite decide_True.
    2:{ apply W1. rewrite Hl. rewrite elem_of_app, !elem_of_cons. naive_solver. }
    apply not_elem_of_cons in Hnd3 as [Hn Hnd3].
    apply NoDup_cons in Hnd4 as [Hn2 Hnd4].
    apply not_elem_of_cons in Hv2 as [Hvn Hv2].
    replace (l1 ++ VideoState.placeholder vs :: n :: l2)
      with ((l1 ++ [VideoState.placeholder vs]) ++ n :: l2)
      by (by rewrite <- app_assoc).
    rewrite insert_before_app.
    2:{ rewrite not_elem_of_app, list_elem_of_singleton. split; [|done].
        intros Hx. apply (Hnd2 _ Hx). right. by left. }
    rewrite <- app_assoc. simpl.
    rewrite filter_app, filter_cons_False by naive_solver.
    rewrite filter_ne_id by done.
    rewrite !filter_cons_True by naive_solver.
    by rewrite filter_ne_id.
Qed.

Lemma hide_slot s vs c l1 l2 :
  Inv s → videoState s = Some vs → floatingContainer s = Some c →
  childrenOf (dom s) (VideoState.originalParent vs)
    = l1 ++ VideoState.placeholder vs :: l2 →
  childrenOf (hideDom c vs (dom s)) (VideoState.originalParent vs)
  = l1 ++ VideoState.video vs :: l2.
Proof.
  intros HI Hvs Hc Hl.
  destruct (Inv_floating s vs HI Hvs)
    as (c' & k1 & k2 & Hc' & Hf & Hcl & Hvp & Hvid & Hne & Hph & Hpp & Hpv & Hpc
        & Hk & Hh & Hp1 & Hp2 & Hv1 & Hv2 & Hnd).
  assert (c' = c) as -> by congruence.
  pose proof (inv_wf s HI) as Hwf. pose proof Hwf as [W1 W2].
  assert (l1 = k1 ∧ l2 = k2) as [-> ->].
  { rewrite Hl in Hk.
    pose proof (W2 (VideoState.originalParent vs)) as Hn. rewrite Hl in Hn.
    apply NoDup_app in Hn as (_ & Hn1 & Hn2). apply NoDup_cons in Hn2 as [Hn2 _].
    assert (VideoState.placeholder vs ∉ l1) as Hx1.
    { intros Hx. apply (Hn1 _ Hx). by left. }
    clear -Hk Hx1 Hn2 Hp1 Hp2.
    revert k1 Hk Hp1. induction l1 as [|x l1 IH]; intros [|y k1] Hk Hp1; simpl in *.
    - by simplify_eq.
    - simplify_eq. exfalso. apply Hp1. by left.
    - simplify_eq. exfalso. apply Hx1. by left.
    - simplify_eq. apply not_elem_of_cons in Hx1 as [? ?].
      apply not_elem_of_cons in Hp1 as [? ?].
      destruct (IH ltac:(done) k1) as [-> ->]; done. }
  rewrite hideDom_childrenOf.
  - rewrite decide_True by done. by apply backPlace_slot.
  - done.
  - by apply parentOf_lt in Hvp.
  - apply W1 in Hpp. by apply childrenOf_lt in Hpp.
Qed.

Lemma Inv_hideDom s vs c :
  Inv s → videoState s = Some vs → floatingContainer s = Some c →
  Inv (set_isFloating false (set_videoState None (set_dom (hideDom c vs (dom s)) s))).
Proof.
  intros HI Hvs Hc.
  destruct (Inv_floating s vs HI Hvs)
    as (c' & l1 & l2 & Hc' & Hf & Hcl & Hvp & Hvid & Hne & Hph & Hpp & Hpv & Hpc
        & Hl & Hh & Hp1 & Hp2 & Hv1 & Hv2 & Hnd).
  assert (c' = c) as -> by congruence.
  pose proof HI as [I1 I2 I3 I4 I5 I6 I7 I8]. pose proof I1 as [W1 W2].
  assert (VideoState.video vs < length (dom s))%nat as Hvl by by apply parentOf_lt in Hvp.
  assert (VideoState.originalParent vs < length (dom s))%nat as Hpl.
  { apply W1 in Hpp. by apply childrenOf_lt in Hpp. }
  assert (∀ m, isVideo (hideDom c vs (dom s)) m ↔ isVideo (dom s) m) as Hiv.
  { intros m. apply isVideo_ident. by apply hideDom_ident. }
  assert (∀ m, isPlaceholder (hideDom c vs (dom s)) m ↔ isPlaceholder (dom s) m) as Hip.
  { intros m. apply isPlaceholder_ident_eq. by apply hideDom_ident. }
  split; simpl.
  - by apply hideDom_wf.
  - by rewrite hideDom_length.
  - intros v Hv. apply Hiv. auto.
  - intros c0 Hc0. rewrite hideDom_length, Hiv, Hip by done. auto.
  - unfold floatingVideos. simpl. rewrite Hc.
    rewrite hideDom_childrenOf by done. rewrite decide_False by done.
    apply filter_none. intros x Hx Hxv.
    apply list_elem_of_filter in Hx as [Hx1 Hx]. apply list_elem_of_filter in Hx as [Hx2 Hx].
    assert (x ∈ filter (isVideo (dom s)) (childrenOf (dom s) c)) as Hin.
    { apply list_elem_of_filter. split; [by apply Hiv|done]. }
    unfold floatingVideos in I5. rewrite Hc, Hvs in I5. rewrite I5 in Hin.
    by apply list_elem_of_singleton in Hin.
  - done.
  - done.
  - intros n Hn [q Hq]. exfalso. apply Hip in Hn.
    rewrite hideDom_parentOf in Hq by done.
    destruct (decide (n = VideoState.placeholder vs)) as [->|Hnp]; [done|].
    assert (Some n = VideoState.placeholder <$> videoState s) as Hx.
    { apply I8; [done|]. destruct (decide (n = VideoState.video vs)) as [->|]; eauto. }
    rewrite Hvs in Hx. simpl in Hx. congruence.
Qed.

Lemma Inv_hide s : Inv s → Inv (hideFloatingPlayer s).
Proof.
  intros HI. destruct (isFloating s) eqn:Hf.
  - destruct (videoState s) as [vs|] eqn:Hvs.
    + destruct (Inv_floating s vs HI Hvs) as (c & _ & _ & Hc & _).
      rewrite (hide_unfold s c vs) by done. by apply Inv_hideDom.
    + rewrite hide_noop by auto. done.
  - rewrite hide_noop by auto. done.
Qed.

Lemma hide_docked s :
  Inv s → videoState (hideFloatingPlayer s) = None ∧
          isFloating (hideFloatingPlayer s) = false.
Proof.
  intros HI. destruct (isFloating s) eqn:Hf.
  - destruct (videoState s) as [vs|] eqn:Hvs.
    + destruct (Inv_floating s vs HI Hvs) as (c & _ & _ & Hc & _).
      by rewrite (hide_unfold s c vs).
    + destruct (Inv_docked s HI Hvs) as [Hx _]. congruence.
  - rewrite hide_noop by auto. split; [|done]. by apply Inv_flag_None.
Qed.
End InvShowHide.

Global Arguments showDom : simpl never.
Global Arguments hideDom : simpl never.

Section InvShow.
Implicit Types (s : State) (d : list Node) (n m p q c v ph : nat).

Lemma placeholderClass_token : placeholderClass ∈ tokens_aux "" placeholderClass.
Proof. vm_compute. by left. Qed.

Lemma identOf_lt d n x : identOf d n = Some x → (n < length d)%nat.
Proof.
  unfold identOf. destruct (nodeAttrs d n) eqn:E; [|done]. intros _.
  by apply nodeAttrs_lt in E.
Qed.

Lemma isPlaceholder_lt d n : isPlaceholder d n → (n < length d)%nat.
Proof.
  rewrite isPlaceholder_ident. intros (t & cl & H & _). by apply identOf_lt in H.
Qed.

Lemma isVideo_lt d n : isVideo d n → (n < length d)%nat.
Proof.
  unfold isVideo. rewrite tagOf_ident. destruct (identOf d n) eqn:E; [|done].
  intros _. by apply identOf_lt in E.
Qed.

Lemma show_slot d v p (l1 l2 : list nat) :
  childrenOf d p = l1 ++ v :: l2 → NoDup (childrenOf d p) → length d ≠ v →
  filter (λ m, m ≠ v) (insert_before (length d) v (childrenOf d p))
  = l1 ++ length d :: l2.
Proof.
  intros Hl Hnd Hne. rewrite Hl in *.
  apply NoDup_app in Hnd as (Hnd1 & Hnd2 & Hnd3).
  apply NoDup_cons in Hnd3 as [Hnd3 Hnd4].
  assert (v ∉ l1) as Hv1. { intros Hx. apply (Hnd2 _ Hx). by left. }
  rewrite insert_before_app by done.
  rewrite filter_app, filter_cons_True, filter_cons_False by naive_solver.
  by rewrite !filter_ne_id.
Qed.

Lemma Inv_showDom s c v p :
  Inv s → recentlyPlayedVideo s = Some v → floatingContainer s = Some c →
  videoState s = None → parentOf (dom s) v = Some p →
  Inv (set_isFloating true
         (set_videoState
            (Some (VideoState.mk v p (nextSiblingOf (dom s) v) (length (dom s))))
            (set_dom (showDom c v p (SIZE_MAP (size (currentSettings s))) (dom s)) s))).
Proof.
  intros HI Hv Hc Hvs Hp.
  pose proof HI as [I1 I2 I3 I4 I5 I6 I7 I8]. pose proof I1 as [W1 W2].
  destruct (Inv_docked s HI Hvs) as (Hf & Hfv & Hnp).
  destruct (I4 c Hc) as (Hcl & Hcnv & Hcp). pose proof (I3 v Hv) as Hvid.
  set (sz := SIZE_MAP (size (currentSettings s))).
  set (ph := length (dom s)).
  assert (v < length (dom s))%nat as Hvl by by apply parentOf_lt in Hp.
  assert (v ∈ childrenOf (dom s) p) as Hin by by apply W1.
  assert (p ≠ c) as Hpc.
  { intros ->. unfold floatingVideos in Hfv. rewrite Hc in Hfv.
    by pose proof (filter_nil_not_elem_of _ _ v Hfv Hvid). }
  assert (c ≠ v) as Hcv.
  { by intros ->. }
  apply list_elem_of_split in Hin as (l1 & l2 & Hl).
  assert (∀ m, m ≠ ph →
            identOf (showDom c v p sz (dom s)) m = identOf (dom s) m) as Hid.
  { intros m Hm. rewrite showDom_ident by done. by rewrite decide_False. }
  assert (∀ m, m ≠ ph → isVideo (showDom c v p sz (dom s)) m ↔ isVideo (dom s) m) as Hiv.
  { intros m Hm. apply isVideo_ident. by apply Hid. }
  assert (∀ m, m ≠ ph →
            isPlaceholder (showDom c v p sz (dom s)) m ↔ isPlaceholder (dom s) m) as Hip.
  { intros m Hm. apply isPlaceholder_ident_eq. by apply Hid. }
  assert (isPlaceholder (showDom c v p sz (dom s)) ph) as Hph.
  { apply isPlaceholder_ident. exists "DIV", placeholderClass.
    rewrite showDom_ident by done. rewrite decide_True by done.
    split; [done|apply placeholderClass_token]. }
  split; cbn [dom body recentlyPlayedVideo floatingContainer videoState isFloating
              set_isFloating set_videoState set_dom].
  - by apply showDom_wf.
  - rewrite showDom_length by done. lia.
  - intros v0 Hv0. assert (isVideo (dom s) v0) as Hx by auto.
    apply Hiv; [|done]. apply isVideo_lt in Hx. unfold ph. lia.
  - intros c0 Hc0. assert (c0 = c) as -> by congruence.
    rewrite showDom_length, Hiv, Hip by (done || (unfold ph; lia)).
    split_and!; [lia|done|done].
  - unfold floatingVideos. simpl. rewrite Hc.
    rewrite showDom_childrenOf by done. rewrite decide_True by done.
    rewrite (decide_False (P:=c = p)) by done.
    rewrite filter_app. rewrite filter_none.
    + rewrite filter_cons_True; [done|]. apply Hiv; [unfold ph; lia|done].
    + intros x Hx Hxv. apply list_elem_of_filter in Hx as [Hx1 Hx].
      assert (x < length (dom s))%nat as Hxl.
      { apply W1 in Hx. by apply parentOf_lt in Hx. }
      apply Hiv in Hxv; [|unfold ph; lia].
      unfold floatingVideos in Hfv. rewrite Hc in Hfv.
      by pose proof (filter_nil_not_elem_of _ _ x Hfv Hxv).
  - done.
  - intros vs c0 [= <-] Hc0. assert (c0 = c) as -> by congruence. simpl.
    split; [done|]. split; [done|]. exists l1, l2.
    rewrite showDom_childrenOf by done.
    rewrite decide_False, decide_True by done.
    split.
    + apply show_slot; [done|apply W2|unfold ph; lia].
    + unfold nextSiblingOf. rewrite Hp. simpl. rewrite Hl. symmetry.
      apply after_app. pose proof (W2 p) as Hnd. rewrite Hl in Hnd.
      apply NoDup_app in Hnd as (_ & Hnd & _). intros Hx. apply (Hnd _ Hx). by left.
  - intros n Hn [q Hq]. simpl. f_equal.
    destruct (decide (n = ph)) as [|Hne]; [done|]. exfalso.
    apply Hip in Hn; [|done]. rewrite showDom_parentOf in Hq by done.
    assert (is_Some (parentOf (dom s) n)) as Hs.
    { destruct (decide (n = v)) as [->|]; [by rewrite Hp|].
      rewrite decide_False in Hq by done. by rewrite Hq. }
    rewrite Hnp in Hs by done. by destruct Hs.
Qed.

Lemma Inv_show s : Inv s → Inv (showFloatingPlayer s).
Proof.
  intros HI.
  destruct (recentlyPlayedVideo s) as [v|] eqn:Hv; [|by rewrite show_noop by auto].
  destruct (floatingContainer s) as [c|] eqn:Hc; [|by rewrite show_noop by auto].
  destruct (enabled (currentSettings s)) eqn:He; [|by rewrite show_noop by auto].
  destruct (isManuallyHidden s) eqn:Hh; [by rewrite show_noop by auto|].
  destruct (isFloating s) eqn:Hf; [by rewrite show_noop by auto 6|].
  destruct (parentOf (dom s) v) as [p|] eqn:Hp.
  - rewrite (show_unfold s c v p) by done. apply Inv_showDom; try done.
    by apply Inv_flag_None.
  - rewrite show_noop; [done|]. do 5 right. intros v' Hv'. congruence.
Qed.

(** After [showFloatingPlayer] the engine floats exactly when it has a
    FloatingState. *)
Lemma show_result s :
  Inv s → isFloating s = false →
  showFloatingPlayer s = s ∨
  ∃ c v p,
    recentlyPlayedVideo s = Some v ∧ floatingContainer s = Some c ∧
    enabled (currentSettings s) = true ∧ isManuallyHidden s = false ∧
    parentOf (dom s) v = Some p ∧
    showFloatingPlayer s
    = set_isFloating true
        (set_videoState
           (Some (VideoState.mk v p (nextSiblingOf (dom s) v) (length (dom s))))
           (set_dom (showDom c v p (SIZE_MAP (size (currentSettings s))) (dom s)) s)).
Proof.
  intros HI Hf.
  destruct (recentlyPlayedVideo s) as [v|] eqn:Hv; [|left; by rewrite show_noop by auto].
  destruct (floatingContainer s) as [c|] eqn:Hc; [|left; by rewrite show_noop by auto].
  destruct (enabled (currentSettings s)) eqn:He; [|left; by rewrite show_noop by auto].
  destruct (isManuallyHidden s) eqn:Hh; [left; by rewrite show_noop by auto|].
  destruct (parentOf (dom s) v) as [p|] eqn:Hp.
  - right. exists c, v, p. split_and!; try done. by apply show_unfold.
  - left. rewrite show_noop; [done|]. do 5 right. intros v' Hv'. congruence.
Qed.
End InvShow.

(** ** The container that [initFloatingPlayer] creates *)

Section Extends.
Implicit Types (d : list Node) (n m p q : nat) (f : Node → Node).

Lemma extends_refl d : wf_dom d → extends d d.
Proof.
  intros Hwf. split_and!; [done|done|done|].
  intros m Hm. split.
  - intros H. apply isVideo_lt in H. lia.
  - intros H. apply isPlaceholder_lt in H. lia.
Qed.

Lemma not_placeholder_class cl :
  placeholderClass ∉ tokens_aux "" cl →
  ∀ d n t, identOf d n = Some (t, cl) → ¬ isPlaceholder d n.
Proof.
  intros Hcl d n t Hid. rewrite isPlaceholder_ident. intros (t' & cl' & H & Hin).
  congruence.
Qed.

Lemma extends_create d0 d tag :
  tag ≠ "VIDEO" → extends d0 d → extends d0 (d ++ [blankNode tag]).
Proof.
  intros Htag (Hwf & Hlen & Hold & Hnew). split_and!.
  - by apply wf_create.
  - rewrite length_app. lia.
  - intros m Hm. rewrite parentOf_create, identOf_create.
    rewrite decide_False by lia. auto.
  - intros m Hm. unfold isVideo. rewrite tagOf_ident, isPlaceholder_ident.
    rewrite identOf_create. case_decide as Hx.
    + split; [simpl; congruence|]. intros (t & cl & [= <- <-] & Hin).
      by apply elem_of_nil in Hin.
    + rewrite <- tagOf_ident, <- isPlaceholder_ident. by apply Hnew.
Qed.

Lemma extends_update_ident d0 d n f `{!AttrWrite f} `{!IdentWrite f} :
  extends d0 d → extends d0 (update n f d).
Proof.
  intros (Hwf & Hlen & Hold & Hnew).
  pose proof (dom_equiv_update n f d) as He. split_and!.
  - by apply wf_update.
  - by rewrite length_update.
  - intros m Hm. rewrite parentOf_update, identOf_update by apply _. auto.
  - intros m Hm.
    rewrite (dom_equiv_isVideo _ _ _ He), (dom_equiv_isPlaceholder _ _ _ He). auto.
Qed.

Lemma extends_update_style d0 d n g : extends d0 d → extends d0 (update_style n g d).
Proof. unfold update_style. apply extends_update_ident; apply _. Qed.

Lemma identOf_set_className n cl d m :
  identOf (update n (set_className cl) d) m
  = if decide (n = m) then (λ x, (x.1, cl)) <$> identOf d n else identOf d m.
Proof.
  unfold identOf. rewrite (nodeAttrs_update n (set_className cl) d m).
  case_decide; [|done]. by destruct (nodeAttrs d n).
Qed.

Lemma extends_update_class d0 d n cl :
  placeholderClass ∉ tokens_aux "" cl → (length d0 ≤ n)%nat →
  extends d0 d → extends d0 (update n (set_className cl) d).
Proof.
  intros Hcl Hn (Hwf & Hlen & Hold & Hnew). split_and!.
  - apply wf_update; [apply _|done].
  - by rewrite length_update.
  - intros m Hm. rewrite parentOf_update by apply _.
    rewrite identOf_set_className. rewrite decide_False by lia. auto.
  - intros m Hm. unfold isVideo. rewrite tagOf_ident, isPlaceholder_ident.
    rewrite identOf_set_className. case_decide as Hx.
    + subst m. destruct (Hnew n Hn) as [Hv Hp]. unfold isVideo in Hv.
      rewrite tagOf_ident in Hv.
      destruct (identOf d n) as [[t c]|]; simpl in *.
      * split; [done|]. by intros (t' & cl' & [= <- <-] & Hin).
      * split; [done|]. by intros (t' & cl' & ? & Hin).
    + rewrite <- tagOf_ident, <- isPlaceholder_ident. by apply Hnew.
Qed.

Lemma extends_appendChild d0 d p n :
  (length d0 ≤ n)%nat → (n < length d)%nat → (p < length d)%nat →
  extends d0 d → extends d0 (appendChild p n d).
Proof.
  intros Hn Hnl Hpl (Hwf & Hlen & Hold & Hnew). unfold appendChild. split_and!.
  - apply wf_attach; auto using places_append.
  - by rewrite length_attach.
  - intros m Hm. rewrite parentOf_attach, identOf_attach by done.
    rewrite decide_False by lia. auto.
  - intros m Hm. unfold isVideo. rewrite tagOf_ident, isPlaceholder_ident.
    rewrite identOf_attach. rewrite <- tagOf_ident, <- isPlaceholder_ident.
    by apply Hnew.
Qed.

Lemma extends_detach d0 d n :
  (length d0 ≤ n)%nat → extends d0 d → extends d0 (detach n d).
Proof.
  intros Hn (Hwf & Hlen & Hold & Hnew). split_and!.
  - by apply wf_detach.
  - by rewrite length_detach.
  - intros m Hm. rewrite parentOf_detach, identOf_detach.
    rewrite decide_False by lia. auto.
  - intros m Hm. unfold isVideo. rewrite tagOf_ident, isPlaceholder_ident.
    rewrite identOf_detach. rewrite <- tagOf_ident, <- isPlaceholder_ident.
    by apply Hnew.
Qed.

Lemma container_class_ok :
  (placeholderClass ∉ tokens_aux "" "mediatimestamp-floating-player") ∧
  (placeholderClass ∉ tokens_aux "" "drag-handle") ∧
  (placeholderClass ∉ tokens_aux "" "close-btn").
Proof.
  split_and!; vm_compute; intros H;
    repeat (apply elem_of_cons in H as [H|H]; [discriminate|]);
    by apply elem_of_nil in H.
Qed.

Lemma createFloatingContainer_fst d : (createFloatingContainer d).1 = length d.
Proof. done. Qed.

Lemma createFloatingContainer_length d :
  length (createFloatingContainer d).2 = (length d + 3)%nat.
Proof.
  cbv beta iota zeta delta [createFloatingContainer createElement fst snd].
  unfold appendChild, update_style.
  repeat first [ rewrite length_update | rewrite length_attach | rewrite length_app ].
  cbn [length]. lia.
Qed.

Lemma createFloatingContainer_extends d :
  wf_dom d → extends d (createFloatingContainer d).2.
Proof.
  intros Hwf. destruct container_class_ok as (C1 & C2 & C3).
  cbv beta iota zeta delta [createFloatingContainer createElement fst snd].
  apply extends_update_ident; [apply _..|].
  apply extends_appendChild;
    [ repeat first [ rewrite length_update | rewrite length_attach | rewrite length_app ];
      unfold update_style, appendChild;
      repeat first [ rewrite length_update | rewrite length_attach | rewrite length_app ];
      cbn [length]; lia .. |].
  do 3 (apply extends_update_ident; [apply _..|]).
  apply extends_update_class; [done| |].
  { unfold update_style, appendChild.
    repeat first [ rewrite length_update | rewrite length_attach | rewrite length_app ].
    lia. }
  apply extends_create; [done|].
  apply extends_appendChild;
    [ unfold update_style, appendChild;
      repeat first [ rewrite length_update | rewrite length_attach | rewrite length_app ];
      cbn [length]; lia .. |].
  apply extends_update_class; [done| |].
  { unfold update_style, appendChild.
    repeat first [ rewrite length_update | rewrite length_attach | rewrite length_app ].
    lia. }
  apply extends_create; [done|].
  apply extends_update_style.
  apply extends_update_class; [done|lia|].
  apply extends_create; [done|].
  by apply extends_refl.
Qed.
End Extends.

(** ** Every event keeps the invariant *)

Section InvStep.
Implicit Types (s : State) (d : list Node) (n m p q c v ph t : nat).

Lemma hide_ident s m :
  Inv s → identOf (dom (hideFloatingPlayer s)) m = identOf (dom s) m.
Proof.
  intros HI. destruct (isFloating s) eqn:Hf; [|by rewrite hide_noop by auto].
  destruct (videoState s) as [vs|] eqn:Hvs; [|by rewrite hide_noop by auto].
  destruct (Inv_floating s vs HI Hvs)
    as (c & l1 & l2 & Hc & _ & Hcl & Hvp & _ & _ & _ & Hpp & _).
  rewrite (hide_unfold s c vs) by done.
  cbn [dom set_isFloating set_videoState set_dom]. apply hideDom_ident.
Qed.

Lemma hide_isVideo s m :
  Inv s → isVideo (dom (hideFloatingPlayer s)) m ↔ isVideo (dom s) m.
Proof. intros HI. apply isVideo_ident. by apply hide_ident. Qed.

Lemma Inv_reobserve t s : Inv s → Inv (reobserve t s).
Proof. unfold reobserve. destruct (observer s); [|done]. by apply (Inv_ext s). Qed.

Lemma Inv_set_isManuallyHidden b s : Inv s → Inv (set_isManuallyHidden b s).
Proof. by apply (Inv_ext s). Qed.

Lemma Inv_handleVideoPlay t s : Inv s → Inv (handleVideoPlay t s).
Proof.
  intros HI. unfold handleVideoPlay. case_decide as Ht; [|done].
  apply Inv_reobserve. apply Inv_tracked.
  - cbn [dom set_recentlyPlayedVideo]. case_decide; [|done].
    change (videoState (set_isManuallyHidden false s)) with (videoState s).
    change (isFloating (set_isManuallyHidden false s)) with (isFloating s).
    destruct (videoState s) as [vs|]; [|done].
    destruct (isFloating s && bool_decide (VideoState.video vs ≠ t)); [|done].
    apply hide_isVideo; [by apply Inv_set_isManuallyHidden|done].
  - case_decide; [|done].
    change (videoState (set_isManuallyHidden false s)) with (videoState s).
    change (isFloating (set_isManuallyHidden false s)) with (isFloating s).
    destruct (videoState s) as [vs|]; [|by apply Inv_set_isManuallyHidden].
    destruct (isFloating s && bool_decide (VideoState.video vs ≠ t)).
    + by apply Inv_hide, Inv_set_isManuallyHidden.
    + by apply Inv_set_isManuallyHidden.
Qed.

Lemma Inv_handleIntersectionEntry s e : Inv s → Inv (handleIntersectionEntry s e).
Proof.
  intros HI. unfold handleIntersectionEntry.
  destruct (if isFloating s then _ else _); [|done].
  destruct (negb (isIntersecting e) && negb (isFloating s)).
  - pose proof (Inv_show s HI) as HI'.
    destruct (videoState (showFloatingPlayer s)); [|done]. by apply Inv_reobserve.
  - destruct (isIntersecting e && isFloating s); [|done].
    pose proof (Inv_hide s HI) as HI'.
    change (recentlyPlayedVideo (set_isManuallyHidden false (hideFloatingPlayer s)))
      with (recentlyPlayedVideo (hideFloatingPlayer s)).
    destruct (recentlyPlayedVideo (hideFloatingPlayer s)).
    + by apply Inv_reobserve, Inv_set_isManuallyHidden.
    + by apply Inv_set_isManuallyHidden.
Qed.

Lemma Inv_handleIntersection entries s : Inv s → Inv (handleIntersection entries s).
Proof.
  unfold handleIntersection. revert s.
  induction entries as [|e es IH]; intros s HI; [done|].
  simpl. by apply IH, Inv_handleIntersectionEntry.
Qed.

Lemma Inv_new_container s c d' :
  Inv s → floatingContainer s = None → extends (dom s) d' →
  (length (dom s) ≤ c)%nat → (c < length d')%nat →
  Inv (set_floatingContainer (Some c) (set_dom d' s)).
Proof.
  intros HI Hc (Hwf & Hlen & Hold & Hnew) Hcl Hcl'.
  pose proof (Inv_container_None s HI Hc) as Hvs.
  pose proof HI as [I1 I2 I3 I4 I5 I6 I7 I8]. pose proof I1 as [W1 W2].
  pose proof Hwf as [W1' W2'].
  split; cbn [dom body recentlyPlayedVideo floatingContainer videoState isFloating
              set_floatingContainer set_dom].
  - done.
  - lia.
  - intros v Hv. pose proof (I3 v Hv) as Hvid. pose proof (isVideo_lt _ _ Hvid) as Hvl.
    eapply isVideo_ident; [|exact Hvid]. by apply Hold.
  - intros c0 [= <-]. split; [done|]. by apply Hnew.
  - rewrite Hvs. unfold floatingVideos.
    cbn [dom floatingContainer set_floatingContainer set_dom].
    apply filter_none. intros x Hx Hxv.
    destruct (decide (x < length (dom s))%nat) as [Hlt|Hge].
    + apply W1' in Hx. destruct (Hold x Hlt) as [Hp _]. rewrite Hp in Hx.
      apply W1 in Hx. apply childrenOf_lt in Hx. lia.
    + destruct (Hnew x) as [Hnv _]; [lia|]. done.
  - done.
  - intros vs c0 Hvs'. congruence.
  - intros n Hn Hp.
    destruct (decide (n < length (dom s))%nat) as [Hlt|Hge].
    + destruct (Hold n Hlt) as [Hp' Hi']. apply I8.
      * eapply isPlaceholder_ident_eq; [|exact Hn]. done.
      * by rewrite <- Hp'.
    + destruct (Hnew n) as [_ Hnp]; [lia|]. done.
Qed.

Lemma Inv_scan s (vs : list nat) :
  Forall (isVideo (dom s)) vs → Inv s →
  Inv (fold_left
         (fun s video =>
            if negb (from_option paused true (dom s !! video)) then
              let s := set_recentlyPlayedVideo (Some video) s in
              set_observer ((fun ts => ts ++ [video]) <$> observer s) s
            else s) vs s).
Proof.
  revert s. induction vs as [|v vs IH]; intros s Hall HI; [done|].
  apply Forall_cons in Hall as [Hv Hall]. simpl.
  destruct (negb _).
  - apply IH; [done|]. eapply Inv_ext; [..|by apply (Inv_tracked s v)]; done.
  - by apply IH.
Qed.

Lemma querySelectorAll_video d root :
  Forall (isVideo d) (querySelectorAll d root (sel_tag "VIDEO")).
Proof.
  unfold querySelectorAll. apply Forall_forall. intros x Hx.
  apply list_elem_of_In, filter_In in Hx as [_ Hx].
  unfold matches in Hx. unfold isVideo, tagOf.
  destruct (d !! x) as [y|]; [|done]. simpl in *.
  unfold sel_tag in Hx. apply bool_decide_eq_true in Hx. by rewrite Hx.
Qed.

Lemma Inv_addEventListener l s : Inv s → Inv (addEventListener l s).
Proof. unfold addEventListener. case_decide; [done|]. by apply (Inv_ext s). Qed.

Lemma Inv_removeEventListener l s : Inv s → Inv (removeEventListener l s).
Proof. by apply (Inv_ext s). Qed.

Lemma Inv_initFloatingPlayer settings s : Inv s → Inv (initFloatingPlayer settings s).
Proof.
  intros HI. unfold initFloatingPlayer.
  assert (Inv (set_currentSettings settings s)) as HI0 by by apply (Inv_ext s).
  destruct (negb (enabled settings)); [done|].
  match goal with |- Inv (fold_left _ _ ?s1) => assert (Inv s1) as HI1 end.
  { apply Inv_addEventListener.
    change (floatingContainer (set_currentSettings settings s))
      with (floatingContainer s).
    change (dom (set_currentSettings settings s)) with (dom s).
    destruct (floatingContainer s) as [c|] eqn:Hc.
    - eapply Inv_ext; [..|exact HI0]; done.
    - pose proof (createFloatingContainer_fst (dom s)) as Hfst.
      pose proof (createFloatingContainer_length (dom s)) as Hlen.
      pose proof (createFloatingContainer_extends (dom s) (inv_wf s HI)) as Hext.
      destruct (createFloatingContainer (dom s)) as [c d'] eqn:Hcr.
      simpl in Hfst, Hlen, Hext. subst c.
      eapply Inv_ext with
        (s := set_floatingContainer (Some (length (dom s)))
                (set_dom (appendChild (body s) (length (dom s)) d') s)); try done.
      apply Inv_new_container; try done.
      + apply extends_appendChild; [lia|lia| |done].
        pose proof (inv_body s HI). lia.
      + unfold appendChild. rewrite length_attach. lia. }
  apply Inv_scan; [|done]. apply querySelectorAll_video.
Qed.

Lemma Inv_updateFloatingPlayerSettings settings s :
  Inv s → Inv (updateFloatingPlayerSettings settings s).
Proof.
  intros HI. unfold updateFloatingPlayerSettings.
  assert (Inv (set_currentSettings settings s)) as HI0 by by apply (Inv_ext s).
  match goal with
  | |- Inv (match floatingContainer ?s1 with _ => _ end) => assert (Inv s1) as HI1
  end.
  { destruct (floatingContainer _); [|done].
    destruct (negb _); [by apply Inv_hide|done]. }
  match goal with
  | |- Inv (match floatingContainer ?s1 with _ => _ end) =>
      destruct (floatingContainer s1); [|done]
  end.
  case_decide; [|done]. by do 2 apply Inv_update_style.
Qed.

Lemma Inv_destroyFloatingPlayer s : Inv s → Inv (destroyFloatingPlayer s).
Proof.
  intros HI. unfold destroyFloatingPlayer.
  pose proof (Inv_hide s HI) as HI1. destruct (hide_docked s HI) as [Hvs Hf].
  set (s1 := hideFloatingPlayer s) in *.
  destruct (Inv_docked s1 HI1 Hvs) as (_ & _ & Hnp).
  pose proof HI1 as [I1 I2 I3 I4 I5 I6 I7 I8].
  change (floatingContainer (set_observer None (removeEventListener OnPlay s1)))
    with (floatingContainer s1).
  assert (∀ d', wf_dom d' → length d' = length (dom s1) →
            (∀ n, isPlaceholder d' n → parentOf d' n = None) →
            ∀ s', dom s' = d' → body s' = body s1 → recentlyPlayedVideo s' = None →
                  floatingContainer s' = None → videoState s' = None →
                  isFloating s' = false → Inv s') as Hgen.
  { intros d' Hwf Hlen Hpl s' Hd Hb Hr Hc Hv Hfl.
    split; unfold floatingVideos; rewrite ?Hd, ?Hb, ?Hr, ?Hc, ?Hv, ?Hfl; try done.
    - lia.
    - intros n Hn [q Hq]. rewrite Hpl in Hq; done. }
  destruct (floatingContainer s1) as [c|] eqn:Hc.
  - apply (Hgen (detach c (dom s1))); try done.
    + by apply wf_detach.
    + by rewrite length_detach.
    + intros n Hn. rewrite parentOf_detach. case_decide; [done|].
      apply Hnp. eapply isPlaceholder_ident_eq; [|exact Hn].
      by rewrite identOf_detach.
  - apply (Hgen (dom s1)); done.
Qed.

Lemma Inv_returnFloatingVideo b s : Inv s → Inv (returnFloatingVideo b s).
Proof.
  intros HI. unfold returnFloatingVideo.
  destruct (videoState s); [|done]. destruct (isFloating s); [|done].
  apply Inv_hide. destruct b; [|done]. apply Inv_update; [apply _..|done].
Qed.

Lemma Inv_closeClick s : Inv s → Inv (closeClick s).
Proof. intros HI. by apply Inv_set_isManuallyHidden, Inv_hide. Qed.

Lemma Inv_startDrag e s : Inv s → Inv (startDrag e s).
Proof.
  intros HI. unfold startDrag. destruct (floatingContainer s); [|done].
  do 2 apply Inv_addEventListener. by apply (Inv_ext s).
Qed.

Lemma Inv_onDrag e s : Inv s → Inv (onDrag e s).
Proof.
  intros HI. unfold onDrag. destruct (floatingContainer s); [|done].
  destruct (negb _); [done|]. by do 4 apply Inv_update_style.
Qed.

Lemma Inv_stopDrag s : Inv s → Inv (stopDrag s).
Proof.
  intros HI. unfold stopDrag.
  assert (Inv (set_isDragging false s)) as HI0 by by apply (Inv_ext s).
  change (dragDoc (set_isDragging false s)) with (dragDoc s).
  destruct (dragDoc s); [|done].
  apply (Inv_ext (removeEventListener OnMouseUp
                    (removeEventListener OnMouseMove (set_isDragging false s))));
    try done.
  by do 2 apply Inv_removeEventListener.
Qed.

Lemma Inv_step s ev : Inv s → Inv (step s ev).
Proof.
  intros HI. destruct ev; simpl.
  - by apply Inv_initFloatingPlayer.
  - by apply Inv_updateFloatingPlayerSettings.
  - by apply Inv_destroyFloatingPlayer.
  - by apply Inv_returnFloatingVideo.
  - case_decide; [by apply Inv_handleVideoPlay|done].
  - by apply Inv_handleIntersection.
  - destruct (has_listener _ _ _ _); [by apply Inv_closeClick|done].
  - destruct (has_listener _ _ _ _); [by apply Inv_startDrag|done].
  - case_decide; [by apply Inv_onDrag|done].
  - case_decide; [by apply Inv_stopDrag|done].
  - apply Inv_update; [apply _..|done].
  - apply Inv_update; [apply _..|done].
  - by apply (Inv_ext s).
Qed.

Lemma Inv_run evs s : Inv s → Inv (run s evs).
Proof.
  unfold run. revert s. induction evs as [|e es IH]; intros s HI; [done|].
  simpl. by apply IH, Inv_step.
Qed.

Lemma Inv_initialState d b w h : page_ok d b = true → Inv (initialState d b w h).
Proof.
  unfold page_ok. intros Hok.
  apply andb_prop in Hok as [Hok Hcls]. apply andb_prop in Hok as [Hwf Hb].
  apply bool_decide_eq_true in Hb. apply wf_dom_b_sound in Hwf.
  rewrite forallb_forall in Hcls.
  split; cbn [initialState dom body recentlyPlayedVideo floatingContainer
              videoState isFloating]; try done.
  intros n Hn _. exfalso. unfold isPlaceholder, matches in Hn.
  destruct (d !! n) as [x|] eqn:E; [|done]. simpl in Hn.
  apply list_elem_of_lookup_2, list_elem_of_In in E.
  specialize (Hcls x E). by rewrite Hn in Hcls.
Qed.

Lemma reachable_Inv s : reachable s → Inv s.
Proof.
  intros (d & b & w & h & evs & Hok & ->). by apply Inv_run, Inv_initialState.
Qed.
End InvStep.

(** ** Floating and returning a video *)

Section RoundTrip.
Implicit Types (s : State) (d : list Node) (n m p q c v ph : nat).

Lemma originalStyles_attrs d n :
  d !! n ≫= _originalStyles = nodeAttrs d n ≫= _originalStyles.
Proof. unfold nodeAttrs. by destruct (d !! n). Qed.

Lemma restoreStyles_style v d w h :
  d !! v ≫= _originalStyles = Some (w, h) →
  Style.width (styleOf (restoreStyles v d) v) = w ∧
  Style.height (styleOf (restoreStyles v d) v) = h.
Proof.
  intros Ho. unfold restoreStyles. rewrite Ho.
  rewrite originalStyles_attrs in Ho. rewrite !styleOf_attrs. attrs_eq.
  destruct (nodeAttrs d v); [done|done].
Qed.

Lemma hideDom_style c vs d w h :
  c ≠ VideoState.video vs →
  d !! VideoState.video vs ≫= _originalStyles = Some (w, h) →
  Style.width (styleOf (hideDom c vs d) (VideoState.video vs)) = w ∧
  Style.height (styleOf (hideDom c vs d) (VideoState.video vs)) = h.
Proof.
  intros Hc Ho. destruct (restoreStyles_style _ _ _ _ Ho) as [Hw Hh].
  rewrite !styleOf_attrs in *. unfold hideDom.
  rewrite resetContainer_other, removePlaceholder_detach by done.
  by rewrite nodeAttrs_detach, moveBack_attrs.
Qed.

Lemma showDom_originalStyles c v p sz d :
  c ≠ v → (v < length d)%nat →
  showDom c v p sz d !! v ≫= _originalStyles
  = Some (Style.width (styleOf d v), Style.height (styleOf d v)).
Proof.
  intros Hc Hv. rewrite originalStyles_attrs. unfold showDom.
  unfold moveToContainer, appendChild, storeOriginalStyles. attrs_eq.
  rewrite !styleOf_attrs. unfold insertBefore. rewrite !nodeAttrs_attach.
  rewrite !stylePlaceholder_other by lia.
  rewrite !nodeAttrs_create. rewrite !decide_False by lia.
  assert (is_Some (nodeAttrs d v)) as [x Hx].
  { unfold nodeAttrs. destruct (lookup_lt_is_Some_2 d v Hv) as [y ->]. by eexists. }
  by rewrite Hx.
Qed.

Lemma show_children c v p sz d (l1 l2 : list nat) :
  wf_dom d → (c < length d)%nat → parentOf d v = Some p → p ≠ c →
  childrenOf d p = l1 ++ v :: l2 →
  childrenOf (showDom c v p sz d) p = l1 ++ length d :: l2.
Proof.
  intros Hwf Hc Hp Hpc Hl. rewrite showDom_childrenOf by done.
  rewrite decide_False, decide_True by done.
  apply show_slot; [done|apply Hwf|]. apply parentOf_lt in Hp. lia.
Qed.

Lemma can_float_facts s c v p :
  Inv s → can_float s c v p →
  videoState s = None ∧ (c < length (dom s))%nat ∧ (v < length (dom s))%nat ∧
  (p < length (dom s))%nat ∧ p ≠ c ∧ c ≠ v ∧
  showFloatingPlayer s
  = set_isFloating true
      (set_videoState
         (Some (VideoState.mk v p (nextSiblingOf (dom s) v) (length (dom s))))
         (set_dom (showDom c v p (SIZE_MAP (size (currentSettings s))) (dom s)) s)).
Proof.
  intros HI (Hv & Hc & He & Hh & Hf & Hp).
  pose proof HI as [I1 I2 I3 I4 I5 I6 I7 I8]. pose proof I1 as [W1 W2].
  pose proof (Inv_flag_None s HI Hf) as Hvs.
  destruct (Inv_docked s HI Hvs) as (_ & Hfv & _).
  destruct (I4 c Hc) as (Hcl & Hcnv & _). pose proof (I3 v Hv) as Hvid.
  assert (v ∈ childrenOf (dom s) p) as Hin by by apply W1.
  split_and!; try done.
  - by apply parentOf_lt in Hp.
  - by apply childrenOf_lt in Hin.
  - intros ->. unfold floatingVideos in Hfv. rewrite Hc in Hfv.
    by pose proof (filter_nil_not_elem_of _ _ v Hfv Hvid).
  - by intros ->.
  - by apply show_unfold.
Qed.

Lemma after_filter_cons v n (k1 k2 : list nat) ph :
  v ∉ k1 → ph ≠ v → ph ≠ n →
  after v (filter (λ m, m ≠ ph) (k1 ++ v :: n :: k2)) = Some n.
Proof.
  intros Hv Hpv Hpn. rewrite filter_app, !filter_cons_True by done.
  rewrite after_app; [done|]. rewrite list_elem_of_filter. naive_solver.
Qed.
End RoundTrip.

(** C2. A docked video with a parent that is floated by
    [showFloatingPlayer] and returned by [hideFloatingPlayer], whatever
    well-formed DOM [d2] the page has by then, is again a child of its
    original parent: immediately before the next sibling recorded when it
    floated if that sibling is still a child of that parent, the last child
    otherwise. Its inline width and height are the original ones, and the
    placeholder is removed from the tree. When the DOM was not touched in
    between, the child list of the parent is the one before floating. *)
Theorem float_unfloat_roundtrip s c v p d2 :
  reachable s → can_float s c v p →
  let s1 := showFloatingPlayer s in
  wf_dom d2 → (length (dom s1) ≤ length d2)%nat →
  d2 !! v ≫= _originalStyles = dom s1 !! v ≫= _originalStyles →
  let s3 := hideFloatingPlayer (set_dom d2 s1) in
  let ph := length (dom s) in
  isFloating s1 = true ∧
  videoState s1 = Some (VideoState.mk v p (nextSiblingOf (dom s) v) ph) ∧
  isFloating s3 = false ∧ videoState s3 = None ∧
  parentOf (dom s3) v = Some p ∧
  match nextSiblingOf (dom s) v with
  | Some n =>
      if decide (parentOf d2 n = Some p)
      then nextSiblingOf (dom s3) v = Some n
      else last (childrenOf (dom s3) p) = Some v
  | None => last (childrenOf (dom s3) p) = Some v
  end ∧
  Style.width (styleOf (dom s3) v) = Style.width (styleOf (dom s) v) ∧
  Style.height (styleOf (dom s3) v) = Style.height (styleOf (dom s) v) ∧
  parentOf (dom s3) ph = None ∧ (∀ q, ph ∉ childrenOf (dom s3) q) ∧
  (d2 = dom s1 → childrenOf (dom s3) p = childrenOf (dom s) p).
Proof.
  intros Hr Hcan s1 Hwf2 Hlen Hos s3 ph.
  pose proof (reachable_Inv s Hr) as HI.
  destruct (can_float_facts s c v p HI Hcan)
    as (Hvs & Hcl & Hvl & Hpl & Hpc & Hcv & Hshow).
  destruct Hcan as (Hv & Hc & He & Hh & Hf & Hp).
  pose proof (inv_wf s HI) as Hwf. pose proof Hwf as [W1 W2].
  set (sz := SIZE_MAP (size (currentSettings s))) in *.
  set (vs := VideoState.mk v p (nextSiblingOf (dom s) v) ph) in *.
  assert (s1 = set_isFloating true (set_videoState (Some vs)
                 (set_dom (showDom c v p sz (dom s)) s))) as Hs1 by done.
  assert (length (dom s1) = S (length (dom s))) as Hl1.
  { rewrite Hs1. cbn [dom set_isFloating set_videoState set_dom].
    by apply showDom_length. }
  assert (s3 = set_isFloating false (set_videoState None
                 (set_dom (hideDom c vs d2) (set_dom d2 s1)))) as Hs3.
  { unfold s3. rewrite (hide_unfold (set_dom d2 s1) c vs); [done|by rewrite Hs1..]. }
  assert (dom s3 = hideDom c vs d2) as Hd3 by by rewrite Hs3.
  assert (VideoState.video vs < length d2)%nat as Hv2 by (simpl; lia).
  assert (VideoState.originalParent vs < length d2)%nat as Hp2 by (simpl; lia).
  assert (ph ≠ v) as Hphv by (unfold ph; lia).
  pose proof (hideDom_wf c vs d2 Hwf2 Hv2 Hp2) as Hwf3. pose proof Hwf3 as [W1' W2'].
  assert (parentOf (hideDom c vs d2) v = Some p) as Hpar.
  { rewrite hideDom_parentOf by done. simpl.
    rewrite decide_False, decide_True by done. done. }
  assert (parentOf (hideDom c vs d2) ph = None) as Hparph.
  { rewrite hideDom_parentOf by done. simpl. by rewrite decide_True. }
  assert (v ∉ filter (λ m, m ≠ v) (childrenOf d2 p)) as Hvf.
  { rewrite list_elem_of_filter. naive_solver. }
  split_and!.
  - by rewrite Hs1.
  - by rewrite Hs1.
  - by rewrite Hs3.
  - by rewrite Hs3.
  - by rewrite Hd3.
  - rewrite Hd3. unfold nextSiblingOf at 2. rewrite Hpar. simpl.
    rewrite (hideDom_childrenOf c vs d2 Hwf2 Hv2 Hp2 p). simpl.
    rewrite decide_True by done. unfold backPlace. simpl.
    destruct (nextSiblingOf (dom s) v) as [n|] eqn:Hn.
    + case_decide as Hnp.
      * assert (n ≠ v ∧ n < length (dom s))%nat as [Hnv Hnl].
        { unfold nextSiblingOf in Hn. rewrite Hp in Hn. simpl in Hn.
          assert (v ∈ childrenOf (dom s) p) as Hin by by apply W1.
          apply list_elem_of_split in Hin as (l1 & l2 & Hl).
          pose proof (W2 p) as Hnd. rewrite Hl in Hnd, Hn.
          apply NoDup_app in Hnd as (_ & Hnd1 & Hnd2).
          apply NoDup_cons in Hnd2 as [Hnd2 _].
          rewrite after_app in Hn by (intros Hx; apply (Hnd1 _ Hx); by left).
          destruct l2 as [|n' l2]; simplify_eq/=.
          apply not_elem_of_cons in Hnd2 as [? ?]. split; [done|].
          assert (n ∈ childrenOf (dom s) p) as Hin'.
          { rewrite Hl. rewrite elem_of_app, !elem_of_cons. naive_solver. }
          apply W1 in Hin'. by apply parentOf_lt in Hin'. }
        assert (n ∈ filter (λ m, m ≠ v) (childrenOf d2 p)) as Hin.
        { apply list_elem_of_filter. split; [done|]. by apply Hwf2. }
        apply list_elem_of_split_l in Hin as (k1 & k2 & Hk & Hnk1).
        rewrite Hk, insert_before_app by done.
        apply after_filter_cons; [|done|unfold ph; lia].
        intros Hx. apply Hvf. rewrite Hk. apply elem_of_app. by left.
      * rewrite filter_app, filter_cons_True, filter_nil by done. by rewrite last_snoc.
    + rewrite filter_app, filter_cons_True, filter_nil by done. by rewrite last_snoc.
  - rewrite Hd3. destruct (hideDom_style c vs d2 (Style.width (styleOf (dom s) v))
      (Style.height (styleOf (dom s) v))) as [Hw _]; [done| |done].
    simpl. rewrite Hos, Hs1. cbn [dom set_isFloating set_videoState set_dom].
    by apply showDom_originalStyles.
  - rewrite Hd3. destruct (hideDom_style c vs d2 (Style.width (styleOf (dom s) v))
      (Style.height (styleOf (dom s) v))) as [_ Hh']; [done| |done].
    simpl. rewrite Hos, Hs1. cbn [dom set_isFloating set_videoState set_dom].
    by apply showDom_originalStyles.
  - by rewrite Hd3.
  - intros q Hq. rewrite Hd3 in Hq. apply W1' in Hq. congruence.
  - intros ->. rewrite Hd3.
    assert (Inv s1) as HI1 by (by apply Inv_show).
    assert (v ∈ childrenOf (dom s) p) as Hin by by apply W1.
    apply list_elem_of_split in Hin as (l1 & l2 & Hl).
    rewrite Hl. apply (hide_slot s1 vs c l1 l2); [done|by rewrite Hs1..|].
    rewrite Hs1. cbn [dom set_isFloating set_videoState set_dom]. simpl.
    by apply show_children.
Qed.

Lemma examplePage_ok : page_ok examplePage 0%nat = true.
Proof. vm_compute. reflexivity. Qed.

Lemma exampleTracked_reachable : reachable exampleTracked.
Proof.
  exists examplePage, 0%nat, 1280, 720, [Init (mkSettings true medium); Play 2%nat].
  split; [apply examplePage_ok|reflexivity].
Qed.

Lemma exampleFloating_reachable : reachable exampleFloating.
Proof.
  exists examplePage, 0%nat, 1280, 720,
    [Init (mkSettings true medium); Play 2%nat; Intersect [mkEntry 2%nat false]].
  split; [apply examplePage_ok|vm_compute; reflexivity].
Qed.

(** The round trip on the example page, when the host has removed the
    caption that followed the video while it floated: the video is appended
    to its block. *)
Lemma float_unfloat_roundtrip_witness :
  let d2 := detach 3%nat (dom (showFloatingPlayer exampleTracked)) in
  let s3 := hideFloatingPlayer (set_dom d2 (showFloatingPlayer exampleTracked)) in
  (reachable exampleTracked ∧ can_float exampleTracked 6%nat 2%nat 1%nat ∧
   wf_dom d2) ∧
  parentOf (dom s3) 2%nat = Some 1%nat ∧
  last (childrenOf (dom s3) 1%nat) = Some 2%nat.
Proof.
  intros d2 s3.
  assert (wf_dom d2) as Hwf by (apply wf_dom_b_sound; vm_compute; reflexivity).
  assert (can_float exampleTracked 6%nat 2%nat 1%nat) as Hcan
    by (repeat split; vm_compute; reflexivity).
  split; [split_and!; [apply exampleTracked_reachable|done|done]|].
  pose proof (float_unfloat_roundtrip exampleTracked 6%nat 2%nat 1%nat d2
                exampleTracked_reachable Hcan Hwf) as H.
  cbv zeta in H. specialize (H ltac:(vm_compute; lia) ltac:(vm_compute; reflexivity)).
  destruct H as (_ & _ & _ & _ & Hpar & Hsib & _).
  split; [exact Hpar|]. vm_compute in Hsib. vm_compute. exact Hsib.
Defined.

(** ** Switching videos *)

Lemma floatingVideos_le_1 s : Inv s → (length (floatingVideos s) ≤ 1)%nat.
Proof.
  intros HI. rewrite (inv_videos s HI). destruct (videoState s); simpl; lia.
Qed.

Lemma handleVideoPlay_switch s A B :
  recentlyPlayedVideo s = Some A → A ≠ B → isVideo (dom s) B →
  ∃ s1, handleVideoPlay B s = reobserve
          (match videoState s1 with
           | Some vs => if isFloating s1 then VideoState.placeholder vs else B
           | None => B
           end) (set_recentlyPlayedVideo (Some B) s1) ∧
        s1 = match videoState s with
             | Some vs =>
                 if isFloating s && bool_decide (VideoState.video vs ≠ B)
                 then hideFloatingPlayer (set_isManuallyHidden false s)
                 else set_isManuallyHidden false s
             | None => set_isManuallyHidden false s
             end.
Proof.
  intros Hr Hne Hv. unfold handleVideoPlay. rewrite decide_True by done.
  rewrite decide_True by congruence. eexists. split; [|reflexivity]. done.
Qed.

Lemma dom_reobserve t s : dom (reobserve t s) = dom s.
Proof. unfold reobserve. by destruct (observer s). Qed.

Lemma fields_reobserve t s :
  isFloating (reobserve t s) = isFloating s ∧
  videoState (reobserve t s) = videoState s ∧
  floatingContainer (reobserve t s) = floatingContainer s ∧
  isManuallyHidden (reobserve t s) = isManuallyHidden s ∧
  recentlyPlayedVideo (reobserve t s) = recentlyPlayedVideo s ∧
  currentSettings (reobserve t s) = currentSettings s.
Proof. unfold reobserve. by destruct (observer s). Qed.

Lemma floatingVideos_reobserve t s : floatingVideos (reobserve t s) = floatingVideos s.
Proof. unfold reobserve. by destruct (observer s). Qed.

Lemma isManuallyHidden_hide s :
  isManuallyHidden (hideFloatingPlayer s) = isManuallyHidden s.
Proof. unfold hideFloatingPlayer. by repeat case_match. Qed.

(** C1. At every state the engine can reach at most one video is floating.
    When [A] is the video played last and a play event arrives for another
    video [B], then after the handler: at most one video is floating, the
    manually-hidden flag is cleared, and [A], if it was floating, is docked
    under its original parent in the slot its placeholder held, that is
    immediately before its original next sibling. In particular, when [A]
    floats because it scrolls out of view and [B] then plays, the child list
    of the parent of [A] is what it was before [A] floated. *)
Theorem play_switch_restores_floating_video s A B :
  reachable s → recentlyPlayedVideo s = Some A → A ≠ B → isVideo (dom s) B →
  let s' := handleVideoPlay B s in
  (length (floatingVideos s) ≤ 1)%nat ∧ (length (floatingVideos s') ≤ 1)%nat ∧
  isManuallyHidden s' = false ∧
  (∀ vs, videoState s = Some vs → VideoState.video vs = A →
     isFloating s' = false ∧ floatingVideos s' = [] ∧
     parentOf (dom s') A = Some (VideoState.originalParent vs) ∧
     nextSiblingOf (dom s') A = VideoState.originalNextSibling vs ∧
     ∃ l1 l2,
       childrenOf (dom s) (VideoState.originalParent vs)
         = l1 ++ VideoState.placeholder vs :: l2 ∧
       childrenOf (dom s') (VideoState.originalParent vs) = l1 ++ A :: l2) ∧
  (∀ p, parentOf (dom s) A = Some p → isFloating s = false →
     let sf := handleIntersection [mkEntry A false] s in
     let sb := handleVideoPlay B sf in
     isFloating sb = false ∧ parentOf (dom sb) A = Some p ∧
     childrenOf (dom sb) p = childrenOf (dom s) p).
Proof.
  intros Hr HA Hne HB s'. pose proof (reachable_Inv s Hr) as HI.
  assert (Inv s') as HI' by (by apply Inv_handleVideoPlay).
  assert (∀ s0, Inv s0 → recentlyPlayedVideo s0 = Some A → isVideo (dom s0) B →
            ∀ vs, videoState s0 = Some vs → VideoState.video vs = A →
            let s1 := handleVideoPlay B s0 in
            isFloating s1 = false ∧ floatingVideos s1 = [] ∧
            parentOf (dom s1) A = Some (VideoState.originalParent vs) ∧
            nextSiblingOf (dom s1) A = VideoState.originalNextSibling vs ∧
            ∃ l1 l2,
              childrenOf (dom s0) (VideoState.originalParent vs)
                = l1 ++ VideoState.placeholder vs :: l2 ∧
              childrenOf (dom s1) (VideoState.originalParent vs) = l1 ++ A :: l2)
    as Hgen.
  { clear s' HI' HI Hr HA HB s. intros s HI HA HB vs Hvs Hvid s1.
    destruct (Inv_floating s vs HI Hvs)
      as (c & l1 & l2 & Hc & Hf & Hcl & Hvp & _ & Hpc & Hph & Hpp & Hpv & Hphc
          & Hl & Hh & Hp1 & Hp2 & Hv1 & Hv2 & Hnd).
    destruct (handleVideoPlay_switch s A B HA Hne HB) as (s2 & Hs1 & Hs2).
    rewrite Hvs, Hf in Hs2. rewrite bool_decide_eq_true_2 in Hs2 by congruence.
    simpl in Hs2.
    assert (Inv (set_isManuallyHidden false s)) as HI0
      by by apply Inv_set_isManuallyHidden.
    rewrite (hide_unfold _ c vs) in Hs2 by done.
    assert (dom s1 = hideDom c vs (dom s)) as Hd1.
    { unfold s1. rewrite Hs1, dom_reobserve. by rewrite Hs2. }
    assert (Inv s1) as HI1 by (by apply Inv_handleVideoPlay).
    assert (videoState s1 = None) as Hvs1.
    { unfold s1. rewrite Hs1. destruct (fields_reobserve
        (match videoState s2 with
         | Some vs0 => if isFloating s2 then VideoState.placeholder vs0 else B
         | None => B end) (set_recentlyPlayedVideo (Some B) s2)) as (_ & -> & _).
      by rewrite Hs2. }
    destruct (Inv_docked s1 HI1 Hvs1) as (Hf1 & Hfv1 & _).
    pose proof (inv_wf s HI) as Hwf. pose proof Hwf as [W1 W2].
    assert (VideoState.video vs < length (dom s))%nat as Hvl
      by (by apply parentOf_lt in Hvp).
    assert (VideoState.originalParent vs < length (dom s))%nat as Hpl.
    { apply W1 in Hpp. by apply childrenOf_lt in Hpp. }
    assert (childrenOf (dom s1) (VideoState.originalParent vs) = l1 ++ A :: l2) as Hch.
    { rewrite Hd1, <- Hvid. by apply (hide_slot s vs c). }
    assert (parentOf (dom s1) A = Some (VideoState.originalParent vs)) as Hpar.
    { rewrite Hd1, hideDom_parentOf by done. rewrite <- Hvid.
      rewrite decide_False, decide_True by done. done. }
    split_and!; try done.
    - unfold nextSiblingOf. rewrite Hpar. simpl. rewrite Hch, <- Hh.
      apply after_app. by rewrite <- Hvid.
    - by exists l1, l2. }
  split_and!.
  - by apply floatingVideos_le_1.
  - by apply floatingVideos_le_1.
  - destruct (handleVideoPlay_switch s A B HA Hne HB) as (s1 & Hs1 & Hs2).
    unfold s'. rewrite Hs1.
    match goal with |- isManuallyHidden (reobserve ?t ?x) = _ =>
      destruct (fields_reobserve t x) as (_ & _ & _ & -> & _) end.
    cbn [isManuallyHidden set_recentlyPlayedVideo]. rewrite Hs2.
    destruct (videoState s); [|done].
    destruct (_ && _); [|done]. by rewrite isManuallyHidden_hide.
  - intros vs Hvs Hvid. by apply Hgen.
  - intros p Hp Hf sf sb.
    assert (Inv sf) as HIf by (by apply Inv_handleIntersection).
    assert (sf = handleIntersectionEntry s (mkEntry A false)) as Hsf by done.
    unfold handleIntersectionEntry in Hsf. rewrite Hf in Hsf.
    cbn [target isIntersecting negb andb] in Hsf.
    rewrite bool_decide_eq_true_2 in Hsf by done.
    destruct (show_result s HI Hf) as [Hno|(c & v & p' & Hv & Hc & He & Hh & Hp' & Hsh)].
    + (* the video does not float *)
      rewrite Hno in Hsf.
      assert (videoState s = None) as Hvs by (by apply Inv_flag_None).
      rewrite Hvs in Hsf.
      destruct (handleVideoPlay_switch s A B HA Hne HB) as (s1 & Hs1 & Hs2).
      rewrite Hvs in Hs2. unfold sb. rewrite Hsf, Hs1.
      match goal with |- context [reobserve ?t ?x] =>
        destruct (fields_reobserve t x) as (-> & _); rewrite (dom_reobserve t x) end.
      by rewrite Hs2.
    + assert (v = A) as -> by congruence. assert (p' = p) as -> by congruence.
      set (vs := VideoState.mk A p (nextSiblingOf (dom s) A) (length (dom s))) in *.
      assert (videoState (showFloatingPlayer s) = Some vs) as Hvs by (by rewrite Hsh).
      rewrite Hvs in Hsf.
      assert (dom sf = dom (showFloatingPlayer s)) as Hdsf
        by (by rewrite Hsf, dom_reobserve).
      destruct (fields_reobserve (VideoState.placeholder vs) (showFloatingPlayer s))
        as (Hf1 & Hf2 & Hf3 & Hf4 & Hf5 & Hf6).
      rewrite <- Hsf in Hf1, Hf2, Hf3, Hf4, Hf5, Hf6.
      assert (recentlyPlayedVideo sf = Some A) as HAf by (rewrite Hf5, Hsh; exact HA).
      assert (isVideo (dom sf) B) as HBf.
      { rewrite Hdsf, Hsh. cbn [dom set_isFloating set_videoState set_dom].
        eapply isVideo_ident; [|exact HB]. rewrite showDom_ident.
        rewrite decide_False; [done|]. apply isVideo_lt in HB. lia. }
      assert (videoState sf = Some vs) as Hvsf by (by rewrite Hf2).
      destruct (Hgen sf HIf HAf HBf vs Hvsf eq_refl)
        as (Hfb & _ & Hpb & _ & l1 & l2 & Hl & Hl').
      fold sb in Hfb, Hpb, Hl'. simpl in Hpb, Hl, Hl'.
      split_and!; [done|done|]. rewrite Hl'.
      destruct (can_float_facts s c A p HI) as (_ & Hcl & _ & _ & Hpc & _);
        [by repeat split|].
      pose proof (inv_wf s HI) as Hwf. pose proof Hwf as [W1 W2].
      assert (A ∈ childrenOf (dom s) p) as Hin by by apply W1.
      apply list_elem_of_split in Hin as (k1 & k2 & Hk).
      rewrite Hdsf, Hsh in Hl. cbn [dom set_isFloating set_videoState set_dom] in Hl.
      rewrite (show_children c A p _ (dom s) k1 k2) in Hl by done.
      rewrite Hk.
      assert ((length (dom s) ∉ k1) ∧ (length (dom s) ∉ k2) ∧ NoDup (k1 ++ k2)) as (Hn1 & Hn2 & Hnd).
      { assert (∀ x, x ∈ childrenOf (dom s) p → x ≠ length (dom s)) as Hlt.
        { intros x Hx. apply W1 in Hx. apply parentOf_lt in Hx. lia. }
        pose proof (W2 p) as Hnd. rewrite Hk in Hnd, Hlt.
        apply NoDup_app in Hnd as (Hnd1 & Hnd2 & Hnd3).
        apply NoDup_cons in Hnd3 as [Hnd3 Hnd4].
        split_and!.
        - intros Hx. eapply Hlt; [|done]. apply elem_of_app. by left.
        - intros Hx. eapply Hlt; [|done]. apply elem_of_app. right. by right.
        - apply NoDup_app. split_and!; [done| |done].
          intros x Hx Hx'. apply (Hnd2 _ Hx). by right. }
      clear -Hl Hn1 Hn2. revert l1 Hl.
      induction k1 as [|x k1 IH]; intros [|y l1] Hl; simpl in *; simplify_eq.
      * done.
      * exfalso. apply Hn2. rewrite elem_of_app, elem_of_cons. naive_solver.
      * exfalso. apply Hn1. by left.
      * apply not_elem_of_cons in Hn1 as [? ?]. f_equal. by apply IH.
Qed.

(** On the example page: the video of block [u1] floats and the video of
    block [u2] starts to play. *)
Lemma play_switch_restores_floating_video_witness :
  (reachable exampleFloating ∧ recentlyPlayedVideo exampleFloating = Some 2%nat ∧
   2%nat ≠ 5%nat ∧ isVideo (dom exampleFloating) 5%nat) ∧
  (length (floatingVideos (handleVideoPlay 5%nat exampleFloating)) ≤ 1)%nat ∧
  isManuallyHidden (handleVideoPlay 5%nat exampleFloating) = false.
Proof.
  assert (recentlyPlayedVideo exampleFloating = Some 2%nat) as H1
    by (vm_compute; reflexivity).
  assert (2%nat ≠ 5%nat) as H2 by lia.
  assert (isVideo (dom exampleFloating) 5%nat) as H3 by (vm_compute; reflexivity).
  split; [split_and!; [apply exampleFloating_reachable|done..]|].
  pose proof (play_switch_restores_floating_video exampleFloating 2%nat 5%nat
                exampleFloating_reachable H1 H2 H3) as H.
  cbv zeta in H. destruct H as (_ & Hle & Hh & _). split; [exact Hle|exact Hh].
Defined.

(** ** The style of the placeholder *)

Section Frame.
Implicit Types (s : State) (d : list Node) (n m p q c v ph : nat).

Lemma frame_refl s : frame_ok s s.
Proof. split; [done|]. intros vs Hvs. by left. Qed.

Lemma frame_trans s1 s2 s3 : frame_ok s1 s2 → frame_ok s2 s3 → frame_ok s1 s3.
Proof.
  intros [L1 F1] [L2 F2]. split; [lia|]. intros vs Hvs.
  destruct (F2 vs Hvs) as [[Hvs2 Hst]|Hge]; [|right; lia].
  destruct (F1 vs Hvs2) as [[Hvs1 Hst']|Hge]; [|right; lia].
  left. split; [done|congruence].
Qed.

Lemma frame_fields s s' :
  dom s' = dom s → videoState s' = videoState s → frame_ok s s'.
Proof. intros Hd Hv. split; [by rewrite Hd|]. intros vs Hvs. left. by rewrite Hd, <- Hv. Qed.

Lemma frame_docked s s' :
  (length (dom s) ≤ length (dom s'))%nat → videoState s' = None → frame_ok s s'.
Proof. intros Hl Hv. split; [done|]. intros vs Hvs. congruence. Qed.

Lemma styleOf_update_ne n f `{!AttrWrite f} d m :
  n ≠ m → styleOf (update n f d) m = styleOf d m.
Proof. intros. rewrite !styleOf_attrs. by rewrite nodeAttrs_update_ne. Qed.

Lemma styleOf_update_keep n f `{!AttrWrite f} d m :
  (∀ x, style (f x) = style x) → styleOf (update n f d) m = styleOf d m.
Proof.
  intros Hk. rewrite !styleOf_attrs. rewrite (nodeAttrs_update n f d m).
  case_decide; [subst|done]. destruct (nodeAttrs d m); simpl; [apply Hk|done].
Qed.

Lemma frame_update_keep s n f `{!AttrWrite f} :
  (∀ x, style (f x) = style x) → frame_ok s (with_dom (update n f) s).
Proof.
  intros Hk. split; [simpl; by rewrite length_update|]. intros vs Hvs. left.
  split; [done|]. simpl. by apply styleOf_update_keep.
Qed.

Lemma frame_update_style_container s c g :
  Inv s → floatingContainer s = Some c → frame_ok s (with_dom (update_style c g) s).
Proof.
  intros HI Hc. split; [simpl; unfold update_style; by rewrite length_update|].
  intros vs Hvs. left. split; [done|]. simpl in *.
  destruct (Inv_floating s vs HI Hvs) as (c' & _ & _ & Hc' & _ & _ & _ & _ & _ & _ & _ & _ & Hpc & _).
  unfold update_style. apply styleOf_update_ne; [apply _|congruence].
Qed.

Lemma hide_length s : Inv s → length (dom (hideFloatingPlayer s)) = length (dom s).
Proof.
  intros HI. destruct (isFloating s) eqn:Hf; [|by rewrite hide_noop by auto].
  destruct (videoState s) as [vs|] eqn:Hvs; [|by rewrite hide_noop by auto].
  destruct (Inv_floating s vs HI Hvs) as (c & _ & _ & Hc & _).
  rewrite (hide_unfold s c vs) by done.
  cbn [dom set_isFloating set_videoState set_dom]. apply hideDom_length.
Qed.

Lemma frame_hide s : Inv s → frame_ok s (hideFloatingPlayer s).
Proof.
  intros HI. apply frame_docked; [by rewrite hide_length|by apply hide_docked].
Qed.

Lemma frame_show s : Inv s → frame_ok s (showFloatingPlayer s).
Proof.
  intros HI. destruct (isFloating s) eqn:Hf.
  { rewrite show_noop by auto 6. apply frame_refl. }
  destruct (show_result s HI Hf) as [->|(c & v & p & Hv & Hc & He & Hh & Hp & ->)];
    [apply frame_refl|].
  destruct (can_float_facts s c v p HI) as (_ & Hcl & _); [by repeat split|].
  split.
  - cbn [dom set_isFloating set_videoState set_dom].
    rewrite showDom_length by (done || apply (inv_wf s HI)). lia.
  - intros vs [= <-]. right. simpl. lia.
Qed.

Lemma frame_reobserve t s : frame_ok s (reobserve t s).
Proof. unfold reobserve. destruct (observer s); [by apply frame_fields|apply frame_refl]. Qed.

Lemma frame_handleVideoPlay t s : Inv s → frame_ok s (handleVideoPlay t s).
Proof.
  intros HI. unfold handleVideoPlay. case_decide; [|apply frame_refl].
  eapply frame_trans; [|apply frame_reobserve].
  match goal with
  | |- frame_ok _ (set_recentlyPlayedVideo _ ?s1) =>
      apply (frame_trans _ s1); [|by apply frame_fields]
  end.
  case_decide; [|apply frame_refl].
  change (videoState (set_isManuallyHidden false s)) with (videoState s).
  change (isFloating (set_isManuallyHidden false s)) with (isFloating s).
  destruct (videoState s); [|by apply frame_fields].
  destruct (_ && _); [|by apply frame_fields].
  eapply frame_trans; [|apply frame_hide; by apply Inv_set_isManuallyHidden].
  by apply frame_fields.
Qed.

Lemma frame_handleIntersectionEntry s e :
  Inv s → frame_ok s (handleIntersectionEntry s e).
Proof.
  intros HI. unfold handleIntersectionEntry.
  destruct (if isFloating s then _ else _); [|apply frame_refl].
  destruct (negb (isIntersecting e) && negb (isFloating s)).
  - eapply frame_trans; [by apply frame_show|].
    destruct (videoState (showFloatingPlayer s)); [apply frame_reobserve|apply frame_refl].
  - destruct (isIntersecting e && isFloating s); [|apply frame_refl].
    eapply frame_trans; [by apply frame_hide|].
    apply (frame_trans _ (set_isManuallyHidden false (hideFloatingPlayer s)));
      [by apply frame_fields|].
    change (recentlyPlayedVideo (set_isManuallyHidden false (hideFloatingPlayer s)))
      with (recentlyPlayedVideo (hideFloatingPlayer s)).
    destruct (recentlyPlayedVideo (hideFloatingPlayer s));
      [apply frame_reobserve|apply frame_refl].
Qed.

Lemma frame_handleIntersection entries s :
  Inv s → frame_ok s (handleIntersection entries s).
Proof.
  unfold handleIntersection. revert s.
  induction entries as [|e es IH]; intros s HI; [apply frame_refl|].
  simpl. eapply frame_trans; [by apply frame_handleIntersectionEntry|].
  by apply IH, Inv_handleIntersectionEntry.
Qed.

Lemma frame_scan s (vs : list nat) :
  frame_ok s (fold_left
         (fun s video =>
            if negb (from_option paused true (dom s !! video)) then
              let s := set_recentlyPlayedVideo (Some video) s in
              set_observer ((fun ts => ts ++ [video]) <$> observer s) s
            else s) vs s).
Proof.
  revert s. induction vs as [|v vs IH]; intros s; [apply frame_refl|].
  simpl. destruct (negb _); [|apply IH].
  eapply frame_trans; [|apply IH]. by apply frame_fields.
Qed.

Lemma frame_addEventListener l s : frame_ok s (addEventListener l s).
Proof. unfold addEventListener. case_decide; [apply frame_refl|by apply frame_fields]. Qed.

Lemma frame_initFloatingPlayer settings s :
  Inv s → frame_ok s (initFloatingPlayer settings s).
Proof.
  intros HI. unfold initFloatingPlayer.
  destruct (negb (enabled settings)); [by apply frame_fields|].
  eapply frame_trans; [|apply frame_scan].
  eapply frame_trans; [|apply frame_addEventListener].
  match goal with
  | |- frame_ok _ (set_observer _ ?s1) =>
      apply (frame_trans _ s1); [|by apply frame_fields]
  end.
  change (floatingContainer (set_currentSettings settings s))
    with (floatingContainer s).
  change (dom (set_currentSettings settings s)) with (dom s).
  destruct (floatingContainer s) as [c|] eqn:Hc; [by apply frame_fields|].
  pose proof (createFloatingContainer_length (dom s)) as Hlen.
  destruct (createFloatingContainer (dom s)) as [c d'] eqn:Hcr. simpl in Hlen.
  apply frame_docked.
  - cbn [dom with_dom set_floatingContainer set_dom set_currentSettings body].
    unfold appendChild. rewrite length_attach. lia.
  - cbn [videoState with_dom set_floatingContainer set_dom set_currentSettings].
    by apply Inv_container_None.
Qed.

Lemma frame_updateFloatingPlayerSettings settings s :
  Inv s → frame_ok s (updateFloatingPlayerSettings settings s).
Proof.
  intros HI. unfold updateFloatingPlayerSettings.
  assert (Inv (set_currentSettings settings s)) as HI0 by by apply (Inv_ext s).
  match goal with
  | |- frame_ok _ (match floatingContainer ?s1 with _ => _ end) =>
      assert (Inv s1 ∧ frame_ok s s1) as [HI1 HF1]; [|set (s1' := s1) in *]
  end.
  { destruct (floatingContainer _).
    - destruct (negb _).
      + split; [by apply Inv_hide|].
        eapply frame_trans; [|by apply frame_hide]. by apply frame_fields.
      + split; [done|by apply frame_fields].
    - split; [done|by apply frame_fields]. }
  destruct (floatingContainer s1') as [c|] eqn:Hc; [|done].
  case_decide; [|done].
  eapply frame_trans; [exact HF1|].
  eapply frame_trans; [by apply (frame_update_style_container s1' c)|].
  apply frame_update_style_container; [by apply Inv_update_style|done].
Qed.

Lemma frame_destroyFloatingPlayer s : Inv s → frame_ok s (destroyFloatingPlayer s).
Proof.
  intros HI. apply frame_docked; [|done].
  unfold destroyFloatingPlayer.
  change (floatingContainer (set_observer None
            (removeEventListener OnPlay (hideFloatingPlayer s))))
    with (floatingContainer (hideFloatingPlayer s)).
  destruct (floatingContainer (hideFloatingPlayer s));
    cbn [dom set_videoState set_isFloating set_isManuallyHidden set_recentlyPlayedVideo
         set_floatingContainer with_dom set_dom set_observer removeEventListener
         set_docListeners];
    rewrite ?length_detach, hide_length by done; done.
Qed.

Lemma frame_returnFloatingVideo b s : Inv s → frame_ok s (returnFloatingVideo b s).
Proof.
  intros HI. unfold returnFloatingVideo.
  destruct (videoState s); [|apply frame_refl].
  destruct (isFloating s); [|apply frame_refl].
  destruct b.
  - eapply frame_trans; [|apply frame_hide; apply Inv_update; [apply _..|done]].
    by apply frame_update_keep.
  - by apply frame_hide.
Qed.

Lemma frame_onDrag e s : Inv s → frame_ok s (onDrag e s).
Proof.
  intros HI. unfold onDrag. destruct (floatingContainer s) as [c|] eqn:Hc; [|apply frame_refl].
  destruct (negb _); [apply frame_refl|].
  eapply frame_trans; [by apply (frame_update_style_container s c)|].
  eapply frame_trans;
    [apply (frame_update_style_container _ c); [by apply Inv_update_style|done]|].
  eapply frame_trans;
    [apply (frame_update_style_container _ c); [by do 2 apply Inv_update_style|done]|].
  apply (frame_update_style_container _ c); [by do 3 apply Inv_update_style|done].
Qed.

Lemma frame_step s ev : Inv s → frame_ok s (step s ev).
Proof.
  intros HI. destruct ev; simpl.
  - by apply frame_initFloatingPlayer.
  - by apply frame_updateFloatingPlayerSettings.
  - by apply frame_destroyFloatingPlayer.
  - by apply frame_returnFloatingVideo.
  - case_decide; [by apply frame_handleVideoPlay|apply frame_refl].
  - by apply frame_handleIntersection.
  - destruct (has_listener _ _ _ _); [|apply frame_refl].
    unfold closeClick. eapply frame_trans; [by apply frame_hide|by apply frame_fields].
  - destruct (has_listener _ _ _ _); [|apply frame_refl].
    unfold startDrag. destruct (floatingContainer s); [|apply frame_refl].
    eapply frame_trans; [|apply frame_addEventListener].
    eapply frame_trans; [|apply frame_addEventListener]. by apply frame_fields.
  - case_decide; [by apply frame_onDrag|apply frame_refl].
  - case_decide; [|apply frame_refl]. unfold stopDrag.
    change (dragDoc (set_isDragging false s)) with (dragDoc s).
    destruct (dragDoc s); by apply frame_fields.
  - by apply frame_update_keep.
  - by apply frame_update_keep.
  - by apply frame_fields.
Qed.
End Frame.

(** C4. At every state the engine can reach, a placeholder is attached to
    the page exactly when the engine is floating. When it is, the
    placeholder recorded in the FloatingState is the only one attached; it
    sits in the slot the video left: under the original parent,
    immediately before the original next sibling. The float transition
    gives it the rendered width and height the video has at that moment,
    and no later event changes them while this FloatingState lasts. *)
Theorem placeholder_lifecycle s :
  reachable s →
  (isFloating s = true ↔ placeholderAttached s) ∧
  (∀ vs, videoState s = Some vs →
     isPlaceholder (dom s) (VideoState.placeholder vs) ∧
     parentOf (dom s) (VideoState.placeholder vs)
       = Some (VideoState.originalParent vs) ∧
     nextSiblingOf (dom s) (VideoState.placeholder vs)
       = VideoState.originalNextSibling vs ∧
     ∀ n, isPlaceholder (dom s) n → is_Some (parentOf (dom s) n) →
          n = VideoState.placeholder vs) ∧
  (isFloating s = false →
   ∀ vs, videoState (showFloatingPlayer s) = Some vs →
     Style.width (styleOf (dom (showFloatingPlayer s)) (VideoState.placeholder vs))
       = CssPx (from_option offsetWidth 0 (dom s !! VideoState.video vs)) ∧
     Style.height (styleOf (dom (showFloatingPlayer s)) (VideoState.placeholder vs))
       = CssPx (from_option offsetHeight 0 (dom s !! VideoState.video vs))) ∧
  (∀ ev vs, videoState s = Some vs → videoState (step s ev) = Some vs →
     styleOf (dom (step s ev)) (VideoState.placeholder vs)
       = styleOf (dom s) (VideoState.placeholder vs)).
Proof.
  intros Hr. pose proof (reachable_Inv s Hr) as HI. split_and!.
  - split.
    + intros Hf. destruct (videoState s) as [vs|] eqn:Hvs.
      * destruct (Inv_floating s vs HI Hvs)
          as (c & l1 & l2 & _ & _ & _ & _ & _ & _ & Hph & Hpp & _).
        exists (VideoState.placeholder vs). split; [done|]. by rewrite Hpp.
      * destruct (Inv_docked s HI Hvs) as [Hx _]. congruence.
    + intros (n & Hn & Hp). pose proof (inv_placeholders s HI n Hn Hp) as Hx.
      rewrite (inv_flag s HI). apply bool_decide_eq_true.
      destruct (videoState s); [done|discriminate].
  - intros vs Hvs.
    destruct (Inv_floating s vs HI Hvs)
      as (c & l1 & l2 & _ & _ & _ & _ & _ & _ & Hph & Hpp & _ & _ & Hl & Hh & Hp1 & _).
    split_and!; try done.
    + unfold nextSiblingOf. rewrite Hpp. simpl. rewrite Hl, <- Hh. by apply after_app.
    + intros n Hn Hp. pose proof (inv_placeholders s HI n Hn Hp) as Hx.
      rewrite Hvs in Hx. simpl in Hx. congruence.
  - intros Hf vs Hvs.
    destruct (show_result s HI Hf) as [Hno|(c & v & p & Hv & Hc & He & Hh & Hp & Hsh)].
    + rewrite Hno in Hvs. pose proof (Inv_flag_None s HI Hf). congruence.
    + rewrite Hsh in Hvs. cbn [videoState set_isFloating set_videoState] in Hvs.
      injection Hvs as <-. rewrite Hsh.
      cbn [dom set_isFloating set_videoState set_dom VideoState.placeholder
           VideoState.video].
      destruct (can_float_facts s c v p HI) as (_ & Hcl & _); [by repeat split|].
      by apply showDom_placeholder_size.
  - intros ev vs Hvs Hvs'. destruct (frame_step s ev HI) as [_ Hfr].
    destruct (Hfr vs Hvs') as [[_ Hst]|Hge]; [done|].
    destruct (Inv_floating s vs HI Hvs)
      as (c & l1 & l2 & _ & _ & _ & _ & _ & _ & Hph & _).
    apply isPlaceholder_lt in Hph. lia.
Qed.

(** On the example page, with the video of block [u1] floating. *)
Lemma placeholder_lifecycle_witness :
  reachable exampleFloating ∧
  (isFloating exampleFloating = true ↔ placeholderAttached exampleFloating).
Proof.
  split; [apply exampleFloating_reachable|].
  apply (placeholder_lifecycle exampleFloating exampleFloating_reachable).
Defined.

(** ** The close button *)

Section Close.
Implicit Types (s : State) (d : list Node) (n m p q c v ph : nat).

Lemma hidden_show s : isManuallyHidden s = true → showFloatingPlayer s = s.
Proof. intros Hh. apply show_noop. auto. Qed.

Lemma hidden_handleIntersection entries s :
  isManuallyHidden s = true → isFloating s = false → videoState s = None →
  handleIntersection entries s = s.
Proof.
  intros Hh Hf Hvs. unfold handleIntersection.
  induction entries as [|e es IH]; [done|]. simpl.
  assert (handleIntersectionEntry s e = s) as ->; [|done].
  unfold handleIntersectionEntry. rewrite Hf.
  destruct (bool_decide _); [|done]. rewrite andb_false_r, andb_true_r.
  destruct (negb (isIntersecting e)); [|done].
  rewrite hidden_show by done. by rewrite Hvs.
Qed.

Lemma fold_left_field {A B} (f : State → A → State) (get : State → B) :
  (∀ s a, get (f s a) = get s) → ∀ l s, get (fold_left f l s) = get s.
Proof.
  intros Hf l. induction l as [|a l IH]; intros s; [done|].
  simpl. by rewrite IH, Hf.
Qed.

Lemma fields_addEventListener l s :
  isManuallyHidden (addEventListener l s) = isManuallyHidden s ∧
  isFloating (addEventListener l s) = isFloating s.
Proof. unfold addEventListener. by case_decide. Qed.

Lemma hidden_step s ev :
  Inv s → isManuallyHidden s = true → isFloating s = false →
  ¬ resets_hidden s ev →
  isManuallyHidden (step s ev) = true ∧ isFloating (step s ev) = false.
Proof.
  intros HI Hh Hf Hq. pose proof (Inv_flag_None s HI Hf) as Hvs.
  assert (∀ s0, isFloating s0 = false → hideFloatingPlayer s0 = s0) as Hhide.
  { intros s0 H0. apply hide_noop. auto. }
  destruct ev; simpl in *.
  - unfold initFloatingPlayer. destruct (negb _); [done|].
    rewrite (fold_left_field _ isManuallyHidden)
      by (intros s0 a; by destruct (negb _)).
    rewrite (fold_left_field _ isFloating)
      by (intros s0 a; by destruct (negb _)).
    match goal with |- context [addEventListener ?l ?s2] =>
      destruct (fields_addEventListener l s2) as [-> ->] end.
    change (floatingContainer (set_currentSettings settings s))
      with (floatingContainer s).
    destruct (floatingContainer s); [done|].
    change (dom (set_currentSettings settings s)) with (dom s).
    by destruct (createFloatingContainer (dom s)).
  - unfold updateFloatingPlayerSettings.
    rewrite (Hhide (set_currentSettings settings s)) by done.
    assert ((match floatingContainer (set_currentSettings settings s) with
             | Some _ => if negb (enabled settings)
                         then set_currentSettings settings s
                         else set_currentSettings settings s
             | None => set_currentSettings settings s
             end) = set_currentSettings settings s) as ->.
    { by repeat case_match. }
    destruct (floatingContainer _); [|done]. by case_decide.
  - done.
  - unfold returnFloatingVideo. by rewrite Hvs.
  - case_decide; [|done]. unfold handleVideoPlay. case_decide; [|done].
    rewrite decide_False by (intros Hx; by apply Hq).
    cbn [videoState set_recentlyPlayedVideo]. rewrite Hvs.
    unfold reobserve. by destruct (observer _).
  - by rewrite hidden_handleIntersection.
  - destruct (has_listener _ _ _ _); [|done]. unfold closeClick.
    by rewrite Hhide.
  - destruct (has_listener _ _ _ _); [|done]. unfold startDrag.
    destruct (floatingContainer s); [|done].
    match goal with |- context [addEventListener ?l (addEventListener ?l' ?s2)] =>
      destruct (fields_addEventListener l (addEventListener l' s2)) as [-> ->];
      destruct (fields_addEventListener l' s2) as [-> ->] end.
    done.
  - case_decide; [|done]. unfold onDrag. destruct (floatingContainer s); [|done].
    by destruct (negb _).
  - case_decide; [|done]. unfold stopDrag.
    change (dragDoc (set_isDragging false s)) with (dragDoc s).
    by destruct (dragDoc s).
  - done.
  - done.
  - done.
Qed.

Lemma hidden_run evs s :
  Inv s → isManuallyHidden s = true → isFloating s = false → quiet s evs →
  isManuallyHidden (run s evs) = true ∧ isFloating (run s evs) = false.
Proof.
  unfold run. revert s. induction evs as [|ev evs IH]; intros s HI Hh Hf Hq; [done|].
  destruct Hq as [Hq1 Hq2]. simpl.
  destruct (hidden_step s ev HI Hh Hf Hq1) as [Hh' Hf'].
  apply IH; [by apply Inv_step|done..].
Qed.

Lemma play_then_lose_sight s B c p :
  Inv s → isFloating s = false → isVideo (dom s) B →
  recentlyPlayedVideo s ≠ Some B →
  floatingContainer s = Some c → enabled (currentSettings s) = true →
  parentOf (dom s) B = Some p →
  isManuallyHidden (handleVideoPlay B s) = false ∧
  isFloating (handleIntersection [mkEntry B false] (handleVideoPlay B s)) = true.
Proof.
  intros HI Hf HB Hne Hc He Hp. pose proof (Inv_flag_None s HI Hf) as Hvs.
  assert (handleVideoPlay B s
          = reobserve B (set_recentlyPlayedVideo (Some B) (set_isManuallyHidden false s)))
    as Hplay.
  { unfold handleVideoPlay. rewrite decide_True by done.
    rewrite decide_True by done.
    change (videoState (set_isManuallyHidden false s)) with (videoState s).
    rewrite Hvs.
    change (videoState (set_recentlyPlayedVideo (Some B)
              (set_isManuallyHidden false s))) with (videoState s).
    by rewrite Hvs. }
  set (s1 := handleVideoPlay B s) in *.
  destruct (fields_reobserve B
    (set_recentlyPlayedVideo (Some B) (set_isManuallyHidden false s)))
    as (Hf1 & Hv1 & Hc1 & Hh1 & Hr1 & Hs1).
  pose proof (dom_reobserve B
    (set_recentlyPlayedVideo (Some B) (set_isManuallyHidden false s))) as Hd1.
  rewrite <- Hplay in Hf1, Hv1, Hc1, Hh1, Hr1, Hs1, Hd1.
  cbn [isFloating videoState floatingContainer isManuallyHidden recentlyPlayedVideo
       currentSettings dom set_recentlyPlayedVideo set_isManuallyHidden]
    in Hf1, Hv1, Hc1, Hh1, Hr1, Hs1, Hd1.
  split; [done|].
  unfold handleIntersection. simpl. unfold handleIntersectionEntry.
  rewrite Hf1, Hf. cbn [target isIntersecting negb andb].
  rewrite bool_decide_eq_true_2 by done.
  rewrite (show_unfold s1 c B p) by (try done; congruence).
  cbn [videoState set_isFloating set_videoState].
  by destruct (fields_reobserve (VideoState.placeholder
    {| VideoState.video := B; VideoState.originalParent := p;
       VideoState.originalNextSibling := nextSiblingOf (dom s1) B;
       VideoState.placeholder := length (dom s1) |})
    (set_isFloating true
      (set_videoState
         (Some {| VideoState.video := B; VideoState.originalParent := p;
                  VideoState.originalNextSibling := nextSiblingOf (dom s1) B;
                  VideoState.placeholder := length (dom s1) |})
         (set_dom (showDom c B p (SIZE_MAP (size (currentSettings s1))) (dom s1)) s1))))
    as (-> & _).
Qed.
End Close.

(** C3, as the code has it. After the close button is clicked while
    floating, the video is returned by the same [hideFloatingPlayer] as when
    its placeholder comes back into view (the two leave the same DOM, with
    the video docked in the slot of its placeholder), and the
    manually-hidden flag is set. From then on no event makes the engine
    float, and the flag stays set, for as long as the engine is not torn
    down and no play event arrives for a video other than the tracked one; a
    play event on the tracked video itself leaves the flag set. A play event
    on another video clears the flag, and that video floats when it then
    scrolls out of view. *)
Theorem close_suppresses_auto_float s vs :
  reachable s → videoState s = Some vs →
  let sc := closeClick s in
  let sg := handleIntersection [mkEntry (VideoState.placeholder vs) true] s in
  (dom sc = dom sg ∧ isFloating sc = false ∧ isFloating sg = false ∧
   parentOf (dom sc) (VideoState.video vs) = Some (VideoState.originalParent vs) ∧
   nextSiblingOf (dom sc) (VideoState.video vs) = VideoState.originalNextSibling vs) ∧
  isManuallyHidden sc = true ∧ isManuallyHidden sg = false ∧
  (∀ evs, quiet sc evs →
     isManuallyHidden (run sc evs) = true ∧ isFloating (run sc evs) = false) ∧
  (∀ evs t, quiet sc evs → recentlyPlayedVideo (run sc evs) = Some t →
     isManuallyHidden (handleVideoPlay t (run sc evs)) = true ∧
     ∀ entries,
       isFloating (handleIntersection entries (handleVideoPlay t (run sc evs)))
       = false) ∧
  (∀ evs B c p, quiet sc evs →
     let s2 := run sc evs in
     isVideo (dom s2) B → recentlyPlayedVideo s2 ≠ Some B →
     floatingContainer s2 = Some c → enabled (currentSettings s2) = true →
     parentOf (dom s2) B = Some p →
     isManuallyHidden (handleVideoPlay B s2) = false ∧
     isFloating (handleIntersection [mkEntry B false] (handleVideoPlay B s2)) = true).
Proof.
  intros Hr Hvs sc sg. pose proof (reachable_Inv s Hr) as HI.
  destruct (Inv_floating s vs HI Hvs)
    as (c & l1 & l2 & Hc & Hf & Hcl & Hvp & _ & Hpc & Hph & Hpp & Hpv & Hphc
        & Hl & Hh & Hp1 & Hp2 & Hv1 & Hv2 & Hnd).
  assert (Inv sc) as HIc by (by apply Inv_closeClick).
  destruct (hide_docked s HI) as [Hhv Hhf].
  assert (isFloating sc = false) as Hfc by done.
  assert (isManuallyHidden sc = true) as Hhc by done.
  assert (sg = match recentlyPlayedVideo (hideFloatingPlayer s) with
               | Some v => reobserve v (set_isManuallyHidden false (hideFloatingPlayer s))
               | None => set_isManuallyHidden false (hideFloatingPlayer s)
               end) as Hsg.
  { unfold sg, handleIntersection. simpl. unfold handleIntersectionEntry.
    rewrite Hf, Hvs. cbn [target isIntersecting negb andb fmap option_fmap option_map].
    by rewrite bool_decide_eq_true_2. }
  assert (dom sg = dom (hideFloatingPlayer s) ∧ isFloating sg = false ∧
          isManuallyHidden sg = false) as (Hdg & Hfg & Hhg).
  { rewrite Hsg. destruct (recentlyPlayedVideo (hideFloatingPlayer s)) as [v|]; [|done].
    rewrite dom_reobserve.
    by destruct (fields_reobserve v (set_isManuallyHidden false (hideFloatingPlayer s)))
      as (-> & _ & _ & -> & _). }
  assert (dom sc = hideDom c vs (dom s)) as Hdc.
  { unfold sc, closeClick. by rewrite (hide_unfold s c vs). }
  pose proof (inv_wf s HI) as Hwf. pose proof Hwf as [W1 W2].
  assert (VideoState.video vs < length (dom s))%nat as Hvl by (by apply parentOf_lt in Hvp).
  assert (VideoState.originalParent vs < length (dom s))%nat as Hpl.
  { apply W1 in Hpp. by apply childrenOf_lt in Hpp. }
  assert (parentOf (dom sc) (VideoState.video vs)
          = Some (VideoState.originalParent vs)) as Hpar.
  { rewrite Hdc, hideDom_parentOf by done.
    rewrite decide_False, decide_True by done. done. }
  assert (dom sc = dom sg) as Hdcg by (by rewrite Hdg).
  assert (nextSiblingOf (dom sc) (VideoState.video vs)
          = VideoState.originalNextSibling vs) as Hsib.
  { rewrite Hdc in Hpar |- *. unfold nextSiblingOf. rewrite Hpar.
    cbn [mbind option_bind].
    rewrite (hide_slot s vs c l1 l2) by done. rewrite <- Hh. by apply after_app. }
  split_and!; try done.
  - intros evs Hq. by apply hidden_run.
  - intros evs t Hq Ht. destruct (hidden_run evs sc HIc Hhc Hfc Hq) as [Hh2 Hf2].
    assert (Inv (run sc evs)) as HI2 by (by apply Inv_run).
    pose proof (Inv_flag_None _ HI2 Hf2) as Hvs2.
    assert (handleVideoPlay t (run sc evs)
            = reobserve t (set_recentlyPlayedVideo (Some t) (run sc evs))) as Hplay.
    { unfold handleVideoPlay. rewrite decide_True by (by apply (inv_tracked _ HI2)).
      rewrite decide_False by (intros Hx; by apply Hx).
      change (videoState (set_recentlyPlayedVideo (Some t) (run sc evs)))
        with (videoState (run sc evs)).
      by rewrite Hvs2. }
    destruct (fields_reobserve t (set_recentlyPlayedVideo (Some t) (run sc evs)))
      as (Hf3 & Hv3 & _ & Hh3 & _).
    rewrite <- Hplay in Hf3, Hv3, Hh3.
    cbn [isFloating videoState isManuallyHidden set_recentlyPlayedVideo] in Hf3, Hv3, Hh3.
    split; [congruence|]. intros entries.
    rewrite hidden_handleIntersection; congruence.
  - intros evs B c0 p Hq s2 HB Hne Hc0 He Hp.
    destruct (hidden_run evs sc HIc Hhc Hfc Hq) as [Hh2 Hf2].
    assert (Inv s2) as HI2 by (by apply Inv_run).
    by apply (play_then_lose_sight s2 B c0 p).
Qed.

(** On the example page: the floating video of block [u1] is closed. *)
Lemma close_suppresses_auto_float_witness :
  (reachable exampleFloating ∧
   videoState exampleFloating = Some (VideoState.mk 2 1 (Some 3%nat) 9)) ∧
  isManuallyHidden (closeClick exampleFloating) = true.
Proof.
  assert (videoState exampleFloating = Some (VideoState.mk 2 1 (Some 3%nat) 9)) as H
    by (vm_compute; reflexivity).
  split; [split; [apply exampleFloating_reachable|done]|].
  pose proof (close_suppresses_auto_float exampleFloating _
                exampleFloating_reachable H) as Hc.
  cbv zeta in Hc. destruct Hc as (_ & Hh & _). exact Hh.
Defined.

(** C3 as stated fails. On the example page the floating video (node 2) is
    closed with the close button (node 8) and then plays again: the flag is
    still set, the observer watches the video, and no intersection entry
    makes it float. The flag is not bound to play events alone either: after
    a teardown and a new initialisation the playing video floats with no
    play event since the close. *)
Lemma close_then_same_play_counterexample :
  let sc := step exampleFloating (Click 8%nat) in
  let sp := step sc (Play 2%nat) in
  let sr := run sc [Media 2%nat false (number_of_Z 3); Destroy;
                    Init (mkSettings true medium)] in
  (isFloating exampleFloating = true ∧ recentlyPlayedVideo exampleFloating = Some 2%nat ∧
   isFloating sc = false ∧ isManuallyHidden sc = true) ∧
  (isManuallyHidden sp = true ∧ observer sp = Some [2%nat] ∧
   enabled (currentSettings sp) = true ∧
   ∀ entries, isFloating (step sp (Intersect entries)) = false) ∧
  (isFloating sr = false ∧
   isFloating (step sr (Intersect [mkEntry 2%nat false])) = true).
Proof.
  intros sc sp sr. split_and!; try (vm_compute; reflexivity).
  intros entries. simpl. rewrite hidden_handleIntersection; vm_compute; reflexivity.
Qed.

(** ** Dragging *)

Section Drag.
Implicit Types (s : State) (d : list Node) (n m p q c : nat).

Lemma styleOf_update_style_eq c g d :
  (c < length d)%nat → styleOf (update_style c g d) c = g (styleOf d c).
Proof.
  intros Hc. unfold update_style. rewrite !styleOf_attrs.
  rewrite nodeAttrs_update_eq by apply _.
  assert (is_Some (nodeAttrs d c)) as [x Hx].
  { unfold nodeAttrs. destruct (lookup_lt_is_Some_2 d c Hc) as [y ->]. by eexists. }
  by rewrite Hx.
Qed.

Lemma onDrag_unfold e s c :
  floatingContainer s = Some c → isDragging s = true →
  let sz := SIZE_MAP (size (currentSettings s)) in
  let newX := Z.max 10 (Z.min (clientX e - Position.x (dragOffset s))
                          (innerWidth s - Box.width sz - 10)) in
  let newY := Z.max 10 (Z.min (clientY e - Position.y (dragOffset s))
                          (innerHeight s - Box.height sz - 10)) in
  onDrag e s
  = set_dom (update_style c (Style.set_top (CssPx newY))
               (update_style c (Style.set_left (CssPx newX))
                  (update_style c (Style.set_bottom CssAuto)
                     (update_style c (Style.set_right CssAuto) (dom s))))) s.
Proof. intros Hc Hd. unfold onDrag. by rewrite Hc, Hd. Qed.

Lemma drag_tree e s :
  isFloating (onDrag e s) = isFloating s ∧ videoState (onDrag e s) = videoState s ∧
  ∀ n, parentOf (dom (onDrag e s)) n = parentOf (dom s) n ∧
       childrenOf (dom (onDrag e s)) n = childrenOf (dom s) n.
Proof.
  unfold onDrag. destruct (floatingContainer s) as [c|]; [|done].
  destruct (negb _); [done|]. split_and!; [done|done|].
  intros n. cbn [dom with_dom set_dom]. by dom_views.
Qed.
End Drag.


(** ** Initialisation with the feature disabled *)

Section Disabled.
Implicit Types (s : State).

Lemma inert_step s ev : inert s → not_enabling ev → inert (step s ev).
Proof.
  intros Hi Hev. pose proof Hi as (Hc & Ho & Hl & Hf).
  assert (hideFloatingPlayer s = s) as Hhide by (apply hide_noop; auto).
  assert (showFloatingPlayer s = s) as Hshow by (apply show_noop; auto).
  destruct ev; unfold step; cbn [not_enabling] in Hev.
  - unfold initFloatingPlayer. rewrite Hev. cbn [negb]. unfold inert. by split_and!.
  - unfold updateFloatingPlayerSettings.
    cbn [floatingContainer set_currentSettings]. rewrite Hc.
    cbn [floatingContainer set_currentSettings]. rewrite Hc.
    unfold inert. by split_and!.
  - unfold destroyFloatingPlayer. rewrite Hhide.
    cbn [floatingContainer set_observer removeEventListener set_docListeners].
    rewrite Hc. unfold inert. split_and!; try done.
    cbn [docListeners set_videoState set_isFloating set_isManuallyHidden
         set_recentlyPlayedVideo set_observer removeEventListener set_docListeners].
    rewrite list_elem_of_filter. naive_solver.
  - unfold returnFloatingVideo. destruct (videoState s); [|done]. by rewrite Hf.
  - by rewrite decide_False.
  - assert (∀ entries s0, inert s0 → inert (handleIntersection entries s0)) as Hgen;
      [|by apply Hgen].
    clear. intros entries. unfold handleIntersection.
    induction entries as [|e es IH]; intros s Hi; [done|].
    pose proof Hi as (Hc & Ho & Hl & Hf).
    simpl. apply IH. unfold handleIntersectionEntry. rewrite Hf.
    destruct (bool_decide _); [|done]. rewrite andb_false_r, andb_true_r.
    destruct (negb _); [|done]. rewrite show_noop by auto.
    destruct (videoState s); [|done]. unfold reobserve. by rewrite Ho.
  - destruct (has_listener _ _ _ _); [|done]. unfold closeClick. by rewrite Hhide.
  - destruct (has_listener _ _ _ _); [|done]. unfold startDrag. by rewrite Hc.
  - case_decide; [|done]. unfold onDrag. by rewrite Hc.
  - case_decide; [|done]. unfold stopDrag.
    change (dragDoc (set_isDragging false s)) with (dragDoc s).
    destruct (dragDoc s); [|unfold inert; by split_and!]. unfold inert. split_and!; try done.
    cbn [docListeners set_dragDoc removeEventListener set_docListeners set_isDragging].
    rewrite !list_elem_of_filter. naive_solver.
  - unfold inert. by split_and!.
  - unfold inert. by split_and!.
  - unfold inert. by split_and!.
Qed.

Lemma inert_run evs s : inert s → Forall not_enabling evs → inert (run s evs).
Proof.
  unfold run. revert s. induction evs as [|ev evs IH]; intros s Hi Hall; [done|].
  apply Forall_cons in Hall as [Hev Hall]. simpl. apply IH; [|done].
  by apply inert_step.
Qed.
End Disabled.

(** C10. When the engine has no container, no observer and no play
    listener and is not floating, as when the module has just been loaded,
    [initFloatingPlayer] with [enabled = false] only stores the settings: it
    creates no container and no observer and adds no play listener. A later
    [updateFloatingPlayerSettings], also with [enabled = true], creates none
    of them either, and whatever events follow, the engine does not float
    before [initFloatingPlayer] runs with [enabled = true]. *)
Theorem disabled_init_never_floats s settings :
  floatingContainer s = None → observer s = None → OnPlay ∉ docListeners s →
  isFloating s = false → enabled settings = false →
  let s1 := initFloatingPlayer settings s in
  s1 = set_currentSettings settings s ∧
  (∀ settings',
     let s2 := updateFloatingPlayerSettings settings' s1 in
     s2 = set_currentSettings settings' s ∧ floatingContainer s2 = None ∧
     observer s2 = None ∧ (OnPlay ∉ docListeners s2) ∧ dom s2 = dom s) ∧
  (∀ evs, Forall not_enabling evs →
     floatingContainer (run s1 evs) = None ∧ observer (run s1 evs) = None ∧
     (OnPlay ∉ docListeners (run s1 evs)) ∧ isFloating (run s1 evs) = false).
Proof.
  intros Hc Ho Hl Hf He s1.
  assert (s1 = set_currentSettings settings s) as Hs1.
  { unfold s1, initFloatingPlayer. by rewrite He. }
  split_and!.
  - done.
  - intros settings' s2.
    assert (s2 = set_currentSettings settings' s) as ->.
    { unfold s2, updateFloatingPlayerSettings. rewrite Hs1.
      cbn [floatingContainer set_currentSettings]. rewrite Hc.
      cbn [floatingContainer set_currentSettings]. by rewrite Hc. }
    by split_and!.
  - intros evs Hall. apply (inert_run evs s1); [|done]. rewrite Hs1.
    unfold inert. by split_and!.
Qed.

(** On the page just loaded: initialisation with the feature disabled, then
    the setting is enabled, the video of block [u1] plays and scrolls out of
    view. *)
Lemma disabled_init_never_floats_witness :
  let s := initialState examplePage 0%nat 1280 720 in
  (floatingContainer s = None ∧ observer s = None ∧ (OnPlay ∉ docListeners s) ∧
   isFloating s = false ∧ enabled (mkSettings false medium) = false) ∧
  isFloating
    (run (initFloatingPlayer (mkSettings false medium) s)
       [UpdateSettings (mkSettings true medium); Play 2%nat;
        Intersect [mkEntry 2%nat false]]) = false.
Proof.
  intros s.
  assert (OnPlay ∉ docListeners s) as Hl by (by intros H%elem_of_nil).
  split; [by split_and!|].
  pose proof (disabled_init_never_floats s (mkSettings false medium)
                eq_refl eq_refl Hl eq_refl eq_refl) as H.
  cbv zeta in H. destruct H as (_ & _ & H).
  apply (H [UpdateSettings (mkSettings true medium); Play 2%nat;
            Intersect [mkEntry 2%nat false]]).
  by repeat constructor.
Defined.
(** ** The locator *)

Section AsyncLemmas.
Context {A B : Type}.
Implicit Types (m : Async A) (k : A → Async B) (w : World).

Lemma bind_value m k w a w' : m w = (Value a, w') → (m ≫= k) w = k a w'.
Proof. intros H. unfold mbind, Async_bind, bind. by rewrite H. Qed.

Lemma bind_thrown m k w e w' :
  m w = (Thrown e, w') → (m ≫= k) w = (Thrown e, w').
Proof. intros H. unfold mbind, Async_bind, bind. by rewrite H. Qed.
End AsyncLemmas.

Section LocatorLemmas.
Variable editor : nat → BlockLink → ApiReply.
Implicit Types (w : World) (s : State) (blk : Block.t).

Lemma advance_0 w : advance 0 w = w.
Proof. by destruct w. Qed.

Lemma advance_advance a b w : advance a (advance b w) = advance (a + b) w.
Proof.
  destruct w. unfold advance, set_apiCalls. cbn. f_equal. lia.
Qed.

Lemma engine_advance k w : engine (advance k w) = engine w.
Proof. done. Qed.

Lemma apiCalls_advance k w : apiCalls (advance k w) = (k + apiCalls w)%nat.
Proof. done. Qed.

Lemma getBlock_resolved ref w b :
  editor (apiCalls w) ref = Resolved b →
  getBlock editor ref w = (Value b, advance 1 w).
Proof. intros H. unfold getBlock. by rewrite H. Qed.

Lemma getBlock_rejected ref w e :
  editor (apiCalls w) ref = Rejected e →
  getBlock editor ref w = (Thrown e, advance 1 w).
Proof. intros H. unfold getBlock. by rewrite H. Qed.

(** Lines 168-178: a lookup that is not rejected adds the block found. *)
Lemma relatedBlock_resolved bs link w :
  rejects editor (apiCalls w) link = false →
  relatedBlock editor bs link w
  = (Value (bs ++ option_list (Block.uuid <$> linked editor (apiCalls w) link)),
     advance (asks link) w).
Proof.
  unfold relatedBlock, rejects, linked, asks. intros H.
  destruct link as [l|]; [|by rewrite advance_0, app_nil_r].
  destruct (truthy_link l); [|by rewrite advance_0, app_nil_r].
  destruct (editor (apiCalls w) (link_id l)) as [b|e] eqn:He; [|done].
  rewrite (bind_value _ _ _ b (advance 1 w)) by (by apply getBlock_resolved).
  destruct b; [done|]. by rewrite app_nil_r.
Qed.

(** Lines 168-178: a rejected lookup is an exception of the locator. *)
Lemma relatedBlock_rejected bs link w :
  rejects editor (apiCalls w) link = true →
  ∃ e, relatedBlock editor bs link w = (Thrown e, advance 1 w).
Proof.
  unfold relatedBlock, rejects. intros H.
  destruct link as [l|]; [|done].
  destruct (truthy_link l); [|done].
  destruct (editor (apiCalls w) (link_id l)) as [b|e] eqn:He; [done|].
  exists e. by apply bind_thrown, getBlock_rejected.
Qed.

Lemma first_match_app s l1 l2 :
  first_match s (l1 ++ l2)
  = match first_match s l1 with
    | Some v => Some v
    | None => first_match s l2
    end.
Proof.
  induction l1 as [|u l1 IH]; [done|]. simpl.
  by destruct (findVideoInBlock s u).
Qed.

(** Lines 199-225: a guarded candidate never throws; a rejected lookup is
    logged and the candidate yields no video. *)
Lemma searchLinked_spec link what w :
  ∃ w', searchLinked editor link what w
        = (Value (first_match (engine w)
                    (option_list (Block.uuid <$> linked editor (apiCalls w) link))),
           w') ∧
        engine w' = engine w ∧
        apiCalls w' = (asks link + apiCalls w)%nat ∧
        console w' = (if rejects editor (apiCalls w) link
                      then console w ++ [("error", what)] else console w).
Proof.
  unfold searchLinked, rejects, linked, asks.
  destruct link as [l|]; [|by exists w].
  destruct (truthy_link l); [|by exists w].
  unfold try_catch.
  destruct (editor (apiCalls w) (link_id l)) as [b|e] eqn:He.
  - rewrite (bind_value _ _ _ b (advance 1 w)) by (by apply getBlock_resolved).
    destruct b as [b|]; [|by exists (advance 1 w)].
    exists (advance 1 w). split; [|done]. unfold gets. cbn.
    by destruct (findVideoInBlock (engine w) (Block.uuid b)).
  - rewrite (bind_thrown _ _ _ e (advance 1 w)) by (by apply getBlock_rejected).
    by exists (set_console (console w ++ [("error", what)]) (advance 1 w)).
Qed.

(** Lines 194-227: the regular search returns the first video of the
    candidates in priority order, and never throws. *)
Lemma searchBlocks_spec blk w :
  ∃ w', searchBlocks editor blk w
        = (Value (first_match (engine w) (candidates editor (apiCalls w) blk)), w') ∧
        engine w' = engine w ∧
        (findVideoInBlock (engine w) (Block.uuid blk) = None →
         rejects editor (apiCalls w) (Block.left blk) = true →
         ("error", "[mediatimestamp] Error checking left sibling") ∈ console w').
Proof.
  unfold searchBlocks, candidates.
  rewrite (bind_value _ _ w (findVideoInBlock (engine w) (Block.uuid blk)) w) by done.
  cbn [first_match].
  destruct (findVideoInBlock (engine w) (Block.uuid blk)) as [v|] eqn:Hv.
  { exists w. by split_and!. }
  destruct (searchLinked_spec (Block.left blk)
              "[mediatimestamp] Error checking left sibling" w)
    as (w1 & H1 & He1 & Ha1 & Hc1).
  rewrite (bind_value _ _ _ _ _ H1). rewrite first_match_app.
  destruct (first_match (engine w) (option_list _)) as [v|] eqn:Hl.
  { exists w1. split_and!; [done..|]. intros _ Hr. rewrite Hc1, Hr.
    apply elem_of_app. right. by left. }
  destruct (searchLinked_spec (Block.parent blk)
              "[mediatimestamp] Error checking parent block" w1)
    as (w2 & H2 & He2 & Ha2 & Hc2).
  rewrite (bind_value _ _ _ _ _ H2). rewrite He1, Ha1, (Nat.add_comm (asks _)).
  exists w2. split_and!.
  - match goal with |- context [first_match ?a ?b] => by destruct (first_match a b) end.
  - congruence.
  - intros _ Hr. rewrite Hc2. rewrite Hc1, Hr.
    assert (("error", "[mediatimestamp] Error checking left sibling")
            ∈ console w ++ [("error", "[mediatimestamp] Error checking left sibling")])
      as Hin by (apply elem_of_app; right; by left).
    destruct (rejects editor (apiCalls w1) _); [|done]. apply elem_of_app. by left.
Qed.

(** [getVideoEl] up to the search, when the block is found and no lookup
    of lines 168-178 is rejected. *)
Lemma getVideoEl_unfold uuid blk w :
  editor (apiCalls w) (LinkKey (KStr uuid)) = Resolved (Some blk) →
  rejects editor (S (apiCalls w)) (Block.left blk) = false →
  rejects editor (S (apiCalls w) + asks (Block.left blk)) (Block.parent blk) = false →
  let w1 := advance (1 + asks (Block.left blk) + asks (Block.parent blk)) w in
  getVideoEl editor uuid w
  = match getFloatingVideo (engine w) with
    | Some fv =>
        if existsb (hasPlaceholder (engine w))
             (candidates editor (S (apiCalls w)) blk)
        then (Value (Some fv), w1)
        else searchBlocks editor blk
               (set_engine (returnFloatingVideo true (engine w)) w1)
    | None => searchBlocks editor blk w1
    end.
Proof.
  intros Hb Hl Hp w1. unfold getVideoEl.
  rewrite (bind_value _ _ _ _ _ (getBlock_resolved _ _ _ Hb)).
  rewrite (bind_value _ _ _ _ _
             (relatedBlock_resolved [Block.uuid blk] (Block.left blk) (advance 1 w) Hl)).
  assert (apiCalls (advance (asks (Block.left blk)) (advance 1 w))
          = (S (apiCalls w) + asks (Block.left blk))%nat) as Ha
    by (rewrite !apiCalls_advance; lia).
  rewrite <- Ha in Hp.
  rewrite (bind_value _ _ _ _ _ (relatedBlock_resolved _ (Block.parent blk)
                                (advance (asks (Block.left blk)) (advance 1 w)) Hp)).
  rewrite Ha, !advance_advance.
  replace (asks (Block.parent blk) + asks (Block.left blk) + 1)%nat
    with (1 + asks (Block.left blk) + asks (Block.parent blk))%nat by lia.
  fold w1.
  rewrite (bind_value _ _ w1 (getFloatingVideo (engine w)) w1) by done.
  destruct (getFloatingVideo (engine w)) as [fv|]; [|done].
  rewrite (bind_value _ _ w1 (existsb (hasPlaceholder (engine w))
                                (candidates editor (S (apiCalls w)) blk)) w1).
  - destruct (existsb _ _); [done|].
    by rewrite (bind_value _ _ w1 tt
                  (set_engine (returnFloatingVideo true (engine w)) w1)).
  - unfold gets, candidates. by rewrite <- app_assoc.
Qed.

(** Lines 168-178 are not guarded: a rejected lookup there is an exception
    of [getVideoEl]. *)
Lemma getVideoEl_left_rejected uuid blk w :
  editor (apiCalls w) (LinkKey (KStr uuid)) = Resolved (Some blk) →
  rejects editor (S (apiCalls w)) (Block.left blk) = true →
  ∃ e, getVideoEl editor uuid w = (Thrown e, advance 2 w).
Proof.
  intros Hb Hl. unfold getVideoEl.
  rewrite (bind_value _ _ _ _ _ (getBlock_resolved _ _ _ Hb)).
  destruct (relatedBlock_rejected [Block.uuid blk] (Block.left blk) (advance 1 w) Hl)
    as (e & He).
  exists e. rewrite (bind_thrown _ _ _ _ _ He). by rewrite advance_advance.
Qed.
End LocatorLemmas.

(** What the selectors of the locator find. *)
Section Residence.
Implicit Types (d : list Node) (s : State).

Lemma subtree_child k d m n :
  n ∈ subtree k d m → n = m ∨ ∃ p, n ∈ childrenOf d p.
Proof.
  revert m. induction k as [|k IH]; intros m; simpl.
  - by intros ?%elem_of_nil.
  - rewrite elem_of_cons. intros [->|H]; [by left|]. right.
    apply list_elem_of_In, in_flat_map in H as (x & Hx & Hn).
    apply list_elem_of_In in Hx, Hn. destruct (IH _ Hn) as [->|?]; eauto.
Qed.

Lemma descendants_child d c n :
  n ∈ descendants d c → ∃ p, n ∈ childrenOf d p.
Proof.
  unfold descendants. intros H.
  apply list_elem_of_In, in_flat_map in H as (x & Hx & Hn).
  apply list_elem_of_In in Hx, Hn.
  destruct (subtree_child _ _ _ _ Hn) as [->|?]; eauto.
Qed.

Lemma matches_video d v : matches d (sel_tag "VIDEO") v = true ↔ isVideo d v.
Proof.
  unfold matches, isVideo, tagOf, sel_tag. destruct (d !! v) as [x|]; simpl.
  - rewrite bool_decide_eq_true. split; [by intros ->|by intros [= ->]].
  - split; intros; done.
Qed.

Lemma findVideoInBlock_resides s u v :
  findVideoInBlock s u = Some v → isVideo (dom s) v ∧ resides s v u.
Proof.
  unfold findVideoInBlock, resides, querySelector.
  destruct (blockContainer s u) as [c|]; [|done].
  intros [Hin Hm]%find_some. apply list_elem_of_In in Hin.
  split; [by apply matches_video|by exists c].
Qed.

Lemma first_match_resides s us v :
  first_match s us = Some v → isVideo (dom s) v ∧ Exists (resides s v) us.
Proof.
  induction us as [|u us IH]; [done|]. simpl.
  destruct (findVideoInBlock s u) as [v'|] eqn:Hu.
  - intros [= ->]. apply findVideoInBlock_resides in Hu as [? ?].
    split; [done|by left].
  - intros H. destruct (IH H) as [? ?]. split; [done|by right].
Qed.

(** With a video floating, a block has a placeholder exactly when the
    placeholder of the floating video lies in its subtree. *)
Lemma hasPlaceholder_resides s vs u :
  Inv s → videoState s = Some vs →
  hasPlaceholder s u = true ↔ resides s (VideoState.placeholder vs) u.
Proof.
  intros HI Hvs. unfold hasPlaceholder, resides, querySelector. split.
  - destruct (blockContainer s u) as [c|]; [|done].
    intros H%bool_decide_eq_true.
    destruct (find _ _) as [n|] eqn:Hf; [|done].
    apply find_some in Hf as [Hin Hm]. apply list_elem_of_In in Hin.
    destruct (descendants_child _ _ _ Hin) as (p & Hp).
    apply (inv_wf s HI) in Hp.
    assert (is_Some (parentOf (dom s) n)) as Hs by (by rewrite Hp).
    pose proof (inv_placeholders s HI n Hm Hs) as Hn. rewrite Hvs in Hn.
    simpl in Hn. injection Hn as ->. by exists c.
  - intros (c & -> & Hin). apply bool_decide_eq_true. intros Hnone.
    destruct (Inv_floating s vs HI Hvs)
      as (_ & _ & _ & _ & _ & _ & _ & _ & _ & Hph & _).
    apply list_elem_of_In in Hin.
    pose proof (find_none _ _ Hnone _ Hin) as Hm.
    unfold isPlaceholder in Hph. congruence.
Qed.

Lemma existsb_hasPlaceholder s vs us :
  Inv s → videoState s = Some vs →
  existsb (hasPlaceholder s) us = true
  ↔ Exists (resides s (VideoState.placeholder vs)) us.
Proof.
  intros HI Hvs. rewrite existsb_exists, Exists_exists.
  split; intros (u & Hu & H); exists u;
    (split; [by apply list_elem_of_In|]);
    by apply (hasPlaceholder_resides s vs u HI Hvs).
Qed.

(** [returnFloatingVideo] docks the floating video where its placeholder
    was. *)
Lemma returnFloatingVideo_docks b s vs :
  Inv s → videoState s = Some vs →
  let s' := returnFloatingVideo b s in
  isFloating s' = false ∧ getFloatingVideo s' = None ∧
  parentOf (dom s') (VideoState.video vs) = Some (VideoState.originalParent vs) ∧
  nextSiblingOf (dom s') (VideoState.video vs) = VideoState.originalNextSibling vs ∧
  parentOf (dom s') (VideoState.placeholder vs) = None.
Proof.
  intros HI Hvs s'.
  destruct (Inv_floating s vs HI Hvs) as (c0 & _ & _ & Hc0 & Hf0 & _).
  set (s0 := if b then with_dom (update (VideoState.video vs) (set_paused true)) s
             else s).
  assert (Inv s0) as HI0.
  { unfold s0. destruct b; [|done]. apply Inv_update; [apply _..|done]. }
  assert (videoState s0 = Some vs) as Hvs0 by (unfold s0; by destruct b).
  assert (s' = hideFloatingPlayer s0) as Hs'.
  { unfold s', returnFloatingVideo. by rewrite Hvs, Hf0. }
  destruct (Inv_floating s0 vs HI0 Hvs0)
    as (c & l1 & l2 & Hc & Hf & Hcl & Hvp & _ & Hpc & Hph & Hpp & Hpv & Hphc
        & Hl & Hh & Hp1 & Hp2 & Hv1 & Hv2 & Hnd).
  rewrite (hide_unfold _ c vs) in Hs' by done.
  assert (dom s' = hideDom c vs (dom s0)) as Hd by (by rewrite Hs').
  pose proof (inv_wf s0 HI0) as Hwf. pose proof Hwf as [W1 W2].
  assert (VideoState.video vs < length (dom s0))%nat as Hvl
    by (by apply parentOf_lt in Hvp).
  assert (VideoState.originalParent vs < length (dom s0))%nat as Hpl.
  { apply W1 in Hpp. by apply childrenOf_lt in Hpp. }
  assert (childrenOf (dom s') (VideoState.originalParent vs)
          = l1 ++ VideoState.video vs :: l2) as Hch.
  { rewrite Hd. by apply (hide_slot s0 vs c). }
  assert (parentOf (dom s') (VideoState.video vs)
          = Some (VideoState.originalParent vs)) as Hpar.
  { rewrite Hd, hideDom_parentOf by done.
    by rewrite decide_False, decide_True by done. }
  split_and!.
  - by rewrite Hs'.
  - by rewrite Hs'.
  - done.
  - unfold nextSiblingOf. rewrite Hpar. simpl. rewrite Hch, <- Hh.
    by apply after_app.
  - rewrite Hd, hideDom_parentOf by done. by rewrite decide_True.
Qed.
End Residence.

(** C6. With no video floating, when the block is found and the lookups
    that precede the search are not rejected, [getVideoEl] returns the first
    video of the candidates taken in the order current block, left sibling,
    parent, and null when none holds a video; the engine is left as it was.
    The video returned is a video element of the subtree of one of the
    candidates. A video in the current block is returned whatever the
    sibling and the parent hold; failing that, a video in the left sibling
    is returned whatever the parent holds. *)
Theorem locate_priority editor w uuid blk :
  editor (apiCalls w) (LinkKey (KStr uuid)) = Resolved (Some blk) →
  rejects editor (S (apiCalls w)) (Block.left blk) = false →
  rejects editor (S (apiCalls w) + asks (Block.left blk)) (Block.parent blk) = false →
  getFloatingVideo (engine w) = None →
  let s := engine w in
  let n := (1 + asks (Block.left blk) + asks (Block.parent blk) + apiCalls w)%nat in
  let found := first_match s (candidates editor n blk) in
  (∃ w', getVideoEl editor uuid w = (Value found, w') ∧ engine w' = s) ∧
  (∀ v, found = Some v →
     isVideo (dom s) v ∧ Exists (resides s v) (candidates editor n blk)) ∧
  (∀ v, findVideoInBlock s (Block.uuid blk) = Some v → found = Some v) ∧
  (∀ b v, findVideoInBlock s (Block.uuid blk) = None →
     linked editor n (Block.left blk) = Some b →
     findVideoInBlock s (Block.uuid b) = Some v → found = Some v).
Proof.
  intros Hb Hl Hp Hfv s n found.
  split_and!.
  - rewrite (getVideoEl_unfold editor uuid blk w Hb Hl Hp). cbv zeta. rewrite Hfv.
    destruct (searchBlocks_spec editor blk
                (advance (1 + asks (Block.left blk) + asks (Block.parent blk)) w))
      as (w' & Hs & He & _).
    exists w'. by split.
  - intros v Hv. by apply first_match_resides.
  - intros v Hv. unfold found, candidates. simpl. by rewrite Hv.
  - intros b v Hcur Hlink Hv. unfold found, candidates. simpl.
    rewrite Hcur, Hlink. simpl. by rewrite Hv.
Qed.

(** On the outline, for block [u4]: the block, its left sibling [u3] and
    its parent [u2] each hold a video; the video of [u4] itself (node 9) is
    returned. *)
Lemma locate_priority_witness :
  let w := freshWorld outlineLoaded in
  (outlineHost (apiCalls w) (LinkKey (KStr "u4"))
   = Resolved (Some (Block.mk "u4" (Some (LinkObj (Some (KNum 3))))
                       (Some (LinkObj (Some (KNum 2))))))) ∧
  findVideoInBlock (engine w) "u4" = Some 9%nat ∧
  findVideoInBlock (engine w) "u3" = Some 7%nat ∧
  findVideoInBlock (engine w) "u2" = Some 5%nat ∧
  fst (getVideoEl outlineHost "u4" w) = Value (Some 9%nat).
Proof.
  intros w.
  assert (findVideoInBlock (engine w) "u4" = Some 9%nat) as H4
    by (vm_compute; reflexivity).
  split_and!; [reflexivity|exact H4|vm_compute; reflexivity..|].
  pose proof (locate_priority outlineHost w "u4"
                (Block.mk "u4" (Some (LinkObj (Some (KNum 3))))
                   (Some (LinkObj (Some (KNum 2)))))
                eq_refl eq_refl eq_refl eq_refl) as H.
  cbv zeta in H. destruct H as ((w' & Hrun & _) & _ & Hcur & _).
  rewrite Hrun. cbn [fst]. apply (f_equal Value), Hcur. exact H4.
Defined.

(** C5. While a video floats, when the block is found and the lookups of
    its left sibling and of its parent are not rejected: if the placeholder
    of the floating video lies in the subtree of the current block, of the
    left sibling or of the parent, [getVideoEl] returns the floating video
    and leaves the engine as it is; otherwise it runs the regular search from
    the engine state that [returnFloatingVideo] leaves, in which no video
    floats, the video is back under its original parent, immediately before
    its original next sibling, and the placeholder is detached. *)
Theorem locate_floating editor w uuid blk vs :
  reachable (engine w) → videoState (engine w) = Some vs →
  editor (apiCalls w) (LinkKey (KStr uuid)) = Resolved (Some blk) →
  rejects editor (S (apiCalls w)) (Block.left blk) = false →
  rejects editor (S (apiCalls w) + asks (Block.left blk)) (Block.parent blk) = false →
  let s := engine w in
  let related := candidates editor (S (apiCalls w)) blk in
  let w1 := advance (1 + asks (Block.left blk) + asks (Block.parent blk)) w in
  getFloatingVideo s = Some (VideoState.video vs) ∧
  (Exists (resides s (VideoState.placeholder vs)) related →
     getVideoEl editor uuid w = (Value (Some (VideoState.video vs)), w1)) ∧
  (¬ Exists (resides s (VideoState.placeholder vs)) related →
     let s' := returnFloatingVideo true s in
     getVideoEl editor uuid w = searchBlocks editor blk (set_engine s' w1) ∧
     (∃ w', getVideoEl editor uuid w
            = (Value (first_match s' (candidates editor (apiCalls w1) blk)), w') ∧
            engine w' = s') ∧
     isFloating s' = false ∧ getFloatingVideo s' = None ∧
     parentOf (dom s') (VideoState.video vs) = Some (VideoState.originalParent vs) ∧
     nextSiblingOf (dom s') (VideoState.video vs)
       = VideoState.originalNextSibling vs ∧
     parentOf (dom s') (VideoState.placeholder vs) = None).
Proof.
  intros Hr Hvs Hb Hl Hp s related w1.
  pose proof (reachable_Inv _ Hr) as HI.
  destruct (Inv_floating _ vs HI Hvs) as (c & _ & _ & _ & Hf & _).
  assert (getFloatingVideo s = Some (VideoState.video vs)) as Hfv.
  { unfold getFloatingVideo, s. by rewrite Hvs, Hf. }
  pose proof (getVideoEl_unfold editor uuid blk w Hb Hl Hp) as Hrun.
  cbv zeta in Hrun. fold s w1 related in Hrun. rewrite Hfv in Hrun.
  pose proof (existsb_hasPlaceholder s vs related HI Hvs) as Hex.
  split_and!; [done|..].
  - intros Hin. apply Hex in Hin. by rewrite Hin in Hrun.
  - intros Hout s'.
    assert (existsb (hasPlaceholder s) related = false) as Hno.
    { apply not_true_is_false. intros E. by apply Hex in E. }
    rewrite Hno in Hrun.
    destruct (returnFloatingVideo_docks true s vs HI Hvs)
      as (H1 & H2 & H3 & H4 & H5).
    destruct (searchBlocks_spec editor blk (set_engine s' w1)) as (w' & Hs & He & _).
    split_and!; try done.
    exists w'. split; [by rewrite Hrun|done].
Qed.

(** On the outline, while the video of block [u1] floats: for block [u2],
    whose left sibling [u1] holds the placeholder, the floating video
    (node 2) is returned, not the video of [u2]; for block [u4], whose
    candidates hold no placeholder, the floating video is docked again and
    the video of [u4] (node 9) is returned. *)
Lemma locate_floating_witness :
  let w := freshWorld outlineFloating in
  let vs := VideoState.mk 2%nat 1%nat (Some 3%nat) 15%nat in
  videoState (engine w) = Some vs ∧
  fst (getVideoEl outlineHost "u2" w) = Value (Some 2%nat) ∧
  fst (getVideoEl outlineHost "u4" w) = Value (Some 9%nat) ∧
  isFloating (engine (snd (getVideoEl outlineHost "u4" w))) = false.
Proof.
  intros w vs.
  assert (reachable (engine w)) as Hr.
  { exists exampleOutline, 0%nat, 1280, 720,
      [Init (mkSettings true medium); Play 2%nat; Intersect [mkEntry 2%nat false]].
    split; vm_compute; reflexivity. }
  assert (videoState (engine w) = Some vs) as Hvs by (vm_compute; reflexivity).
  pose proof (locate_floating outlineHost w "u2"
                (Block.mk "u2" (Some (LinkObj (Some (KNum 1))))
                   (Some (LinkObj (Some (KNum 100)))))
                vs Hr Hvs eq_refl eq_refl eq_refl) as H2.
  pose proof (locate_floating outlineHost w "u4"
                (Block.mk "u4" (Some (LinkObj (Some (KNum 3))))
                   (Some (LinkObj (Some (KNum 2)))))
                vs Hr Hvs eq_refl eq_refl eq_refl) as H4.
  cbv zeta in H2, H4.
  destruct H2 as (_ & H2 & _). destruct H4 as (_ & _ & H4).
  destruct H4 as (_ & (w' & Hrun & He) & Hf & _).
  { intros Hin. apply (existsb_hasPlaceholder _ vs) in Hin;
      [|by apply reachable_Inv|exact Hvs].
    vm_compute in Hin. discriminate. }
  split_and!.
  - exact Hvs.
  - rewrite H2; [reflexivity|].
    right. left. exists 1%nat. split; [vm_compute; reflexivity|].
    apply list_elem_of_In. vm_compute. tauto.
  - rewrite Hrun. cbn [fst]. apply (f_equal Value). vm_compute. reflexivity.
  - rewrite Hrun. cbn [snd]. rewrite He. exact Hf.
Defined.

(** C7. The search of lines 194-227 does what the claim says: it never
    throws, and a rejected lookup of the left sibling is logged and the
    parent is searched next. The lookups of lines 168-178 are outside any
    [try]: on the outline, for block [u5] (no video of its own, the video of
    its parent [u2] is node 5) and a host that rejects the lookup of the left
    sibling [u4], the search alone logs the error and returns node 5, but
    [getVideoEl] throws before it reaches the search, nothing is logged by
    the locator, and the slash command reports an error instead of inserting
    a timestamp. *)
Theorem locate_unguarded_lookup_throws :
  let editor := rejectingHost (KNum 4) outlineBlocks in
  let w := freshWorld outlineLoaded in
  let u5 := Block.mk "u5" (Some (LinkObj (Some (KNum 4))))
              (Some (LinkObj (Some (KNum 2)))) in
  (∀ host blk w0, ∃ found w', searchBlocks host blk w0 = (Value found, w')) ∧
  editor 0%nat (LinkKey (KStr "u5")) = Resolved (Some u5) ∧
  rejects editor 1%nat (Block.left u5) = true ∧
  searchBlocks editor u5 w
  = (Value (Some 5%nat),
     set_console [("error", "[mediatimestamp] Error checking left sibling")]
       (advance 2 w)) ∧
  getVideoEl editor "u5" w = (Thrown "block lookup failed", advance 2 w) ∧
  insertTimestamp editor "u5" w
  = (Value tt,
     set_messages [("Error inserting timestamp. Check console.", "error")]
       (set_console [("error", "[mediatimestamp] Error in slash command")]
          (advance 2 w))).
Proof.
  intros editor w u5. split_and!.
  - intros host blk w0. destruct (searchBlocks_spec host blk w0) as (w' & H & _).
    by eexists _, w'.
  - vm_compute. reflexivity.
  - vm_compute. reflexivity.
  - vm_compute. reflexivity.
  - vm_compute. reflexivity.
  - vm_compute. reflexivity.
Qed.

Section Timestamp.
Variable editor : nat → BlockLink → ApiReply.

Lemma insertTimestamp_found uuid w v w1 x :
  getVideoEl editor uuid w = (Value (Some v), w1) →
  dom (engine w1) !! v = Some x →
  insertTimestamp editor uuid w
  = (Value tt,
     set_inserted
       (inserted w1 ++ ["{{renderer :mediatimestamp_" +:+ uuid +:+ ", "
                        +:+ string_of_number (currentTime x) +:+ "}}"]) w1).
Proof.
  intros Hv Hx. unfold insertTimestamp, try_catch.
  rewrite (bind_value _ _ _ _ _ Hv).
  rewrite (bind_value _ _ w1 (currentTime x) w1); [done|].
  unfold gets. by rewrite Hx.
Qed.

Lemma mediaClick_found uuid time w v w1 :
  getVideoEl editor uuid w = (Value (Some v), w1) → time ≠ "" →
  mediaClick editor (mkClickModel uuid (Some time)) w
  = (Value tt,
     set_engine
       (with_dom (update v (set_paused false))
          (with_dom (update v (set_currentTime (number_of_Z (parseInt_or_0 time))))
             (engine w1))) w1).
Proof.
  intros Hv Ht. unfold mediaClick. cbn [model_uuid model_time].
  rewrite (bind_value _ _ _ _ _ Hv).
  rewrite bool_decide_eq_false_2 by done.
  unfold mbind, Async_bind, bind, modify. by destruct w1.
Qed.
End Timestamp.

(** C9. When the locator finds a video whose [currentTime] is 125.7, the
    slash command inserts the macro text
    [{{renderer :mediatimestamp_<uuid>, 125.7}}]. For the arguments of that
    macro, [:mediatimestamp_<uuid>] and [125.7], the renderer provides a
    button whose label is [Timestamp: 125s] and registers a click handler;
    when the locator finds a video, that handler sets its [currentTime] to
    125 and plays it. *)
Theorem timestamp_roundtrip editor uuid w v w1 x :
  getVideoEl editor uuid w = (Value (Some v), w1) →
  dom (engine w1) !! v = Some x →
  currentTime x = mkNumber 125 (Decimal.D7 Decimal.Nil) →
  insertTimestamp editor uuid w
  = (Value tt,
     set_inserted
       (inserted w1 ++ ["{{renderer :mediatimestamp_" +:+ uuid +:+ ", 125.7}}"]) w1) ∧
  (∀ slot w2,
     let id := "mediatimestamp_" +:+ uuid +:+ "_" +:+ slot in
     let clickHandlerId := "mediaclick_" +:+ uuid +:+ "_" +:+ slot in
     ∃ w3,
       onMacroRendererSlotted slot uuid [":mediatimestamp_" +:+ uuid; "125.7"] w2
       = (Value tt, w3) ∧
       provided w3
       = provided w2 ++
         [mkUi id slot true
            ("<button id=" +:+ dquote +:+ id +:+ dquote
             +:+ " class=" +:+ dquote +:+ "logseq-mediatimestamp-plugin"
             +:+ dquote +:+ " data-on-click=" +:+ dquote
             +:+ clickHandlerId +:+ dquote +:+ ">Timestamp: 125s</button>")] ∧
       models w3 = models w2 ++ [(clickHandlerId, mkClickModel uuid (Some "125.7"))]) ∧
  (∀ w4 v' w5 y,
     getVideoEl editor uuid w4 = (Value (Some v'), w5) →
     dom (engine w5) !! v' = Some y →
     ∃ w6,
       mediaClick editor (mkClickModel uuid (Some "125.7")) w4 = (Value tt, w6) ∧
       dom (engine w6) !! v'
       = Some (set_paused false (set_currentTime (number_of_Z 125) y)) ∧
       (∀ m, m ≠ v' → dom (engine w6) !! m = dom (engine w5) !! m)).
Proof.
  intros Hv Hx Ht. split_and!.
  - rewrite (insertTimestamp_found editor uuid w v w1 x Hv Hx). by rewrite Ht.
  - intros slot w2 id clickHandlerId. unfold onMacroRendererSlotted.
    cbn [lookup list_lookup].
    assert (String.prefix ":mediatimestamp_" (":mediatimestamp_" +:+ uuid) = true)
      as -> by (cbn; by destruct uuid).
    cbn [negb].
    rewrite bool_decide_eq_false_2 by done.
    eexists. split; [reflexivity|]. split; [|done].
    cbn [provided set_provided set_models].
    by replace (string_of_parsed (parseInt "125.7")) with "125"
      by (vm_compute; reflexivity).
  - intros w4 v' w5 y Hv' Hy.
    eexists. split; [by apply mediaClick_found|].
    cbn [engine set_engine dom with_dom set_dom].
    replace (parseInt_or_0 "125.7") with 125 by (vm_compute; reflexivity).
    split.
    + rewrite !lookup_update. rewrite decide_True by done.
      rewrite Hy. simpl. by rewrite decide_True.
    + intros m Hm. rewrite !lookup_update. by rewrite !decide_False.
Qed.

(** On the outline with the video of block [u4] at 125.7 seconds. *)
Lemma timestamp_roundtrip_witness :
  let w := freshWorld outlineWatching in
  (currentTime <$> dom (engine w) !! 9%nat = Some (mkNumber 125 (Decimal.D7 Decimal.Nil))) ∧
  fst (getVideoEl outlineHost "u4" w) = Value (Some 9%nat) ∧
  inserted (snd (insertTimestamp outlineHost "u4" w))
  = ["{{renderer :mediatimestamp_u4, 125.7}}"].
Proof.
  intros w.
  assert (∃ w1 x, getVideoEl outlineHost "u4" w = (Value (Some 9%nat), w1) ∧
                  dom (engine w1) !! 9%nat = Some x ∧
                  currentTime x = mkNumber 125 (Decimal.D7 Decimal.Nil) ∧
                  inserted w1 = [])
    as (w1 & x & Hv & Hx & Ht & Hi).
  { eexists _, _. split_and!; vm_compute; reflexivity. }
  split_and!; [vm_compute; reflexivity|by rewrite Hv|].
  destruct (timestamp_roundtrip outlineHost "u4" w 9%nat w1 x Hv Hx Ht) as (H & _).
  rewrite H. cbn [snd inserted set_inserted]. by rewrite Hi.
Defined.

(** * Further properties of the engine *)
(** ** The floating video and the transitions into FLOATING *)

Section Floating.
Implicit Types (s : State) (d : list Node) (n m p q c v ph : nat).

Lemma floating_video_parent s v :
  Inv s →
  getFloatingVideo s = Some v ↔
  ∃ c, floatingContainer s = Some c ∧ parentOf (dom s) v = Some c ∧
       isVideo (dom s) v.
Proof.
  intros HI. unfold getFloatingVideo. split.
  - destruct (videoState s) as [vs|] eqn:Hvs; [|done].
    destruct (Inv_floating s vs HI Hvs)
      as (c & _ & _ & Hc & Hf & _ & Hvp & Hvid & _).
    rewrite Hf. intros [= <-]. by exists c.
  - intros (c & Hc & Hp & Hvid).
    pose proof (inv_videos s HI) as Hfv. unfold floatingVideos in Hfv.
    rewrite Hc in Hfv.
    assert (v ∈ filter (isVideo (dom s)) (childrenOf (dom s) c)) as Hin.
    { apply list_elem_of_filter. split; [done|]. by apply (inv_wf s HI). }
    rewrite Hfv in Hin. destruct (videoState s) as [vs|] eqn:Hvs.
    + apply list_elem_of_singleton in Hin as ->.
      destruct (Inv_floating s vs HI Hvs) as (_ & _ & _ & _ & -> & _). done.
    + by apply elem_of_nil in Hin.
Qed.

(** When docked, an intersection entry floats the tracked video exactly
    when every guard of [showFloatingPlayer] passes. *)
Lemma entry_floats s e :
  Inv s → isFloating s = false →
  isFloating (handleIntersectionEntry s e) = true ↔
  isIntersecting e = false ∧
  ∃ c p, recentlyPlayedVideo s = Some (target e) ∧ floatingContainer s = Some c ∧
         enabled (currentSettings s) = true ∧ isManuallyHidden s = false ∧
         parentOf (dom s) (target e) = Some p.
Proof.
  intros HI Hf. unfold handleIntersectionEntry. rewrite Hf.
  cbn [negb]. rewrite andb_true_r, andb_false_r.
  pose proof (Inv_flag_None s HI Hf) as Hvs. split.
  - case_bool_decide as Ht; [|congruence].
    destruct (isIntersecting e); cbn [negb]; [congruence|].
    destruct (show_result s HI Hf) as [Hno|(c & v & p & Hv & Hc & He & Hh & Hp & Hsh)].
    + rewrite Hno, Hvs. congruence.
    + intros _. split; [done|]. exists c, p.
      assert (v = target e) as -> by congruence. done.
  - intros (Hi & c & p & Hv & Hc & He & Hh & Hp).
    rewrite bool_decide_eq_true_2 by done. rewrite Hi. cbn [negb].
    rewrite (show_unfold s c (target e) p) by done.
    cbn [videoState set_isFloating set_videoState].
    match goal with |- isFloating (reobserve ?t ?x) = _ =>
      destruct (fields_reobserve t x) as (-> & _) end. done.
Qed.

Lemma isFloating_hide_docked s :
  isFloating s = false → hideFloatingPlayer s = s.
Proof. intros H. apply hide_noop. by left. Qed.

Lemma isFloating_scan (vs : list nat) s :
  isFloating
    (fold_left
       (fun s video =>
          if negb (from_option paused true (dom s !! video)) then
            let s := set_recentlyPlayedVideo (Some video) s in
            set_observer ((fun ts => ts ++ [video]) <$> observer s) s
          else s) vs s)
  = isFloating s.
Proof.
  apply (fold_left_field _ isFloating). intros s0 a. by case_match.
Qed.

(** No event but an intersection callback leads from DOCKED to
    FLOATING. *)
Lemma docked_step s ev :
  isFloating s = false → (∀ entries, ev ≠ Intersect entries) →
  isFloating (step s ev) = false.
Proof.
  intros Hf Hev. pose proof (isFloating_hide_docked s Hf) as Hhide.
  destruct ev; unfold step.
  - unfold initFloatingPlayer. destruct (negb (enabled settings)); [done|].
    rewrite isFloating_scan.
    destruct (fields_addEventListener OnPlay
      (set_observer (Some [])
        match floatingContainer (set_currentSettings settings s) with
        | Some _ => set_currentSettings settings s
        | None =>
            let '(c, d) := createFloatingContainer (dom (set_currentSettings settings s)) in
            with_dom (appendChild (body (set_floatingContainer (Some c)
                                           (set_dom d (set_currentSettings settings s)))) c)
              (set_floatingContainer (Some c) (set_dom d (set_currentSettings settings s)))
        end)) as (_ & ->).
    cbn [isFloating set_observer].
    destruct (floatingContainer (set_currentSettings settings s)); [done|].
    by destruct (createFloatingContainer _).
  - unfold updateFloatingPlayerSettings.
    assert (hideFloatingPlayer (set_currentSettings settings s)
            = set_currentSettings settings s) as Hh
      by (by apply isFloating_hide_docked).
    change (floatingContainer (set_currentSettings settings s))
      with (floatingContainer s).
    destruct (floatingContainer s) as [c|] eqn:Hc;
      [|cbn [floatingContainer set_currentSettings]; by rewrite Hc].
    rewrite Hh.
    assert ((if negb (enabled settings) then set_currentSettings settings s
             else set_currentSettings settings s) = set_currentSettings settings s)
      as -> by (by destruct (negb _)).
    cbn [floatingContainer set_currentSettings]. rewrite Hc.
    by case_decide.
  - done.
  - unfold returnFloatingVideo. destruct (videoState s); [|done]. by rewrite Hf.
  - case_decide; [|done]. unfold handleVideoPlay. case_decide; [|done].
    match goal with |- isFloating (reobserve ?t ?x) = _ =>
      destruct (fields_reobserve t x) as (-> & _) end.
    cbn [isFloating set_recentlyPlayedVideo]. case_decide; [|done].
    change (videoState (set_isManuallyHidden false s)) with (videoState s).
    change (isFloating (set_isManuallyHidden false s)) with (isFloating s).
    destruct (videoState s); [|done]. by rewrite Hf.
  - by destruct (Hev entries).
  - destruct (has_listener _ _ _ _); [|done]. unfold closeClick. by rewrite Hhide.
  - destruct (has_listener _ _ _ _); [|done]. unfold startDrag.
    destruct (floatingContainer s); [|done].
    by destruct (fields_addEventListener OnMouseUp
                   (addEventListener OnMouseMove
                      (set_dragOffset
                         (Position.mk
                            (clientX e - from_option rectLeft 0
                               (dom (set_dragDoc true (set_isDragging true s)) !! n))
                            (clientY e - from_option rectTop 0
                               (dom (set_dragDoc true (set_isDragging true s)) !! n)))
                         (set_dragDoc true (set_isDragging true s)))))
      as (_ & ->);
    destruct (fields_addEventListener OnMouseMove
                (set_dragOffset
                   (Position.mk
                      (clientX e - from_option rectLeft 0
                         (dom (set_dragDoc true (set_isDragging true s)) !! n))
                      (clientY e - from_option rectTop 0
                         (dom (set_dragDoc true (set_isDragging true s)) !! n)))
                   (set_dragDoc true (set_isDragging true s))))
      as (_ & ->).
  - case_decide; [|done]. by destruct (drag_tree e s) as (-> & _).
  - case_decide; [|done]. unfold stopDrag.
    change (dragDoc (set_isDragging false s)) with (dragDoc s).
    by destruct (dragDoc s).
  - done.
  - done.
  - done.
Qed.

Lemma isFloating_startDrag e s : isFloating (startDrag e s) = isFloating s.
Proof.
  unfold startDrag. destruct (floatingContainer s); [|done].
  match goal with |- isFloating (addEventListener ?l ?x) = _ =>
    destruct (fields_addEventListener l x) as (_ & ->) end.
  match goal with |- isFloating (addEventListener ?l ?x) = _ =>
    destruct (fields_addEventListener l x) as (_ & ->) end.
  done.
Qed.
End Floating.

(** C-independent facts of the two transitions, read as field updates. *)
Section Settings.
Implicit Types (s : State) (d : list Node) (n m p q c v ph : nat).

Lemma currentSettings_hide s :
  currentSettings (hideFloatingPlayer s) = currentSettings s.
Proof. unfold hideFloatingPlayer. by repeat case_match. Qed.

Lemma currentSettings_show s :
  currentSettings (showFloatingPlayer s) = currentSettings s.
Proof. unfold showFloatingPlayer. by repeat case_match. Qed.

Lemma currentSettings_addEventListener l s :
  currentSettings (addEventListener l s) = currentSettings s.
Proof. unfold addEventListener. by case_decide. Qed.

Lemma currentSettings_handleIntersectionEntry s e :
  currentSettings (handleIntersectionEntry s e) = currentSettings s.
Proof.
  unfold handleIntersectionEntry.
  destruct (if isFloating s then _ else _); [|done].
  destruct (negb (isIntersecting e) && negb (isFloating s)).
  - destruct (videoState (showFloatingPlayer s)).
    + match goal with |- currentSettings (reobserve ?t ?x) = _ =>
        destruct (fields_reobserve t x) as (_ & _ & _ & _ & _ & ->) end.
      apply currentSettings_show.
    + apply currentSettings_show.
  - destruct (isIntersecting e && isFloating s); [|done].
    destruct (recentlyPlayedVideo _).
    + match goal with |- currentSettings (reobserve ?t ?x) = _ =>
        destruct (fields_reobserve t x) as (_ & _ & _ & _ & _ & ->) end.
      apply currentSettings_hide.
    + apply currentSettings_hide.
Qed.

Lemma currentSettings_handleIntersection entries s :
  currentSettings (handleIntersection entries s) = currentSettings s.
Proof.
  unfold handleIntersection.
  apply (fold_left_field _ currentSettings), currentSettings_handleIntersectionEntry.
Qed.

(** Only [initFloatingPlayer] and [updateFloatingPlayerSettings] change the
    settings. *)
Lemma currentSettings_step s ev :
  (∀ st, ev ≠ Init st) → (∀ st, ev ≠ UpdateSettings st) →
  currentSettings (step s ev) = currentSettings s.
Proof.
  intros Hi Hu. destruct ev; unfold step.
  - by destruct (Hi settings).
  - by destruct (Hu settings).
  - unfold destroyFloatingPlayer.
    cbn [currentSettings set_videoState set_isFloating set_isManuallyHidden
         set_recentlyPlayedVideo].
    destruct (floatingContainer _);
      cbn [currentSettings set_floatingContainer with_dom set_dom set_observer
           removeEventListener set_docListeners];
      apply currentSettings_hide.
  - unfold returnFloatingVideo. destruct (videoState s); [|done].
    destruct (isFloating s); [|done]. rewrite currentSettings_hide.
    by destruct pauseVideo.
  - case_decide; [|done]. unfold handleVideoPlay. case_decide; [|done].
    match goal with |- currentSettings (reobserve ?t ?x) = _ =>
      destruct (fields_reobserve t x) as (_ & _ & _ & _ & _ & ->) end.
    cbn [currentSettings set_recentlyPlayedVideo]. case_decide; [|done].
    destruct (videoState _); [|done]. destruct (_ && _); [|done].
    by rewrite currentSettings_hide.
  - apply currentSettings_handleIntersection.
  - destruct (has_listener _ _ _ _); [|done]. unfold closeClick.
    cbn [currentSettings set_isManuallyHidden]. apply currentSettings_hide.
  - destruct (has_listener _ _ _ _); [|done]. unfold startDrag.
    destruct (floatingContainer s); [|done].
    by rewrite !currentSettings_addEventListener.
  - case_decide; [|done]. unfold onDrag. destruct (floatingContainer s); [|done].
    by destruct (negb _).
  - case_decide; [|done]. unfold stopDrag.
    change (dragDoc (set_isDragging false s)) with (dragDoc s).
    by destruct (dragDoc s).
  - done.
  - done.
  - done.
Qed.

(** With the feature disabled, a docked engine stays docked. *)
Lemma disabled_handleIntersection entries s :
  enabled (currentSettings s) = false → isFloating s = false →
  isFloating (handleIntersection entries s) = false.
Proof.
  unfold handleIntersection. revert s.
  induction entries as [|e es IH]; intros s He Hf; [done|].
  simpl. apply IH.
  - by rewrite currentSettings_handleIntersectionEntry.
  - unfold handleIntersectionEntry. rewrite Hf.
    destruct (bool_decide _); [|done]. rewrite andb_false_r, andb_true_r.
    destruct (negb _); [|done]. rewrite show_noop by auto.
    destruct (videoState s); [|done].
    match goal with |- isFloating (reobserve ?t ?x) = _ =>
      by destruct (fields_reobserve t x) as (-> & _) end.
Qed.

Lemma disabled_step s ev :
  enabled (currentSettings s) = false → isFloating s = false →
  (∀ st, ev ≠ Init st) → (∀ st, ev ≠ UpdateSettings st) →
  enabled (currentSettings (step s ev)) = false ∧ isFloating (step s ev) = false.
Proof.
  intros He Hf Hi Hu. split; [by rewrite currentSettings_step|].
  assert ((∃ entries, ev = Intersect entries) ∨ ∀ entries, ev ≠ Intersect entries)
    as [[entries ->]|Hn] by (destruct ev; eauto).
  - by apply disabled_handleIntersection.
  - by apply docked_step.
Qed.

Lemma disabled_run evs s :
  enabled (currentSettings s) = false → isFloating s = false →
  Forall (λ ev, (∀ st, ev ≠ Init st) ∧ (∀ st, ev ≠ UpdateSettings st)) evs →
  isFloating (run s evs) = false.
Proof.
  unfold run. revert s. induction evs as [|ev evs IH]; intros s He Hf Hall; [done|].
  apply Forall_cons in Hall as [[Hi Hu] Hall]. simpl.
  destruct (disabled_step s ev He Hf Hi Hu) as [He' Hf']. by apply IH.
Qed.

Lemma length_update_style c g d : length (update_style c g d) = length d.
Proof. unfold update_style. by rewrite length_update. Qed.

Lemma resetContainer_style c d :
  (c < length d)%nat →
  styleOf (resetContainer c d) c
  = Style.set_bottom (CssPx 20)
      (Style.set_right (CssPx 20)
         (Style.set_top CssUnset
            (Style.set_left CssUnset (Style.set_display "none" (styleOf d c))))).
Proof.
  intros Hc. unfold resetContainer.
  by rewrite !styleOf_update_style_eq by (rewrite ?length_update_style; lia).
Qed.

Lemma hideDom_container_style c vs d :
  wf_dom d → (c < length d)%nat → c ≠ VideoState.video vs →
  (VideoState.video vs < length d)%nat → (VideoState.originalParent vs < length d)%nat →
  styleOf (hideDom c vs d) c
  = Style.set_bottom (CssPx 20)
      (Style.set_right (CssPx 20)
         (Style.set_top CssUnset
            (Style.set_left CssUnset (Style.set_display "none" (styleOf d c))))).
Proof.
  intros Hwf Hc Hcv Hv Hp. unfold hideDom. rewrite resetContainer_style.
  - rewrite !styleOf_attrs. rewrite removePlaceholder_detach.
    by rewrite nodeAttrs_detach, moveBack_attrs, restoreStyles_other.
  - rewrite removePlaceholder_detach.
    by rewrite length_detach, moveBack_length, restoreStyles_length.
Qed.
End Settings.

(** ** What the engine leaves untouched *)

Section KeepsView.
Context {T : Type} (g : Node → T).
Context `{Kpar : !∀ v, Keeps g (set_parentNode v)}.
Context `{Kch : !∀ h, Keeps g (fun x => set_childNodes (h (childNodes x)) x)}.
Implicit Types (d : list Node) (n m p : nat).

Lemma keeps_refl d : keeps_view g d d.
Proof. intros m x Hx. by exists x. Qed.

Lemma keeps_trans d1 d2 d3 :
  keeps_view g d1 d2 → keeps_view g d2 d3 → keeps_view g d1 d3.
Proof.
  intros H12 H23 m x Hx. destruct (H12 m x Hx) as (x2 & Hx2 & E2).
  destruct (H23 m x2 Hx2) as (x3 & Hx3 & E3). exists x3. split; [done|congruence].
Qed.

Lemma keeps_update n f `{!Keeps g f} d : keeps_view g d (update n f d).
Proof.
  intros m x Hx. rewrite lookup_update. case_decide as E.
  - subst. rewrite Hx. simpl. eexists. split; [done|]. apply keeps.
  - by exists x.
Qed.

(** A write at a node that [d0] does not hold. *)
Lemma keeps_update_new d0 n f d :
  (length d0 ≤ n)%nat → keeps_view g d0 d → keeps_view g d0 (update n f d).
Proof.
  intros Hn H m x Hx. destruct (H m x Hx) as (x' & Hx' & E).
  exists x'. split; [|done]. rewrite lookup_update.
  apply lookup_lt_Some in Hx. rewrite decide_False by lia. done.
Qed.

Lemma keeps_create d x : keeps_view g d (d ++ [x]).
Proof. intros m y Hy. exists y. split; [|done]. by apply lookup_app_l_Some. Qed.

Lemma keeps_detach n d : keeps_view g d (detach n d).
Proof.
  unfold detach. destruct (parentOf d n); [|apply keeps_refl].
  eapply keeps_trans; [|apply keeps_update; apply _]. apply keeps_update; apply _.
Qed.

Lemma keeps_attach p n place d : keeps_view g d (attach p n place d).
Proof.
  unfold attach.
  eapply keeps_trans; [|apply keeps_update; apply _].
  eapply keeps_trans; [|apply (keeps_update _ (fun x => set_childNodes (place (childNodes x)) x)); apply _].
  apply keeps_detach.
Qed.

Lemma keeps_length d d' : keeps_view g d d' → (length d ≤ length d')%nat.
Proof.
  intros H. destruct (decide (length d = 0)%nat) as [->|Hn]; [lia|].
  destruct (lookup_lt_is_Some_2 d (length d - 1)) as [x Hx]; [lia|].
  destruct (H _ _ Hx) as (x' & Hx' & _). apply lookup_lt_Some in Hx'. lia.
Qed.
End KeepsView.

(** The writes of the engine keep the playback state of every node. *)
Global Instance Keeps_media_parentNode v : Keeps media (set_parentNode v).
Proof. done. Qed.
Global Instance Keeps_media_childNodes h :
  Keeps media (fun x => set_childNodes (h (childNodes x)) x).
Proof. done. Qed.
Global Instance Keeps_media_className v : Keeps media (set_className v).
Proof. done. Qed.
Global Instance Keeps_media_title v : Keeps media (set_title v).
Proof. done. Qed.
Global Instance Keeps_media_innerHTML v : Keeps media (set_innerHTML v).
Proof. done. Qed.
Global Instance Keeps_media_style h : Keeps media (fun x => set_style (h (style x)) x).
Proof. done. Qed.
Global Instance Keeps_media_layout w h l t : Keeps media (set_layout w h l t).
Proof. done. Qed.
Global Instance Keeps_media_originalStyles v : Keeps media (set_originalStyles v).
Proof. done. Qed.
Global Instance Keeps_media_listener ev h : Keeps media (add_listener ev h).
Proof. done. Qed.

(** The writes that keep the [display] of a node. *)
Global Instance Keeps_display_parentNode v : Keeps display (set_parentNode v).
Proof. done. Qed.
Global Instance Keeps_display_childNodes h :
  Keeps display (fun x => set_childNodes (h (childNodes x)) x).
Proof. done. Qed.
Global Instance Keeps_display_className v : Keeps display (set_className v).
Proof. done. Qed.
Global Instance Keeps_display_title v : Keeps display (set_title v).
Proof. done. Qed.
Global Instance Keeps_display_innerHTML v : Keeps display (set_innerHTML v).
Proof. done. Qed.
Global Instance Keeps_display_layout w h l t : Keeps display (set_layout w h l t).
Proof. done. Qed.
Global Instance Keeps_display_originalStyles v : Keeps display (set_originalStyles v).
Proof. done. Qed.
Global Instance Keeps_display_listener ev h : Keeps display (add_listener ev h).
Proof. done. Qed.
Global Instance Keeps_display_paused v : Keeps display (set_paused v).
Proof. done. Qed.
Global Instance Keeps_display_currentTime v : Keeps display (set_currentTime v).
Proof. done. Qed.
Global Instance Keeps_display_media p t :
  Keeps display (fun x => set_currentTime t (set_paused p x)).
Proof. done. Qed.
Global Instance Keeps_display_width v :
  Keeps display (fun x => set_style (Style.set_width v (style x)) x).
Proof. done. Qed.
Global Instance Keeps_display_height v :
  Keeps display (fun x => set_style (Style.set_height v (style x)) x).
Proof. done. Qed.
Global Instance Keeps_display_left v :
  Keeps display (fun x => set_style (Style.set_left v (style x)) x).
Proof. done. Qed.
Global Instance Keeps_display_top v :
  Keeps display (fun x => set_style (Style.set_top v (style x)) x).
Proof. done. Qed.
Global Instance Keeps_display_right v :
  Keeps display (fun x => set_style (Style.set_right v (style x)) x).
Proof. done. Qed.
Global Instance Keeps_display_bottom v :
  Keeps display (fun x => set_style (Style.set_bottom v (style x)) x).
Proof. done. Qed.

Ltac keeps_step :=
  first [ apply keeps_refl
        | eapply keeps_trans;
          [|first [ apply keeps_attach; apply _
                  | apply keeps_detach; apply _
                  | apply keeps_create
                  | apply keeps_update; apply _ ]] ].

(** The writes that the engine makes outside [returnFloatingVideo]: to the
    links, the class, the title, the markup, the inline style, the saved
    styles and the listeners of a node. [g] reads none of them. *)
Section EngineWrites.
Context {T : Type} (g : Node → T).
Context `{Kpar : !∀ v, Keeps g (set_parentNode v)}.
Context `{Kch : !∀ h, Keeps g (fun x => set_childNodes (h (childNodes x)) x)}.
Context `{Kcl : !∀ v, Keeps g (set_className v)}.
Context `{Kti : !∀ v, Keeps g (set_title v)}.
Context `{Kin : !∀ v, Keeps g (set_innerHTML v)}.
Context `{Kst : !∀ h, Keeps g (fun x => set_style (h (style x)) x)}.
Context `{Kos : !∀ v, Keeps g (set_originalStyles v)}.
Context `{Kli : !∀ ev h, Keeps g (add_listener ev h)}.
Implicit Types (s : State) (d : list Node) (n m p q c v ph : nat).

Lemma keeps_stylePlaceholder ph v d : keeps_view g d (stylePlaceholder ph v d).
Proof. unfold stylePlaceholder, update_style. repeat keeps_step. Qed.

Lemma keeps_storeOriginalStyles v d : keeps_view g d (storeOriginalStyles v d).
Proof. unfold storeOriginalStyles. repeat keeps_step. Qed.

Lemma keeps_moveToContainer c v sz d : keeps_view g d (moveToContainer c v sz d).
Proof. unfold moveToContainer, update_style, appendChild. repeat keeps_step. Qed.

Lemma keeps_restoreStyles v d : keeps_view g d (restoreStyles v d).
Proof.
  unfold restoreStyles, update_style.
  destruct (d !! v ≫= _originalStyles) as [[w h]|]; repeat keeps_step.
Qed.

Lemma keeps_moveBack vs d : keeps_view g d (moveBack vs d).
Proof. rewrite moveBack_attach. apply keeps_attach; apply _. Qed.

Lemma keeps_resetContainer c d : keeps_view g d (resetContainer c d).
Proof. unfold resetContainer, update_style. repeat keeps_step. Qed.

Lemma keeps_showDom c v p sz d : keeps_view g d (showDom c v p sz d).
Proof.
  unfold showDom.
  eapply keeps_trans; [|apply keeps_moveToContainer].
  eapply keeps_trans; [|apply keeps_storeOriginalStyles].
  eapply keeps_trans; [|apply keeps_attach; apply _].
  eapply keeps_trans; [|apply keeps_stylePlaceholder].
  apply keeps_create.
Qed.

Lemma keeps_hideDom c vs d : keeps_view g d (hideDom c vs d).
Proof.
  unfold hideDom. rewrite removePlaceholder_detach.
  eapply keeps_trans; [|apply keeps_resetContainer].
  eapply keeps_trans; [|apply keeps_detach; apply _].
  eapply keeps_trans; [|apply keeps_moveBack].
  apply keeps_restoreStyles.
Qed.

Lemma keeps_hide s : keeps_view g (dom s) (dom (hideFloatingPlayer s)).
Proof.
  unfold hideFloatingPlayer.
  destruct (floatingContainer s) as [c|]; [|apply keeps_refl].
  destruct (videoState s) as [vs|]; [|apply keeps_refl].
  destruct (negb (isFloating s)); [apply keeps_refl|].
  apply (keeps_hideDom c vs).
Qed.

Lemma keeps_show s : keeps_view g (dom s) (dom (showFloatingPlayer s)).
Proof.
  unfold showFloatingPlayer.
  destruct (recentlyPlayedVideo s) as [v|]; [|apply keeps_refl].
  destruct (floatingContainer s) as [c|]; [|apply keeps_refl].
  destruct (_ || _); [apply keeps_refl|].
  destruct (parentOf (dom s) v) as [p|]; [|apply keeps_refl].
  apply (keeps_showDom c v p).
Qed.

Lemma keeps_createFloatingContainer d :
  keeps_view g d (createFloatingContainer d).2.
Proof.
  cbv beta iota zeta delta [createFloatingContainer createElement fst snd].
  unfold appendChild, update_style. repeat keeps_step.
Qed.

Lemma keeps_handleVideoPlay t s : keeps_view g (dom s) (dom (handleVideoPlay t s)).
Proof.
  unfold handleVideoPlay. case_decide; [|apply keeps_refl].
  rewrite dom_reobserve. cbn [dom set_recentlyPlayedVideo].
  case_decide; [|apply keeps_refl].
  destruct (videoState _); [|apply keeps_refl].
  destruct (_ && _); [|apply keeps_refl].
  apply (keeps_hide (set_isManuallyHidden false s)).
Qed.

Lemma keeps_handleIntersectionEntry s e :
  keeps_view g (dom s) (dom (handleIntersectionEntry s e)).
Proof.
  unfold handleIntersectionEntry.
  destruct (if isFloating s then _ else _); [|apply keeps_refl].
  destruct (negb (isIntersecting e) && negb (isFloating s)).
  - destruct (videoState (showFloatingPlayer s));
      rewrite ?dom_reobserve; apply keeps_show.
  - destruct (isIntersecting e && isFloating s); [|apply keeps_refl].
    destruct (recentlyPlayedVideo _);
      rewrite ?dom_reobserve; apply keeps_hide.
Qed.

Lemma keeps_handleIntersection entries s :
  keeps_view g (dom s) (dom (handleIntersection entries s)).
Proof.
  unfold handleIntersection. revert s.
  induction entries as [|e es IH]; intros s; [apply keeps_refl|]. simpl.
  eapply keeps_trans; [apply keeps_handleIntersectionEntry|apply IH].
Qed.

Lemma dom_scan (vs : list nat) s :
  dom (fold_left
         (fun s video =>
            if negb (from_option paused true (dom s !! video)) then
              let s := set_recentlyPlayedVideo (Some video) s in
              set_observer ((fun ts => ts ++ [video]) <$> observer s) s
            else s) vs s)
  = dom s.
Proof. apply (fold_left_field _ dom). intros s0 a. by case_match. Qed.

Lemma dom_addEventListener l s : dom (addEventListener l s) = dom s.
Proof. unfold addEventListener. by case_decide. Qed.

Lemma keeps_initFloatingPlayer settings s :
  keeps_view g (dom s) (dom (initFloatingPlayer settings s)).
Proof.
  unfold initFloatingPlayer. destruct (negb _); [apply keeps_refl|].
  rewrite dom_scan, dom_addEventListener. cbn [dom set_observer].
  change (floatingContainer (set_currentSettings settings s))
    with (floatingContainer s).
  change (dom (set_currentSettings settings s)) with (dom s).
  destruct (floatingContainer s); [apply keeps_refl|].
  pose proof (keeps_createFloatingContainer (dom s)) as H.
  destruct (createFloatingContainer (dom s)) as [c d']. simpl in H.
  cbn [dom with_dom set_dom set_floatingContainer body].
  eapply keeps_trans; [exact H|]. apply keeps_attach; apply _.
Qed.

Lemma keeps_updateFloatingPlayerSettings settings s :
  keeps_view g (dom s) (dom (updateFloatingPlayerSettings settings s)).
Proof.
  unfold updateFloatingPlayerSettings.
  match goal with
  | |- keeps_view g _ (dom (match floatingContainer ?s1 with _ => _ end)) =>
      assert (keeps_view g (dom s) (dom s1)) as H1; [|destruct (floatingContainer s1)]
  end.
  - destruct (floatingContainer _); [|apply keeps_refl].
    destruct (negb _); [|apply keeps_refl].
    apply (keeps_hide (set_currentSettings settings s)).
  - case_decide; [|done]. cbn [dom with_dom set_dom]. unfold update_style.
    eapply keeps_trans; [exact H1|]. repeat keeps_step.
  - done.
Qed.

Lemma keeps_destroyFloatingPlayer s :
  keeps_view g (dom s) (dom (destroyFloatingPlayer s)).
Proof.
  unfold destroyFloatingPlayer.
  cbn [dom set_videoState set_isFloating set_isManuallyHidden set_recentlyPlayedVideo].
  cbn [floatingContainer set_observer removeEventListener set_docListeners].
  destruct (floatingContainer (hideFloatingPlayer s)).
  - cbn [dom set_floatingContainer with_dom set_dom set_observer
         removeEventListener set_docListeners].
    eapply keeps_trans; [apply keeps_hide|]. apply keeps_detach; apply _.
  - cbn [dom set_observer removeEventListener set_docListeners]. apply keeps_hide.
Qed.

Lemma keeps_onDrag e s : keeps_view g (dom s) (dom (onDrag e s)).
Proof.
  unfold onDrag. destruct (floatingContainer s); [|apply keeps_refl].
  destruct (negb _); [apply keeps_refl|].
  cbn [dom with_dom set_dom]. unfold update_style. repeat keeps_step.
Qed.

Lemma dom_startDrag e s : dom (startDrag e s) = dom s.
Proof.
  unfold startDrag. destruct (floatingContainer s); [|done].
  by rewrite !dom_addEventListener.
Qed.

Lemma dom_stopDrag s : dom (stopDrag s) = dom s.
Proof.
  unfold stopDrag. change (dragDoc (set_isDragging false s)) with (dragDoc s).
  by destruct (dragDoc s).
Qed.

(** Every event but a change of the playback state by the browser, and,
    unless [g] does not read [paused], a [returnFloatingVideo] that
    pauses. *)
Lemma keeps_step_view s ev `{Kla : !∀ w h l t, Keeps g (set_layout w h l t)} :
  (∀ n b tm, ev ≠ Media n b tm) →
  Keeps g (set_paused true) ∨ ev ≠ ReturnFloating true →
  keeps_view g (dom s) (dom (step s ev)).
Proof.
  intros Hm Hr. destruct ev; unfold step.
  - apply keeps_initFloatingPlayer.
  - apply keeps_updateFloatingPlayerSettings.
  - apply keeps_destroyFloatingPlayer.
  - unfold returnFloatingVideo. destruct (videoState s) as [vs|]; [|apply keeps_refl].
    destruct (isFloating s); [|apply keeps_refl].
    destruct pauseVideo; [|apply keeps_hide].
    destruct Hr as [Kp|Hr]; [|done].
    eapply keeps_trans; [|apply keeps_hide].
    cbn [dom with_dom set_dom]. apply keeps_update; apply _.
  - case_decide; [|apply keeps_refl]. apply keeps_handleVideoPlay.
  - apply keeps_handleIntersection.
  - destruct (has_listener _ _ _ _); [|apply keeps_refl]. unfold closeClick.
    cbn [dom set_isManuallyHidden]. apply keeps_hide.
  - destruct (has_listener _ _ _ _); [|apply keeps_refl].
    rewrite dom_startDrag. apply keeps_refl.
  - case_decide; [|apply keeps_refl]. apply keeps_onDrag.
  - case_decide; [|apply keeps_refl]. rewrite dom_stopDrag. apply keeps_refl.
  - cbn [dom with_dom set_dom]. apply keeps_update; apply _.
  - by destruct (Hm n p time).
  - apply keeps_refl.
Qed.
End EngineWrites.

(** ** The container shows exactly while a video floats *)

Section Shown.
Implicit Types (s : State) (d : list Node) (n m p q c v ph : nat).

Lemma display_styleOf d n :
  Style.display (styleOf d n) = from_option display "" (d !! n).
Proof. unfold styleOf, display. by destruct (d !! n). Qed.

Lemma display_keeps d d' c :
  keeps_view display d d' → (c < length d)%nat →
  (c < length d')%nat ∧ Style.display (styleOf d' c) = Style.display (styleOf d c).
Proof.
  intros Hk Hc. destruct (lookup_lt_is_Some_2 d c Hc) as [x Hx].
  destruct (Hk c x Hx) as (x' & Hx' & E). split.
  - by apply lookup_lt_Some in Hx'.
  - rewrite !display_styleOf, Hx, Hx'. done.
Qed.

Lemma shown_ext s s' :
  dom s' = dom s → floatingContainer s' = floatingContainer s →
  isFloating s' = isFloating s → container_shown s → container_shown s'.
Proof. intros Hd Hc Hf H c. rewrite Hd, Hc, Hf. apply H. Qed.

Lemma shown_keeps s s' :
  keeps_view display (dom s) (dom s') → floatingContainer s' = floatingContainer s →
  isFloating s' = isFloating s → container_shown s → container_shown s'.
Proof.
  intros Hd Hc Hf H c. rewrite Hc, Hf. intros Hcs.
  destruct (H c Hcs) as [Hlt Hdisp].
  destruct (display_keeps _ _ c Hd Hlt) as [? ->]. done.
Qed.

Lemma showDom_container_display c v p sz d :
  (c < length d)%nat →
  (c < length (showDom c v p sz d))%nat ∧
  Style.display (styleOf (showDom c v p sz d) c) = "block".
Proof.
  intros Hc.
  assert (length (showDom c v p sz d) = S (length d)) as Hlen.
  { unfold showDom. rewrite moveToContainer_length, storeOriginalStyles_length.
    unfold insertBefore. rewrite length_attach, stylePlaceholder_length.
    rewrite length_app. simpl. lia. }
  split; [lia|].
  unfold showDom in *. unfold moveToContainer in *.
  rewrite styleOf_update_style_eq; [done|].
  rewrite length_update_style in Hlen. lia.
Qed.

Lemma floatingContainer_hide s :
  floatingContainer (hideFloatingPlayer s) = floatingContainer s.
Proof. unfold hideFloatingPlayer. by repeat case_match. Qed.

Lemma floatingContainer_show s :
  floatingContainer (showFloatingPlayer s) = floatingContainer s.
Proof. unfold showFloatingPlayer. by repeat case_match. Qed.

Lemma shown_hide s : Inv s → container_shown s → container_shown (hideFloatingPlayer s).
Proof.
  intros HI H. destruct (isFloating s) eqn:Hf; [|by rewrite hide_noop by auto].
  destruct (videoState s) as [vs|] eqn:Hvs; [|by rewrite hide_noop by auto].
  destruct (Inv_floating s vs HI Hvs)
    as (c & l1 & l2 & Hc & _ & Hcl & Hvp & _ & Hpc & Hph & Hpp & Hpv & Hphc & _).
  rewrite (hide_unfold s c vs) by done. intros c'.
  cbn [floatingContainer dom isFloating set_isFloating set_videoState set_dom].
  rewrite Hc. intros [= <-].
  pose proof (inv_wf s HI) as Hwf. pose proof Hwf as [W1 W2].
  assert (VideoState.video vs < length (dom s))%nat as Hvl
    by (by apply parentOf_lt in Hvp).
  assert (VideoState.originalParent vs < length (dom s))%nat as Hpl.
  { apply W1 in Hpp. by apply childrenOf_lt in Hpp. }
  assert (c ≠ VideoState.video vs) as Hcv.
  { intros ->. destruct (inv_container s HI _ Hc) as (_ & Hnv & _).
    apply Hnv. by destruct (Inv_floating s vs HI Hvs)
      as (_ & _ & _ & _ & _ & _ & _ & ? & _). }
  split; [by rewrite hideDom_length|].
  by rewrite hideDom_container_style.
Qed.

Lemma shown_show s : Inv s → container_shown s → container_shown (showFloatingPlayer s).
Proof.
  intros HI H. destruct (isFloating s) eqn:Hf;
    [by rewrite show_noop by (do 4 right; by left)|].
  destruct (show_result s HI Hf) as [->|(c & v & p & Hv & Hc & He & Hh & Hp & ->)];
    [done|].
  intros c'.
  cbn [floatingContainer dom isFloating set_isFloating set_videoState set_dom].
  rewrite Hc. intros [= <-].
  destruct (H c Hc) as [Hlt _]. by apply showDom_container_display.
Qed.

Lemma shown_reobserve t s : container_shown s → container_shown (reobserve t s).
Proof.
  apply shown_ext; [apply dom_reobserve|..];
    by destruct (fields_reobserve t s) as (? & ? & ? & _).
Qed.

Lemma shown_handleVideoPlay t s :
  Inv s → container_shown s → container_shown (handleVideoPlay t s).
Proof.
  intros HI H. unfold handleVideoPlay. case_decide; [|done].
  apply shown_reobserve.
  match goal with |- container_shown (set_recentlyPlayedVideo _ ?x) =>
    apply (shown_ext x); [done..|] end.
  case_decide; [|done].
  assert (container_shown (set_isManuallyHidden false s)) as Hs0
    by (by apply (shown_ext s)).
  destruct (videoState _); [|done]. destruct (_ && _); [|done].
  apply shown_hide; [|done]. by apply Inv_set_isManuallyHidden.
Qed.

Lemma shown_handleIntersectionEntry s e :
  Inv s → container_shown s → container_shown (handleIntersectionEntry s e).
Proof.
  intros HI H. unfold handleIntersectionEntry.
  destruct (if isFloating s then _ else _); [|done].
  destruct (negb (isIntersecting e) && negb (isFloating s)).
  - pose proof (shown_show s HI H).
    destruct (videoState (showFloatingPlayer s)); [|done]. by apply shown_reobserve.
  - destruct (isIntersecting e && isFloating s); [|done].
    pose proof (shown_hide s HI H) as H1.
    assert (container_shown (set_isManuallyHidden false (hideFloatingPlayer s))) as H2
      by (by apply (shown_ext (hideFloatingPlayer s))).
    destruct (recentlyPlayedVideo _); [|done]. by apply shown_reobserve.
Qed.

Lemma shown_handleIntersection entries s :
  Inv s → container_shown s → container_shown (handleIntersection entries s).
Proof.
  unfold handleIntersection. revert s.
  induction entries as [|e es IH]; intros s HI H; [done|]. simpl.
  apply IH; [by apply Inv_handleIntersectionEntry|by apply shown_handleIntersectionEntry].
Qed.

Lemma floatingContainer_scan (vs : list nat) s :
  floatingContainer
    (fold_left
       (fun s video =>
          if negb (from_option paused true (dom s !! video)) then
            let s := set_recentlyPlayedVideo (Some video) s in
            set_observer ((fun ts => ts ++ [video]) <$> observer s) s
          else s) vs s)
  = floatingContainer s.
Proof. apply (fold_left_field _ floatingContainer). intros s0 a. by case_match. Qed.

Lemma floatingContainer_addEventListener l s :
  floatingContainer (addEventListener l s) = floatingContainer s.
Proof. unfold addEventListener. by case_decide. Qed.

Lemma createFloatingContainer_display d :
  Style.display (styleOf (createFloatingContainer d).2 (length d)) = "none".
Proof.
  set (d1 := update_style (length d) (Style.set_display "none")
               (update (length d) (set_className "mediatimestamp-floating-player")
                  (d ++ [blankNode "DIV"]))).
  assert (length d < length d1)%nat as Hlt.
  { unfold d1. rewrite length_update_style, length_update, length_app. simpl. lia. }
  assert (keeps_view display d1 (createFloatingContainer d).2) as Hk.
  { cbv beta iota zeta delta [createFloatingContainer createElement fst snd].
    fold d1. unfold appendChild. repeat keeps_step. }
  destruct (display_keeps _ _ _ Hk Hlt) as [_ ->].
  unfold d1. rewrite styleOf_update_style_eq; [done|].
  rewrite length_update, length_app. simpl. lia.
Qed.

Lemma shown_initFloatingPlayer settings s :
  Inv s → container_shown s → container_shown (initFloatingPlayer settings s).
Proof.
  intros HI H. unfold initFloatingPlayer.
  assert (container_shown (set_currentSettings settings s)) as Hs0
    by (by apply (shown_ext s)).
  destruct (negb (enabled settings)); [done|].
  intros c. rewrite floatingContainer_scan, floatingContainer_addEventListener.
  rewrite isFloating_scan, dom_scan, dom_addEventListener.
  destruct (fields_addEventListener OnPlay
    (set_observer (Some [])
      match floatingContainer (set_currentSettings settings s) with
      | Some _ => set_currentSettings settings s
      | None =>
          let '(c, d) := createFloatingContainer (dom (set_currentSettings settings s)) in
          with_dom (appendChild (body (set_floatingContainer (Some c)
                                         (set_dom d (set_currentSettings settings s)))) c)
            (set_floatingContainer (Some c) (set_dom d (set_currentSettings settings s)))
      end)) as (_ & ->).
  cbn [floatingContainer dom isFloating set_observer].
  change (floatingContainer (set_currentSettings settings s))
    with (floatingContainer s).
  change (dom (set_currentSettings settings s)) with (dom s).
  destruct (floatingContainer s) as [c0|] eqn:Hc.
  - cbn [floatingContainer dom isFloating set_currentSettings]. rewrite Hc.
    intros [= <-]. by apply H.
  - pose proof (createFloatingContainer_fst (dom s)) as Hfst.
    pose proof (createFloatingContainer_length (dom s)) as Hlen.
    pose proof (createFloatingContainer_display (dom s)) as Hdisp.
    destruct (createFloatingContainer (dom s)) as [c1 d'] eqn:Hcr.
    simpl in Hfst, Hlen, Hdisp. subst c1.
    cbn [floatingContainer dom isFloating set_currentSettings with_dom set_dom
         set_floatingContainer body].
    intros [= <-].
    assert (isFloating s = false) as ->.
    { pose proof (Inv_container_None s HI Hc) as Hvs.
      by destruct (Inv_docked s HI Hvs). }
    assert (keeps_view display d' (appendChild (body s) (length (dom s)) d')) as Hk
      by (apply keeps_attach; apply _).
    destruct (display_keeps _ _ (length (dom s)) Hk) as [? ->]; [lia|]. done.
Qed.

Lemma shown_updateFloatingPlayerSettings settings s :
  Inv s → container_shown s → container_shown (updateFloatingPlayerSettings settings s).
Proof.
  intros HI H. unfold updateFloatingPlayerSettings.
  assert (Inv (set_currentSettings settings s)) as HI0 by by apply (Inv_ext s).
  assert (container_shown (set_currentSettings settings s)) as Hs0
    by (by apply (shown_ext s)).
  match goal with
  | |- container_shown (match floatingContainer ?s1 with _ => _ end) =>
      assert (container_shown s1) as H1; [|destruct (floatingContainer s1); [|done]]
  end.
  { destruct (floatingContainer _); [|done].
    destruct (negb _); [by apply shown_hide|done]. }
  case_decide; [|done].
  eapply shown_keeps; [| | |exact H1]; [|done..].
  cbn [dom with_dom set_dom]. unfold update_style. repeat keeps_step.
Qed.

Lemma floatingContainer_destroy s :
  floatingContainer (destroyFloatingPlayer s) = None.
Proof.
  unfold destroyFloatingPlayer.
  cbn [floatingContainer set_videoState set_isFloating set_isManuallyHidden
       set_recentlyPlayedVideo].
  destruct (floatingContainer
              (set_observer None (removeEventListener OnPlay (hideFloatingPlayer s))))
    eqn:E; [done|exact E].
Qed.

Lemma shown_step s ev : Inv s → container_shown s → container_shown (step s ev).
Proof.
  intros HI H. destruct ev; unfold step.
  - by apply shown_initFloatingPlayer.
  - by apply shown_updateFloatingPlayerSettings.
  - intros c. by rewrite floatingContainer_destroy.
  - unfold returnFloatingVideo. destruct (videoState s); [|done].
    destruct (isFloating s) eqn:Hf; [|done]. destruct pauseVideo.
    + apply shown_hide; [apply Inv_update; [apply _..|done]|].
      eapply shown_keeps; [| | |exact H]; [|done..].
      cbn [dom with_dom set_dom]. apply keeps_update; apply _.
    + by apply shown_hide.
  - case_decide; [|done]. by apply shown_handleVideoPlay.
  - by apply shown_handleIntersection.
  - destruct (has_listener _ _ _ _); [|done]. unfold closeClick.
    apply (shown_ext (hideFloatingPlayer s)); [done..|]. by apply shown_hide.
  - destruct (has_listener _ _ _ _); [|done].
    apply (shown_ext s); [apply dom_startDrag|..|done].
    + unfold startDrag. destruct (floatingContainer s) eqn:E; [|done].
      by rewrite !floatingContainer_addEventListener.
    + apply isFloating_startDrag.
  - case_decide; [|done].
    eapply shown_keeps; [| | |exact H].
    + unfold onDrag. destruct (floatingContainer s); [|apply keeps_refl].
      destruct (negb _); [apply keeps_refl|].
      cbn [dom with_dom set_dom]. unfold update_style. repeat keeps_step.
    + unfold onDrag. destruct (floatingContainer s) eqn:E; [|done].
      by destruct (negb _).
    + by destruct (drag_tree e s) as (-> & _).
  - case_decide; [|done].
    apply (shown_ext s); [apply dom_stopDrag|..|done];
      unfold stopDrag; change (dragDoc (set_isDragging false s)) with (dragDoc s);
      by destruct (dragDoc s).
  - eapply shown_keeps; [| | |exact H]; [|done..].
    cbn [dom with_dom set_dom]. apply keeps_update; apply _.
  - eapply shown_keeps; [| | |exact H]; [|done..].
    cbn [dom with_dom set_dom]. apply keeps_update; apply _.
  - by apply (shown_ext s).
Qed.

Lemma shown_run evs s : Inv s → container_shown s → container_shown (run s evs).
Proof.
  unfold run. revert s. induction evs as [|ev evs IH]; intros s HI H; [done|].
  simpl. apply IH; [by apply Inv_step|by apply shown_step].
Qed.

Lemma reachable_shown s : reachable s → container_shown s.
Proof.
  intros (d & b & w & h & evs & Hok & ->). apply shown_run.
  - by apply Inv_initialState.
  - by intros c.
Qed.
End Shown.

(** ** Teardown and the drag gesture *)

Section DragListeners.
Implicit Types (s : State) (d : list Node) (n m p q c v ph : nat).

Lemma drag_same_refl s : drag_same s s.
Proof. done. Qed.

Lemma drag_same_trans s1 s2 s3 : drag_same s1 s2 → drag_same s2 s3 → drag_same s1 s3.
Proof. intros (? & ? & ?) (? & ? & ?). split_and!; congruence. Qed.

Lemma drag_ok_same s s' : drag_same s s' → drag_ok s → drag_ok s'.
Proof. intros (Hl & Hd & Hdd) H. unfold drag_ok. by rewrite Hl, Hd, Hdd. Qed.

Lemma drag_same_hide s : drag_same s (hideFloatingPlayer s).
Proof. unfold hideFloatingPlayer. by repeat case_match. Qed.

Lemma drag_same_show s : drag_same s (showFloatingPlayer s).
Proof. unfold showFloatingPlayer. by repeat case_match. Qed.

Lemma drag_same_reobserve t s : drag_same s (reobserve t s).
Proof. unfold reobserve. by destruct (observer s). Qed.

Lemma drag_same_handleVideoPlay t s : drag_same s (handleVideoPlay t s).
Proof.
  unfold handleVideoPlay. case_decide; [|done].
  eapply drag_same_trans; [|apply drag_same_reobserve].
  match goal with |- drag_same _ (set_recentlyPlayedVideo _ ?x) =>
    cut (drag_same s x); [by intros (? & ? & ?)|] end.
  case_decide; [|done]. destruct (videoState _); [|done].
  destruct (_ && _); [|done].
  apply (drag_same_hide (set_isManuallyHidden false s)).
Qed.

Lemma drag_same_handleIntersectionEntry s e : drag_same s (handleIntersectionEntry s e).
Proof.
  unfold handleIntersectionEntry.
  destruct (if isFloating s then _ else _); [|done].
  destruct (negb (isIntersecting e) && negb (isFloating s)).
  - destruct (videoState (showFloatingPlayer s)); [|apply drag_same_show].
    eapply drag_same_trans; [apply drag_same_show|apply drag_same_reobserve].
  - destruct (isIntersecting e && isFloating s); [|done].
    assert (drag_same s (set_isManuallyHidden false (hideFloatingPlayer s))) as Hh
      by apply (drag_same_hide s).
    destruct (recentlyPlayedVideo _); [|done].
    eapply drag_same_trans; [exact Hh|apply drag_same_reobserve].
Qed.

Lemma drag_same_handleIntersection entries s :
  drag_same s (handleIntersection entries s).
Proof.
  unfold handleIntersection. revert s.
  induction entries as [|e es IH]; intros s; [done|]. simpl.
  eapply drag_same_trans; [apply drag_same_handleIntersectionEntry|apply IH].
Qed.

Lemma drag_same_scan (vs : list nat) s :
  drag_same s
    (fold_left
       (fun s video =>
          if negb (from_option paused true (dom s !! video)) then
            let s := set_recentlyPlayedVideo (Some video) s in
            set_observer ((fun ts => ts ++ [video]) <$> observer s) s
          else s) vs s).
Proof.
  split_and!.
  - apply (fold_left_field _ docListeners). intros s0 a. by case_match.
  - apply (fold_left_field _ isDragging). intros s0 a. by case_match.
  - apply (fold_left_field _ dragDoc). intros s0 a. by case_match.
Qed.

Lemma elem_of_addEventListener l l' s :
  l' ∈ docListeners (addEventListener l s) ↔ l' = l ∨ l' ∈ docListeners s.
Proof.
  unfold addEventListener. case_decide as E.
  - split; [by right|]. by intros [->|?].
  - cbn [docListeners set_docListeners]. by rewrite elem_of_cons.
Qed.

Lemma NoDup_addEventListener l s :
  NoDup (docListeners s) → NoDup (docListeners (addEventListener l s)).
Proof.
  unfold addEventListener. case_decide as E; [done|].
  cbn [docListeners set_docListeners]. intros H. by apply NoDup_cons.
Qed.

Lemma elem_of_removeEventListener l l' s :
  l' ∈ docListeners (removeEventListener l s) ↔ l' ≠ l ∧ l' ∈ docListeners s.
Proof.
  unfold removeEventListener. cbn [docListeners set_docListeners].
  by rewrite list_elem_of_filter.
Qed.

Lemma NoDup_removeEventListener l s :
  NoDup (docListeners s) → NoDup (docListeners (removeEventListener l s)).
Proof.
  unfold removeEventListener. cbn [docListeners set_docListeners].
  apply NoDup_filter.
Qed.

Lemma drag_ok_addPlay s : drag_ok s → drag_ok (addEventListener OnPlay s).
Proof.
  intros (Hn & Hd & Hm & Hu).
  assert (isDragging (addEventListener OnPlay s) = isDragging s ∧
          dragDoc (addEventListener OnPlay s) = dragDoc s) as [E1 E2]
    by (unfold addEventListener; by case_decide).
  unfold drag_ok. rewrite E1, E2, !elem_of_addEventListener. split_and!.
  - by apply NoDup_addEventListener.
  - done.
  - rewrite <- Hm. naive_solver.
  - rewrite <- Hu. naive_solver.
Qed.

Lemma drag_ok_removePlay s : drag_ok s → drag_ok (removeEventListener OnPlay s).
Proof.
  intros (Hn & Hd & Hm & Hu).
  unfold drag_ok. rewrite !elem_of_removeEventListener. split_and!.
  - by apply NoDup_removeEventListener.
  - done.
  - rewrite Hm. cbn. naive_solver.
  - rewrite Hu. cbn. naive_solver.
Qed.

Lemma drag_ok_startDrag e s : drag_ok s → drag_ok (startDrag e s).
Proof.
  intros (Hn & Hd & Hm & Hu). unfold startDrag.
  destruct (floatingContainer s) as [c|]; [|done].
  match goal with |- drag_ok (addEventListener _ (addEventListener _ ?x)) =>
    set (s0 := x) end.
  assert (docListeners s0 = docListeners s) as Hl0 by done.
  assert (∀ l x, isDragging (addEventListener l x) = isDragging x ∧
                 dragDoc (addEventListener l x) = dragDoc x) as Hf
    by (intros l x; unfold addEventListener; by case_decide).
  unfold drag_ok.
  destruct (Hf OnMouseUp (addEventListener OnMouseMove s0)) as [-> ->].
  destruct (Hf OnMouseMove s0) as [-> ->].
  rewrite !elem_of_addEventListener. split_and!.
  - apply NoDup_addEventListener, NoDup_addEventListener. by rewrite Hl0.
  - done.
  - split; [done|]. intros _. right. by left.
  - split; [done|]. intros _. by left.
Qed.

Lemma drag_ok_stopDrag s : drag_ok s → drag_ok (stopDrag s).
Proof.
  intros (Hn & Hd & Hm & Hu). unfold stopDrag.
  change (dragDoc (set_isDragging false s)) with (dragDoc s).
  destruct (dragDoc s) eqn:Hdd.
  - set (s1 := removeEventListener OnMouseUp
                   (removeEventListener OnMouseMove (set_isDragging false s))).
    assert (isDragging (set_dragDoc false s1) = false) as Hi by done.
    assert (dragDoc (set_dragDoc false s1) = false) as Hdd' by done.
    assert (docListeners (set_dragDoc false s1) = docListeners s1) as Hl by done.
    unfold drag_ok. rewrite Hi, Hdd', Hl. unfold s1.
    rewrite !elem_of_removeEventListener. split_and!.
    + apply NoDup_removeEventListener, NoDup_removeEventListener. done.
    + done.
    + naive_solver.
    + naive_solver.
  - unfold drag_ok. cbn [docListeners isDragging dragDoc set_isDragging].
    rewrite Hdd. rewrite <- Hd in Hm, Hu. split_and!; [done|done|..].
    + rewrite Hm. done.
    + rewrite Hu. done.
Qed.

Lemma drag_same_initContainer settings s :
  drag_same s
    (set_observer (Some [])
       match floatingContainer (set_currentSettings settings s) with
       | Some _ => set_currentSettings settings s
       | None =>
           let '(c, d) := createFloatingContainer (dom (set_currentSettings settings s)) in
           with_dom (appendChild (body (set_floatingContainer (Some c)
                                          (set_dom d (set_currentSettings settings s)))) c)
             (set_floatingContainer (Some c) (set_dom d (set_currentSettings settings s)))
       end).
Proof.
  destruct (floatingContainer _); [done|]. by destruct (createFloatingContainer _).
Qed.

Lemma drag_ok_step s ev : drag_ok s → drag_ok (step s ev).
Proof.
  intros H. destruct ev; unfold step.
  - unfold initFloatingPlayer. destruct (negb _); [by apply (drag_ok_same s)|].
    eapply drag_ok_same; [apply drag_same_scan|].
    apply drag_ok_addPlay. eapply drag_ok_same; [apply drag_same_initContainer|done].
  - unfold updateFloatingPlayerSettings.
    eapply drag_ok_same; [|exact H].
    match goal with
    | |- drag_same _ (match floatingContainer ?s1 with _ => _ end) =>
        assert (drag_same s s1) as H1; [|destruct (floatingContainer s1); [|done]]
    end.
    + destruct (floatingContainer _); [|done]. destruct (negb _); [|done].
      apply (drag_same_hide (set_currentSettings settings s)).
    + by case_decide.
  - unfold destroyFloatingPlayer.
    match goal with |- drag_ok (set_videoState _ (set_isFloating _
        (set_isManuallyHidden _ (set_recentlyPlayedVideo _ ?x)))) =>
      apply (drag_ok_same x); [done|] end.
    assert (drag_ok (set_observer None (removeEventListener OnPlay (hideFloatingPlayer s))))
      as H1.
    { apply (drag_ok_same (removeEventListener OnPlay (hideFloatingPlayer s))); [done|].
      apply drag_ok_removePlay. eapply drag_ok_same; [apply drag_same_hide|done]. }
    destruct (floatingContainer _); [|done]. by eapply drag_ok_same; [|exact H1].
  - unfold returnFloatingVideo. destruct (videoState s); [|done].
    destruct (isFloating s); [|done].
    eapply drag_ok_same; [apply drag_same_hide|]. by destruct pauseVideo.
  - case_decide; [|done]. eapply drag_ok_same; [apply drag_same_handleVideoPlay|done].
  - eapply drag_ok_same; [apply drag_same_handleIntersection|done].
  - destruct (has_listener _ _ _ _); [|done]. unfold closeClick.
    apply (drag_ok_same (hideFloatingPlayer s)); [done|].
    eapply drag_ok_same; [apply drag_same_hide|done].
  - destruct (has_listener _ _ _ _); [|done]. by apply drag_ok_startDrag.
  - case_decide; [|done]. eapply drag_ok_same; [|exact H].
    unfold onDrag. destruct (floatingContainer s); [|done]. by destruct (negb _).
  - case_decide; [|done]. by apply drag_ok_stopDrag.
  - by apply (drag_ok_same s).
  - by apply (drag_ok_same s).
  - by apply (drag_ok_same s).
Qed.

Lemma drag_ok_run evs s : drag_ok s → drag_ok (run s evs).
Proof.
  unfold run. revert s. induction evs as [|ev evs IH]; intros s H; [done|].
  simpl. by apply IH, drag_ok_step.
Qed.

Lemma reachable_drag_ok s : reachable s → drag_ok s.
Proof.
  intros (d & b & w & h & evs & Hok & ->). apply drag_ok_run.
  unfold drag_ok. cbn. split_and!; [constructor|done|..];
    (split; [by intros ?%elem_of_nil|done]).
Qed.

Lemma reachable_step s ev : reachable s → reachable (step s ev).
Proof.
  intros (d & b & w & h & evs & Hok & ->). exists d, b, w, h, (evs ++ [ev]).
  split; [done|]. unfold run. by rewrite fold_left_app.
Qed.
End DragListeners.

(** ** Dragging within the viewport *)

(** The writes that keep the inline width and height of a node. *)
Global Instance Keeps_box_parentNode v : Keeps box (set_parentNode v).
Proof. done. Qed.
Global Instance Keeps_box_childNodes h :
  Keeps box (fun x => set_childNodes (h (childNodes x)) x).
Proof. done. Qed.
Global Instance Keeps_box_layout w h l t : Keeps box (set_layout w h l t).
Proof. done. Qed.
Global Instance Keeps_box_media p t :
  Keeps box (fun x => set_currentTime t (set_paused p x)).
Proof. done. Qed.
Global Instance Keeps_box_left v :
  Keeps box (fun x => set_style (Style.set_left v (style x)) x).
Proof. done. Qed.
Global Instance Keeps_box_top v :
  Keeps box (fun x => set_style (Style.set_top v (style x)) x).
Proof. done. Qed.
Global Instance Keeps_box_right v :
  Keeps box (fun x => set_style (Style.set_right v (style x)) x).
Proof. done. Qed.
Global Instance Keeps_box_bottom v :
  Keeps box (fun x => set_style (Style.set_bottom v (style x)) x).
Proof. done. Qed.

Section Sized.
Implicit Types (s : State) (d : list Node) (n m p q c v ph : nat).

Lemma box_keeps d d' c :
  keeps_view box d d' → (c < length d)%nat →
  Style.width (styleOf d' c) = Style.width (styleOf d c) ∧
  Style.height (styleOf d' c) = Style.height (styleOf d c).
Proof.
  intros Hk Hc. destruct (lookup_lt_is_Some_2 d c Hc) as [x Hx].
  destruct (Hk c x Hx) as (x' & Hx' & E). unfold styleOf. rewrite Hx, Hx'.
  unfold box in E. simpl. by injection E as -> ->.
Qed.

Lemma sized_ext s s' :
  dom s' = dom s → floatingContainer s' = floatingContainer s →
  isFloating s' = isFloating s → currentSettings s' = currentSettings s →
  container_sized s → container_sized s'.
Proof. intros Hd Hc Hf Hs H c. rewrite Hd, Hc, Hf, Hs. apply H. Qed.

Lemma sized_keeps s s' :
  Inv s → keeps_view box (dom s) (dom s') →
  floatingContainer s' = floatingContainer s → isFloating s' = isFloating s →
  currentSettings s' = currentSettings s →
  container_sized s → container_sized s'.
Proof.
  intros HI Hd Hc Hf Hs H c. rewrite Hc, Hf, Hs. intros Hcs Hfl.
  destruct (inv_container s HI c Hcs) as (Hlt & _).
  destruct (box_keeps _ _ c Hd Hlt) as [-> ->]. by apply H.
Qed.

Lemma sized_docked s : isFloating s = false → container_sized s.
Proof. intros Hf c _ Hf'. congruence. Qed.

Lemma sized_hide s : Inv s → container_sized (hideFloatingPlayer s).
Proof. intros HI. apply sized_docked. by destruct (hide_docked s HI). Qed.

Lemma showDom_container_box c v p sz d :
  (c < length d)%nat → v ≠ c →
  Style.width (styleOf (showDom c v p sz d) c) = CssPx (Box.width sz) ∧
  Style.height (styleOf (showDom c v p sz d) c) = CssPx (Box.height sz).
Proof.
  intros Hc Hvc. unfold showDom, moveToContainer.
  set (d0 := storeOriginalStyles v
               (insertBefore p (length d) v
                  (stylePlaceholder (length d) v (d ++ [blankNode "DIV"])))).
  assert (c < length d0)%nat as Hc0.
  { unfold d0. rewrite storeOriginalStyles_length. unfold insertBefore.
    rewrite length_attach, stylePlaceholder_length, length_app. simpl. lia. }
  set (d1 := update_style c (Style.set_width (CssPx (Box.width sz))) d0).
  set (d2 := update_style c (Style.set_height (CssPx (Box.height sz))) d1).
  set (d3 := update_style v (Style.set_width (CssPercent 100)) d2).
  set (d4 := update_style v (Style.set_height (CssPercent 100)) d3).
  assert (styleOf d2 c
          = Style.set_height (CssPx (Box.height sz))
              (Style.set_width (CssPx (Box.width sz)) (styleOf d0 c))) as H2.
  { unfold d2, d1.
    rewrite !styleOf_update_style_eq; [done|by rewrite ?length_update_style..]. }
  assert (styleOf d4 c = styleOf d2 c) as H4.
  { unfold d4, d3, update_style. by rewrite !styleOf_update_ne by (done || apply _). }
  assert (styleOf (appendChild c v d4) c = styleOf d4 c) as H5.
  { unfold appendChild. by rewrite !styleOf_attrs, nodeAttrs_attach. }
  assert (c < length (appendChild c v d4))%nat as Hc5.
  { unfold appendChild. rewrite length_attach. unfold d4, d3, d2, d1.
    by rewrite !length_update_style. }
  rewrite styleOf_update_style_eq by done. rewrite H5, H4, H2. done.
Qed.

Lemma sized_show s : Inv s → container_sized s → container_sized (showFloatingPlayer s).
Proof.
  intros HI H. destruct (isFloating s) eqn:Hf;
    [by rewrite show_noop by (do 4 right; by left)|].
  destruct (show_result s HI Hf) as [->|(c & v & p & Hv & Hc & He & Hh & Hp & ->)];
    [done|].
  intros c'.
  cbn [floatingContainer dom isFloating currentSettings
       set_isFloating set_videoState set_dom].
  rewrite Hc. intros [= <-] _.
  destruct (inv_container s HI c Hc) as (Hlt & Hnv & _).
  apply showDom_container_box; [done|]. intros ->. apply Hnv.
  by apply (inv_tracked s HI).
Qed.

Lemma sized_reobserve t s : container_sized s → container_sized (reobserve t s).
Proof.
  apply sized_ext; [apply dom_reobserve|..];
    by destruct (fields_reobserve t s) as (? & ? & ? & ? & ? & ?).
Qed.

Lemma sized_handleVideoPlay t s :
  Inv s → container_sized s → container_sized (handleVideoPlay t s).
Proof.
  intros HI H. unfold handleVideoPlay. case_decide; [|done].
  apply sized_reobserve.
  match goal with |- container_sized (set_recentlyPlayedVideo _ ?x) =>
    apply (sized_ext x); [done..|] end.
  case_decide; [|done].
  assert (container_sized (set_isManuallyHidden false s)) as Hs0
    by (by apply (sized_ext s)).
  destruct (videoState _); [|done]. destruct (_ && _); [|done].
  apply sized_hide. by apply Inv_set_isManuallyHidden.
Qed.

Lemma sized_handleIntersectionEntry s e :
  Inv s → container_sized s → container_sized (handleIntersectionEntry s e).
Proof.
  intros HI H. unfold handleIntersectionEntry.
  destruct (if isFloating s then _ else _); [|done].
  destruct (negb (isIntersecting e) && negb (isFloating s)).
  - pose proof (sized_show s HI H).
    destruct (videoState (showFloatingPlayer s)); [|done]. by apply sized_reobserve.
  - destruct (isIntersecting e && isFloating s); [|done].
    pose proof (sized_hide s HI) as H1.
    assert (container_sized (set_isManuallyHidden false (hideFloatingPlayer s))) as H2
      by (by apply (sized_ext (hideFloatingPlayer s))).
    destruct (recentlyPlayedVideo _); [|done]. by apply sized_reobserve.
Qed.

Lemma sized_handleIntersection entries s :
  Inv s → container_sized s → container_sized (handleIntersection entries s).
Proof.
  unfold handleIntersection. revert s.
  induction entries as [|e es IH]; intros s HI H; [done|]. simpl.
  apply IH; [by apply Inv_handleIntersectionEntry|by apply sized_handleIntersectionEntry].
Qed.

Lemma currentSettings_scan (vs : list nat) s :
  currentSettings
    (fold_left
       (fun s video =>
          if negb (from_option paused true (dom s !! video)) then
            let s := set_recentlyPlayedVideo (Some video) s in
            set_observer ((fun ts => ts ++ [video]) <$> observer s) s
          else s) vs s)
  = currentSettings s.
Proof. apply (fold_left_field _ currentSettings). intros s0 a. by case_match. Qed.

(** [initFloatingPlayer] stores the settings and leaves the container as
    it is: a change of the size is not applied to a floating container. *)
Lemma sized_initFloatingPlayer settings s :
  Inv s → container_sized s →
  (isFloating s = true → size settings = size (currentSettings s)) →
  container_sized (initFloatingPlayer settings s).
Proof.
  intros HI H Hsz.
  destruct (isFloating s) eqn:Hf.
  2: { apply sized_docked. unfold initFloatingPlayer.
       destruct (negb (enabled settings)); [done|].
       rewrite isFloating_scan.
       match goal with |- isFloating (addEventListener ?l ?x) = _ =>
         destruct (fields_addEventListener l x) as (_ & ->) end.
       cbn [isFloating set_observer].
       change (floatingContainer (set_currentSettings settings s))
         with (floatingContainer s).
       destruct (floatingContainer s); [done|].
       by destruct (createFloatingContainer _). }
  specialize (Hsz eq_refl).
  assert (container_sized (set_currentSettings settings s)) as Hs0.
  { intros c Hc _. cbn [currentSettings set_currentSettings dom] in *.
    rewrite Hsz. by apply H. }
  unfold initFloatingPlayer. destruct (negb (enabled settings)); [done|].
  assert (∃ c, floatingContainer s = Some c) as [c0 Hc0].
  { rewrite (inv_flag s HI) in Hf. apply bool_decide_eq_true in Hf as [vs Hvs].
    destruct (Inv_floating s vs HI Hvs) as (c & _ & _ & ? & _). by exists c. }
  change (floatingContainer (set_currentSettings settings s))
    with (floatingContainer s).
  rewrite Hc0.
  intros c. rewrite floatingContainer_scan, floatingContainer_addEventListener.
  rewrite isFloating_scan, dom_scan, dom_addEventListener, currentSettings_scan.
  rewrite currentSettings_addEventListener.
  match goal with |- _ → isFloating (addEventListener ?l ?x) = _ → _ =>
    destruct (fields_addEventListener l x) as (_ & ->) end.
  apply Hs0.
Qed.

Lemma sized_updateFloatingPlayerSettings settings s :
  Inv s → container_shown s →
  container_sized (updateFloatingPlayerSettings settings s).
Proof.
  intros HI Hsh. unfold updateFloatingPlayerSettings.
  set (s0 := set_currentSettings settings s).
  assert (Inv s0) as HI0 by (by apply (Inv_ext s)).
  assert (container_shown s0) as Hsh0 by (by apply (shown_ext s)).
  destruct (floatingContainer s0) as [c|] eqn:Hc.
  2: { rewrite Hc. intros c. by rewrite Hc. }
  destruct (negb (enabled settings)).
  - rewrite floatingContainer_hide, Hc.
    pose proof (shown_hide s0 HI0 Hsh0 c) as Hh.
    rewrite floatingContainer_hide in Hh. destruct (Hh Hc) as [_ Hd].
    destruct (hide_docked s0 HI0) as [_ Hf]. rewrite Hf in Hd.
    rewrite decide_False by (by rewrite Hd; intros []).
    by apply sized_hide.
  - rewrite Hc. destruct (Hsh0 c Hc) as [Hlt Hd].
    destruct (isFloating s0) eqn:Hf.
    + rewrite decide_True by (rewrite Hd; done).
      intros c'. cbn [floatingContainer dom isFloating currentSettings
                       with_dom set_dom]. rewrite Hc. intros [= <-] _.
      change (currentSettings s0) with settings.
      rewrite !styleOf_update_style_eq by (by rewrite ?length_update_style).
      done.
    + apply sized_docked. by case_decide.
Qed.

Lemma sized_step s ev :
  Inv s → container_shown s → container_sized s → keeps_size s ev →
  container_sized (step s ev).
Proof.
  intros HI Hsh H Hk. destruct ev; unfold step.
  - by apply sized_initFloatingPlayer.
  - by apply sized_updateFloatingPlayerSettings.
  - intros c. by rewrite floatingContainer_destroy.
  - unfold returnFloatingVideo. destruct (videoState s); [|done].
    destruct (isFloating s) eqn:Hf; [|done]. destruct pauseVideo.
    + apply sized_hide. apply Inv_update; [apply _..|done].
    + by apply sized_hide.
  - case_decide; [|done]. by apply sized_handleVideoPlay.
  - by apply sized_handleIntersection.
  - destruct (has_listener _ _ _ _); [|done]. unfold closeClick.
    apply (sized_ext (hideFloatingPlayer s)); [done..|]. by apply sized_hide.
  - destruct (has_listener _ _ _ _); [|done].
    apply (sized_ext s); [apply dom_startDrag|..|done].
    + unfold startDrag. destruct (floatingContainer s) eqn:E; [|done].
      by rewrite !floatingContainer_addEventListener.
    + apply isFloating_startDrag.
    + unfold startDrag. destruct (floatingContainer s) eqn:E; [|done].
      by rewrite !currentSettings_addEventListener.
  - case_decide; [|done].
    apply (sized_keeps s); [done| | | | |done].
    + unfold onDrag. destruct (floatingContainer s); [|apply keeps_refl].
      destruct (negb _); [apply keeps_refl|].
      cbn [dom with_dom set_dom]. unfold update_style. repeat keeps_step.
    + unfold onDrag. destruct (floatingContainer s) eqn:E; [|done].
      by destruct (negb _).
    + by destruct (drag_tree e s) as (-> & _).
    + unfold onDrag. destruct (floatingContainer s) eqn:E; [|done].
      by destruct (negb _).
  - case_decide; [|done].
    apply (sized_ext s); [apply dom_stopDrag|..|done];
      unfold stopDrag; change (dragDoc (set_isDragging false s)) with (dragDoc s);
      by destruct (dragDoc s).
  - apply (sized_keeps s); [done| |done..].
    cbn [dom with_dom set_dom]. apply keeps_update; apply _.
  - apply (sized_keeps s); [done| |done..].
    cbn [dom with_dom set_dom]. apply keeps_update; apply _.
  - by apply (sized_ext s).
Qed.

Lemma onDrag_other e s n :
  floatingContainer s ≠ Some n → dom (onDrag e s) !! n = dom s !! n.
Proof.
  intros Hn. unfold onDrag. destruct (floatingContainer s) as [c|]; [|done].
  destruct (negb _); [done|]. cbn [dom with_dom set_dom]. unfold update_style.
  rewrite !lookup_update. rewrite !decide_False; [done|by intros ->..].
Qed.

(** The handlers of the drag gesture write the position of the container
    and the variables of the drag, nothing else. *)
Lemma drag_gesture_frame s ev :
  (∃ t e0, ev = MouseDown t e0) ∨ (∃ e0, ev = MouseMove e0) ∨ ev = MouseUp →
  isFloating (step s ev) = isFloating s ∧ videoState (step s ev) = videoState s ∧
  (∀ n, parentOf (dom (step s ev)) n = parentOf (dom s) n ∧
        childrenOf (dom (step s ev)) n = childrenOf (dom s) n) ∧
  (∀ n, floatingContainer s ≠ Some n → dom (step s ev) !! n = dom s !! n).
Proof.
  intros [(t & e0 & ->)|[(e0 & ->)| ->]]; simpl.
  - destruct (has_listener _ _ _ _); [|done]. rewrite dom_startDrag.
    unfold startDrag. destruct (floatingContainer s); [|done].
    unfold addEventListener. by repeat case_decide.
  - case_decide; [|done]. destruct (drag_tree e0 s) as (? & ? & ?).
    split_and!; [done..|]. intros n Hn. by apply onDrag_other.
  - case_decide; [|done]. rewrite dom_stopDrag. unfold stopDrag.
    change (dragDoc (set_isDragging false s)) with (dragDoc s).
    by destruct (dragDoc s).
Qed.
End Sized.

Section DragMove.
Implicit Types (s : State) (c : nat).

(** What a drag move leaves in the inline style of the container. *)
Lemma onDrag_style e s c :
  floatingContainer s = Some c → isDragging s = true → (c < length (dom s))%nat →
  let sz := SIZE_MAP (size (currentSettings s)) in
  let newX := Z.max 10 (Z.min (clientX e - Position.x (dragOffset s))
                          (innerWidth s - Box.width sz - 10)) in
  let newY := Z.max 10 (Z.min (clientY e - Position.y (dragOffset s))
                          (innerHeight s - Box.height sz - 10)) in
  let st := styleOf (dom (onDrag e s)) c in
  (Style.left st = CssPx newX ∧ Style.top st = CssPx newY ∧
   Style.right st = CssAuto ∧ Style.bottom st = CssAuto) ∧
  (Style.width st = Style.width (styleOf (dom s) c) ∧
   Style.height st = Style.height (styleOf (dom s) c)) ∧
  innerWidth (onDrag e s) = innerWidth s ∧ innerHeight (onDrag e s) = innerHeight s.
Proof.
  intros Hc Hd Hcl sz newX newY st.
  pose proof (onDrag_unfold e s c Hc Hd) as Hs. cbv zeta in Hs.
  fold sz in Hs. fold newX newY in Hs.
  assert (st = Style.set_top (CssPx newY) (Style.set_left (CssPx newX)
                 (Style.set_bottom CssAuto (Style.set_right CssAuto
                    (styleOf (dom s) c))))) as ->.
  { unfold st. rewrite Hs. cbn [dom set_dom].
    rewrite !styleOf_update_style_eq;
      [done|unfold update_style; by rewrite ?length_update..]. }
  rewrite Hs. by split_and!.
Qed.
End DragMove.

(** C8, as the code has it. For every pointer position of a drag move, inside
    the viewport or not, [onDrag] sets the left and top of the container no
    less than 10 pixels from the left and top edges of the viewport and
    clears right and bottom. When the viewport exceeds the size of the
    setting by at least 20 pixels in each direction and the floating
    container has that size, the container, measured by its own width and
    height, lies wholly within the viewport with a margin of 10 pixels on
    every side. The container has the size of the setting from the moment it
    floats, and every event keeps it so, except a call of
    [initFloatingPlayer] that changes the size while a video floats. The
    handlers of the drag gesture, the mouse-down that starts it included,
    change the position of the container and the variables of the drag only:
    in any state, the engine stays docked or floating as it was, the tree is
    untouched and no node but the container is written. *)
Theorem drag_clamps_position s c e :
  floatingContainer s = Some c → isDragging s = true → (c < length (dom s))%nat →
  let s' := onDrag e s in
  let sz := SIZE_MAP (size (currentSettings s)) in
  (∃ x y,
     Style.left (styleOf (dom s') c) = CssPx x ∧
     Style.top (styleOf (dom s') c) = CssPx y ∧
     Style.right (styleOf (dom s') c) = CssAuto ∧
     Style.bottom (styleOf (dom s') c) = CssAuto ∧
     (10 ≤ x)%Z ∧ (10 ≤ y)%Z) ∧
  ((Box.width sz + 20 ≤ innerWidth s)%Z → (Box.height sz + 20 ≤ innerHeight s)%Z →
   isFloating s = true → container_sized s →
   within_margins s' c) ∧
  (∀ d b w h, container_sized (initialState d b w h)) ∧
  (∀ s0 ev, reachable s0 → container_sized s0 → keeps_size s0 ev →
     container_sized (step s0 ev)) ∧
  (∀ s0 ev, (∃ t e0, ev = MouseDown t e0) ∨ (∃ e0, ev = MouseMove e0) ∨ ev = MouseUp →
     isFloating (step s0 ev) = isFloating s0 ∧
     videoState (step s0 ev) = videoState s0 ∧
     (∀ n, parentOf (dom (step s0 ev)) n = parentOf (dom s0) n ∧
           childrenOf (dom (step s0 ev)) n = childrenOf (dom s0) n) ∧
     (∀ n, floatingContainer s0 ≠ Some n → dom (step s0 ev) !! n = dom s0 !! n)).
Proof.
  intros Hc Hd Hcl s' sz.
  destruct (onDrag_style e s c Hc Hd Hcl)
    as ((Hl & Ht & Hri & Hbo) & (Hwd & Hht) & Hiw & Hih).
  fold s' sz in Hl, Ht, Hri, Hbo, Hwd, Hht, Hiw, Hih.
  set (newX := Z.max 10 (Z.min (clientX e - Position.x (dragOffset s))
                           (innerWidth s - Box.width sz - 10))) in *.
  set (newY := Z.max 10 (Z.min (clientY e - Position.y (dragOffset s))
                           (innerHeight s - Box.height sz - 10))) in *.
  split_and!.
  - exists newX, newY. split_and!; try done; unfold newX, newY; lia.
  - intros Hw Hh Hf Hsz. destruct (Hsz c Hc Hf) as [Hcw Hch]. fold sz in Hcw, Hch.
    exists newX, newY, (Box.width sz), (Box.height sz).
    rewrite Hwd, Hht, Hiw, Hih.
    split_and!; try done; unfold newX, newY; lia.
  - intros d b w h. by apply sized_docked.
  - intros s0 ev Hr. apply sized_step; [by apply reachable_Inv|by apply reachable_shown].
  - intros s0 ev. apply drag_gesture_frame.
Qed.

Lemma exampleNarrow_dragging :
  floatingContainer exampleNarrow = Some 6%nat ∧ isDragging exampleNarrow = true ∧
  (6 < length (dom exampleNarrow))%nat.
Proof. split_and!; [vm_compute; reflexivity..|vm_compute; lia]. Qed.

(** The medium player in a viewport of 1280 by 720 pixels, dragged to the
    pointer position (5000, 5000), far outside the viewport: it is put at
    left 950 and top 530, within the margins. *)
Lemma drag_clamps_position_witness :
  let s' := onDrag (mkMouseEvent 5000 5000) exampleDragging in
  (floatingContainer exampleDragging = Some 6%nat ∧ isDragging exampleDragging = true ∧
   (6 < length (dom exampleDragging))%nat) ∧
  (isFloating exampleDragging = true ∧ container_sized exampleDragging ∧
   innerWidth exampleDragging = 1280 ∧ innerHeight exampleDragging = 720 ∧
   SIZE_MAP (size (currentSettings exampleDragging)) = Box.mk 320 180) ∧
  Style.left (styleOf (dom s') 6%nat) = CssPx 950 ∧
  Style.top (styleOf (dom s') 6%nat) = CssPx 530 ∧
  within_margins s' 6%nat.
Proof.
  intros s'.
  assert (floatingContainer exampleDragging = Some 6%nat) as H1
    by (vm_compute; reflexivity).
  assert (isDragging exampleDragging = true) as H2 by (vm_compute; reflexivity).
  assert (6 < length (dom exampleDragging))%nat as H3 by (vm_compute; lia).
  assert (isFloating exampleDragging = true) as Hf by (vm_compute; reflexivity).
  assert (container_sized exampleDragging) as Hsz.
  { intros c Hc _. rewrite H1 in Hc. injection Hc as <-.
    split; vm_compute; reflexivity. }
  assert (innerWidth exampleDragging = 1280) as Hw by (vm_compute; reflexivity).
  assert (innerHeight exampleDragging = 720) as Hh by (vm_compute; reflexivity).
  assert (SIZE_MAP (size (currentSettings exampleDragging)) = Box.mk 320 180) as Hs
    by (vm_compute; reflexivity).
  pose proof (drag_clamps_position exampleDragging 6%nat (mkMouseEvent 5000 5000)
                H1 H2 H3) as H.
  cbv zeta in H. destruct H as (_ & Hin & _).
  split; [exact (conj H1 (conj H2 H3))|].
  split; [exact (conj Hf (conj Hsz (conj Hw (conj Hh Hs))))|].
  split; [vm_compute; reflexivity|]. split; [vm_compute; reflexivity|].
  apply Hin; [|  |exact Hf|exact Hsz].
  - rewrite Hs, Hw. cbn [Box.width]. lia.
  - rewrite Hs, Hh. cbn [Box.height]. lia.
Defined.

(** C8 as stated fails: in a viewport 768 pixels wide the player of 800
    pixels, dragged anywhere, is put at left 10 and reaches to 810. *)
Lemma drag_narrow_viewport_counterexample :
  isFloating exampleNarrow = true ∧ isDragging exampleNarrow = true ∧
  OnMouseMove ∈ docListeners exampleNarrow ∧
  innerWidth exampleNarrow = 768 ∧
  Style.width (styleOf (dom exampleNarrow) 6%nat) = CssPx 800 ∧
  ∀ e, Style.left (styleOf (dom (step exampleNarrow (MouseMove e))) 6%nat) = CssPx 10 ∧
       ¬ within_margins (step exampleNarrow (MouseMove e)) 6%nat.
Proof.
  split_and!; try (vm_compute; reflexivity).
  { apply (bool_decide_eq_true_1 _). vm_compute. reflexivity. }
  intros e. destruct exampleNarrow_dragging as (H1 & H2 & H3).
  assert (step exampleNarrow (MouseMove e) = onDrag e exampleNarrow) as ->.
  { unfold step. rewrite decide_True; [done|].
    apply (bool_decide_eq_true_1 _). vm_compute. reflexivity. }
  pose proof (onDrag_style e exampleNarrow 6%nat H1 H2 H3) as Hst.
  cbv zeta in Hst. destruct Hst as ((Hl & _) & (Hw & _) & Hiw & _).
  assert (Z.max 10 (Z.min (clientX e - Position.x (dragOffset exampleNarrow))
            (innerWidth exampleNarrow
             - Box.width (SIZE_MAP (size (currentSettings exampleNarrow))) - 10)) = 10)
    as Hx.
  { change (innerWidth exampleNarrow) with 768.
    change (Box.width (SIZE_MAP (size (currentSettings exampleNarrow)))) with 800. lia. }
  rewrite Hx in Hl.
  assert (Style.width (styleOf (dom exampleNarrow) 6%nat) = CssPx 800) as Hwd
    by (vm_compute; reflexivity).
  rewrite Hwd in Hw.
  split; [exact Hl|].
  intros (x & y & w & h & Hx' & _ & Hw' & _ & _ & Hx2 & _).
  rewrite Hl in Hx'. rewrite Hw in Hw'. injection Hx' as <-. injection Hw' as <-.
  rewrite Hiw in Hx2. change (innerWidth exampleNarrow) with 768 in Hx2. lia.
Qed.

(** The premise on the size of the container is needed. The largest player
    floats in a viewport of 1280 by 720 pixels; [initFloatingPlayer] is
    called again with the smallest size, which leaves the container 800
    pixels wide; a drag far to the right then puts it at left 1030, as for a
    player 240 pixels wide, and it reaches to 1830. *)
Lemma drag_after_reinit_overflows :
  reachable exampleResized ∧
  isFloating exampleResized = true ∧ isDragging exampleResized = true ∧
  innerWidth exampleResized = 1280 ∧ innerHeight exampleResized = 720 ∧
  SIZE_MAP (size (currentSettings exampleResized)) = Box.mk 240 135 ∧
  Style.width (styleOf (dom exampleResized) 6%nat) = CssPx 800 ∧
  ¬ container_sized exampleResized ∧
  Style.left (styleOf (dom (step exampleResized (MouseMove (mkMouseEvent 5000 5000))))
                6%nat) = CssPx 1030 ∧
  ¬ within_margins (step exampleResized (MouseMove (mkMouseEvent 5000 5000))) 6%nat.
Proof.
  assert (Style.left (styleOf (dom (step exampleResized
                                      (MouseMove (mkMouseEvent 5000 5000)))) 6%nat)
          = CssPx 1030) as Hl by (vm_compute; reflexivity).
  assert (Style.width (styleOf (dom (step exampleResized
                                       (MouseMove (mkMouseEvent 5000 5000)))) 6%nat)
          = CssPx 800) as Hw by (vm_compute; reflexivity).
  assert (innerWidth (step exampleResized (MouseMove (mkMouseEvent 5000 5000))) = 1280)
    as Hiw by (vm_compute; reflexivity).
  refine (conj _ (conj _ (conj _ (conj _ (conj _ (conj _ (conj _ (conj _ (conj _ _))))))))).
  - exists examplePage, 0%nat, 1280, 720,
      [Init (mkSettings true xxxlarge); Play 2%nat; Intersect [mkEntry 2%nat false];
       Init (mkSettings true small); MouseDown 7%nat (mkMouseEvent 0 0)].
    split; vm_compute; reflexivity.
  - vm_compute; reflexivity.
  - vm_compute; reflexivity.
  - vm_compute; reflexivity.
  - vm_compute; reflexivity.
  - vm_compute; reflexivity.
  - vm_compute; reflexivity.
  - intros H.
    assert (floatingContainer exampleResized = Some 6%nat) as Hc
      by (vm_compute; reflexivity).
    assert (isFloating exampleResized = true) as Hf by (vm_compute; reflexivity).
    destruct (H 6%nat Hc Hf) as [Hcw _].
    revert Hcw. vm_compute. discriminate.
  - exact Hl.
  - intros (x & y & w & h & Hx' & _ & Hw' & _ & _ & Hx2 & _).
    rewrite Hl in Hx'. rewrite Hw in Hw'. rewrite Hiw in Hx2.
    injection Hx' as <-. injection Hw' as <-. lia.
Qed.

(** ** Further properties of the engine *)

(** X1. At every state the engine can reach, [getFloatingVideo] returns a
    video exactly when that video element is a child of the floating
    container. *)
Theorem floating_video_is_child_of_container s v :
  reachable s →
  getFloatingVideo s = Some v ↔
  ∃ c, floatingContainer s = Some c ∧ parentOf (dom s) v = Some c ∧
       isVideo (dom s) v.
Proof. intros Hr. apply floating_video_parent. by apply reachable_Inv. Qed.

(** On the example page, while the video of block [u1] floats. *)
Lemma floating_video_is_child_of_container_witness :
  reachable exampleFloating ∧ parentOf (dom exampleFloating) 2%nat = Some 6%nat ∧
  getFloatingVideo exampleFloating = Some 2%nat.
Proof.
  split; [apply exampleFloating_reachable|]. split; [vm_compute; reflexivity|].
  apply (floating_video_is_child_of_container exampleFloating 2%nat
           exampleFloating_reachable).
  exists 6%nat. split_and!; vm_compute; reflexivity.
Defined.

(** X2. From DOCKED, the only event that makes the engine float is an
    intersection callback, and one entry of it floats the tracked video
    exactly when the entry reports that its target, the tracked video, is out
    of view, the container exists, the feature is enabled, the player was not
    closed by hand and the video has a parent. *)
Theorem docked_floats_only_on_visibility_loss s :
  reachable s → isFloating s = false →
  (∀ ev, isFloating (step s ev) = true → ∃ entries, ev = Intersect entries) ∧
  (∀ e, isFloating (handleIntersectionEntry s e) = true ↔
        isIntersecting e = false ∧
        ∃ c p, recentlyPlayedVideo s = Some (target e) ∧
               floatingContainer s = Some c ∧
               enabled (currentSettings s) = true ∧ isManuallyHidden s = false ∧
               parentOf (dom s) (target e) = Some p).
Proof.
  intros Hr Hf. split.
  - intros ev Hev.
    assert ((∃ entries, ev = Intersect entries) ∨ ∀ entries, ev ≠ Intersect entries)
      as [?|Hn] by (destruct ev; eauto); [done|].
    rewrite (docked_step s ev Hf Hn) in Hev. discriminate.
  - intros e. apply entry_floats; [by apply reachable_Inv|done].
Qed.

(** On the example page with the video of block [u1] tracked: the play
    event of another video does not float anything, the loss of sight of the
    tracked video does. *)
Lemma docked_floats_only_on_visibility_loss_witness :
  (reachable exampleTracked ∧ isFloating exampleTracked = false) ∧
  isFloating (handleIntersectionEntry exampleTracked (mkEntry 2%nat false)) = true.
Proof.
  assert (isFloating exampleTracked = false) as Hf by (vm_compute; reflexivity).
  split; [split; [apply exampleTracked_reachable|exact Hf]|].
  destruct (docked_floats_only_on_visibility_loss exampleTracked
              exampleTracked_reachable Hf) as [_ H].
  apply H. split; [reflexivity|]. exists 6%nat, 1%nat.
  split_and!; vm_compute; reflexivity.
Defined.

(** X3. When [updateFloatingPlayerSettings] disables the feature while a
    video floats, the video is returned to its original parent, immediately
    before its original next sibling, the placeholder is detached, the
    container is hidden and is not resized, and the engine stays docked for
    as long as no later call of [initFloatingPlayer] or
    [updateFloatingPlayerSettings] changes the settings. *)
Theorem disable_returns_floating_video s vs c settings :
  reachable s → videoState s = Some vs → floatingContainer s = Some c →
  enabled settings = false →
  let s' := updateFloatingPlayerSettings settings s in
  currentSettings s' = settings ∧ isFloating s' = false ∧ getFloatingVideo s' = None ∧
  parentOf (dom s') (VideoState.video vs) = Some (VideoState.originalParent vs) ∧
  nextSiblingOf (dom s') (VideoState.video vs) = VideoState.originalNextSibling vs ∧
  parentOf (dom s') (VideoState.placeholder vs) = None ∧
  Style.display (styleOf (dom s') c) = "none" ∧
  Style.width (styleOf (dom s') c) = Style.width (styleOf (dom s) c) ∧
  Style.height (styleOf (dom s') c) = Style.height (styleOf (dom s) c) ∧
  (∀ evs,
     Forall (λ ev, (∀ st, ev ≠ Init st) ∧ (∀ st, ev ≠ UpdateSettings st)) evs →
     isFloating (run s' evs) = false).
Proof.
  intros Hr Hvs Hc He s'. pose proof (reachable_Inv s Hr) as HI.
  set (s0 := set_currentSettings settings s).
  assert (Inv s0) as HI0 by (by apply (Inv_ext s)).
  destruct (Inv_floating s0 vs HI0 Hvs)
    as (c' & l1 & l2 & Hc' & Hf & Hcl & Hvp & Hvid & Hpc & Hph & Hpp & Hpv & Hphc
        & Hl & Hh & Hp1 & Hp2 & Hv1 & Hv2 & Hnd).
  assert (c' = c) as -> by (unfold s0 in Hc'; cbn in Hc'; congruence).
  pose proof (inv_wf s0 HI0) as Hwf. pose proof Hwf as [W1 W2].
  assert (VideoState.video vs < length (dom s0))%nat as Hvl
    by (by apply parentOf_lt in Hvp).
  assert (VideoState.originalParent vs < length (dom s0))%nat as Hpl.
  { apply W1 in Hpp. by apply childrenOf_lt in Hpp. }
  assert (c ≠ VideoState.video vs) as Hcv.
  { intros ->. by destruct (inv_container s0 HI0 _ Hc') as (_ & Hnv & _). }
  assert (styleOf (hideDom c vs (dom s0)) c
          = Style.set_bottom (CssPx 20)
              (Style.set_right (CssPx 20)
                 (Style.set_top CssUnset
                    (Style.set_left CssUnset
                       (Style.set_display "none" (styleOf (dom s0) c))))))
    as Hst by (by apply hideDom_container_style).
  assert (s' = set_isFloating false
                 (set_videoState None (set_dom (hideDom c vs (dom s0)) s0))) as Hs'.
  { unfold s', updateFloatingPlayerSettings. fold s0. rewrite Hc', He. cbn [negb].
    rewrite (hide_unfold s0 c vs) by done.
    cbn [floatingContainer set_isFloating set_videoState set_dom dom]. rewrite Hc'.
    rewrite Hst. by rewrite decide_False by (cbn; by intros []). }
  assert (dom s' = hideDom c vs (dom s0)) as Hd by (by rewrite Hs').
  assert (childrenOf (dom s') (VideoState.originalParent vs)
          = l1 ++ VideoState.video vs :: l2) as Hch.
  { rewrite Hd. by apply (hide_slot s0 vs c). }
  assert (parentOf (dom s') (VideoState.video vs)
          = Some (VideoState.originalParent vs)) as Hpar.
  { rewrite Hd, hideDom_parentOf by done.
    by rewrite decide_False, decide_True by done. }
  assert (isFloating s' = false) as Hf' by (by rewrite Hs').
  assert (currentSettings s' = settings) as Hcs by (by rewrite Hs').
  split_and!; try done.
  - unfold getFloatingVideo. by rewrite Hf', Hs'.
  - unfold nextSiblingOf. rewrite Hpar. simpl. rewrite Hch, <- Hh. by apply after_app.
  - rewrite Hd, hideDom_parentOf by done. by rewrite decide_True.
  - by rewrite Hd, Hst.
  - by rewrite Hd, Hst.
  - by rewrite Hd, Hst.
  - intros evs Hall. apply disabled_run; [by rewrite Hcs|done|done].
Qed.

(** On the example page, while the video of block [u1] floats. *)
Lemma disable_returns_floating_video_witness :
  let s' := updateFloatingPlayerSettings (mkSettings false large) exampleFloating in
  (reachable exampleFloating ∧
   videoState exampleFloating = Some (VideoState.mk 2 1 (Some 3%nat) 9) ∧
   floatingContainer exampleFloating = Some 6%nat) ∧
  parentOf (dom s') 2%nat = Some 1%nat ∧ nextSiblingOf (dom s') 2%nat = Some 3%nat ∧
  isFloating (run s' [Play 2%nat; Intersect [mkEntry 2%nat false]]) = false.
Proof.
  intros s'.
  assert (videoState exampleFloating = Some (VideoState.mk 2 1 (Some 3%nat) 9)) as Hvs
    by (vm_compute; reflexivity).
  assert (floatingContainer exampleFloating = Some 6%nat) as Hc
    by (vm_compute; reflexivity).
  split; [split_and!; [apply exampleFloating_reachable|exact Hvs|exact Hc]|].
  pose proof (disable_returns_floating_video exampleFloating _ 6%nat
                (mkSettings false large) exampleFloating_reachable Hvs Hc eq_refl) as H.
  cbv zeta in H. destruct H as (_ & _ & _ & Hp & Hn & _ & _ & _ & _ & Hrun).
  split_and!; [exact Hp|exact Hn|]. apply Hrun.
  repeat constructor; intros st; discriminate.
Defined.

(** X4. At every state the engine can reach, the floating container is an
    element of the page whose inline [display] is [block] while a video
    floats and [none] while none does. *)
Theorem container_shown_iff_floating s c :
  reachable s → floatingContainer s = Some c →
  (c < length (dom s))%nat ∧
  (isFloating s = true → Style.display (styleOf (dom s) c) = "block") ∧
  (isFloating s = false → Style.display (styleOf (dom s) c) = "none") ∧
  (Style.display (styleOf (dom s) c) = "block" ↔ getFloatingVideo s ≠ None).
Proof.
  intros Hr Hc. pose proof (reachable_Inv s Hr) as HI.
  destruct (reachable_shown s Hr c Hc) as [Hlt Hd]. split_and!; [done|..].
  - intros Hf. by rewrite Hf in Hd.
  - intros Hf. by rewrite Hf in Hd.
  - unfold getFloatingVideo. rewrite Hd. destruct (isFloating s) eqn:Hf.
    + destruct (videoState s) eqn:Hvs; [done|].
      destruct (Inv_docked s HI Hvs) as [? _]. congruence.
    + split; [discriminate|]. by destruct (videoState s).
Qed.

(** On the example page: hidden while the video is docked, shown once it
    floats. *)
Lemma container_shown_iff_floating_witness :
  (reachable exampleFloating ∧ floatingContainer exampleFloating = Some 6%nat) ∧
  Style.display (styleOf (dom exampleFloating) 6%nat) = "block".
Proof.
  assert (floatingContainer exampleFloating = Some 6%nat) as Hc
    by (vm_compute; reflexivity).
  split; [split; [apply exampleFloating_reachable|exact Hc]|].
  destruct (container_shown_iff_floating exampleFloating 6%nat
              exampleFloating_reachable Hc) as (_ & H & _).
  apply H. vm_compute. reflexivity.
Defined.

(** X5. When [updateFloatingPlayerSettings] is called with the feature
    enabled while a video floats, the container takes the width and height of
    the new size and stays shown; the engine stays floating with the same
    FloatingState, no node changes its parent or its children, and no node
    but the container is written. *)
Theorem resize_in_place s vs c settings :
  reachable s → videoState s = Some vs → floatingContainer s = Some c →
  enabled settings = true →
  let s' := updateFloatingPlayerSettings settings s in
  let sz := SIZE_MAP (size settings) in
  Style.width (styleOf (dom s') c) = CssPx (Box.width sz) ∧
  Style.height (styleOf (dom s') c) = CssPx (Box.height sz) ∧
  Style.display (styleOf (dom s') c) = "block" ∧
  currentSettings s' = settings ∧ isFloating s' = true ∧ videoState s' = Some vs ∧
  (∀ n, parentOf (dom s') n = parentOf (dom s) n ∧
        childrenOf (dom s') n = childrenOf (dom s) n) ∧
  (∀ n, n ≠ c → dom s' !! n = dom s !! n).
Proof.
  intros Hr Hvs Hc He s' sz. pose proof (reachable_Inv s Hr) as HI.
  destruct (Inv_floating s vs HI Hvs) as (c' & _ & _ & Hc' & Hf & Hcl & _).
  assert (c' = c) as -> by congruence.
  destruct (reachable_shown s Hr c Hc) as [_ Hd]. rewrite Hf in Hd.
  set (s0 := set_currentSettings settings s).
  assert (s' = with_dom (update_style c (Style.set_height (CssPx (Box.height sz))))
                 (with_dom (update_style c (Style.set_width (CssPx (Box.width sz)))) s0))
    as Hs'.
  { unfold s', updateFloatingPlayerSettings. fold s0.
    change (floatingContainer s0) with (floatingContainer s). rewrite Hc, He.
    cbn [negb]. change (floatingContainer s0) with (floatingContainer s). rewrite Hc.
    change (dom s0) with (dom s). rewrite Hd.
    by rewrite decide_True by done. }
  assert (dom s' = update_style c (Style.set_height (CssPx (Box.height sz)))
                     (update_style c (Style.set_width (CssPx (Box.width sz))) (dom s)))
    as Hdom by (by rewrite Hs').
  split_and!.
  - rewrite Hdom.
    by rewrite !styleOf_update_style_eq by (rewrite ?length_update_style; lia).
  - rewrite Hdom.
    by rewrite !styleOf_update_style_eq by (rewrite ?length_update_style; lia).
  - rewrite Hdom.
    rewrite !styleOf_update_style_eq by (rewrite ?length_update_style; lia).
    exact Hd.
  - by rewrite Hs'.
  - by rewrite Hs'.
  - by rewrite Hs'.
  - intros n. rewrite Hdom. by dom_views.
  - intros n Hn. rewrite Hdom. unfold update_style.
    rewrite !lookup_update. by rewrite !decide_False by done.
Qed.

(** On the example page, while the video of block [u1] floats in the medium
    player: the setting is changed to the largest size. *)
Lemma resize_in_place_witness :
  let s' := updateFloatingPlayerSettings (mkSettings true xxxlarge) exampleFloating in
  (reachable exampleFloating ∧
   videoState exampleFloating = Some (VideoState.mk 2 1 (Some 3%nat) 9) ∧
   floatingContainer exampleFloating = Some 6%nat) ∧
  Style.width (styleOf (dom exampleFloating) 6%nat) = CssPx 320 ∧
  Style.width (styleOf (dom s') 6%nat) = CssPx 800 ∧
  Style.height (styleOf (dom s') 6%nat) = CssPx 450.
Proof.
  intros s'.
  assert (videoState exampleFloating = Some (VideoState.mk 2 1 (Some 3%nat) 9)) as Hvs
    by (vm_compute; reflexivity).
  assert (floatingContainer exampleFloating = Some 6%nat) as Hc
    by (vm_compute; reflexivity).
  split; [split_and!; [apply exampleFloating_reachable|exact Hvs|exact Hc]|].
  pose proof (resize_in_place exampleFloating _ 6%nat (mkSettings true xxxlarge)
                exampleFloating_reachable Hvs Hc eq_refl) as H.
  cbv zeta in H. destruct H as (Hw & Hh & _).
  split_and!; [vm_compute; reflexivity|exact Hw|exact Hh].
Defined.

Global Instance Keeps_currentTime_parentNode v : Keeps currentTime (set_parentNode v).
Proof. done. Qed.
Global Instance Keeps_currentTime_childNodes h :
  Keeps currentTime (fun x => set_childNodes (h (childNodes x)) x).
Proof. done. Qed.
Global Instance Keeps_currentTime_className v : Keeps currentTime (set_className v).
Proof. done. Qed.
Global Instance Keeps_currentTime_title v : Keeps currentTime (set_title v).
Proof. done. Qed.
Global Instance Keeps_currentTime_innerHTML v : Keeps currentTime (set_innerHTML v).
Proof. done. Qed.
Global Instance Keeps_currentTime_style h :
  Keeps currentTime (fun x => set_style (h (style x)) x).
Proof. done. Qed.
Global Instance Keeps_currentTime_layout w h l t : Keeps currentTime (set_layout w h l t).
Proof. done. Qed.
Global Instance Keeps_currentTime_originalStyles v :
  Keeps currentTime (set_originalStyles v).
Proof. done. Qed.
Global Instance Keeps_currentTime_listener ev h : Keeps currentTime (add_listener ev h).
Proof. done. Qed.
Global Instance Keeps_currentTime_paused v : Keeps currentTime (set_paused v).
Proof. done. Qed.

Section Playback.
Context {T : Type} (g : Node → T).
Context `{Kpar : !∀ v, Keeps g (set_parentNode v)}.
Context `{Kch : !∀ h, Keeps g (fun x => set_childNodes (h (childNodes x)) x)}.
Context `{Kcl : !∀ v, Keeps g (set_className v)}.
Context `{Kti : !∀ v, Keeps g (set_title v)}.
Context `{Kin : !∀ v, Keeps g (set_innerHTML v)}.
Context `{Kst : !∀ h, Keeps g (fun x => set_style (h (style x)) x)}.
Context `{Kos : !∀ v, Keeps g (set_originalStyles v)}.
Context `{Kli : !∀ ev h, Keeps g (add_listener ev h)}.
Context `{Kla : !∀ w h l t, Keeps g (set_layout w h l t)}.

Lemma keeps_run_view evs s :
  Forall (λ ev, (∀ n b tm, ev ≠ Media n b tm) ∧
                (Keeps g (set_paused true) ∨ ev ≠ ReturnFloating true)) evs →
  keeps_view g (dom s) (dom (run s evs)).
Proof.
  unfold run. revert s. induction evs as [|ev evs IH]; intros s Hall;
    [apply keeps_refl|].
  apply Forall_cons in Hall as [[Hm Hr] Hall]. simpl.
  eapply keeps_trans; [|by apply IH]. by apply keeps_step_view.
Qed.
End Playback.

(** X6. The engine never seeks a media element and never destroys a node:
    over any run of events in which the browser itself does not change the
    playback state, every node is still in the store with the [currentTime]
    it had; its [paused] flag is the same too, unless the run holds a
    [returnFloatingVideo] that pauses. *)
Theorem engine_keeps_playback s evs m x :
  Forall (λ ev, ∀ n b tm, ev ≠ Media n b tm) evs →
  dom s !! m = Some x →
  ∃ x', dom (run s evs) !! m = Some x' ∧ currentTime x' = currentTime x ∧
        (Forall (λ ev, ev ≠ ReturnFloating true) evs → paused x' = paused x).
Proof.
  intros Hall Hx.
  assert (keeps_view currentTime (dom s) (dom (run s evs))) as Hk.
  { apply keeps_run_view; try apply _.
    eapply Forall_impl; [exact Hall|]. intros ev Hev. split; [done|]. left. apply _. }
  destruct (Hk m x Hx) as (x' & Hx' & Ht). exists x'. split_and!; [done..|].
  intros Hnr.
  assert (keeps_view media (dom s) (dom (run s evs))) as Hk2.
  { apply keeps_run_view; try apply _.
    apply Forall_forall. intros ev Hin.
    rewrite Forall_forall in Hall. rewrite Forall_forall in Hnr.
    split; [by apply Hall|]. right. by apply Hnr. }
  destruct (Hk2 m x Hx) as (x2 & Hx2 & Hm). unfold media in Hm. congruence.
Qed.

(** On the outline, with the video of block [u4] (node 9) at 125.7 seconds
    and playing: it plays, scrolls out of view and floats, the player is
    closed, and the settings change. *)
Lemma engine_keeps_playback_witness :
  let evs := [Play 9%nat; Intersect [mkEntry 9%nat false]; Click 14%nat;
              UpdateSettings (mkSettings true small); Destroy] in
  isFloating (run outlineWatching [Play 9%nat; Intersect [mkEntry 9%nat false]]) = true ∧
  ∃ x', dom (run outlineWatching evs) !! 9%nat = Some x' ∧
        currentTime x' = mkNumber 125 (Decimal.D7 Decimal.Nil) ∧ paused x' = false.
Proof.
  intros evs. split; [vm_compute; reflexivity|].
  assert (∃ x, dom outlineWatching !! 9%nat = Some x ∧
               currentTime x = mkNumber 125 (Decimal.D7 Decimal.Nil) ∧ paused x = false)
    as (x & Hx & Ht & Hp) by (eexists; split_and!; vm_compute; reflexivity).
  destruct (engine_keeps_playback outlineWatching evs 9%nat x) as (x' & Hx' & Ht' & Hp').
  - repeat constructor; intros; discriminate.
  - exact Hx.
  - exists x'. split_and!; [exact Hx'|congruence|].
    rewrite Hp'; [exact Hp|]. repeat constructor; discriminate.
Defined.

(** X7. The handlers of a drag are on the document exactly while a drag is
    active, each at most once; once the mouse button is released no drag is
    active and both are gone. *)
Theorem drag_handlers_only_during_drag s :
  reachable s →
  NoDup (docListeners s) ∧
  (OnMouseMove ∈ docListeners s ↔ isDragging s = true) ∧
  (OnMouseUp ∈ docListeners s ↔ isDragging s = true) ∧
  isDragging (step s MouseUp) = false ∧
  (OnMouseMove ∉ docListeners (step s MouseUp)) ∧
  (OnMouseUp ∉ docListeners (step s MouseUp)).
Proof.
  intros Hr. destruct (reachable_drag_ok s Hr) as (Hn & Hd & Hm & Hu).
  destruct (reachable_drag_ok _ (reachable_step s MouseUp Hr)) as (_ & _ & Hm' & Hu').
  assert (isDragging (step s MouseUp) = false) as Hf.
  { unfold step. case_decide as E.
    - unfold stopDrag. change (dragDoc (set_isDragging false s)) with (dragDoc s).
      by destruct (dragDoc s).
    - destruct (isDragging s); [|done]. exfalso. by apply E, Hu. }
  split_and!; try done.
  - rewrite Hm', Hf. discriminate.
  - rewrite Hu', Hf. discriminate.
Qed.

(** On the example page with a drag started on the handle of the floating
    player. *)
Lemma drag_handlers_only_during_drag_witness :
  reachable exampleNarrow ∧ isDragging exampleNarrow = true ∧
  OnMouseMove ∈ docListeners exampleNarrow ∧
  (OnMouseMove ∉ docListeners (step exampleNarrow MouseUp)).
Proof.
  assert (reachable exampleNarrow) as Hr.
  { exists examplePage, 0%nat, 768, 1024,
      [Init (mkSettings true xxxlarge); Play 2%nat; Intersect [mkEntry 2%nat false];
       MouseDown 7%nat (mkMouseEvent 0 0)].
    split; [apply examplePage_ok|vm_compute; reflexivity]. }
  destruct (drag_handlers_only_during_drag exampleNarrow Hr)
    as (_ & Hm & _ & _ & Hm' & _).
  assert (isDragging exampleNarrow = true) as Hd by (vm_compute; reflexivity).
  split_and!; [exact Hr|exact Hd|by apply Hm|exact Hm'].
Defined.

(** X8. A drag moves the container by the displacement of the pointer: after
    [startDrag] at pointer position [e0] and a move to [e], the left and top
    of the container are those of its bounding rectangle at the start plus
    the displacement, clamped to the margins. *)
Theorem drag_follows_pointer s c x e0 e :
  floatingContainer s = Some c → dom s !! c = Some x →
  let s2 := onDrag e (startDrag e0 s) in
  let sz := SIZE_MAP (size (currentSettings s)) in
  let toX := rectLeft x + (clientX e - clientX e0) in
  let toY := rectTop x + (clientY e - clientY e0) in
  Style.left (styleOf (dom s2) c)
  = CssPx (Z.max 10 (Z.min toX (innerWidth s - Box.width sz - 10))) ∧
  Style.top (styleOf (dom s2) c)
  = CssPx (Z.max 10 (Z.min toY (innerHeight s - Box.height sz - 10))) ∧
  ((10 ≤ toX ≤ innerWidth s - Box.width sz - 10)%Z →
   Style.left (styleOf (dom s2) c) = CssPx toX) ∧
  ((10 ≤ toY ≤ innerHeight s - Box.height sz - 10)%Z →
   Style.top (styleOf (dom s2) c) = CssPx toY).
Proof.
  intros Hc Hx s2 sz toX toY.
  set (s1 := startDrag e0 s).
  assert (floatingContainer s1 = Some c ∧ isDragging s1 = true ∧ dom s1 = dom s ∧
          currentSettings s1 = currentSettings s ∧ innerWidth s1 = innerWidth s ∧
          innerHeight s1 = innerHeight s ∧
          dragOffset s1 = Position.mk (clientX e0 - rectLeft x) (clientY e0 - rectTop x))
    as (Hc1 & Hd1 & Hdom1 & Hcs1 & Hw1 & Hh1 & Hoff).
  { unfold s1, startDrag. rewrite Hc.
    cbn [dom set_dragDoc set_isDragging]. rewrite Hx. cbn [from_option].
    unfold addEventListener. repeat case_decide; done. }
  pose proof (onDrag_unfold e s1 c Hc1 Hd1) as Hs. cbv zeta in Hs.
  change (onDrag e s1) with s2 in Hs.
  rewrite Hcs1, Hw1, Hh1, Hoff, Hdom1 in Hs. cbn [Position.x Position.y] in Hs.
  fold sz in Hs.
  assert (c < length (dom s))%nat as Hlt by (by apply lookup_lt_Some in Hx).
  assert (clientX e - (clientX e0 - rectLeft x) = toX) as Ex by (unfold toX; lia).
  assert (clientY e - (clientY e0 - rectTop x) = toY) as Ey by (unfold toY; lia).
  rewrite Ex, Ey in Hs.
  assert (styleOf (dom s2) c
          = Style.set_top (CssPx (Z.max 10 (Z.min toY (innerHeight s - Box.height sz - 10))))
              (Style.set_left (CssPx (Z.max 10 (Z.min toX (innerWidth s - Box.width sz - 10))))
                 (Style.set_bottom CssAuto (Style.set_right CssAuto (styleOf (dom s) c)))))
    as Hst.
  { rewrite Hs. cbn [dom set_dom].
    rewrite !styleOf_update_style_eq; [done|unfold update_style; by rewrite ?length_update..]. }
  rewrite Hst. cbn [Style.left Style.top Style.set_top Style.set_left].
  split_and!; [done|done|..]; intros ?; f_equal; lia.
Qed.

(** On the example page in a viewport of 1280 by 720 pixels: the floating
    player, whose rectangle starts at (0, 0), is grabbed at (5, 5) and the
    pointer moves to (105, 205). *)
Lemma drag_follows_pointer_witness :
  let s2 := onDrag (mkMouseEvent 105 205) (startDrag (mkMouseEvent 5 5) exampleFloating) in
  floatingContainer exampleFloating = Some 6%nat ∧
  Style.left (styleOf (dom s2) 6%nat) = CssPx 100 ∧
  Style.top (styleOf (dom s2) 6%nat) = CssPx 200.
Proof.
  intros s2.
  assert (floatingContainer exampleFloating = Some 6%nat) as Hc
    by (vm_compute; reflexivity).
  assert (∃ x, dom exampleFloating !! 6%nat = Some x ∧ rectLeft x = 0 ∧ rectTop x = 0)
    as (x & Hx & Hl & Ht) by (eexists; split_and!; vm_compute; reflexivity).
  pose proof (drag_follows_pointer exampleFloating 6%nat x (mkMouseEvent 5 5)
                (mkMouseEvent 105 205) Hc Hx) as H.
  cbv zeta in H. destruct H as (_ & _ & HX & HY).
  rewrite Hl in HX. rewrite Ht in HY.
  split_and!; [exact Hc|apply HX; vm_compute; split; discriminate
              |apply HY; vm_compute; split; discriminate].
Defined.

Section Teardown.
Implicit Types (s : State) (d : list Node) (n m p q c v ph : nat).

Lemma destroy_unfold s :
  destroyFloatingPlayer s
  = let s1 := hideFloatingPlayer s in
    set_videoState None
      (set_isFloating false
         (set_isManuallyHidden false
            (set_recentlyPlayedVideo None
               (set_floatingContainer None
                  (set_observer None
                     (removeEventListener OnPlay
                        (set_dom (match floatingContainer s with
                                  | Some c => detach c (dom s1)
                                  | None => dom s1
                                  end) s1))))))).
Proof.
  unfold destroyFloatingPlayer. cbv zeta.
  change (floatingContainer
            (set_observer None (removeEventListener OnPlay (hideFloatingPlayer s))))
    with (floatingContainer (hideFloatingPlayer s)).
  pose proof (floatingContainer_hide s) as E.
  remember (hideFloatingPlayer s) as s1 eqn:Hs1. clear Hs1.
  rewrite <- E. destruct s1 as [? fc ? ? ? ? ? ? ? ? ? ? ? ? ?].
  cbn in E |- *. by destruct fc.
Qed.

Lemma dragOffset_hide s : dragOffset (hideFloatingPlayer s) = dragOffset s.
Proof. unfold hideFloatingPlayer. by repeat case_match. Qed.
End Teardown.

(** X9. [destroyFloatingPlayer] clears six of the module variables: the
    container, the observer, the tracked video, the manually-hidden flag, the
    floating flag and the FloatingState. It leaves the other four as they
    are: the settings and the variables of the drag gesture ([isDragging],
    [dragDoc], [dragOffset]); of the document listeners it removes the play
    listener only, so the handlers of a drag in progress stay. A video that
    floated is back under its original parent, in the slot its placeholder
    held; the container is no longer in the tree, and no placeholder is
    attached. *)
Theorem teardown_resets_engine s :
  reachable s →
  let s' := destroyFloatingPlayer s in
  (floatingContainer s' = None ∧ observer s' = None ∧
   recentlyPlayedVideo s' = None ∧ isManuallyHidden s' = false ∧
   isFloating s' = false ∧ videoState s' = None) ∧
  (currentSettings s' = currentSettings s ∧ isDragging s' = isDragging s ∧
   dragDoc s' = dragDoc s ∧ dragOffset s' = dragOffset s) ∧
  docListeners s' = filter (λ l, l ≠ OnPlay) (docListeners s) ∧
  (∀ vs c l1 l2, videoState s = Some vs → floatingContainer s = Some c →
     childrenOf (dom s) (VideoState.originalParent vs)
       = l1 ++ VideoState.placeholder vs :: l2 →
     parentOf (dom s') (VideoState.video vs) = Some (VideoState.originalParent vs) ∧
     childrenOf (dom s') (VideoState.originalParent vs)
       = filter (λ m, m ≠ c) (l1 ++ VideoState.video vs :: l2)) ∧
  (∀ c, floatingContainer s = Some c →
     parentOf (dom s') c = None ∧ ∀ q, c ∉ childrenOf (dom s') q) ∧
  (∀ n, isPlaceholder (dom s') n → parentOf (dom s') n = None).
Proof.
  intros Hr s'. pose proof (reachable_Inv s Hr) as HI.
  pose proof (Inv_hide s HI) as HI1.
  pose proof (Inv_destroyFloatingPlayer s HI) as HI'.
  pose proof (destroy_unfold s) as Hs. cbv zeta in Hs. fold s' in Hs.
  pose proof (inv_wf _ HI1) as Hwf1.
  assert (dom s' = match floatingContainer s with
                   | Some c => detach c (dom (hideFloatingPlayer s))
                   | None => dom (hideFloatingPlayer s)
                   end) as Hd by (by rewrite Hs).
  assert (videoState s' = None) as Hvs' by (by rewrite Hs).
  refine (conj _ (conj _ (conj _ (conj _ (conj _ _))))).
  - rewrite Hs. by split_and!.
  - rewrite Hs. unfold removeEventListener.
    cbn [currentSettings isDragging dragDoc dragOffset
         set_videoState set_isFloating set_isManuallyHidden
         set_recentlyPlayedVideo set_floatingContainer set_observer set_docListeners
         set_dom].
    destruct (drag_same_hide s) as (_ & -> & ->).
    by rewrite currentSettings_hide, dragOffset_hide.
  - rewrite Hs. unfold removeEventListener.
    cbn [docListeners set_videoState set_isFloating set_isManuallyHidden
         set_recentlyPlayedVideo set_floatingContainer set_observer set_docListeners
         set_dom].
    by destruct (drag_same_hide s) as (-> & _).
  - intros vs c l1 l2 Hvs Hc Hl. rewrite Hd, Hc.
    destruct (Inv_floating s vs HI Hvs)
      as (c' & k1 & k2 & Hc' & Hf & Hcl & Hvp & Hvid & Hpc & Hph & Hpp & Hpv & Hphc & _).
    assert (c' = c) as -> by congruence.
    pose proof (inv_wf s HI) as Hwf. pose proof Hwf as [W1 W2].
    assert (VideoState.video vs < length (dom s))%nat as Hvl
      by (by apply parentOf_lt in Hvp).
    assert (VideoState.originalParent vs < length (dom s))%nat as Hpl.
    { apply W1 in Hpp. by apply childrenOf_lt in Hpp. }
    assert (c ≠ VideoState.video vs) as Hcv.
    { intros ->. by destruct (inv_container s HI _ Hc) as (_ & Hnv & _). }
    rewrite (hide_unfold s c vs) by done.
    cbn [dom set_isFloating set_videoState set_dom].
    assert (wf_dom (hideDom c vs (dom s))) as Hwfh by (by apply hideDom_wf).
    split.
    + rewrite parentOf_detach. rewrite decide_False by done.
      rewrite hideDom_parentOf by done.
      by rewrite decide_False, decide_True by done.
    + rewrite childrenOf_detach_wf by done. f_equal.
      by apply (hide_slot s vs c).
  - intros c Hc. rewrite Hd, Hc. split.
    + rewrite parentOf_detach. by rewrite decide_True.
    + intros q. rewrite childrenOf_detach_wf by done.
      rewrite list_elem_of_filter. naive_solver.
  - intros n Hn. by apply (Inv_docked s' HI' Hvs').
Qed.

(** On the example page, while the video of block [u1] floats. *)
Lemma teardown_resets_engine_witness :
  let s' := destroyFloatingPlayer exampleFloating in
  reachable exampleFloating ∧
  parentOf (dom s') 2%nat = Some 1%nat ∧ childrenOf (dom s') 1%nat = [2; 3]%nat ∧
  parentOf (dom s') 6%nat = None.
Proof.
  intros s'. pose proof exampleFloating_reachable as Hr.
  pose proof (teardown_resets_engine exampleFloating Hr) as H. cbv zeta in H.
  destruct H as (_ & _ & _ & Hv & Hc & _).
  destruct (Hv (VideoState.mk 2 1 (Some 3%nat) 9) 6%nat [] [3%nat]) as [Hp Hch];
    [vm_compute; reflexivity..|].
  destruct (Hc 6%nat) as [Hpc _]; [vm_compute; reflexivity|].
  split_and!; [exact Hr|exact Hp|exact Hch|exact Hpc].
Defined.

Section Stale.
Implicit Types (s : State) (d : list Node) (n m p q c v ph : nat).

Lemma entry_noop s e :
  isIntersecting e = negb (isFloating s) → handleIntersectionEntry s e = s.
Proof.
  intros Hi. unfold handleIntersectionEntry. rewrite Hi.
  destruct (if isFloating s then _ else _); [|done].
  by destruct (isFloating s).
Qed.

Lemma entry_cases s e :
  Inv s →
  handleIntersectionEntry s e = s ∨
  isIntersecting e = negb (isFloating (handleIntersectionEntry s e)).
Proof.
  intros HI. unfold handleIntersectionEntry.
  destruct (if isFloating s then _ else _); [|by left].
  destruct (isIntersecting e) eqn:Hi, (isFloating s) eqn:Hf; cbn [negb andb].
  - right. destruct (hide_docked s HI) as [_ Hd].
    change (recentlyPlayedVideo (set_isManuallyHidden false (hideFloatingPlayer s)))
      with (recentlyPlayedVideo (hideFloatingPlayer s)).
    destruct (recentlyPlayedVideo (hideFloatingPlayer s)).
    + match goal with |- _ = negb (isFloating (reobserve ?t ?x)) =>
        destruct (fields_reobserve t x) as (-> & _) end.
      cbn [isFloating set_isManuallyHidden]. by rewrite Hd.
    + cbn [isFloating set_isManuallyHidden]. by rewrite Hd.
  - by left.
  - by left.
  - destruct (show_result s HI Hf) as [Hno|(c & v & p & Hv & Hc & He & Hh & Hp & Hsh)].
    + left. by rewrite Hno, (Inv_flag_None s HI Hf).
    + right. rewrite Hsh. cbn [videoState set_isFloating set_videoState].
      match goal with |- _ = negb (isFloating (reobserve ?t ?x)) =>
        by destruct (fields_reobserve t x) as (-> & _) end.
Qed.

Lemma entry_again s e :
  Inv s →
  handleIntersectionEntry (handleIntersectionEntry s e) e
  = handleIntersectionEntry s e.
Proof.
  intros HI. destruct (entry_cases s e HI) as [Hr|Hr].
  - by rewrite !Hr.
  - by apply entry_noop.
Qed.
End Stale.

(** X10. Delivering an intersection entry a second time changes nothing: the
    first delivery either leaves the engine as it is or takes it to the state
    in which the entry no longer applies. In particular an entry whose target
    is neither the tracked video of a docked engine nor the placeholder of a
    floating one is ignored. *)
Theorem intersection_entry_idempotent s e :
  reachable s →
  handleIntersectionEntry (handleIntersectionEntry s e) e
  = handleIntersectionEntry s e ∧
  (Some (target e) ≠ (if isFloating s then VideoState.placeholder <$> videoState s
                      else recentlyPlayedVideo s) →
   handleIntersectionEntry s e = s).
Proof.
  intros Hr. split; [by apply entry_again, reachable_Inv|].
  intros Hne. unfold handleIntersectionEntry.
  destruct (isFloating s); by rewrite bool_decide_eq_false_2.
Qed.

(** On the example page with the video of block [u1] tracked: the entry
    that floats it, delivered twice. *)
Lemma intersection_entry_idempotent_witness :
  reachable exampleTracked ∧
  isFloating (handleIntersectionEntry exampleTracked (mkEntry 2%nat false)) = true ∧
  handleIntersectionEntry
    (handleIntersectionEntry exampleTracked (mkEntry 2%nat false)) (mkEntry 2%nat false)
  = handleIntersectionEntry exampleTracked (mkEntry 2%nat false).
Proof.
  split; [apply exampleTracked_reachable|]. split; [vm_compute; reflexivity|].
  destruct (intersection_entry_idempotent exampleTracked (mkEntry 2%nat false)
              exampleTracked_reachable) as [H _].
  exact H.
Defined.

Section InitScan.
Implicit Types (s : State) (d : list Node) (n m p q c v ph : nat).

Lemma scan_result (f : State → nat → State) (vs : list nat) s :
  (∀ s v, f s v = if negb (from_option paused true (dom s !! v))
                  then set_observer ((fun ts => ts ++ [v]) <$> observer s)
                         (set_recentlyPlayedVideo (Some v) s)
                  else s) →
  observer (fold_left f vs s)
  = (λ ts, ts ++ filter (λ v, from_option paused true (dom s !! v) = false) vs)
      <$> observer s ∧
  recentlyPlayedVideo (fold_left f vs s)
  = match last (filter (λ v, from_option paused true (dom s !! v) = false) vs) with
    | Some v => Some v
    | None => recentlyPlayedVideo s
    end.
Proof.
  intros Hf. revert s. induction vs as [|v vs IH]; intros s.
  - simpl. split; [|done]. destruct (observer s); simpl; [|done].
    by rewrite app_nil_r.
  - cbn [fold_left]. rewrite Hf.
    destruct (from_option paused true (dom s !! v)) eqn:Hp; cbn [negb].
    + rewrite filter_cons_False by (rewrite Hp; discriminate). apply IH.
    + rewrite filter_cons_True by done.
      destruct (IH (set_observer ((λ ts, ts ++ [v]) <$> observer s)
                      (set_recentlyPlayedVideo (Some v) s))) as [Ho Hr].
      cbn [dom observer recentlyPlayedVideo set_observer set_recentlyPlayedVideo]
        in Ho, Hr.
      rewrite Ho, Hr. split.
      * destruct (observer s); simpl; [|done]. by rewrite <- app_assoc.
      * rewrite last_cons. by destruct (last _).
Qed.
End InitScan.

(** X11. [initFloatingPlayer] with the feature enabled leaves a fresh
    observer that watches every video of the document that is playing, in
    document order, and tracks the last of them (the tracked video is kept
    when none plays); the play listener is on the document. A container that
    exists already is kept and the DOM is not written; otherwise the
    container is a new element, followed in the store by its drag handle and
    its close button. *)
Theorem init_tracks_playing_videos settings s :
  enabled settings = true →
  let s' := initFloatingPlayer settings s in
  let playing :=
    filter (λ v, from_option paused true (dom s' !! v) = false)
      (querySelectorAll (dom s') (body s) (sel_tag "VIDEO")) in
  observer s' = Some playing ∧
  recentlyPlayedVideo s'
  = match last playing with Some v => Some v | None => recentlyPlayedVideo s end ∧
  OnPlay ∈ docListeners s' ∧ currentSettings s' = settings ∧
  (∀ c, floatingContainer s = Some c → floatingContainer s' = Some c ∧ dom s' = dom s) ∧
  (floatingContainer s = None →
   floatingContainer s' = Some (length (dom s)) ∧
   length (dom s') = (length (dom s) + 3)%nat ∧
   parentOf (dom s') (length (dom s)) = Some (body s)).
Proof.
  intros He s' playing.
  set (s0 := addEventListener OnPlay
    (set_observer (Some [])
      match floatingContainer (set_currentSettings settings s) with
      | Some _ => set_currentSettings settings s
      | None =>
          let '(c, d) := createFloatingContainer (dom (set_currentSettings settings s)) in
          with_dom (appendChild (body (set_floatingContainer (Some c)
                                         (set_dom d (set_currentSettings settings s)))) c)
            (set_floatingContainer (Some c) (set_dom d (set_currentSettings settings s)))
      end)).
  assert (s' = fold_left
                 (fun s video =>
                    if negb (from_option paused true (dom s !! video)) then
                      let s := set_recentlyPlayedVideo (Some video) s in
                      set_observer ((fun ts => ts ++ [video]) <$> observer s) s
                    else s)
                 (querySelectorAll (dom s0) (body s0) (sel_tag "VIDEO")) s0) as Hs'.
  { unfold s', initFloatingPlayer. by rewrite He. }
  assert (dom s' = dom s0) as Hd by (rewrite Hs'; apply dom_scan).
  assert (body s0 = body s) as Hb.
  { unfold s0, addEventListener. case_decide;
      cbn [body set_docListeners set_observer];
      change (floatingContainer (set_currentSettings settings s))
        with (floatingContainer s);
      (destruct (floatingContainer s); [done|]); by destruct (createFloatingContainer _). }
  assert (observer s0 = Some [] ∧ recentlyPlayedVideo s0 = recentlyPlayedVideo s ∧
          OnPlay ∈ docListeners s0 ∧ currentSettings s0 = settings) as (Ho & Hr & Hl & Hc).
  { unfold s0. split_and!.
    - unfold addEventListener. by case_decide.
    - unfold addEventListener. case_decide;
        cbn [recentlyPlayedVideo set_docListeners set_observer];
        change (floatingContainer (set_currentSettings settings s))
          with (floatingContainer s);
        (destruct (floatingContainer s); [done|]); by destruct (createFloatingContainer _).
    - apply elem_of_addEventListener. by left.
    - rewrite currentSettings_addEventListener. cbn [currentSettings set_observer].
      change (floatingContainer (set_currentSettings settings s))
        with (floatingContainer s).
      destruct (floatingContainer s); [done|]. by destruct (createFloatingContainer _). }
  destruct (scan_result
              (fun s video =>
                 if negb (from_option paused true (dom s !! video)) then
                   let s := set_recentlyPlayedVideo (Some video) s in
                   set_observer ((fun ts => ts ++ [video]) <$> observer s) s
                 else s)
              (querySelectorAll (dom s0) (body s0) (sel_tag "VIDEO")) s0)
    as [Hobs Hrec]; [done|].
  rewrite <- Hs' in Hobs, Hrec.
  unfold playing. rewrite Hd, <- Hb.
  refine (conj _ (conj _ (conj _ (conj _ (conj _ _))))).
  - by rewrite Hobs, Ho.
  - by rewrite Hrec, Hr.
  - rewrite Hs'.
    destruct (drag_same_scan (querySelectorAll (dom s0) (body s0) (sel_tag "VIDEO")) s0)
      as (-> & _). exact Hl.
  - rewrite <- Hc, Hs'. apply (fold_left_field _ currentSettings).
    intros s1 a. by destruct (negb _).
  - intros c Hfc. rewrite Hs', floatingContainer_scan.
    unfold s0. rewrite floatingContainer_addEventListener, dom_addEventListener.
    cbn [floatingContainer dom set_observer].
    change (floatingContainer (set_currentSettings settings s))
      with (floatingContainer s).
    by rewrite Hfc.
  - intros Hfc. rewrite Hb, Hs', floatingContainer_scan.
    unfold s0. rewrite floatingContainer_addEventListener, dom_addEventListener.
    cbn [floatingContainer dom set_observer].
    change (floatingContainer (set_currentSettings settings s))
      with (floatingContainer s).
    change (dom (set_currentSettings settings s)) with (dom s). rewrite Hfc.
    pose proof (createFloatingContainer_fst (dom s)) as Hfst.
    pose proof (createFloatingContainer_length (dom s)) as Hlen.
    destruct (createFloatingContainer (dom s)) as [c1 d'] eqn:Hcr.
    simpl in Hfst, Hlen. subst c1.
    cbn [floatingContainer dom set_currentSettings with_dom set_dom
         set_floatingContainer body].
    split_and!; [done| |].
    + unfold appendChild. by rewrite length_attach.
    + unfold appendChild. rewrite parentOf_attach by lia.
      by rewrite decide_True.
Qed.

(** On the outline with the videos of blocks [u2] and [u4] (nodes 5 and 9)
    playing when the plugin is initialised. *)
Lemma init_tracks_playing_videos_witness :
  let s := run (initialState exampleOutline 0%nat 1280 720)
             [Media 5%nat false (number_of_Z 3); Media 9%nat false (number_of_Z 8)] in
  let s' := initFloatingPlayer (mkSettings true medium) s in
  observer s' = Some [5; 9]%nat ∧ recentlyPlayedVideo s' = Some 9%nat.
Proof.
  intros s s'.
  pose proof (init_tracks_playing_videos (mkSettings true medium) s eq_refl) as H.
  cbv zeta in H. destruct H as (Ho & Hr & _). split.
  - etransitivity; [exact Ho|]. vm_compute. reflexivity.
  - etransitivity; [exact Hr|]. vm_compute. reflexivity.
Defined.

(** * Further properties of the locator, the slash command and the renderer *)

Section Calm.
Variable editor : nat → BlockLink → ApiReply.
Implicit Types (w : World) (s : State) (blk : Block.t).

Lemma world_frame_refl w : world_frame w w.
Proof. unfold world_frame. split_and!; try done. exists []. by rewrite app_nil_r. Qed.

Lemma world_frame_fields w w' :
  messages w' = messages w → inserted w' = inserted w → provided w' = provided w →
  models w' = models w → console w' = console w → world_frame w w'.
Proof.
  intros. unfold world_frame. split_and!; try done. exists []. by rewrite app_nil_r.
Qed.

Lemma world_frame_trans w1 w2 w3 :
  world_frame w1 w2 → world_frame w2 w3 → world_frame w1 w3.
Proof.
  intros (? & ? & ? & ? & l1 & E1) (? & ? & ? & ? & l2 & E2).
  unfold world_frame. split_and!; try congruence.
  exists (l1 ++ l2). by rewrite E2, E1, app_assoc.
Qed.

Lemma calm_ret {A} (a : A) : calm 0 (mret a : Async A).
Proof. intros w. split_and!; [apply world_frame_refl|done|simpl; lia..]. Qed.

Lemma calm_gets {A} (f : State → A) : calm 0 (gets f).
Proof. intros w. split_and!; [apply world_frame_refl|done|simpl; lia..]. Qed.

Lemma calm_console_log level msg : calm 0 (console_log level msg).
Proof.
  intros w. split_and!; [|done|simpl; lia..].
  unfold world_frame. split_and!; try done. by eexists.
Qed.

Lemma calm_getBlock ref : calm 1 (getBlock editor ref).
Proof.
  intros w. unfold getBlock.
  destruct (editor (apiCalls w) ref);
    (split_and!; [by apply world_frame_fields|done|simpl; lia..]).
Qed.

Lemma calm_mono {A} n n' (m : Async A) : (n ≤ n')%nat → calm n m → calm n' m.
Proof. intros Hn H w. destruct (H w) as (? & ? & ? & ?). split_and!; try done. lia. Qed.

Lemma calm_bind {A B} a b (m : Async A) (k : A → Async B) :
  calm a m → (∀ x, calm b (k x)) → calm (a + b) (m ≫= k).
Proof.
  intros Hm Hk w. unfold mbind, Async_bind, bind.
  destruct (Hm w) as (F1 & E1 & L1 & U1).
  destruct (m w) as [[x|e] w1]; simpl in *.
  - destruct (Hk x w1) as (F2 & E2 & L2 & U2). split_and!.
    + by eapply world_frame_trans.
    + congruence.
    + lia.
    + lia.
  - split_and!; try done. lia.
Qed.

Lemma calm_try_catch {A} a b (m : Async A) (h : string → Async A) :
  calm a m → (∀ e, calm b (h e)) → calm (a + b) (try_catch m h).
Proof.
  intros Hm Hh w. unfold try_catch.
  destruct (Hm w) as (F1 & E1 & L1 & U1).
  destruct (m w) as [[x|e] w1]; simpl in *.
  - split_and!; try done. lia.
  - destruct (Hh e w1) as (F2 & E2 & L2 & U2). split_and!.
    + by eapply world_frame_trans.
    + congruence.
    + lia.
    + lia.
Qed.

Lemma calm_relatedBlock bs link : calm 1 (relatedBlock editor bs link).
Proof.
  unfold relatedBlock. destruct link as [l|]; [|apply (calm_mono 0); [lia|apply calm_ret]].
  destruct (truthy_link l); [|apply (calm_mono 0); [lia|apply calm_ret]].
  apply (calm_bind 1 0); [apply calm_getBlock|]. intros b. apply calm_ret.
Qed.

Lemma calm_searchLinked link what : calm 1 (searchLinked editor link what).
Proof.
  unfold searchLinked. destruct link as [l|]; [|apply (calm_mono 0); [lia|apply calm_ret]].
  destruct (truthy_link l); [|apply (calm_mono 0); [lia|apply calm_ret]].
  apply (calm_try_catch 1 0).
  - apply (calm_bind 1 0); [apply calm_getBlock|]. intros [b|];
      [apply calm_gets|apply calm_ret].
  - intros e. apply (calm_bind 0 0); [apply calm_console_log|]. intros _. apply calm_ret.
Qed.

Lemma calm_searchBlocks blk : calm 2 (searchBlocks editor blk).
Proof.
  unfold searchBlocks.
  apply (calm_bind 0 2); [apply calm_gets|]. intros [v|];
    [apply (calm_mono 0); [lia|apply calm_ret]|].
  apply (calm_bind 1 1); [apply calm_searchLinked|]. intros [v|];
    [apply (calm_mono 0); [lia|apply calm_ret]|].
  apply (calm_bind 1 0); [apply calm_searchLinked|]. intros [v|]; apply calm_ret.
Qed.

(** What a run of [getVideoEl] leaves behind. *)
Lemma getVideoEl_effects uuid w :
  let w' := (getVideoEl editor uuid w).2 in
  world_frame w w' ∧
  (engine w' = engine w ∨ engine w' = returnFloatingVideo true (engine w)) ∧
  (apiCalls w < apiCalls w' ≤ apiCalls w + 5)%nat.
Proof.
  cbv zeta. unfold getVideoEl, mbind, Async_bind, bind.
  pose proof (calm_getBlock (LinkKey (KStr uuid)) w) as (F0 & E0 & L0 & U0).
  assert (apiCalls (getBlock editor (LinkKey (KStr uuid)) w).2 = S (apiCalls w)) as A0
    by (unfold getBlock; by destruct (editor _ _)).
  destruct (getBlock editor (LinkKey (KStr uuid)) w) as [[[blk|]|e] w0]; simpl in *.
  - pose proof (calm_relatedBlock [Block.uuid blk] (Block.left blk) w0)
      as (F1 & E1 & L1 & U1).
    destruct (relatedBlock editor [Block.uuid blk] (Block.left blk) w0)
      as [[b1|e] w1]; simpl in *.
    + pose proof (calm_relatedBlock b1 (Block.parent blk) w1) as (F2 & E2 & L2 & U2).
      destruct (relatedBlock editor b1 (Block.parent blk) w1) as [[b2|e] w2];
        simpl in *.
      * assert (world_frame w w2) as F by (do 2 (eapply world_frame_trans; [|done]); done).
        assert (engine w2 = engine w) as E by congruence.
        unfold gets. destruct (getFloatingVideo (engine w2)) as [fv|].
        -- destruct (existsb _ _); simpl.
           ++ split_and!; [done|by left|lia..].
           ++ unfold modify.
              pose proof (calm_searchBlocks blk
                            (set_engine (returnFloatingVideo true (engine w2)) w2))
                as (F3 & E3 & L3 & U3).
              destruct (searchBlocks editor blk _) as [r w3]; simpl in *.
              split_and!.
              ** eapply world_frame_trans; [exact F|].
                 eapply world_frame_trans; [|exact F3]. by apply world_frame_fields.
              ** right. congruence.
              ** lia.
              ** lia.
        -- pose proof (calm_searchBlocks blk w2) as (F3 & E3 & L3 & U3).
           destruct (searchBlocks editor blk w2) as [r w3]; simpl in *.
           split_and!; [by eapply world_frame_trans|left; congruence|lia..].
      * split_and!; [do 2 (eapply world_frame_trans; [|done]); done
                    |left; congruence|lia..].
    + split_and!; [by eapply world_frame_trans|left; congruence|lia..].
  - split_and!; [|by left|lia..].
    eapply world_frame_trans; [exact F0|].
    unfold world_frame. split_and!; try done. by eexists.
  - split_and!; [done|by left|lia..].
Qed.

Lemma locate_effects_frame uuid w :
  messages (getVideoEl editor uuid w).2 = messages w ∧
  inserted (getVideoEl editor uuid w).2 = inserted w.
Proof. by destruct (getVideoEl_effects uuid w) as ((? & ? & _) & _). Qed.
End Calm.

Section Throws.
Variable editor : nat → BlockLink → ApiReply.
Implicit Types (w : World) (s : State) (blk : Block.t).

Lemma getVideoEl_first_rejected uuid w e :
  editor (apiCalls w) (LinkKey (KStr uuid)) = Rejected e →
  getVideoEl editor uuid w = (Thrown e, advance 1 w).
Proof.
  intros H. unfold getVideoEl. by apply bind_thrown, getBlock_rejected.
Qed.

Lemma getVideoEl_not_found uuid w :
  editor (apiCalls w) (LinkKey (KStr uuid)) = Resolved None →
  getVideoEl editor uuid w
  = (Value None,
     set_console (console w ++ [("warn", "[mediatimestamp] Current block not found")])
       (advance 1 w)).
Proof.
  intros H. unfold getVideoEl.
  by rewrite (bind_value _ _ _ _ _ (getBlock_resolved _ _ _ _ H)).
Qed.

Lemma getVideoEl_parent_rejected uuid blk w :
  editor (apiCalls w) (LinkKey (KStr uuid)) = Resolved (Some blk) →
  rejects editor (S (apiCalls w)) (Block.left blk) = false →
  rejects editor (S (apiCalls w) + asks (Block.left blk)) (Block.parent blk) = true →
  ∃ e w', getVideoEl editor uuid w = (Thrown e, w').
Proof.
  intros Hb Hl Hp. unfold getVideoEl.
  rewrite (bind_value _ _ _ _ _ (getBlock_resolved _ _ _ _ Hb)).
  rewrite (bind_value _ _ _ _ _
             (relatedBlock_resolved editor [Block.uuid blk] (Block.left blk)
                (advance 1 w) Hl)).
  assert (apiCalls (advance (asks (Block.left blk)) (advance 1 w))
          = (S (apiCalls w) + asks (Block.left blk))%nat) as Ha
    by (rewrite !apiCalls_advance; lia).
  rewrite <- Ha in Hp.
  destruct (relatedBlock_rejected editor
              ([Block.uuid blk] ++
               option_list (Block.uuid <$>
                              linked editor (apiCalls (advance 1 w)) (Block.left blk)))
              (Block.parent blk) _ Hp) as (e & He).
  exists e. eexists. by rewrite (bind_thrown _ _ _ _ _ He).
Qed.

Lemma getVideoEl_returns uuid blk w :
  editor (apiCalls w) (LinkKey (KStr uuid)) = Resolved (Some blk) →
  rejects editor (S (apiCalls w)) (Block.left blk) = false →
  rejects editor (S (apiCalls w) + asks (Block.left blk)) (Block.parent blk) = false →
  ∃ r w', getVideoEl editor uuid w = (Value r, w').
Proof.
  intros Hb Hl Hp. rewrite (getVideoEl_unfold editor uuid blk w Hb Hl Hp). cbv zeta.
  destruct (getFloatingVideo (engine w)).
  - destruct (existsb _ _); [by eexists _, _|].
    destruct (searchBlocks_spec editor blk
                (set_engine (returnFloatingVideo true (engine w))
                   (advance (1 + asks (Block.left blk) + asks (Block.parent blk)) w)))
      as (w' & -> & _). by eexists _, _.
  - destruct (searchBlocks_spec editor blk
                (advance (1 + asks (Block.left blk) + asks (Block.parent blk)) w))
      as (w' & -> & _). by eexists _, _.
Qed.
End Throws.

Section PlainHosts.
Lemma tableHost_plain table :
  Forall (λ e : JsKey * Block.t, plain_uuid (Block.uuid e.2) = true) table →
  plain_host (tableHost table).
Proof.
  intros Hall n ref b. unfold tableHost. destruct ref as [k|o]; [|done].
  destruct (find _ table) as [e|] eqn:Hf; [|done]. intros [= <-].
  apply find_some in Hf as [Hin _]. apply list_elem_of_In in Hin.
  by apply (proj1 (Forall_forall _ _) Hall).
Qed.

Lemma rejectingHost_plain bad table :
  plain_host (tableHost table) → plain_host (rejectingHost bad table).
Proof.
  intros H n ref b. unfold rejectingHost. case_decide; [done|]. apply H.
Qed.

Lemma outlineBlocks_plain :
  Forall (λ e : JsKey * Block.t, plain_uuid (Block.uuid e.2) = true) outlineBlocks.
Proof. unfold outlineBlocks. cbv zeta. repeat constructor. Qed.
End PlainHosts.

(** X12. [getVideoEl] ends with an exception whenever the host rejects one
    of the three lookups it makes before the search: that of the block
    itself, or, once the block is found, that of its left sibling or of its
    parent. On a host whose blocks have plain uuids (letters, digits, hyphens
    and underscores, as the block API issues them), for which the selectors
    built from a uuid are well formed, these are its only exceptions: a
    lookup rejected during the search never makes it throw. *)
Theorem locate_throws_iff editor uuid w :
  let rejected :=
    (∃ e, editor (apiCalls w) (LinkKey (KStr uuid)) = Rejected e) ∨
    (∃ blk, editor (apiCalls w) (LinkKey (KStr uuid)) = Resolved (Some blk) ∧
            (rejects editor (S (apiCalls w)) (Block.left blk) = true ∨
             rejects editor (S (apiCalls w) + asks (Block.left blk)) (Block.parent blk)
             = true)) in
  (rejected → ∃ e w', getVideoEl editor uuid w = (Thrown e, w')) ∧
  (plain_host editor →
   (∃ e w', getVideoEl editor uuid w = (Thrown e, w')) → rejected).
Proof.
  intros rejected. unfold rejected. split.
  - intros [(e & He)|(blk & Hb & Hrej)].
    + exists e. eexists. by apply getVideoEl_first_rejected.
    + destruct (rejects editor (S (apiCalls w)) (Block.left blk)) eqn:Hl.
      * destruct (getVideoEl_left_rejected editor uuid blk w Hb Hl) as (e & He).
        by exists e, (advance 2 w).
      * destruct Hrej as [?|Hp]; [done|].
        by apply (getVideoEl_parent_rejected editor uuid blk w).
  - intros _ (e & w' & Ht).
    destruct (editor (apiCalls w) (LinkKey (KStr uuid))) as [[blk|]|e0] eqn:Hb.
    + right. exists blk. split; [done|].
      destruct (rejects editor (S (apiCalls w)) (Block.left blk)) eqn:Hl; [by left|].
      destruct (rejects editor (S (apiCalls w) + asks (Block.left blk))
                  (Block.parent blk)) eqn:Hp; [by right|].
      destruct (getVideoEl_returns editor uuid blk w Hb Hl Hp) as (r & w2 & Hr).
      congruence.
    + rewrite (getVideoEl_not_found editor uuid w Hb) in Ht. discriminate.
    + left. by exists e0.
Qed.

(** On the outline, for block [u5], with a host that rejects the lookup of
    its left sibling (database id 4): the locator throws, and the rejected
    lookup is found. *)
Lemma locate_throws_iff_witness :
  let host := rejectingHost (KNum 4) outlineBlocks in
  let w := freshWorld outlineLoaded in
  plain_host host ∧
  (getVideoEl host "u5" w).1 = Thrown "block lookup failed" ∧
  ∃ blk, host 0%nat (LinkKey (KStr "u5")) = Resolved (Some blk) ∧
         (rejects host 1 (Block.left blk) = true ∨
          rejects host (1 + asks (Block.left blk)) (Block.parent blk) = true).
Proof.
  intros host w.
  assert (plain_host host) as Hp
    by (apply rejectingHost_plain, tableHost_plain, outlineBlocks_plain).
  assert (∃ w', getVideoEl host "u5" w = (Thrown "block lookup failed", w')) as [w' Ht]
    by (eexists; vm_compute; reflexivity).
  split; [exact Hp|]. split; [by rewrite Ht|].
  destruct (locate_throws_iff host "u5" w) as [_ H].
  destruct (H Hp) as [(e & He)|Hr].
  - by exists "block lookup failed", w'.
  - exfalso. revert He. vm_compute. discriminate.
  - exact Hr.
Defined.

(** X13. A run of [getVideoEl] makes at least one and at most five calls of
    the block API; it shows no message, inserts no text and registers no UI
    or model, and it only appends to the console. It leaves the engine as it
    is, or as [returnFloatingVideo] leaves it; with no video floating the
    engine is untouched. *)
Theorem locate_effects editor uuid w :
  let w' := (getVideoEl editor uuid w).2 in
  (apiCalls w < apiCalls w' ≤ apiCalls w + 5)%nat ∧
  messages w' = messages w ∧ inserted w' = inserted w ∧
  provided w' = provided w ∧ models w' = models w ∧
  (∃ l, console w' = console w ++ l) ∧
  (engine w' = engine w ∨ engine w' = returnFloatingVideo true (engine w)) ∧
  (getFloatingVideo (engine w) = None → engine w' = engine w).
Proof.
  intros w'.
  destruct (getVideoEl_effects editor uuid w) as ((Hm & Hi & Hp & Hmo & Hc) & He & Hl & Hu).
  fold w' in Hm, Hi, Hp, Hmo, Hc, He, Hl, Hu. split_and!; try done.
  intros Hfv. destruct He as [?|He]; [done|]. rewrite He.
  unfold getFloatingVideo in Hfv. unfold returnFloatingVideo.
  destruct (videoState (engine w)); [|done]. by destruct (isFloating (engine w)).
Qed.

Section SlashCommand.
Variable editor : nat → BlockLink → ApiReply.

Lemma insertTimestamp_none uuid w w1 :
  getVideoEl editor uuid w = (Value None, w1) →
  insertTimestamp editor uuid w
  = (Value tt,
     set_messages (messages w1 ++ [("No video found in current, sibling or parent block",
                                    "warning")]) w1).
Proof.
  intros Hv. unfold insertTimestamp, try_catch.
  by rewrite (bind_value _ _ _ _ _ Hv).
Qed.

Lemma insertTimestamp_thrown uuid w e w1 :
  getVideoEl editor uuid w = (Thrown e, w1) →
  insertTimestamp editor uuid w
  = (Value tt,
     set_messages (messages w1 ++ [("Error inserting timestamp. Check console.", "error")])
       (set_console (console w1 ++ [("error", "[mediatimestamp] Error in slash command")])
          w1)).
Proof.
  intros Hv. unfold insertTimestamp, try_catch.
  by rewrite (bind_thrown _ _ _ _ _ Hv).
Qed.

Lemma insertTimestamp_some uuid w v w1 :
  getVideoEl editor uuid w = (Value (Some v), w1) →
  insertTimestamp editor uuid w
  = (Value tt,
     set_inserted
       (inserted w1 ++
        ["{{renderer :mediatimestamp_" +:+ uuid +:+ ", "
         +:+ string_of_number
               (from_option currentTime (number_of_Z 0) (dom (engine w1) !! v))
         +:+ "}}"]) w1).
Proof.
  intros Hv. unfold insertTimestamp, try_catch.
  rewrite (bind_value _ _ _ _ _ Hv).
  by rewrite (bind_value _ _ w1
                (from_option currentTime (number_of_Z 0) (dom (engine w1) !! v)) w1).
Qed.
End SlashCommand.

(** X14. On a host whose blocks have plain uuids, the slash command never
    ends with an exception, and it does exactly one of three things. When
    the locator returns a video it inserts
    exactly one text and shows nothing; for a [currentTime] that is printed
    in plain decimal notation the text is the macro built from the block's
    uuid and that time. When the locator returns null it inserts nothing and
    shows the warning. When the locator throws it inserts nothing, logs the
    error and shows the error message. *)
Theorem insertTimestamp_outcome editor uuid w :
  plain_host editor →
  ∃ w', insertTimestamp editor uuid w = (Value tt, w') ∧
  match (getVideoEl editor uuid w).1 with
  | Value (Some v) =>
      messages w' = messages w ∧
      ∃ text,
        inserted w' = inserted w ++ [text] ∧
        ∀ t, currentTime <$> dom (engine w') !! v = Some t →
             plain_decimal t = true →
             text = "{{renderer :mediatimestamp_" +:+ uuid +:+ ", "
                    +:+ string_of_number t +:+ "}}"
  | Value None =>
      inserted w' = inserted w ∧
      messages w'
      = messages w ++ [("No video found in current, sibling or parent block", "warning")]
  | Thrown _ =>
      inserted w' = inserted w ∧
      messages w'
      = messages w ++ [("Error inserting timestamp. Check console.", "error")] ∧
      last (console w') = Some ("error", "[mediatimestamp] Error in slash command")
  end.
Proof.
  intros _. pose proof (locate_effects_frame editor uuid w) as (Hm & Hi).
  destruct (getVideoEl editor uuid w) as [[[v|]|e] w1] eqn:Hv; simpl in Hm, Hi.
  - rewrite (insertTimestamp_some editor uuid w v w1 Hv). eexists. split; [done|].
    cbn [fst messages inserted engine set_inserted]. rewrite Hi, Hm.
    split; [done|]. eexists. split; [done|].
    intros t Ht _. by destruct (dom (engine w1) !! v) as [x|]; simplify_eq/=.
  - rewrite (insertTimestamp_none editor uuid w w1 Hv). eexists. split; [done|].
    simpl. by rewrite Hi, Hm.
  - rewrite (insertTimestamp_thrown editor uuid w e w1 Hv). eexists. split; [done|].
    simpl. rewrite Hi, Hm. split_and!; [done..|]. by rewrite last_snoc.
Qed.

(** On the outline, for block [u1], whose video is at time 0. *)
Lemma insertTimestamp_outcome_witness :
  let w := freshWorld outlineLoaded in
  plain_host outlineHost ∧
  (getVideoEl outlineHost "u1" w).1 = Value (Some 2%nat) ∧
  plain_decimal (number_of_Z 0) = true ∧
  inserted (insertTimestamp outlineHost "u1" w).2
  = ["{{renderer :mediatimestamp_u1, 0}}"].
Proof.
  intros w.
  assert ((getVideoEl outlineHost "u1" w).1 = Value (Some 2%nat)) as Hloc
    by (vm_compute; reflexivity).
  assert (plain_host outlineHost) as Hp
    by (apply tableHost_plain, outlineBlocks_plain).
  split; [exact Hp|]. split; [exact Hloc|]. split; [reflexivity|].
  destruct (insertTimestamp_outcome outlineHost "u1" w Hp) as (w' & Hrun & H).
  rewrite Hloc in H. destruct H as (_ & text & Hins & Htext).
  assert (w' = (insertTimestamp outlineHost "u1" w).2) as Hw' by (by rewrite Hrun).
  rewrite <- Hw', Hins.
  rewrite (Htext (number_of_Z 0)); [reflexivity| |reflexivity].
  rewrite Hw'. vm_compute. reflexivity.
Defined.

Section Located.
Variable editor : nat → BlockLink → ApiReply.




End Located.



Section ClickHandler.
Variable editor : nat → BlockLink → ApiReply.

Lemma mediaClick_thrown m w e w1 :
  getVideoEl editor (model_uuid m) w = (Thrown e, w1) →
  mediaClick editor m w = (Thrown e, w1).
Proof. intros Hv. unfold mediaClick. by rewrite (bind_thrown _ _ _ _ _ Hv). Qed.

Lemma mediaClick_refused m w r w1 :
  getVideoEl editor (model_uuid m) w = (Value r, w1) →
  r = None ∨ model_time m = None ∨ model_time m = Some "" →
  mediaClick editor m w
  = (Value tt,
     set_messages (messages w1 ++ [("Unable to get obtain video element", "error")]) w1).
Proof.
  intros Hv Hc. unfold mediaClick. rewrite (bind_value _ _ _ _ _ Hv).
  destruct r as [v|]; [|done].
  destruct Hc as [?|[->| ->]]; [done..|]. by rewrite bool_decide_eq_true_2.
Qed.

Lemma set_dom_with_dom f g s :
  set_dom (dom s) (with_dom f (with_dom g s)) = s.
Proof. by destruct s. Qed.
End ClickHandler.

(** X16. On a host whose blocks have plain uuids, the click handler of a
    timestamp button first runs the locator. If the locator throws, so does
    the handler. If the locator returns null, or
    the macro has no time argument or an empty one, the handler shows the
    error message and changes nothing else. Otherwise, for a time argument
    that [parseInt] reads as an integer between 0 and 2^53 from ASCII text,
    it shows no message and writes only the located video: it assigns that
    integer to [currentTime], 0 when [parseInt] reads none, and the video
    plays. The handler never inserts text and never provides UI. *)
Theorem mediaClick_outcome editor m w :
  plain_host editor →
  let located := getVideoEl editor (model_uuid m) w in
  let clicked := mediaClick editor m w in
  let refused :=
    clicked
    = (Value tt,
       set_messages
         (messages located.2 ++ [("Unable to get obtain video element", "error")])
         located.2) ∧
    messages located.2 = messages w in
  inserted clicked.2 = inserted w ∧ provided clicked.2 = provided w ∧
  match located.1 with
  | Thrown e => clicked = (Thrown e, located.2)
  | Value videoEl =>
      match videoEl, model_time m with
      | Some v, Some time =>
          if decide (time = "") then refused
          else
            exact_time time = true →
            clicked.1 = Value tt ∧
            messages clicked.2 = messages w ∧
            set_dom (dom (engine located.2)) (engine clicked.2) = engine located.2 ∧
            (∀ n, n ≠ v → dom (engine clicked.2) !! n = dom (engine located.2) !! n) ∧
            dom (engine clicked.2) !! v
            = (λ x, set_paused false
                      (set_currentTime
                         (number_of_Z (from_option id 0 (parseInt time))) x))
              <$> dom (engine located.2) !! v
      | _, _ => refused
      end
  end.
Proof.
  intros _ located clicked refused. unfold refused, located, clicked.
  destruct (getVideoEl_effects editor (model_uuid m) w)
    as ((Hm & Hi & Hp & _) & _).
  destruct (getVideoEl editor (model_uuid m) w) as [[r|e] w1] eqn:Hv;
    cbn [fst snd] in *.
  2: { rewrite (mediaClick_thrown editor m w e w1 Hv). by split_and!. }
  destruct r as [v|].
  2: { rewrite (mediaClick_refused editor m w None w1 Hv) by by left.
       by split_and!. }
  destruct (model_time m) as [time|] eqn:Ht.
  2: { rewrite (mediaClick_refused editor m w (Some v) w1 Hv) by (right; by left).
       by split_and!. }
  destruct (decide (time = "")) as [->|Hne].
  { rewrite (mediaClick_refused editor m w (Some v) w1 Hv) by (right; by right).
    by split_and!. }
  assert (mediaClick editor m w
          = (Value tt,
             set_engine
               (with_dom (update v (set_paused false))
                  (with_dom (update v (set_currentTime (number_of_Z (parseInt_or_0 time))))
                     (engine w1))) w1)) as ->.
  { destruct m as [u mt]. cbn [model_uuid model_time] in *. subst mt.
    by apply mediaClick_found. }
  cbn [fst snd inserted provided messages engine set_engine].
  split; [done|]. split; [done|]. intros _.
  split_and!; try done.
  - apply set_dom_with_dom.
  - intros n Hn. cbn [dom with_dom set_dom]. rewrite !lookup_update.
    by rewrite !decide_False.
  - cbn [dom with_dom set_dom]. rewrite !lookup_update, !decide_True by done.
    unfold parseInt_or_0. destruct (dom (engine w1) !! v); [|done].
    by destruct (parseInt time).
Qed.

(** On the outline, for the macro of block [u4] with the time [42]: the
    video of the block (node 9) is set to 42 seconds and plays. *)
Lemma mediaClick_outcome_witness :
  let w := freshWorld outlineLoaded in
  let m := mkClickModel "u4" (Some "42") in
  plain_host outlineHost ∧
  (getVideoEl outlineHost "u4" w).1 = Value (Some 9%nat) ∧
  exact_time "42" = true ∧
  (mediaClick outlineHost m w).1 = Value tt ∧
  (λ x, (paused x, currentTime x)) <$> dom (engine (mediaClick outlineHost m w).2) !! 9%nat
  = Some (false, number_of_Z 42).
Proof.
  intros w m.
  assert ((getVideoEl outlineHost "u4" w).1 = Value (Some 9%nat)) as Hloc
    by (vm_compute; reflexivity).
  assert (exact_time "42" = true) as Hex by (vm_compute; reflexivity).
  assert (plain_host outlineHost) as Hp
    by (apply tableHost_plain, outlineBlocks_plain).
  split; [exact Hp|]. split; [exact Hloc|]. split; [exact Hex|].
  pose proof (mediaClick_outcome outlineHost m w Hp) as H. cbv zeta in H.
  destruct H as (_ & _ & H).
  change (model_uuid m) with "u4" in H. rewrite Hloc in H.
  change (model_time m) with (Some "42") in H. cbv beta iota in H.
  rewrite decide_False in H by done.
  destruct (H Hex) as (Hv & _ & _ & _ & Hn).
  split; [exact Hv|]. vm_compute. reflexivity.
Defined.

(** X17. The macro renderer never throws. It ignores a macro whose first
    argument does not start with [:mediatimestamp_]; for one that does it
    registers the click handler under [mediaclick_<uuid>_<slot>], whatever
    the time argument, and it provides a button, under the key
    [mediatimestamp_<uuid>_<slot>] in the macro's slot, exactly when the time
    argument is present and not empty. *)
Theorem renderer_outcome slotId uuid args w :
  let w' := (onMacroRendererSlotted slotId uuid args w).2 in
  let ours := ∃ type, args !! 0%nat = Some type ∧
                      String.prefix ":mediatimestamp_" type = true in
  let timed := ∃ time, args !! 1%nat = Some time ∧ time ≠ "" in
  (onMacroRendererSlotted slotId uuid args w).1 = Value tt ∧
  (¬ ours → w' = w) ∧
  (ours →
     models w'
     = models w ++ [("mediaclick_" +:+ uuid +:+ "_" +:+ slotId,
                     mkClickModel uuid (args !! 1%nat))] ∧
     messages w' = messages w ∧ inserted w' = inserted w ∧
     engine w' = engine w ∧ console w' = console w ∧
     (¬ timed → provided w' = provided w) ∧
     (timed → ∃ ui, provided w' = provided w ++ [ui] ∧
                    key ui = "mediatimestamp_" +:+ uuid +:+ "_" +:+ slotId ∧
                    slot ui = slotId ∧ reset ui = true)).
Proof.
  intros w' ours timed. unfold w', onMacroRendererSlotted.
  destruct (args !! 0%nat) as [type|] eqn:Hty.
  2: { split_and!; [done|done|]. by intros (? & ? & _). }
  destruct (String.prefix ":mediatimestamp_" type) eqn:Hpre; cbn [negb].
  2: { split_and!; [done|done|]. intros (? & [= <-] & ?). congruence. }
  split_and!.
  - unfold bind. destruct (args !! 1%nat) as [t|]; [|done].
    by destruct (bool_decide (t = "")).
  - intros Hn. destruct Hn. by exists type.
  - intros _. unfold bind. cbn [fst snd].
    destruct (args !! 1%nat) as [t|] eqn:Ht.
    + destruct (decide (t = "")) as [->|Hne].
      * rewrite bool_decide_eq_true_2 by done. split_and!; try done.
        intros (? & [= <-] & ?). done.
      * rewrite bool_decide_eq_false_2 by done. split_and!; try done.
        -- intros Hn. destruct Hn. by exists t.
        -- intros _. by eexists.
    + split_and!; try done. by intros (? & ? & _).
Qed.

Ltac eval_digit :=
  match goal with
  | |- context [digit_value 10 ?c] =>
      let v := eval vm_compute in (digit_value 10 c) in
      change (digit_value 10 c) with v
  end.

Section Digits.
Implicit Types (d : Decimal.uint) (r : string).

Lemma append_String c s r : String c s +:+ r = String c (s +:+ r).
Proof. done. Qed.

Lemma append_empty s : s +:+ "" = s.
Proof. induction s as [|c s IH]; [done|]. by rewrite append_String, IH. Qed.

Lemma digits_prefix_end acc r :
  ends_digits r → digits_prefix 10 acc r = acc.
Proof. by intros [->|(r' & ->)]. Qed.

Lemma digits_prefix_acc d (a : positive) r :
  ends_digits r →
  digits_prefix 10 (Some (Z.pos a)) (NilEmpty.string_of_uint d +:+ r)
  = Some (Z.pos (Pos.of_uint_acc d a)).
Proof.
  intros Hr. revert a.
  induction d as [|d IH|d IH|d IH|d IH|d IH|d IH|d IH|d IH|d IH|d IH]; intros a;
    [by apply digits_prefix_end|..];
    (cbn [NilEmpty.string_of_uint]; rewrite append_String; cbn [digits_prefix]; eval_digit;
     cbn [from_option id Pos.of_uint_acc]; rewrite <- IH; f_equal; f_equal; lia).
Qed.

Lemma digits_prefix_zero d r :
  ends_digits r →
  digits_prefix 10 (Some 0) (NilEmpty.string_of_uint d +:+ r)
  = Some (Z.of_N (Pos.of_uint d)).
Proof.
  intros Hr.
  induction d as [|d IH|d IH|d IH|d IH|d IH|d IH|d IH|d IH|d IH|d IH];
    [by apply digits_prefix_end|exact IH|..];
    (cbn [NilEmpty.string_of_uint]; rewrite append_String; cbn [digits_prefix]; eval_digit;
     cbn [from_option id Pos.of_uint]; rewrite Z.mul_0_l, Z.add_0_l;
     by rewrite digits_prefix_acc).
Qed.

Lemma unorm_D0 d d' : Decimal.unorm d = Decimal.D0 d' → d' = Decimal.Nil.
Proof. induction d; simpl; try done. by intros [= <-]. Qed.

Lemma to_uint_head (p : positive) :
  ∀ d', Pos.to_uint p ≠ Decimal.D0 d'.
Proof.
  intros d' H.
  pose proof (DecimalPos.Unsigned.to_of (Pos.to_uint p)) as Hn.
  rewrite DecimalPos.Unsigned.of_to in Hn. simpl in Hn.
  rewrite H in Hn. symmetry in Hn. cbn [Decimal.unorm] in Hn.
  assert (Decimal.unorm (Decimal.D0 d') = Decimal.D0 d') as Hu by done.
  apply unorm_D0 in Hu as ->. by apply (DecimalPos.Unsigned.to_uint_nonzero p).
Qed.

(** [parseInt] reads the whole seconds off a printed number. *)
Lemma parseInt_whole (n : Z) r :
  (0 ≤ n)%Z → ends_digits r →
  parseInt (string_of_Z n +:+ r) = Some n.
Proof.
  intros Hn Hr. destruct n as [|p|p]; [|clear Hn|lia].
  - by destruct Hr as [->|(r' & ->)].
  - unfold string_of_Z. cbn [Z.to_int NilZero.string_of_int].
    pose proof (DecimalPos.Unsigned.of_to p) as Hp.
    pose proof (to_uint_head p) as Hh.
    destruct (Pos.to_uint p) as [|d|d|d|d|d|d|d|d|d|d];
      [done|by destruct (Hh d)|..];
      (unfold parseInt;
       change (NilZero.string_of_uint (?D d)) with (NilEmpty.string_of_uint (D d));
       cbn [NilEmpty.string_of_uint]; rewrite append_String;
       match goal with
       | |- context [String ?c (NilEmpty.string_of_uint d +:+ r)] =>
           change ((λ k : Z, 1 * k)%Z <$>
                   digits_prefix 10 None (String c (NilEmpty.string_of_uint d +:+ r))
                   = Some (Z.pos p))
       end;
       cbn [digits_prefix]; eval_digit;
       cbn [from_option id]; rewrite Z.mul_0_l, Z.add_0_l;
       rewrite digits_prefix_acc by done; cbn [fmap option_fmap option_map];
       cbn [Pos.of_uint] in Hp; f_equal; lia).
Qed.

Lemma string_of_number_whole (t : JsNumber) :
  ∃ r, string_of_number t = string_of_Z (whole t) +:+ r ∧ ends_digits r.
Proof.
  unfold string_of_number. destruct (fraction t) eqn:Hf;
    [exists ""; split; [by rewrite append_empty|by left]|..];
    (eexists; split; [reflexivity|right; by eexists]).
Qed.

Lemma string_of_Z_nonempty (n : Z) r : (0 ≤ n)%Z → string_of_Z n +:+ r ≠ "".
Proof.
  intros Hn. destruct n as [|p|p]; [done| |lia].
  unfold string_of_Z. cbn [Z.to_int NilZero.string_of_int].
  pose proof (DecimalPos.Unsigned.to_uint_nonnil p).
  by destruct (Pos.to_uint p).
Qed.
End Digits.

(** X18. For a playback time [t] that is printed in plain decimal notation,
    [parseInt] reads the whole seconds of [t] off the printed time. So for the
    arguments of the macro that the slash command inserts for [t], the
    renderer's button is labelled [Timestamp: <whole seconds>s], and a click
    that locates a video sets its [currentTime] to the whole seconds of [t]
    and plays it. *)
Theorem timestamp_whole_seconds t :
  plain_decimal t = true →
  parseInt (string_of_number t) = Some (whole t) ∧
  (∀ slotId uuid w,
     let id := "mediatimestamp_" +:+ uuid +:+ "_" +:+ slotId in
     let clickHandlerId := "mediaclick_" +:+ uuid +:+ "_" +:+ slotId in
     ∃ w',
       onMacroRendererSlotted slotId uuid
         [":mediatimestamp_" +:+ uuid; string_of_number t] w = (Value tt, w') ∧
       provided w'
       = provided w ++
         [mkUi id slotId true
            ("<button id=" +:+ dquote +:+ id +:+ dquote
             +:+ " class=" +:+ dquote +:+ "logseq-mediatimestamp-plugin"
             +:+ dquote +:+ " data-on-click=" +:+ dquote
             +:+ clickHandlerId +:+ dquote +:+ ">Timestamp: "
             +:+ string_of_Z (whole t) +:+ "s</button>")]) ∧
  (∀ editor uuid w v w1 y,
     getVideoEl editor uuid w = (Value (Some v), w1) →
     dom (engine w1) !! v = Some y →
     ∃ w2,
       mediaClick editor (mkClickModel uuid (Some (string_of_number t))) w
       = (Value tt, w2) ∧
       dom (engine w2) !! v
       = Some (set_paused false (set_currentTime (number_of_Z (whole t)) y))).
Proof.
  intros Hpl.
  assert (0 ≤ whole t)%Z as H0.
  { unfold plain_decimal in Hpl.
    apply andb_true_iff in Hpl as [Hpl _]. apply andb_true_iff in Hpl as [Hpl _].
    by apply Z.leb_le. }
  destruct (string_of_number_whole t) as (r & Hs & Hr).
  assert (parseInt (string_of_number t) = Some (whole t)) as Hparse
    by (rewrite Hs; by apply parseInt_whole).
  assert (string_of_number t ≠ "") as Hne
    by (rewrite Hs; by apply string_of_Z_nonempty).
  split_and!; [done| |].
  - intros slotId uuid w id clickHandlerId. unfold onMacroRendererSlotted.
    cbn [lookup list_lookup].
    assert (String.prefix ":mediatimestamp_" (":mediatimestamp_" +:+ uuid) = true)
      as -> by (cbn; by destruct uuid).
    cbn [negb]. rewrite bool_decide_eq_false_2 by done.
    eexists. split; [reflexivity|].
    cbn [provided set_provided set_models]. by rewrite Hparse.
  - intros editor uuid w v w1 y Hv Hy.
    eexists. split; [by apply mediaClick_found|].
    cbn [engine set_engine dom with_dom set_dom].
    unfold parseInt_or_0. rewrite Hparse.
    rewrite !lookup_update, !decide_True by done. by rewrite Hy.
Qed.

(** For the time 3723.25: the printed time is [3723.25] and [parseInt]
    reads 3723. *)
Lemma timestamp_whole_seconds_witness :
  let t := mkNumber 3723 (Decimal.D2 (Decimal.D5 Decimal.Nil)) in
  plain_decimal t = true ∧ string_of_number t = "3723.25" ∧
  parseInt "3723.25" = Some 3723%Z.
Proof.
  intros t.
  assert (plain_decimal t = true) as Hpl by (vm_compute; reflexivity).
  split; [exact Hpl|]. split; [vm_compute; reflexivity|].
  destruct (timestamp_whole_seconds t Hpl) as (H & _). exact H.
Defined.
